(* ===== verification/_CoqProject ===== *)
-Q . S2P
Prelude.v
Types.v
Book.v
BookInv.v
BookSpec.v
BookRefine.v
BookProps.v
Accounts.v
AccountsInv.v
AccountsSolv.v
AccountsProps.v
WalRecord.v
Sequencer.v
SeqFacts.v
SeqProps.v
VenueFacts.v
Venue.v
BookCount.v
VenueProps.v
SeqRun.v
MutexBook.v
Bytes.v
WalFormat.v
WalRead.v
SegNames.v
Wal.v
WalDir.v
WalInv.v
WalLaw.v
WalStep.v
WalRecover.v
WalProps.v
WalClose.v
Tail.v
TailFacts.v
TailProps.v
Registry.v
RegistryFacts.v
RegistryProps.v
VenueFlow.v
Status.v
Messages.v
BookTime.v
Replication.v
ReplicationProps.v
Replica.v
ReplicaFacts.v
ReplicaProps.v
LogGrow.v
Ledger.v
LedgerFacts.v
LedgerRead.v
LedgerProps.v
Migrations.v
Feed.v
Rand.v
Bench.v
BenchProps.v
Server.v
ServerFacts.v
ServerProps.v
Typed.v
TypedLog.v
TypedVenue.v
Failover.v
Cluster.v
Rotation.v
Follower.v
Metrics.v
Observer.v
ObserverProps.v
Handlers.v
HandlersProps.v
Node.v
NodeProps.v
NodeLife.v
Shutdown.v
NodeRun.v
Loadgen.v
LoadgenProps.v
