(* ===== verification/Prelude.v ===== *)
(** * The Dhukuti OMS: a verification development

    The program is an order-matching venue written in Go. A client's order enters
    through gRPC, is checked, and is handed to the one goroutine that owns its
    symbol's book. That goroutine collects requests into a batch, reserves what
    each order could cost, writes the batch to a write-ahead log, makes it durable
    with one fsync, and only then matches it and settles the trades in memory.
    Executed trades are posted to a double-entry journal in Postgres and shown to
    live subscribers; followers stream the log and keep books of their own. This
    library models those parts as executable functions and proves what each
    promises and that they keep their promises together.

    ** Parts, sources and files

    - Machine integers, outcomes of Go code, sums over maps: this file.
    - Domain types ([internal/oms/types.go]): [Types].
    - Order book and matching ([internal/oms/book.go]): [Book], with its pointers
      as a heap; [BookInv] is the invariant, [BookSpec] an abstract book of two
      lists, [BookRefine] the refinement, [BookProps] the properties, [BookTime] the
      fact that time stamps do not influence matching, [BookCount] counts. The
      mutex-guarded book ([internal/oms/book_mutex.go]): [MutexBook], with the interface
      [OrderBook] of [types.go] as a class.
    - Account store ([internal/oms/accounts.go]): [Accounts]; [AccountsInv] the
      reservation invariant, [AccountsSolv] solvency, [AccountsProps] the properties.
    - Sequencer ([internal/oms/sequencer.go]): [Sequencer], over any log writer that
      has the operations [WalOps] of [WalRecord]; [SeqFacts] and [SeqProps] prove its
      promises for any writer that satisfies the laws [WalLaws]; [SeqRun] is its
      goroutine's loop.
    - Book and store together: [VenueFacts], [Venue], [VenueProps].
    - Write-ahead log ([internal/oms/wal.go]): [Bytes] (little-endian integers and
      CRC-32), [WalFormat] (records and segments as bytes, and reading them),
      [SegNames] (file names), [Wal] (directories, system calls, the writer,
      recovery). [WalRead], [WalDir], [WalInv], [WalLaw], [WalStep] and [WalRecover]
      prove that this writer satisfies [WalLaws] and what recovery finds after a
      crash; [WalProps] states it, and [WalClose] what closing leaves.
    - Tailer ([internal/oms/tail.go]): [Tail], [TailFacts], [TailProps].
    - Registry ([internal/oms/registry.go]): [Registry], [RegistryFacts] and
      [RegistryProps], where the state is the whole venue: every symbol's sequencer,
      the shared account store and the directories. [VenueFlow] follows its balances.
    - Replication ([internal/api/replication.go]): [Messages] (the wire),
      [Replication], [ReplicationProps]. The follower
      ([internal/replica/replica.go]): [Replica], [ReplicaFacts], [ReplicaProps].
    - Ledger ([internal/ledger/ledger.go] and its migration): [Ledger],
      [LedgerFacts], [LedgerRead], [LedgerProps]; schema migrations: [Migrations].
    - Trade feed ([internal/api/feed.go]): [Feed].
    - Order service ([internal/api/server.go]): [Status] (error codes and labels),
      [Server], [ServerFacts], [ServerProps].
    - The same handlers in pieces, many of them at once: [Handlers], [HandlersProps].
    - What the types promise, along whole runs: [Typed], [TypedLog], [TypedVenue].
    - A node ([cmd/server/main.go]): [Node] starts it, [NodeProps] and [NodeLife] follow
      it over a crash, [Shutdown] stops its sequencers and registry, [NodeRun] is all of
      [run] with every step that can refuse, tracing ([internal/tracing])
      among them. Promotion of a follower, the procedure of
      [docs/failover.md]: [Failover].
    - A primary and a follower of one symbol as one transition system: [LogGrow] (how a
      log grows under those who read it), [Cluster] (the steps of the two processes and
      what relates their states), [Rotation] (a poll inside a rotation). The follower's
      own process ([cmd/follower/main.go]), its reports and its stop: [Follower].
    - Metrics ([internal/metrics/metrics.go] and the observer of [server.go]):
      [Metrics], [Observer] (the handlers with what they observe), [ObserverProps].
    - The benchmark ([cmd/bench/main.go]): [Bench], [BenchProps]; the load generator
      ([cmd/loadgen/main.go]): [Loadgen], [LoadgenProps]; their random numbers: [Rand].

    ** How the model reads

    A definition has the name of the Go function or method it translates; a second
    one of the same name takes a prefix ([Registry_Close], [replica_Symbols],
    [ledger_Balance]). A method is a function from its receiver's state to the state
    and the result; a loop is a recursive function with the loop's name; a struct
    is a record. An [int64] is a [Z] and its arithmetic wraps ([add64], [sub64],
    [mul64]). A Go [error] is a value of [oms_error], [wire_error], [ledger_error] or
    a gRPC code; code that may panic returns an [outcome], so that a theorem
    that something equals [Ok _] says that it neither panics nor fails to end.

    Concurrency is in the order of steps. Methods under a mutex are one step. A
    sequencer's goroutine is a sequence of [commit]s, and what a batch contains is
    arbitrary; a request's [fate] says in which batch it was committed, or that
    it never was, or that its caller left. [Get_with] and the tailer take what others
    do in between as an argument. In [Handlers] a call is a stage in a table, and
    [process] of [HandlersProps] is every interleaving of the calls' steps with those of
    the sequencers. [MutexBook] does the same for a lock and shows that the methods
    under it are one step each.

    Failure is in the arguments too. A directory carries a [script] of what its
    next system calls do, including writing a part; a [crashed] directory keeps
    every synced byte and linked name and any part of the others. The ledger's
    database calls answer as a list says, and a failed commit may have taken effect.
    A stream's sends and a follower's session end where a list says.

    ** What the theorems show

    - The book: matching on the pointer structure terminates and computes the
      two-list specification ([submit_refines], [cancel_refines]), from which price-time
      priority, sound trades, conservation of quantity and consistency follow.
    - The store: reserved amounts are exactly the live holds; settlement moves exactly
      what traded and conserves cash and shares; accepted orders are affordable.
    - Durability: a reply without an error is in the durable log
      ([acknowledged_is_durable]); a restart after a crash rebuilds the very book
      and position ([restart_exact]); damage is detected and torn tails are not
      damage; a failed log stops the symbol cleanly.
    - The venue: across symbols, restarts and failures, the holds are exactly the
      resting orders ([venue_consistent], [restart_restores_holds]), and accounts
      whose orders are priced stay solvent.
    - Replication: a tailer and a stream deliver every record exactly once and in
      order; a follower mirrors the log, shows the primary's depth, and restarts where
      it was, also after a stop ([follower_stop_keeps]); the lag reported is never too
      small ([lag_never_understated]).
    - The two nodes together: however the steps of both interleave, crashes of both
      included, a follower that its primary has not fallen behind is the primary at an
      earlier position ([follower_is_earlier_primary]); the sequencer's commits and the
      sessions of a stream are such steps ([commit_is_primary_steps],
      [session_is_steps]). Reading only synced data, as the design
      says, would make that so without a condition ([synced_polls_never_diverge]); the code
      does not, and a power failure can set the two apart unnoticed
      ([unsynced_poll_diverges]). A poll in the middle of a rotation ends the symbol's
      replication ([rotation_stops_replication]).
    - Settlement: a trade is journalled once, all legs or none, the journal balances
      and is the account store's durable twin; migrations run once and in order.
      However calls interleave, each trade is journalled, still held by a call,
      unheard of or refused ([trades_accounted]); a caller that leaves makes the third
      of these happen ([hang_up_unsettled]).
    - The types: orders, trades, records, holds and replies stay in the ranges they
      promise over crashes and restarts, and trade identities are never reused
      ([venue_typed]).
    - The node: requests are served once and in order ([run_serves_in_order]); a
      stopping sequencer answers everyone ([sequencer_stops]); a node stopped, failed
      or crashed is followed by one that has everything back but what was never
      settled ([node_lives], [crash_costs_unsettled], [graceful_restart_exact]).
    - Failover: a follower that is not behind takes over exactly ([promotion_exact]);
      one that is behind makes later settlements vanish
      ([lagging_promotion_unsettled]).
    - Metrics: observing changes nothing and counts exactly ([metrics_count],
      [scrape_reads_venue]); what the gauges and labels get wrong
      ([restart_blanks_gauges], [series_unbounded]).
    - The load programs: the benchmark stays in its bands and does not grow its book
      ([bench_bounded]); the load generator sends lawful requests and reports what it
      measured ([loadgen_lawful]).
    - The API: validation is exact; no request takes the venue out of its invariant;
      an accepted one is durable as requested; the feed's gaps are counted.

    ** Interfaces

    [WalOps] and [WalLaws] are what the sequencer and the follower need of a log. The
    writer of [Wal] implements them ([Writer_laws]), as does the in-memory log of
    [SeqProps] with which the theorems are tried. [PayloadCodec] is JSON encoding of a
    record's payload, which is the Go library's; [CodecLaws] says that what it
    accepts reads back when its text and times are representable, and
    [WalProps.StoreDemo] instantiates it with a concrete encoding. [OrderBook] and
    [OrderBookLaws] have two implementations, the book and the guarded book. Prometheus'
    counter and histogram families are [Counters] and [Histograms] with the laws
    [CounterLaws] and [HistogramLaws], tried with the maps of [ObserverProps.PromDemo];
    [math/rand] is [RandSource] with [RandLaws], tried with [RandDemo].

    ** Bounds

    Loops that are not structural have fuel that a theorem shows to be enough:
    [match_fuel], the resting orders and one more, since each turn consumes an order
    or ends; [poll_fuel], what is asked for and the segments there are; [write_fuel],
    two, since a buffered write fills the buffer at most once; [sort.Search] runs for
    the ladder's length. Identifiers and log positions are assumed not to have used up
    63 bits ([batch_ok]); balances are not bounded, and sums of them are
    stated up to [eq64], equality of 64-bit integers, unless solvency makes them exact.

    The percentiles of [Loadgen] are computed in [float64] as the language defines it,
    with the Standard Library's [SpecFloat]; the index is shown to be in range for
    fewer than 2^61 latencies.

    ** Not modelled

    Spans, logging, flag parsing, sockets, timers, histogram buckets and the metrics endpoint's
    HTTP server are left out. Generated protobuf code is taken as the messages [oms.proto] declares, gRPC
    transport as which messages arrive. Postgres is taken at what the SQL in the source
    says: a unique key, a check, transactions; what a migration's statements do is not
    interpreted. Errors when reading a log file, other than its end, are not modelled. A
    follower's timers decide only when the modelled steps run. In [Cluster] writes that
    return succeed, and an append is one step; failing writes are those of the sequencer's
    and the follower's own theorems.

    ** Next

    Balances of a node whose account seeding is on. The handlers' interleavings seen by
    a subscriber of the feed. [Cluster] with writes that fail on either side. *)

From Stdlib Require Import ZArith Lia Bool.
From stdpp Require Import base gmap list strings sorting.

Open Scope Z_scope.

(** * Machine integers

    Go's [int64] is modelled by [Z] with the wrap-around written out: every
    addition, subtraction and multiplication the source performs on [int64]
    goes through [wrap64]. *)

Definition MaxInt64 : Z := 9223372036854775807.
Definition MinInt64 : Z := -9223372036854775808.

Definition in64 (z : Z) : Prop := MinInt64 <= z <= MaxInt64.

Definition wrap64 (z : Z) : Z :=
  (z + 9223372036854775808) mod 18446744073709551616 - 9223372036854775808.

Definition add64 (a b : Z) : Z := wrap64 (a + b).
Definition sub64 (a b : Z) : Z := wrap64 (a - b).
Definition mul64 (a b : Z) : Z := wrap64 (a * b).

#[global] Instance in64_dec z : Decision (in64 z).
Proof. unfold in64. apply _. Defined.

(** Unfolds the 64-bit vocabulary for [lia]. *)
Ltac unfold64 := unfold add64, sub64, mul64, in64, MaxInt64, MinInt64 in *.

Lemma wrap64_id z : in64 z -> wrap64 z = z.
Proof. unfold64. unfold wrap64. intros. rewrite Z.mod_small; lia. Qed.

Lemma wrap64_range z : in64 (wrap64 z).
Proof.
  unfold64. unfold wrap64.
  pose proof (Z.mod_pos_bound (z + 9223372036854775808) 18446744073709551616). lia.
Qed.

Lemma wrap64_idemp z : wrap64 (wrap64 z) = wrap64 z.
Proof. apply wrap64_id, wrap64_range. Qed.

(** Two integers that denote the same [int64]: equality modulo [2^64]. Sums of
    balances are stated up to this relation, so that conservation and hold
    accounting are exact without any assumption on overflow. *)
Definition eq64 (a b : Z) : Prop := wrap64 a = wrap64 b.

Lemma eq64_mod a b :
  eq64 a b <-> a mod 18446744073709551616 = b mod 18446744073709551616.
Proof.
  unfold eq64, wrap64. split.
  - intros H.
    assert (H' : (a + 9223372036854775808) mod 18446744073709551616
               = (b + 9223372036854775808) mod 18446744073709551616) by lia.
    rewrite <- (Z.add_simpl_r a 9223372036854775808), <- (Z.add_simpl_r b 9223372036854775808).
    rewrite (Zminus_mod (a + _)), (Zminus_mod (b + _)), H'. done.
  - intros H. rewrite (Z.add_mod a), (Z.add_mod b), H by done. done.
Qed.

#[global] Instance eq64_equivalence : Equivalence eq64.
Proof. split; unfold eq64; [intros ?|intros ???|intros ?????]; congruence. Qed.

#[global] Instance add_eq64 : Proper (eq64 ==> eq64 ==> eq64) Z.add.
Proof.
  intros a a' Ha b b' Hb. rewrite eq64_mod in *.
  by rewrite (Z.add_mod a), (Z.add_mod a'), Ha, Hb by done.
Qed.

#[global] Instance sub_eq64 : Proper (eq64 ==> eq64 ==> eq64) Z.sub.
Proof.
  intros a a' Ha b b' Hb. rewrite eq64_mod in *.
  by rewrite (Zminus_mod a), (Zminus_mod a'), Ha, Hb.
Qed.

#[global] Instance mul_eq64 : Proper (eq64 ==> eq64 ==> eq64) Z.mul.
Proof.
  intros a a' Ha b b' Hb. rewrite eq64_mod in *.
  by rewrite (Z.mul_mod a), (Z.mul_mod a'), Ha, Hb by done.
Qed.

#[global] Instance wrap64_eq64 : Proper (eq64 ==> eq) wrap64.
Proof. intros a b H. exact H. Qed.

Lemma eq64_wrap z : eq64 (wrap64 z) z.
Proof. apply wrap64_idemp. Qed.

Lemma wrap64_add_l a b : wrap64 (wrap64 a + b) = wrap64 (a + b).
Proof.
  assert (H : eq64 (wrap64 a + b) (a + b)) by (apply add_eq64; [apply eq64_wrap|done]).
  exact H.
Qed.

Lemma eq64_of_eq a b : a = b -> eq64 a b.
Proof. by intros ->. Qed.

Lemma eq64_inj a b : in64 a -> in64 b -> eq64 a b -> a = b.
Proof. unfold eq64. intros Ha Hb. by rewrite !wrap64_id. Qed.

(** Facts about wrapping that need no arithmetic. *)
Create HintDb int64.
#[export] Hint Resolve wrap64_range wrap64_idemp eq64_wrap eq64_of_eq : int64.

(** Normalises [wrap64] away under [eq64] and finishes with [lia]. *)
Ltac solve64 :=
  unfold add64, sub64, mul64; rewrite ?eq64_wrap; apply eq64_of_eq; lia.

(** * Outcomes of code that can panic or loop

    [Panic] is a Go run-time panic (nil dereference, slice bounds);
    [OutOfFuel] marks a loop whose fuel ran out, which theorems rule out. *)

Inductive outcome (A : Type) : Type :=
| Ok (a : A)
| Panic
| OutOfFuel.
Arguments Ok {A} _.
Arguments Panic {A}.
Arguments OutOfFuel {A}.

#[global] Instance outcome_ret : MRet outcome := fun A a => Ok a.
#[global] Instance outcome_bind : MBind outcome := fun A B f c =>
  match c with Ok a => f a | Panic => Panic | OutOfFuel => OutOfFuel end.

(** The value a Go map or a nil-checked read yields, or a panic. *)
Definition deref {A} (o : option A) : outcome A :=
  match o with Some a => Ok a | None => Panic end.

(** * Values with a Go [error] *)

Inductive result (E A : Type) : Type :=
| Good (a : A)
| Fails (e : E).
Arguments Good {E A} _.
Arguments Fails {E A} _.

#[global] Instance result_ret E : MRet (result E) := fun A a => Good a.
#[global] Instance result_bind E : MBind (result E) := fun A B f c =>
  match c with Good a => f a | Fails e => Fails e end.

Definition is_good {E A} (r : result E A) : bool :=
  match r with Good _ => true | Fails _ => false end.

(** * Go maps with a zero value: [m[k]] reads [0] when the key is absent. *)

Definition zlookup `{Countable K} (m : gmap K Z) (k : K) : Z := default 0 (m !! k).

(** * Filters that keep or drop everything *)

Lemma filter_keep {A} (P : A -> Prop) `{!forall x, Decision (P x)} (l : list A) :
  Forall P l -> filter P l = l.
Proof. induction 1 as [|x l Hx _ IH]; [done|]. by rewrite filter_cons, decide_True, IH. Qed.

Lemma filter_drop {A} (P : A -> Prop) `{!forall x, Decision (P x)} (l : list A) :
  Forall (fun x => ~ P x) l -> filter P l = [].
Proof. induction 1 as [|x l Hx _ IH]; [done|]. by rewrite filter_cons, decide_False, IH. Qed.

(** * Sums over lists and finite maps *)

Fixpoint sumZ {A} (f : A -> Z) (l : list A) : Z :=
  match l with [] => 0 | x :: l => f x + sumZ f l end.

Lemma sumZ_app {A} (f : A -> Z) l k : sumZ f (l ++ k) = sumZ f l + sumZ f k.
Proof. induction l; simpl; lia. Qed.

#[global] Instance sumZ_perm {A} (f : A -> Z) : Proper ((≡ₚ) ==> eq) (sumZ f).
Proof. induction 1; simpl; lia. Qed.

Lemma sumZ_nonneg {A} (f : A -> Z) l : (forall x, x ∈ l -> 0 <= f x) -> 0 <= sumZ f l.
Proof.
  induction l as [|x l IH]; simpl; intros H; [lia|].
  pose proof (H x (list_elem_of_here _ _)).
  assert (0 <= sumZ f l) by (apply IH; intros; apply H; by right). lia.
Qed.

Lemma sumZ_ext {A} (f g : A -> Z) l : (forall x, x ∈ l -> f x = g x) -> sumZ f l = sumZ g l.
Proof.
  induction l as [|x l IH]; simpl; intros H; [done|].
  rewrite (H x) by apply list_elem_of_here. rewrite IH; [done|]. intros; apply H; by right.
Qed.

Lemma sumZ_fmap {A B} (f : B -> Z) (g : A -> B) l : sumZ f (g <$> l) = sumZ (fun x => f (g x)) l.
Proof. induction l as [|x l IH]; [done|]. rewrite fmap_cons. simpl. by rewrite IH. Qed.

Lemma sumZ_bind {A B} (f : B -> Z) (g : A -> list B) l : sumZ f (l ≫= g) = sumZ (fun x => sumZ f (g x)) l.
Proof. induction l as [|x l IH]; [done|]. cbn [mbind list_bind sumZ]. by rewrite sumZ_app, <- IH. Qed.

Lemma sumZ_add {A} (f g : A -> Z) l : sumZ (fun x => f x + g x) l = sumZ f l + sumZ g l.
Proof. induction l; simpl; lia. Qed.

Lemma sumZ_sub {A} (f g : A -> Z) l : sumZ (fun x => f x - g x) l = sumZ f l - sumZ g l.
Proof. induction l; simpl; lia. Qed.

Lemma sumZ_zero {A} (f : A -> Z) l : (forall x, x ∈ l -> f x = 0) -> sumZ f l = 0.
Proof. intros H. rewrite (sumZ_ext f (fun _ => 0)) by done. clear H. by induction l. Qed.

(** Summation in either order. *)
Lemma sumZ_swap {A B} (f : A -> B -> Z) l k :
  sumZ (fun x => sumZ (f x) k) l = sumZ (fun y => sumZ (fun x => f x y) l) k.
Proof.
  induction l as [|x l IH]; simpl; [by rewrite sumZ_zero|]. by rewrite IH, <- sumZ_add.
Qed.

(** Of keys that are all different, at most one is [k]. *)
Lemma sumZ_once {A} `{EqDecision K} (f : A -> K) (k : K) (c : Z) l : NoDup (f <$> l) ->
  sumZ (fun x => if decide (f x = k) then c else 0) l = if decide (k ∈ f <$> l) then c else 0.
Proof.
  induction l as [|x l IH]; [done|]. rewrite fmap_cons. intros [Hx Hnd]%NoDup_cons. simpl. rewrite IH by done.
  destruct (decide (f x = k)) as [<-|Hne].
  - rewrite (decide_False (P := f x ∈ f <$> l)) by done. rewrite decide_True by left. lia.
  - destruct (decide (k ∈ f <$> l)) as [Hk|Hk].
    + by rewrite decide_True by (by right).
    + rewrite decide_False; [done|]. by intros [->|?]%elem_of_cons.
Qed.

(** Sums of composed lists, term by term. *)
Create HintDb sums.
#[export] Hint Rewrite @sumZ_app @sumZ_fmap @sumZ_bind : sums.

Lemma length_filter_sumZ {A} (P : A -> Prop) `{!forall x, Decision (P x)} (l : list A) :
  Z.of_nat (length (filter P l)) = sumZ (fun x => if decide (P x) then 1 else 0) l.
Proof. induction l as [|x l IH]; [done|]. rewrite filter_cons. simpl. case_decide; simpl length; lia. Qed.

Definition map_sum `{Countable K} {V} (f : K -> V -> Z) (m : gmap K V) : Z :=
  sumZ (fun kv => f kv.1 kv.2) (map_to_list m).

Section MapSum.
Context `{Countable K} {V : Type} (f : K -> V -> Z).
Implicit Types m : gmap K V.

Lemma map_sum_empty : map_sum f (∅ : gmap K V) = 0.
Proof. unfold map_sum. by rewrite map_to_list_empty. Qed.

Lemma map_sum_insert_new m k v : m !! k = None -> map_sum f (<[k:=v]> m) = f k v + map_sum f m.
Proof. intros Hk. unfold map_sum. by rewrite map_to_list_insert. Qed.

Lemma map_sum_delete m k v : m !! k = Some v -> map_sum f (delete k m) = map_sum f m - f k v.
Proof. intros Hk. unfold map_sum. rewrite <- (map_to_list_delete m k v Hk). simpl. lia. Qed.

Lemma map_sum_insert m k v :
  map_sum f (<[k:=v]> m) = map_sum f m - from_option (f k) 0 (m !! k) + f k v.
Proof.
  destruct (m !! k) as [w|] eqn:E; simpl.
  - rewrite <- insert_delete_eq, map_sum_insert_new, (map_sum_delete m k w E) by apply lookup_delete_eq.
    lia.
  - rewrite map_sum_insert_new by done. lia.
Qed.

Lemma map_sum_nonneg m : (forall k v, m !! k = Some v -> 0 <= f k v) -> 0 <= map_sum f m.
Proof.
  intros Hf. apply sumZ_nonneg. intros [k v] Hkv. apply Hf. by apply elem_of_map_to_list.
Qed.

Lemma map_sum_ge m k v :
  (forall k v, m !! k = Some v -> 0 <= f k v) -> m !! k = Some v -> f k v <= map_sum f m.
Proof.
  intros Hf Hk. pose proof (map_sum_delete m k v Hk).
  enough (0 <= map_sum f (delete k m)) by lia. apply map_sum_nonneg.
  intros k' v' [_ ?]%lookup_delete_Some. eauto.
Qed.
End MapSum.

Lemma map_sum_ext `{Countable K} {V} (f g : K -> V -> Z) (m : gmap K V) :
  (forall k v, m !! k = Some v -> f k v = g k v) -> map_sum f m = map_sum g m.
Proof.
  intros Hfg. apply sumZ_ext. intros [k v] Hkv. apply Hfg. by apply elem_of_map_to_list.
Qed.

(** Adding to one entry of a zero-default map. *)
Definition zadd `{Countable K} (k : K) (d : Z) (m : gmap K Z) : gmap K Z :=
  <[k := add64 (zlookup m k) d]> m.

Lemma zlookup_zadd `{Countable K} (m : gmap K Z) k k' d :
  zlookup (zadd k d m) k' = if decide (k = k') then add64 (zlookup m k) d else zlookup m k'.
Proof. unfold zlookup, zadd. rewrite lookup_insert. by case_decide. Qed.

(** The total of a zero-default map moves by exactly the amount added. *)
Lemma map_sum_zadd `{Countable K} (m : gmap K Z) k d :
  eq64 (map_sum (fun _ v => v) (zadd k d m)) (map_sum (fun _ v => v) m + d).
Proof.
  unfold zadd. rewrite map_sum_insert. unfold zlookup.
  destruct (m !! k); simpl; solve64.
Qed.

(** When nothing overflows, the addition is exact. *)
Lemma zlookup_zadd_exact `{Countable K} (m : gmap K Z) k k' d : in64 (zlookup m k + d) ->
  zlookup (zadd k d m) k' = zlookup m k' + if decide (k = k') then d else 0.
Proof.
  intros Hr. rewrite zlookup_zadd. destruct (decide (k = k')) as [<-|]; [|lia].
  by apply wrap64_id.
Qed.

Lemma map_sum_zadd_exact `{Countable K} (m : gmap K Z) k d : in64 (zlookup m k + d) ->
  map_sum (fun _ v => v) (zadd k d m) = map_sum (fun _ v => v) m + d.
Proof.
  intros Hr. unfold zadd, add64. rewrite wrap64_id by done. rewrite map_sum_insert.
  unfold zlookup. destruct (m !! k); simpl; lia.
Qed.

Lemma map_sum_partial_alter `{Countable K} {V} (f : K -> V -> Z) (g : option V -> option V) (m : gmap K V) k :
  map_sum f (partial_alter g k m)
    = map_sum f m - from_option (f k) 0 (m !! k) + from_option (f k) 0 (g (m !! k)).
Proof.
  destruct (g (m !! k)) as [v|] eqn:Hg; simpl.
  - rewrite (partial_alter_ext g (fun _ => Some v)) by (intros ? <-; done).
    fold (<[k := v]> m). apply map_sum_insert.
  - rewrite (partial_alter_ext g (fun _ => None)) by (intros ? <-; done).
    change (partial_alter (fun _ => None) k m) with (delete k m).
    destruct (m !! k) as [v|] eqn:Hk; simpl; [rewrite (map_sum_delete f m k v Hk)|rewrite delete_id by done]; lia.
Qed.

(** One entry, and two entries, of a map with non-negative contributions. *)
Lemma map_sum_ge_opt `{Countable K} {V} (f : K -> V -> Z) (m : gmap K V) k :
  (forall k v, m !! k = Some v -> 0 <= f k v) -> from_option (f k) 0 (m !! k) <= map_sum f m.
Proof.
  intros Hf. destruct (m !! k) eqn:Hk; simpl; [by apply map_sum_ge|by apply map_sum_nonneg].
Qed.

Lemma map_sum_ge2 `{Countable K} {V} (f : K -> V -> Z) (m : gmap K V) k k' : k <> k' ->
  (forall k v, m !! k = Some v -> 0 <= f k v) ->
  from_option (f k) 0 (m !! k) + from_option (f k') 0 (m !! k') <= map_sum f m.
Proof.
  intros Hne Hf. destruct (m !! k) as [v|] eqn:Hk; simpl; [|by apply map_sum_ge_opt].
  assert (Hf' : forall i v, delete k m !! i = Some v -> 0 <= f i v)
    by (intros i w [_ ?]%lookup_delete_Some; auto).
  pose proof (map_sum_ge_opt f (delete k m) k' Hf') as Hge. rewrite lookup_delete_ne in Hge by done.
  rewrite (map_sum_delete f m k v Hk) in Hge. lia.
Qed.
