(* ===== verification/Types.v ===== *)
(** The data of [src/internal/oms/types.go]: orders, trades and the errors the
    engine returns. *)

From S2P Require Import Prelude.
From stdpp Require Import base gmap list strings.

Open Scope Z_scope.

(** [OrderSide] and [OrderType]: the zero value is the invalid one. *)
Inductive OrderSide := UnknownSide | Sell | Buy.
Inductive OrderType := UnknownType | Limit | Market.

#[global] Instance OrderSide_eq_dec : EqDecision OrderSide.
Proof. solve_decision. Defined.
#[global] Instance OrderType_eq_dec : EqDecision OrderType.
Proof. solve_decision. Defined.

(** [Price], [SeqID] and quantities are Go [int64]s, modelled as [Z]; a time is
    its distance in nanoseconds from the Unix epoch. *)
Record Order := mkOrder {
  o_SeqID : Z;
  o_Symbol : string;
  o_Placer : string;
  o_Type : OrderType;
  o_Price : Z;
  o_Quantity : Z;
  o_Side : OrderSide;
  o_TimeStamp : Z
}.

Record Trade := mkTrade {
  t_SeqID : Z;
  t_Symbol : string;
  t_Price : Z;
  t_MakerSeqID : Z;
  t_TakerSeqID : Z;
  t_MakerAccID : string;
  t_TakerAccID : string;
  t_Quantity : Z;
  t_TakerSide : OrderSide;
  t_TimeStamp : Z
}.

#[global] Instance Order_eq_dec : EqDecision Order.
Proof. solve_decision. Defined.
#[global] Instance Trade_eq_dec : EqDecision Trade.
Proof. solve_decision. Defined.

(** Go's [time.Time{}]: 0001-01-01T00:00:00Z. *)
Definition zeroTime : Z := -62135596800000000000.

(** Go's zero value of [Order]. *)
Definition zeroOrder : Order := mkOrder 0 "" "" UnknownType 0 0 UnknownSide zeroTime.

Definition set_quantity (q : Z) (o : Order) : Order :=
  mkOrder (o_SeqID o) (o_Symbol o) (o_Placer o) (o_Type o) (o_Price o) q (o_Side o) (o_TimeStamp o).
Definition set_seqid (i : Z) (o : Order) : Order :=
  mkOrder i (o_Symbol o) (o_Placer o) (o_Type o) (o_Price o) (o_Quantity o) (o_Side o) (o_TimeStamp o).
Definition set_symbol (s : string) (o : Order) : Order :=
  mkOrder (o_SeqID o) s (o_Placer o) (o_Type o) (o_Price o) (o_Quantity o) (o_Side o) (o_TimeStamp o).

(** [Trade.Buyer] and [Trade.Seller]. *)
Definition Buyer (t : Trade) : string :=
  if decide (t_TakerSide t = Buy) then t_TakerAccID t else t_MakerAccID t.
Definition Seller (t : Trade) : string :=
  if decide (t_TakerSide t = Buy) then t_MakerAccID t else t_TakerAccID t.

(** The side an order of side [s] trades against. *)
Definition opposite (s : OrderSide) : OrderSide :=
  match s with Buy => Sell | Sell => Buy | UnknownSide => UnknownSide end.

(** The errors of package [oms], one constructor per sentinel or message. *)
Inductive oms_error :=
| ErrUnknownSideOrType
| ErrOrderNotFound
| ErrNotOrderOwner (orderID : Z)
| ErrInsufficientFunds
| ErrInsufficientShares
| ErrUnknownAccount
| ErrQuantityNotPositive
| ErrDuplicateReservation
| ErrNegative
| ErrOverflow
| ErrLiveReservations (n : nat)
| ErrSequencerClosed
| ErrInvalidSymbol
| ErrTooManySymbols
| ErrCorruptWAL
| ErrWalVersion
| ErrWalDecode
| ErrWalIO
| ErrPayloadTooBig
| ErrCanceled
| ErrDeadlineExceeded.

#[global] Instance oms_error_eq_dec : EqDecision oms_error.
Proof. solve_decision. Defined.
