(* ===== verification/Book.v ===== *)
(** The limit order book of [src/internal/oms/book.go].

    Go's book shares mutable objects: [levels] and every [OrderRef] hold a
    pointer to a [priceLevel], and every [OrderRef] a pointer to a
    [list.Element]. Levels therefore live in a [heap] addressed by [positive]
    locations; an element carries its identity and its value, which Go never
    mutates (a partially filled maker is pushed back as a new element). *)

From Stdlib Require Import ZArith Lia.
From stdpp Require Import base gmap list strings.
From S2P Require Import Prelude Types.

Open Scope Z_scope.

(** * State *)

(** A [list.Element] whose [Value] is an [Order]. *)
Record element := mkElement { el_id : positive; el_value : Order }.

Record priceLevel := mkLevel {
  lv_price : Z;
  lv_side : OrderSide;
  lv_orders : list element
}.

Record OrderRef := mkRef { ref_level : positive; ref_element : element }.

Record Book := mkBook {
  bids : list Z;
  asks : list Z;
  index : gmap Z OrderRef;
  levels : gmap Z positive;
  nextTradeID : Z;
  maxOrderID : Z;
  heap : gmap positive priceLevel;
  next_loc : positive
}.

#[global] Instance element_eq_dec : EqDecision element.
Proof. solve_decision. Defined.

Definition set_ladder (s : OrderSide) (l : list Z) (b : Book) : Book :=
  if decide (s = Buy)
  then mkBook l (asks b) (index b) (levels b) (nextTradeID b) (maxOrderID b) (heap b) (next_loc b)
  else mkBook (bids b) l (index b) (levels b) (nextTradeID b) (maxOrderID b) (heap b) (next_loc b).
Definition set_index (i : gmap Z OrderRef) (b : Book) : Book :=
  mkBook (bids b) (asks b) i (levels b) (nextTradeID b) (maxOrderID b) (heap b) (next_loc b).
Definition set_levels (l : gmap Z positive) (b : Book) : Book :=
  mkBook (bids b) (asks b) (index b) l (nextTradeID b) (maxOrderID b) (heap b) (next_loc b).
Definition set_nextTradeID (n : Z) (b : Book) : Book :=
  mkBook (bids b) (asks b) (index b) (levels b) n (maxOrderID b) (heap b) (next_loc b).
Definition set_maxOrderID (n : Z) (b : Book) : Book :=
  mkBook (bids b) (asks b) (index b) (levels b) (nextTradeID b) n (heap b) (next_loc b).
Definition set_heap (h : gmap positive priceLevel) (b : Book) : Book :=
  mkBook (bids b) (asks b) (index b) (levels b) (nextTradeID b) (maxOrderID b) h (next_loc b).
Definition set_next_loc (p : positive) (b : Book) : Book :=
  mkBook (bids b) (asks b) (index b) (levels b) (nextTradeID b) (maxOrderID b) (heap b) p.

(** The slice a side's code works on: [b.bids] for [Buy], else [b.asks]. *)
Definition ladder (s : OrderSide) (b : Book) : list Z :=
  if decide (s = Buy) then bids b else asks b.

Definition NewBook : Book := mkBook [] [] ∅ ∅ 0 0 ∅ 1%positive.

(** * Price levels

    [container/list] operations on the level at location [l]. *)

Definition set_orders (l : positive) (lvl : priceLevel) (es : list element) (b : Book) : Book :=
  set_heap (<[l := mkLevel (lv_price lvl) (lv_side lvl) es]> (heap b)) b.

(** [push]: [PushBack], returning the new element. *)
Definition push (l : positive) (o : Order) (b : Book) : outcome (Book * element) :=
  lvl ← deref (heap b !! l);
  let e := mkElement (next_loc b) o in
  Ok (set_next_loc (Pos.succ (next_loc b)) (set_orders l lvl (lv_orders lvl ++ [e]) b), e).

(** [pushFront]: [PushFront]. *)
Definition pushFront (l : positive) (o : Order) (b : Book) : outcome (Book * element) :=
  lvl ← deref (heap b !! l);
  let e := mkElement (next_loc b) o in
  Ok (set_next_loc (Pos.succ (next_loc b)) (set_orders l lvl (e :: lv_orders lvl) b), e).

(** [front]: peek at the oldest order. *)
Definition front (lvl : priceLevel) : Order * bool :=
  match lv_orders lvl with
  | [] => (zeroOrder, false)
  | e :: _ => (el_value e, true)
  end.

(** [popFront]: remove and return the oldest order; the zero order if empty. *)
Definition popFront (l : positive) (b : Book) : outcome (Book * Order * bool) :=
  lvl ← deref (heap b !! l);
  match lv_orders lvl with
  | [] => Ok (b, zeroOrder, false)
  | e :: es => Ok (set_orders l lvl es b, el_value e, true)
  end.

(** [list.List.Remove]: unlink one element, by identity. *)
Definition remove_element (l : positive) (e : element) (b : Book) : outcome Book :=
  lvl ← deref (heap b !! l);
  Ok (set_orders l lvl (filter (fun e' => el_id e' <> el_id e) (lv_orders lvl)) b).

Definition level_len (l : positive) (b : Book) : outcome nat :=
  lvl ← deref (heap b !! l); Ok (length (lv_orders lvl)).

(** * Ladders *)

(** [sort.Search]: the binary search of Go's standard library over [0, n). *)
Fixpoint sort_Search_loop (fuel : nat) (f : nat -> bool) (i j : nat) : nat :=
  match fuel with
  | O => i
  | S fuel =>
      if (i <? j)%nat then
        let h := ((i + j) / 2)%nat in
        if f h then sort_Search_loop fuel f i h
        else sort_Search_loop fuel f (S h) j
      else i
  end.
Definition sort_Search (n : nat) (f : nat -> bool) : nat := sort_Search_loop n f 0 n.

(** The search predicate of a side: [bids[j] <= price], resp. [asks[j] >= price]. *)
Definition search_pred (s : OrderSide) (price : Z) (l : list Z) (j : nat) : bool :=
  match l !! j with
  | Some x => if decide (s = Buy) then x <=? price else price <=? x
  | None => false
  end.
Definition search_ladder (s : OrderSide) (price : Z) (l : list Z) : nat :=
  sort_Search (length l) (search_pred s price l).

Definition getOrCreateLevel (s : OrderSide) (price : Z) (b : Book) : Book * positive :=
  match levels b !! price with
  | Some l => (b, l)
  | None =>
      let i := search_ladder s price (ladder s b) in
      let l := next_loc b in
      let b := set_next_loc (Pos.succ l) (set_heap (<[l := mkLevel price s []]> (heap b)) b) in
      let b := set_ladder s (take i (ladder s b) ++ price :: drop i (ladder s b)) b in
      (set_levels (<[price := l]> (levels b)) b, l)
  end.

(** The slice expression [l[i+1:]] panics when [i] is past the end. *)
Definition removeLevel (s : OrderSide) (price : Z) (b : Book) : outcome (Book * bool) :=
  match levels b !! price with
  | None => Ok (b, false)
  | Some _ =>
      let i := search_ladder s price (ladder s b) in
      if (i <? length (ladder s b))%nat then
        let b := set_ladder s (take i (ladder s b) ++ drop (S i) (ladder s b)) b in
        Ok (set_levels (delete price (levels b)) b, true)
      else Panic
  end.

Definition BestBid (b : Book) : Z * bool :=
  match bids b with p :: _ => (p, true) | [] => (0, false) end.
Definition BestAsk (b : Book) : Z * bool :=
  match asks b with p :: _ => (p, true) | [] => (0, false) end.

(** * Reads *)

Definition RestingOrders (b : Book) : list Order :=
  (fun kv => el_value (ref_element kv.2)) <$> map_to_list (index b).
Definition MaxOrderID (b : Book) : Z := maxOrderID b.
Definition RestingCount (b : Book) : nat := size (index b).

(** [levelQuantity]: the [int64] sum of a level's quantities. *)
Definition levelQuantity (lvl : priceLevel) : Z :=
  foldl (fun total e => add64 total (o_Quantity (el_value e))) 0 (lv_orders lvl).

(** The rows [Snapshot] serialises. *)
Record depthLevel := mkDepth { d_Price : Z; d_Quantity : Z }.

Fixpoint depth_rows (ps : list Z) (b : Book) : outcome (list depthLevel) :=
  match ps with
  | [] => Ok []
  | p :: ps =>
      l ← deref (levels b !! p);
      lvl ← deref (heap b !! l);
      rows ← depth_rows ps b;
      Ok (mkDepth p (levelQuantity lvl) :: rows)
  end.
Definition Snapshot (b : Book) : outcome (list depthLevel * list depthLevel) :=
  bs ← depth_rows (bids b) b;
  xs ← depth_rows (asks b) b;
  Ok (bs, xs).

(** * Matching *)

Record MatchResult := mkResult {
  Trades : list Trade;
  SelfPrevented : list Z;
  RestingQuantity : Z
}.

Definition selfMatch (taker maker : Order) : bool :=
  negb (bool_decide (o_Placer taker = "")) && bool_decide (o_Placer taker = o_Placer maker).

(** The best price of the side a loop consumes. *)
Definition best (s : OrderSide) (b : Book) : Z * bool :=
  match s with Buy => BestBid b | _ => BestAsk b end.

(** The limit test of [matchAgainstAsks] ([s = Sell]) and [matchAgainstBids]
    ([s = Buy]): the best resting price is not acceptable to a LIMIT taker. *)
Definition beyond_limit (s : OrderSide) (taker : Order) (price : Z) : bool :=
  bool_decide (o_Type taker = Limit) &&
  (if decide (s = Buy) then price <? o_Price taker else o_Price taker <? price).

(** The level is dropped from the book once its queue is empty. *)
Definition drop_if_empty (s : OrderSide) (price : Z) (l : positive) (b : Book) : outcome Book :=
  n ← level_len l b;
  if (n =? 0)%nat then r ← removeLevel s price b; Ok (r.1) else Ok b.

Section Matching.
(** [now n] is the clock reading stamped on trade number [n]. *)
Context (now : Z -> Z).

Definition mk_trade (s : OrderSide) (id price fill : Z) (taker maker : Order) : Trade :=
  mkTrade id (o_Symbol taker) price (o_SeqID maker) (o_SeqID taker)
          (o_Placer maker) (o_Placer taker) fill (opposite s) (now id).

(** One loop for both directions: [s] is the side of the resting orders. *)
Fixpoint match_loop (fuel : nat) (s : OrderSide) (b : Book) (taker : Order)
    (trades : list Trade) (prevented : list Z)
    : outcome (Book * list Trade * list Z * Order) :=
  if negb (0 <? o_Quantity taker) then Ok (b, trades, prevented, taker) else
  match best s b with
  | (_, false) => Ok (b, trades, prevented, taker)
  | (price, true) =>
    if beyond_limit s taker price then Ok (b, trades, prevented, taker) else
    match fuel with
    | O => OutOfFuel
    | S fuel =>
      l ← deref (levels b !! price);
      '(b, maker, _) ← popFront l b;
      let b := set_index (delete (o_SeqID maker) (index b)) b in
      if selfMatch taker maker then
        b ← drop_if_empty s price l b;
        match_loop fuel s b taker trades (prevented ++ [o_SeqID maker])
      else
        let fill := Z.min (o_Quantity taker) (o_Quantity maker) in
        let b := set_nextTradeID (add64 (nextTradeID b) 1) b in
        let trades := trades ++ [mk_trade s (nextTradeID b) price fill taker maker] in
        let taker := set_quantity (sub64 (o_Quantity taker) fill) taker in
        let maker := set_quantity (sub64 (o_Quantity maker) fill) maker in
        b ← (if 0 <? o_Quantity maker then
               '(b, e) ← pushFront l maker b;
               Ok (set_index (<[o_SeqID maker := mkRef l e]> (index b)) b)
             else Ok b);
        b ← drop_if_empty s price l b;
        match_loop fuel s b taker trades prevented
    end
  end.

(** Each iteration consumes a resting order or finishes the taker, so the
    number of resting orders (plus one) bounds the iterations. *)
Definition match_fuel (b : Book) : nat := S (RestingCount b).

Definition matchAgainstAsks (taker : Order) (b : Book) :=
  match_loop (match_fuel b) Sell b taker [] [].
Definition matchAgainstBids (taker : Order) (b : Book) :=
  match_loop (match_fuel b) Buy b taker [] [].

Definition SubmitOrder (o : Order) (b : Book)
    : outcome (Book * result oms_error MatchResult) :=
  if decide (o_Side o = UnknownSide \/ o_Type o = UnknownType)
  then Ok (b, Fails ErrUnknownSideOrType) else
  let b := if maxOrderID b <? o_SeqID o then set_maxOrderID (o_SeqID o) b else b in
  '(b, trades, prevented, o) ←
    match o_Side o with
    | Buy => matchAgainstAsks o b
    | Sell => matchAgainstBids o b
    | UnknownSide => Ok (b, [], [], o)
    end;
  if bool_decide (o_Type o = Limit) && (0 <? o_Quantity o) then
    let '(b, l) := getOrCreateLevel (o_Side o) (o_Price o) b in
    '(b, e) ← push l o b;
    let b := set_index (<[o_SeqID o := mkRef l e]> (index b)) b in
    Ok (b, Good (mkResult trades prevented (o_Quantity o)))
  else Ok (b, Good (mkResult trades prevented 0)).

Definition Submit (o : Order) (b : Book) : outcome (Book * result oms_error (list Trade)) :=
  '(b, r) ← SubmitOrder o b;
  Ok (b, match r with Good res => Good (Trades res) | Fails e => Fails e end).
End Matching.

(** * Cancelling *)

Definition CancelOwned (orderID : Z) (by_ : string) (b : Book)
    : outcome (Book * result oms_error unit) :=
  match index b !! orderID with
  | None => Ok (b, Fails ErrOrderNotFound)
  | Some ref =>
      if decide (by_ <> "" /\ o_Placer (el_value (ref_element ref)) <> by_)
      then Ok (b, Fails (ErrNotOrderOwner orderID)) else
      b ← remove_element (ref_level ref) (ref_element ref) b;
      let b := set_index (delete orderID (index b)) b in
      lvl ← deref (heap b !! ref_level ref);
      b ← drop_if_empty (lv_side lvl) (lv_price lvl) (ref_level ref) b;
      Ok (b, Good tt)
  end.
Definition Cancel (orderID : Z) (b : Book) : outcome (Book * result oms_error unit) :=
  CancelOwned orderID "" b.
