(* ===== verification/BookInv.v ===== *)
(** The invariant of the order book and its preservation.

    [wf] says what the pointers of [Book] mean: the ladders are sorted and hold
    exactly the prices with a level, every level is a non-empty FIFO queue of
    live LIMIT orders at its price, the index maps exactly the resting orders
    to where they live, and the book is not crossed. [elems] reads a side of
    the book as one list in priority order. *)

From Stdlib Require Import ZArith Lia.
From stdpp Require Import base gmap list strings sorting.
From S2P Require Import Prelude Types Book.

Open Scope Z_scope.

(** * The invariant *)

Definition side_ok (s : OrderSide) : Prop := s = Buy \/ s = Sell.

(** [x] is a strictly better price than [y] for resting orders of side [s]. *)
Definition before (s : OrderSide) (x y : Z) : Prop :=
  if decide (s = Buy) then y < x else x < y.

#[global] Instance before_dec s x y : Decision (before s x y).
Proof. unfold before. case_decide; apply _. Defined.

Definition level_at (b : Book) (p : Z) : option priceLevel :=
  l ← levels b !! p; heap b !! l.
Definition queue (b : Book) (p : Z) : list element :=
  default [] (lv_orders <$> level_at b p).

(** One side of the book in priority order: best price first, then FIFO. *)
Definition elems (s : OrderSide) (b : Book) : list element := ladder s b ≫= queue b.
Definition resting (s : OrderSide) (b : Book) : list Order := el_value <$> elems s b.

Definition rest_ok (s : OrderSide) (p : Z) (o : Order) : Prop :=
  o_Side o = s /\ o_Price o = p /\ o_Type o = Limit /\ 0 < o_Quantity o <= MaxInt64.

Record level_ok (p : Z) (lvl : priceLevel) : Prop := {
  lo_price : lv_price lvl = p;
  lo_side : side_ok (lv_side lvl);
  lo_nonempty : lv_orders lvl <> [];
  lo_orders : Forall (fun e => rest_ok (lv_side lvl) p (el_value e)) (lv_orders lvl);
  lo_nodup : NoDup (el_id <$> lv_orders lvl)
}.

Record wf (b : Book) : Prop := {
  wf_sorted : forall s, StronglySorted (before s) (ladder s b);
  wf_ladder : forall s p, side_ok s ->
    p ∈ ladder s b <-> exists lvl, level_at b p = Some lvl /\ lv_side lvl = s;
  wf_level : forall p l, levels b !! p = Some l ->
    exists lvl, heap b !! l = Some lvl /\ level_ok p lvl;
  wf_index : forall id r, index b !! id = Some r <->
    exists lvl, levels b !! o_Price (el_value (ref_element r)) = Some (ref_level r) /\
                heap b !! ref_level r = Some lvl /\
                ref_element r ∈ lv_orders lvl /\
                o_SeqID (el_value (ref_element r)) = id;
  wf_fresh : forall l lvl, heap b !! l = Some lvl ->
    (l < next_loc b)%positive /\ Forall (fun e => (el_id e < next_loc b)%positive) (lv_orders lvl);
  wf_uncrossed : forall x y, x ∈ bids b -> y ∈ asks b -> x < y
}.

(** * Binary search *)

Section Search.
Context (f : nat -> bool).

Lemma sort_Search_loop_spec fuel i j n :
  (forall a c, (a <= c < n)%nat -> f a = true -> f c = true) ->
  (i <= j <= n)%nat -> (j - i <= fuel)%nat ->
  (forall k, (k < i)%nat -> f k = false) ->
  (forall k, (j <= k < n)%nat -> f k = true) ->
  let r := sort_Search_loop fuel f i j in
  (r <= n)%nat /\ (forall k, (k < r)%nat -> f k = false) /\
  (forall k, (r <= k < n)%nat -> f k = true).
Proof.
  intros Hmono. revert i j.
  induction fuel as [|fuel IH]; intros i j Hij Hfuel Hlo Hhi; cbn [sort_Search_loop].
  - replace j with i in * by lia. auto with lia.
  - destruct (Nat.ltb_spec i j) as [Hlt|Hge]; [|replace j with i in * by lia; auto with lia].
    pose proof (Nat.div_mod_eq (i + j) 2) as Hdiv.
    pose proof (Nat.mod_upper_bound (i + j) 2 ltac:(lia)) as Hmod.
    set (h := ((i + j) / 2)%nat) in *.
    destruct (f h) eqn:Hf; apply IH; try lia; intros k Hk; auto.
    + apply (Hmono h); [lia|done].
    + destruct (f k) eqn:Hk'; [|done].
      enough (f h = true) by congruence. apply (Hmono k); [lia|done].
Qed.

(** [sort.Search] returns the first index at which a monotone predicate holds. *)
Lemma sort_Search_spec n :
  (forall a c, (a <= c < n)%nat -> f a = true -> f c = true) ->
  (sort_Search n f <= n)%nat /\
  (forall k, (k < sort_Search n f)%nat -> f k = false) /\
  (forall k, (sort_Search n f <= k < n)%nat -> f k = true).
Proof.
  intros Hmono. unfold sort_Search.
  apply (sort_Search_loop_spec n 0 n n); [done|lia|lia|lia|lia].
Qed.
End Search.

Lemma before_trans s x y z : before s x y -> before s y z -> before s x z.
Proof. unfold before. case_decide; lia. Qed.
Lemma before_irrefl s x : ~ before s x x.
Proof. unfold before. case_decide; lia. Qed.
Lemma before_total s x y : x <> y -> before s x y \/ before s y x.
Proof. unfold before. case_decide; lia. Qed.

Lemma search_pred_spec s p l j x :
  l !! j = Some x -> search_pred s p l j = true <-> ~ before s x p.
Proof.
  intros Hx. unfold search_pred, before. rewrite Hx.
  case_decide; rewrite Z.leb_le; lia.
Qed.

Lemma StronglySorted_lookup {A} (R : A -> A -> Prop) l i j x y :
  StronglySorted R l -> l !! i = Some x -> l !! j = Some y -> (i < j)%nat -> R x y.
Proof.
  intros Hs. revert i j. induction Hs as [|z l Hs IH Hz]; intros i j Hi Hj Hij; [done|].
  destruct j as [|j]; [lia|]. destruct i as [|i]; simpl in *; simplify_eq.
  - rewrite Forall_forall in Hz. apply Hz. by eapply list_elem_of_lookup_2.
  - eapply IH; eauto with lia.
Qed.

Lemma search_ladder_spec s p l :
  StronglySorted (before s) l ->
  exists l1 l2, l = l1 ++ l2 /\ search_ladder s p l = length l1 /\
    Forall (fun x => before s x p) l1 /\ Forall (fun x => ~ before s x p) l2.
Proof.
  intros Hs. unfold search_ladder.
  set (f := search_pred s p l).
  destruct (sort_Search_spec f (length l)) as (Hr & Hlo & Hhi).
  { intros a c Hac Ha.
    destruct (lookup_lt_is_Some_2 l a) as [x Hx]; [lia|].
    destruct (lookup_lt_is_Some_2 l c) as [y Hy]; [lia|].
    apply (search_pred_spec s p l c y Hy). apply (search_pred_spec s p l a x Hx) in Ha.
    destruct (decide (a = c)) as [->|]; [congruence|].
    intros Hyp. apply Ha. eapply before_trans; [|exact Hyp].
    eapply StronglySorted_lookup; eauto with lia. }
  set (r := sort_Search (length l) f) in *.
  exists (take r l), (drop r l). split; [by rewrite take_drop|].
  split; [rewrite length_take; lia|]. split; apply Forall_lookup; intros i x Hi.
  - apply lookup_take_Some in Hi as [Hi Hlt].
    destruct (search_pred_spec s p l i x Hi) as [_ Hb].
    specialize (Hlo i Hlt). unfold f in Hlo.
    destruct (decide (before s x p)) as [|Hn]; [done|]. rewrite (Hb Hn) in Hlo. done.
  - rewrite lookup_drop in Hi.
    apply (search_pred_spec s p l (r + i) x Hi). apply Hhi.
    apply lookup_lt_Some in Hi. lia.
Qed.

(** On a ladder that holds [p] the search finds exactly its position. *)
Lemma search_ladder_found s p l :
  StronglySorted (before s) l -> p ∈ l ->
  exists l1 l2, l = l1 ++ p :: l2 /\ search_ladder s p l = length l1.
Proof.
  intros Hs Hp. destruct (search_ladder_spec s p l Hs) as (l1 & l2 & -> & Hr & H1 & H2).
  rewrite Forall_forall in H1, H2. apply elem_of_app in Hp as [Hp|Hp].
  { destruct (before_irrefl s p). by apply H1. }
  destruct l2 as [|x l2]; [by apply elem_of_nil in Hp|].
  exists l1, l2. split; [|done]. do 2 f_equal.
  apply elem_of_cons in Hp as [->|Hp]; [done|].
  destruct (H2 x); [by left|].
  apply StronglySorted_app_1_r in Hs. inversion Hs as [|? ? _ Hx]; subst.
  rewrite Forall_forall in Hx. by apply Hx.
Qed.

Lemma sorted_app_mid {A} (R : A -> A -> Prop) l1 x l2 :
  StronglySorted R (l1 ++ x :: l2) -> StronglySorted R (l1 ++ l2).
Proof.
  rewrite !StronglySorted_app. intros (H12 & H1 & H2). inversion H2; subst.
  split_and!; try done. intros. apply H12; [done|by right].
Qed.

Lemma sorted_mid_notin (s : OrderSide) l1 x l2 :
  StronglySorted (before s) (l1 ++ x :: l2) -> x ∉ l1 ++ l2.
Proof.
  rewrite StronglySorted_app. intros (H12 & _ & H2) [Hx|Hx]%elem_of_app.
  - apply (before_irrefl s x), H12; [done|by left].
  - inversion H2 as [|? ? _ HF]; subst. rewrite Forall_forall in HF.
    by apply (before_irrefl s x), HF.
Qed.

(** Inserting at the position the search returns keeps the ladder sorted. *)
Lemma search_ladder_insert s p l :
  StronglySorted (before s) l -> p ∉ l ->
  exists l1 l2, l = l1 ++ l2 /\ search_ladder s p l = length l1 /\
    StronglySorted (before s) (l1 ++ p :: l2) /\
    Forall (fun x => before s x p) l1 /\ Forall (fun x => before s p x) l2.
Proof.
  intros Hs Hp. destruct (search_ladder_spec s p l Hs) as (l1 & l2 & -> & Hr & H1 & H2).
  assert (H2' : Forall (fun x => before s p x) l2).
  { rewrite Forall_forall in H2 |- *. intros x Hx.
    destruct (before_total s x p) as [H|H]; [|by destruct (H2 x Hx)|done].
    intros ->. apply Hp. set_solver. }
  exists l1, l2. split_and!; try done. rewrite Forall_forall in H1, H2'.
  apply StronglySorted_app in Hs as (H12 & Hs1 & Hs2). apply StronglySorted_app.
  split_and!; [|done|by constructor; [|apply Forall_forall]].
  intros x y Hx [->|Hy]%elem_of_cons; auto.
Qed.

(** * Reading a well-formed book *)

Lemma level_at_Some b p l lvl :
  levels b !! p = Some l -> heap b !! l = Some lvl -> level_at b p = Some lvl.
Proof. unfold level_at. by intros ->. Qed.

Lemma queue_eq b p l lvl :
  levels b !! p = Some l -> heap b !! l = Some lvl -> queue b p = lv_orders lvl.
Proof. intros Hl Hh. unfold queue. by rewrite (level_at_Some b p l lvl). Qed.

Lemma ladder_opposite s b : side_ok s -> ladder (opposite s) b = if decide (s = Buy) then asks b else bids b.
Proof. by intros [->| ->]. Qed.

Lemma side_ok_opposite s : side_ok s -> side_ok (opposite s).
Proof. unfold side_ok. destruct s; simpl; intuition congruence. Qed.

Lemma opposite_involutive s : opposite (opposite s) = s.
Proof. by destruct s. Qed.

Lemma opposite_ne s : side_ok s -> opposite s <> s.
Proof. by intros [->| ->]. Qed.

Lemma side_cases s t : side_ok s -> side_ok t -> t = s \/ t = opposite s.
Proof. intros [->| ->] [->| ->]; auto. Qed.

Create HintDb book.
#[export] Hint Resolve side_ok_opposite opposite_ne : book.

Section Reading.
Context (b : Book) (Hwf : wf b).

Lemma wf_find p l lvl :
  levels b !! p = Some l -> heap b !! l = Some lvl -> level_ok p lvl.
Proof. intros Hl Hh. destruct (wf_level b Hwf p l Hl) as (lvl' & ? & ?). by simplify_eq. Qed.

Lemma wf_inj p q l : levels b !! p = Some l -> levels b !! q = Some l -> p = q.
Proof.
  intros Hp Hq. destruct (wf_level b Hwf p l Hp) as (lvl & Hh & Hok).
  rewrite <- (lo_price _ _ Hok). apply (lo_price q lvl). by apply (wf_find q l).
Qed.

Lemma wf_price p lvl e : level_ok p lvl -> e ∈ lv_orders lvl -> o_Price (el_value e) = p.
Proof. intros [_ _ _ Ho _] He. rewrite Forall_forall in Ho. by apply Ho. Qed.

(** A listed price has a level, and the level is of the ladder's side. *)
Lemma wf_listed s p : side_ok s -> p ∈ ladder s b ->
  exists l lvl, levels b !! p = Some l /\ heap b !! l = Some lvl /\ lv_side lvl = s /\ level_ok p lvl.
Proof.
  intros Hs Hp. apply (wf_ladder b Hwf s p Hs) in Hp as (lvl & Hat & Hside).
  unfold level_at in Hat. destruct (levels b !! p) as [l|] eqn:Hl; [|done]. simpl in Hat.
  exists l, lvl. eauto using wf_find.
Qed.

Lemma wf_level_listed p l lvl :
  levels b !! p = Some l -> heap b !! l = Some lvl -> p ∈ ladder (lv_side lvl) b.
Proof.
  intros Hl Hh. apply (wf_ladder b Hwf); [by eapply lo_side, wf_find|].
  exists lvl. by rewrite (level_at_Some b p l lvl).
Qed.

Lemma wf_indexed p l lvl e :
  levels b !! p = Some l -> heap b !! l = Some lvl -> e ∈ lv_orders lvl ->
  index b !! o_SeqID (el_value e) = Some (mkRef l e).
Proof.
  intros Hl Hh He. apply (wf_index b Hwf). exists lvl. simpl. split_and!; try done.
  by rewrite (wf_price p lvl) by eauto using wf_find.
Qed.

Lemma wf_ladder_nodup s : NoDup (ladder s b).
Proof.
  pose proof (wf_sorted b Hwf s) as Hs. induction Hs as [|x l _ IH Hx]; constructor; [|done].
  intros Hin. rewrite Forall_forall in Hx. by apply (before_irrefl s x), Hx.
Qed.
End Reading.

Lemma elem_of_mid {A} (x y : A) l1 l2 : x ∈ l1 ++ y :: l2 <-> x = y \/ x ∈ l1 ++ l2.
Proof. rewrite !elem_of_app, elem_of_cons. tauto. Qed.

Lemma bind_ext {A B} (f g : A -> list B) (l : list A) :
  (forall x, x ∈ l -> f x = g x) -> l ≫= f = l ≫= g.
Proof.
  induction l as [|x l IH]; intros H; csimpl; [done|].
  rewrite H by apply list_elem_of_here. f_equal. apply IH. intros. apply H. by right.
Qed.

(** * Replacing one level's queue

    Every mutation of the book replaces the queue at one price of one side,
    possibly emptying (and so removing) or creating the level. [placed] relates
    the book before and after such a mutation. *)

Record placed (s : OrderSide) (p : Z) (l : positive) (es : list element) (b b' : Book) : Prop := {
  pl_side : side_ok s;
  pl_heap : heap b' = <[l := mkLevel p s es]> (heap b);
  pl_levels : levels b' = if decide (es = []) then delete p (levels b) else <[p := l]> (levels b);
  pl_sorted : StronglySorted (before s) (ladder s b');
  pl_ladder : forall q, q ∈ ladder s b' <-> if decide (q = p) then es <> [] else q ∈ ladder s b;
  pl_opposite : ladder (opposite s) b' = ladder (opposite s) b;
  pl_was : (exists lvl, levels b !! p = Some l /\ heap b !! l = Some lvl /\ lv_side lvl = s) \/
           (levels b !! p = None /\ heap b !! l = None);
  pl_orders : Forall (fun e => rest_ok s p (el_value e)) es;
  pl_nodup : NoDup (el_id <$> es);
  pl_next : (next_loc b <= next_loc b')%positive /\ (l < next_loc b')%positive /\
            Forall (fun e => (el_id e < next_loc b')%positive) es;
  pl_index : forall id r, index b' !! id = Some r <->
    (ref_level r = l /\ ref_element r ∈ es /\ o_SeqID (el_value (ref_element r)) = id) \/
    (ref_level r <> l /\ index b !! id = Some r);
  pl_uncrossed : es <> [] -> forall q, q ∈ ladder (opposite s) b ->
    if decide (s = Buy) then p < q else q < p
}.

Section Placed.
Context (s : OrderSide) (p : Z) (l : positive) (es : list element) (b b' : Book).
Context (Hwf : wf b) (Hpl : placed s p l es b b').

Lemma placed_levels q :
  levels b' !! q = if decide (q = p) then (if decide (es = []) then None else Some l)
                   else levels b !! q.
Proof.
  rewrite (pl_levels _ _ _ _ _ _ Hpl). case_decide as Hes; case_decide as Hq; subst;
    simplify_map_eq; done.
Qed.

(** No other price shares the location. *)
Lemma placed_other q l' : q <> p -> levels b !! q = Some l' -> l' <> l.
Proof.
  intros Hq Hl' ->. destruct (pl_was _ _ _ _ _ _ Hpl) as [(lvl & Hl & _ & _)|[_ Hh]].
  - by apply Hq, (wf_inj b Hwf q p l).
  - destruct (wf_level b Hwf q l Hl') as (lvl & Hlvl & _). congruence.
Qed.

Lemma placed_heap_other l' : l' <> l -> heap b' !! l' = heap b !! l'.
Proof. intros. rewrite (pl_heap _ _ _ _ _ _ Hpl). by apply lookup_insert_ne. Qed.

Lemma placed_level_at q :
  level_at b' q = if decide (q = p) then (if decide (es = []) then None else Some (mkLevel p s es))
                  else level_at b q.
Proof.
  unfold level_at. rewrite placed_levels. case_decide as Hq.
  - case_decide; [done|]. simpl. rewrite (pl_heap _ _ _ _ _ _ Hpl). apply lookup_insert_eq.
  - destruct (levels b !! q) as [l'|] eqn:Hl'; [|done]. simpl.
    by apply placed_heap_other, (placed_other q).
Qed.

Lemma placed_queue q : queue b' q = if decide (q = p) then es else queue b q.
Proof. unfold queue. rewrite placed_level_at. case_decide; [|done]. by case_decide; subst. Qed.

Lemma placed_wf_ladder t q : side_ok t ->
  q ∈ ladder t b' <-> exists lvl, level_at b' q = Some lvl /\ lv_side lvl = t.
Proof.
  intros Ht. pose proof (pl_side _ _ _ _ _ _ Hpl) as Hs. rewrite placed_level_at.
  destruct (side_cases s t Hs Ht) as [-> | ->].
  - rewrite (pl_ladder _ _ _ _ _ _ Hpl). case_decide; [|by apply (wf_ladder b Hwf)].
    case_decide; naive_solver.
  - rewrite (pl_opposite _ _ _ _ _ _ Hpl), (wf_ladder b Hwf) by done.
    case_decide as Hq; [subst q|done]. split.
    + intros (lvl & Hat & Hside). exfalso. unfold level_at in Hat.
      destruct (pl_was _ _ _ _ _ _ Hpl) as [(lvl' & Hl & Hh & Hside')|[Hl _]]; rewrite Hl in Hat;
        simpl in Hat; [|done].
      simplify_eq. by destruct (opposite_ne _ Hs).
    + intros (lvl & Hat & Hside). case_decide; simplify_eq/=. by destruct (opposite_ne _ Hs).
Qed.

Lemma placed_wf_index id r :
  index b' !! id = Some r <->
  exists lvl, levels b' !! o_Price (el_value (ref_element r)) = Some (ref_level r) /\
              heap b' !! ref_level r = Some lvl /\
              ref_element r ∈ lv_orders lvl /\
              o_SeqID (el_value (ref_element r)) = id.
Proof.
  rewrite (pl_index _ _ _ _ _ _ Hpl). split.
  - intros [(Hl & He & Hid)|(Hl & Hidx)].
    + exists (mkLevel p s es). rewrite Hl, (pl_heap _ _ _ _ _ _ Hpl), placed_levels.
      pose proof (pl_orders _ _ _ _ _ _ Hpl) as Ho. rewrite Forall_forall in Ho.
      destruct (Ho _ He) as (_ & Hp & _). rewrite decide_True by done.
      rewrite decide_False by (intros ->; by apply elem_of_nil in He).
      by rewrite lookup_insert_eq.
    + apply (wf_index b Hwf) in Hidx as (lvl & Hlev & Hh & He & Hid).
      exists lvl. rewrite placed_heap_other by done. rewrite placed_levels.
      rewrite decide_False; [done|]. intros Hp. rewrite Hp in Hlev.
      destruct (pl_was _ _ _ _ _ _ Hpl) as [(? & Hl' & _)|[Hl' _]]; congruence.
  - intros (lvl & Hlev & Hh & He & Hid). rewrite placed_levels in Hlev. case_decide as Hp.
    + case_decide; [done|]. simplify_eq. rewrite (pl_heap _ _ _ _ _ _ Hpl), lookup_insert_eq in Hh.
      simplify_eq/=. by left.
    + right. pose proof (placed_other _ _ Hp Hlev) as Hne. split; [done|].
      rewrite placed_heap_other in Hh by done.
      apply (wf_index b Hwf). by exists lvl.
Qed.

Lemma placed_wf_uncrossed x y : x ∈ bids b' -> y ∈ asks b' -> x < y.
Proof.
  pose proof (pl_side _ _ _ _ _ _ Hpl) as Hs.
  pose proof (pl_ladder _ _ _ _ _ _ Hpl) as Hla. pose proof (pl_opposite _ _ _ _ _ _ Hpl) as Hop.
  pose proof (pl_uncrossed _ _ _ _ _ _ Hpl) as Hun. pose proof (wf_uncrossed b Hwf) as Hold.
  destruct Hs as [-> | ->]; simpl in *; unfold ladder in *; simpl in *.
  - intros Hx Hy. rewrite Hop in Hy. apply Hla in Hx. case_decide; subst; auto.
  - intros Hx Hy. rewrite Hop in Hx. apply Hla in Hy. case_decide; subst; auto.
Qed.

Lemma placed_wf : wf b'.
Proof.
  split.
  - intros t. pose proof (pl_side _ _ _ _ _ _ Hpl) as Hs.
    destruct (decide (side_ok t)) as [Ht|Ht].
    + destruct (side_cases s t Hs Ht) as [-> | ->]; [apply (pl_sorted _ _ _ _ _ _ Hpl)|].
      rewrite (pl_opposite _ _ _ _ _ _ Hpl). by apply (wf_sorted b Hwf).
    + destruct t; [|destruct Ht; by right|destruct Ht; by left].
      change (StronglySorted (before Sell) (ladder Sell b')).
      destruct Hs as [-> | ->]; [|apply (pl_sorted _ _ _ _ _ _ Hpl)].
      pose proof (pl_opposite _ _ _ _ _ _ Hpl) as Hop. simpl in Hop. rewrite Hop.
      by apply (wf_sorted b Hwf).
  - apply placed_wf_ladder.
  - intros q l' Hl'. rewrite placed_levels in Hl'. case_decide as Hq; subst.
    + case_decide; [done|]. simplify_eq. exists (mkLevel p s es).
      rewrite (pl_heap _ _ _ _ _ _ Hpl), lookup_insert_eq. split; [done|].
      destruct Hpl; split; simpl; done.
    + rewrite placed_heap_other by (by eapply placed_other). by apply (wf_level b Hwf).
  - apply placed_wf_index.
  - intros l' lvl Hh. destruct (pl_next _ _ _ _ _ _ Hpl) as (Hn & Hl & Hes).
    rewrite (pl_heap _ _ _ _ _ _ Hpl), lookup_insert in Hh. case_decide; simplify_eq/=; [done|].
    destruct (wf_fresh b Hwf l' lvl Hh) as [Hl' He]. split; [lia|].
    eapply Forall_impl; [exact He|]. simpl. intros. lia.
  - apply placed_wf_uncrossed.
Qed.

(** The other side of the book is untouched. *)
Lemma placed_elems_opposite : elems (opposite s) b' = elems (opposite s) b.
Proof.
  unfold elems. rewrite (pl_opposite _ _ _ _ _ _ Hpl). apply bind_ext. intros q Hq.
  rewrite placed_queue. case_decide; [subst q|done]. exfalso.
  pose proof (pl_side _ _ _ _ _ _ Hpl) as Hs.
  destruct (wf_listed b Hwf (opposite s) p) as (l' & lvl & Hl' & Hh & Hside & _);
    [auto with book|done|].
  destruct (pl_was _ _ _ _ _ _ Hpl) as [(lvl' & Hl & Hh' & Hside')|[Hl _]]; [|congruence].
  simplify_eq. by destruct (opposite_ne _ Hs).
Qed.

(** Away from [p], the queues of a part of the ladder are untouched. *)
Lemma placed_elems_part (ps : list Z) : p ∉ ps -> ps ≫= queue b' = ps ≫= queue b.
Proof.
  intros Hp. apply bind_ext. intros q Hq. rewrite placed_queue, decide_False; [done|].
  by intros ->.
Qed.
End Placed.

(** The ladder, and hence the side's priority list, after a placement. *)
Lemma sorted_ext s l k :
  StronglySorted (before s) l -> StronglySorted (before s) k -> (forall x, x ∈ l <-> x ∈ k) -> l = k.
Proof.
  assert (Hnd : forall l, StronglySorted (before s) l -> NoDup l).
  { induction 1 as [|x m _ IH Hx]; constructor; [|done]. intros Hin.
    rewrite Forall_forall in Hx. by apply (before_irrefl s x), Hx. }
  intros Hl Hk Hlk. apply (StronglySorted_unique_strong (before s)); [|done|done|].
  - intros x y _ _ Hxy Hyx. destruct (before_irrefl s x). by eapply before_trans.
  - apply NoDup_Permutation; auto.
Qed.

Lemma placed_elems s p l es b b' l1 l2 :
  wf b -> placed s p l es b b' -> StronglySorted (before s) (l1 ++ p :: l2) ->
  (ladder s b = l1 ++ p :: l2 \/ ladder s b = l1 ++ l2) ->
  elems s b' = (l1 ≫= queue b) ++ es ++ (l2 ≫= queue b).
Proof.
  intros Hwf Hpl Hsort Hlad. pose proof (sorted_mid_notin s l1 p l2 Hsort) as Hnp.
  assert (Hl' : ladder s b' = l1 ++ (if decide (es = []) then [] else [p]) ++ l2).
  { apply (sorted_ext s); [apply (pl_sorted _ _ _ _ _ _ Hpl)| |].
    - case_decide; [by apply sorted_app_mid in Hsort|done].
    - intros q. rewrite (pl_ladder _ _ _ _ _ _ Hpl).
      assert (Hq : q <> p -> q ∈ ladder s b <-> q ∈ l1 ++ l2).
      { intros. destruct Hlad as [Hlad|Hlad]; rewrite Hlad; [rewrite elem_of_mid; naive_solver|done]. }
      destruct (decide (q = p)) as [->|Hqp]; case_decide as Hes; simpl; rewrite ?elem_of_mid.
      + by split; [|intros ?%Hnp].
      + split; [by left|done].
      + by apply Hq.
      + rewrite (Hq Hqp). split; [by right|by intros [?|?]]. }
  unfold elems. rewrite Hl', !bind_app.
  apply not_elem_of_app in Hnp as [Hn1 Hn2].
  rewrite (placed_elems_part s p l es b b' Hwf Hpl l1 Hn1), (placed_elems_part s p l es b b' Hwf Hpl l2 Hn2).
  f_equal.
  destruct (decide (es = [])) as [Hes|Hes]; csimpl; [by rewrite Hes|].
  by rewrite (placed_queue s p l es b b' Hwf Hpl), decide_True, app_nil_r.
Qed.

(** * The mutations of the source as placements *)


Lemma ladder_set_ladder s t l b :
  side_ok s -> side_ok t -> ladder t (set_ladder s l b) = if decide (t = s) then l else ladder t b.
Proof. by intros [-> | ->] [-> | ->]. Qed.

(** [drop_if_empty] on a level whose queue is not empty does nothing. *)
Lemma drop_if_empty_nonempty s p l b lvl :
  heap b !! l = Some lvl -> lv_orders lvl <> [] -> drop_if_empty s p l b = Ok b.
Proof.
  intros Hh Hne. unfold drop_if_empty, level_len. rewrite Hh. simpl.
  destruct (lv_orders lvl); [done|]. done.
Qed.

Section Remove.
Context (b : Book) (Hwf : wf b) (p : Z) (l : positive) (lvl : priceLevel).
Context (es1 : list element) (e : element) (es2 : list element) (n : Z).
Context (Hl : levels b !! p = Some l) (Hh : heap b !! l = Some lvl).
Context (Ho : lv_orders lvl = es1 ++ e :: es2).
Let s := lv_side lvl.
Let b1 := set_nextTradeID n
  (set_index (delete (o_SeqID (el_value e)) (index b)) (set_orders l lvl (es1 ++ es2) b)).

Lemma remove_nodup : e ∉ es1 ++ es2.
Proof.
  pose proof (lo_nodup _ _ (wf_find b Hwf p l lvl Hl Hh)) as Hnd. rewrite Ho in Hnd.
  rewrite fmap_app, fmap_cons in Hnd.
  apply NoDup_app in Hnd as (_ & H1 & H2). apply NoDup_cons in H2 as [H2 _].
  intros [Hin|Hin]%elem_of_app.
  - apply (H1 (el_id e)); [by apply list_elem_of_fmap_2|by left].
  - apply H2. by apply list_elem_of_fmap_2.
Qed.

Lemma remove_index id r :
  delete (o_SeqID (el_value e)) (index b) !! id = Some r <->
  (ref_level r = l /\ ref_element r ∈ es1 ++ es2 /\ o_SeqID (el_value (ref_element r)) = id) \/
  (ref_level r <> l /\ index b !! id = Some r).
Proof.
  pose proof remove_nodup as Hnin.
  assert (He : index b !! o_SeqID (el_value e) = Some (mkRef l e))
    by (apply (wf_indexed b Hwf p l lvl); [done|done|rewrite Ho; apply elem_of_mid; by left]).
  rewrite lookup_delete_Some. split.
  - intros [Hid Hidx]. destruct (decide (ref_level r = l)) as [Hr|Hr]; [left|by right].
    split; [done|]. apply (wf_index b Hwf) in Hidx as (lvl' & _ & Hh' & Hin & Hseq).
    rewrite Hr, Hh in Hh'. injection Hh' as <-. rewrite Ho in Hin. split; [|done].
    apply elem_of_mid in Hin as [Heq|Hin]; [congruence|done].
  - intros [(Hr & Hin & Hid)|[Hr Hidx]].
    + assert (Hr' : index b !! id = Some r).
      { rewrite <- Hid, (wf_indexed b Hwf p l lvl); try done.
        - by destruct r; simpl in *; subst.
        - rewrite Ho. apply elem_of_mid. by right. }
      split; [|done]. intros Heq. rewrite Heq in He. rewrite He in Hr'.
      injection Hr' as <-. by apply Hnin.
    + split; [|done]. intros Heq. rewrite <- Heq, He in Hidx. by injection Hidx as <-.
Qed.

Lemma remove_orders_ok :
  Forall (fun e => rest_ok s p (el_value e)) (es1 ++ es2) /\ NoDup (el_id <$> es1 ++ es2) /\
  Forall (fun e => (el_id e < next_loc b)%positive) (es1 ++ es2).
Proof.
  destruct (wf_find b Hwf p l lvl Hl Hh) as [_ _ _ Hok Hnd].
  destruct (wf_fresh b Hwf l lvl Hh) as [_ Hfr]. rewrite Ho in Hok, Hnd, Hfr.
  rewrite fmap_app, fmap_cons in Hnd. rewrite fmap_app.
  apply NoDup_app in Hnd as (Hn1 & Hn & Hn2). apply NoDup_cons in Hn2 as [_ Hn2].
  rewrite Forall_app, Forall_cons in Hok, Hfr. rewrite !Forall_app, NoDup_app.
  split_and!; try tauto. intros x Hx Hx2. apply (Hn x Hx). by right.
Qed.

(** The ladder once the level has been dropped if it became empty. *)
Lemma remove_drop l1 l2 : ladder s b = l1 ++ p :: l2 ->
  exists b', drop_if_empty s p l b1 = Ok b' /\ placed s p l (es1 ++ es2) b b' /\
    index b' = delete (o_SeqID (el_value e)) (index b) /\
    nextTradeID b' = n /\ maxOrderID b' = maxOrderID b.
Proof.
  intros Hlad. pose proof (wf_find b Hwf p l lvl Hl Hh) as Hlok.
  pose proof (lo_side _ _ Hlok) as Hs. fold s in Hs.
  pose proof (wf_sorted b Hwf s) as Hsort. rewrite Hlad in Hsort.
  destruct remove_orders_ok as (Hok & Hnd & Hfr).
  destruct (wf_fresh b Hwf l lvl Hh) as [Hlf _].
  assert (Hun : forall q, q ∈ ladder (opposite s) b -> if decide (s = Buy) then p < q else q < p).
  { assert (Hp : p ∈ ladder s b) by (rewrite Hlad; set_solver).
    destruct Hs as [E|E]; rewrite E in *; simpl; intros q Hq; eapply (wf_uncrossed b Hwf); done. }
  assert (Hlv : mkLevel (lv_price lvl) (lv_side lvl) (es1 ++ es2) = mkLevel p s (es1 ++ es2))
    by (by rewrite (lo_price _ _ Hlok)).
  destruct (decide (es1 ++ es2 = [])) as [Hnil|Hne].
  - destruct (search_ladder_found s p (l1 ++ p :: l2)) as (k1 & k2 & Heq & Hsr);
      [done|set_solver|].
    assert (k1 = l1 /\ k2 = l2) as [-> ->].
    { pose proof (sorted_mid_notin s l1 p l2 Hsort). rewrite Heq in Hsort.
      pose proof (sorted_mid_notin s k1 p k2 Hsort).
      apply not_elem_of_app_cons_inv_l in Heq; set_solver. }
    assert (Hdrop : drop_if_empty s p l b1 =
      Ok (set_levels (delete p (levels b)) (set_ladder s (l1 ++ l2) b1))).
    { unfold drop_if_empty, level_len, removeLevel. unfold b1 at 1. simpl.
      rewrite lookup_insert_eq. simpl. rewrite Hnil. simpl.
      rewrite Hl. replace (ladder s b1) with (ladder s b) by done.
      rewrite Hlad, Hsr, length_app. simpl.
      destruct (Nat.ltb_spec (length l1) (length l1 + S (length l2))); [|lia]. simpl.
      rewrite take_app_length, drop_app_ge by lia.
      replace (S (length l1) - length l1)%nat with 1%nat by lia. simpl.
      do 2 f_equal. unfold set_ladder. by case_decide. }
    eexists. split; [exact Hdrop|]. split; [|by unfold set_ladder; case_decide].
    assert (Hrest : forall t, side_ok t -> ladder t (set_levels (delete p (levels b)) (set_ladder s (l1 ++ l2) b1))
                   = if decide (t = s) then l1 ++ l2 else ladder t b).
    { intros t Ht. etransitivity; [|exact (ladder_set_ladder s t (l1 ++ l2) b1 Hs Ht)]. by destruct t. }
    split; try done.
    + unfold set_ladder; case_decide; simpl; by rewrite Hlv.
    + rewrite decide_True by done. unfold set_ladder; by case_decide.
    + rewrite Hrest, decide_True by done. by eapply sorted_app_mid.
    + intros q. rewrite Hrest, decide_True by done. rewrite Hlad.
      pose proof (sorted_mid_notin s l1 p l2 Hsort) as Hnp.
      destruct (decide (q = p)) as [->|Hq]; [naive_solver|rewrite elem_of_mid; naive_solver].
    + rewrite Hrest, decide_False; auto with book.
    + left. by exists lvl.
    + unfold set_ladder; case_decide; simpl; (split_and!; [apply Pos.le_refl|done|done]).
    + intros id r. unfold set_ladder; case_decide; simpl; apply remove_index.
  - exists b1. split.
    { apply (drop_if_empty_nonempty _ _ _ _ (mkLevel (lv_price lvl) (lv_side lvl) (es1 ++ es2))); [|done].
      unfold b1. simpl. by rewrite lookup_insert_eq. }
    split; [|done].
    split; try done.
    + unfold b1. simpl. by rewrite Hlv.
    + rewrite decide_False by done. unfold b1. simpl. by rewrite insert_id.
    + change (ladder s b1) with (ladder s b). by rewrite Hlad.
    + intros q. change (ladder s b1) with (ladder s b). destruct (decide (q = p)) as [->|]; [|done].
      rewrite Hlad. split; [done|intros _; set_solver].
    + left. by exists lvl.
    + intros id r. unfold b1. simpl. apply remove_index.
Qed.
End Remove.

Section ReplaceFront.
Context (b : Book) (Hwf : wf b) (p : Z) (l : positive) (lvl : priceLevel).
Context (e : element) (es : list element) (n q : Z).
Context (Hl : levels b !! p = Some l) (Hh : heap b !! l = Some lvl).
Context (Ho : lv_orders lvl = e :: es) (Hq : 0 < q <= MaxInt64).
Let s := lv_side lvl.
Let e' := mkElement (next_loc b) (set_quantity q (el_value e)).
(** The partially filled maker is back at the front, as a new element. *)
Let b' := mkBook (bids b) (asks b) (<[o_SeqID (el_value e) := mkRef l e']> (index b)) (levels b)
  n (maxOrderID b) (<[l := mkLevel (lv_price lvl) (lv_side lvl) (e' :: es)]> (heap b))
  (Pos.succ (next_loc b)).

Lemma replace_index id r :
  <[o_SeqID (el_value e) := mkRef l e']> (index b) !! id = Some r <->
  (ref_level r = l /\ ref_element r ∈ e' :: es /\ o_SeqID (el_value (ref_element r)) = id) \/
  (ref_level r <> l /\ index b !! id = Some r).
Proof.
  pose proof (remove_index b Hwf p l lvl [] e es Hl Hh Ho id r) as Hrem. simpl in Hrem.
  rewrite <- insert_delete_eq, lookup_insert. case_decide as Hid.
  - split.
    + intros [= <-]. left. simpl. split_and!; [done|by left|done].
    + intros [(Hr & He & Hseq)|[Hr Hidx]].
      * apply elem_of_cons in He as [He|He]; [by destruct r; simpl in *; subst|].
        exfalso. assert (Hd : delete (o_SeqID (el_value e)) (index b) !! id = Some r)
          by (apply Hrem; by left).
        by rewrite <- Hid, lookup_delete_eq in Hd.
      * exfalso. assert (Hd : delete (o_SeqID (el_value e)) (index b) !! id = Some r)
          by (apply Hrem; by right).
        by rewrite <- Hid, lookup_delete_eq in Hd.
  - rewrite Hrem, elem_of_cons. split; [naive_solver|].
    intros [(Hr & [He|He] & Hseq)|?]; [|by left|by right].
    rewrite He in Hseq. destruct Hid. exact Hseq.
Qed.

Lemma replace_front : placed s p l (e' :: es) b b'.
Proof.
  destruct (wf_find b Hwf p l lvl Hl Hh) as [Hpr Hs _ Hok Hnd].
  destruct (wf_fresh b Hwf l lvl Hh) as [Hlf Hfr]. rewrite Ho in Hok, Hnd, Hfr.
  apply Forall_cons in Hok as [Hoke Hok]. apply Forall_cons in Hfr as [Hfre Hfr].
  rewrite fmap_cons in Hnd. apply NoDup_cons in Hnd as [_ Hnd].
  split; try done.
  - simpl. by rewrite Hpr.
  - simpl. by rewrite insert_id.
  - change (ladder s b') with (ladder s b). apply (wf_sorted b Hwf).
  - intros r. change (ladder s b') with (ladder s b). case_decide as Hr; [|done]. rewrite Hr.
    split; [done|intros _]. by apply (wf_level_listed b Hwf p l lvl).
  - left. by exists lvl.
  - constructor; [|done]. destruct Hoke as (H1 & H2 & H3 & H4). unfold rest_ok. auto.
  - rewrite fmap_cons. constructor; [|done]. simpl. intros (x & Hx & Hin)%list_elem_of_fmap.
    rewrite Forall_forall in Hfr. specialize (Hfr x Hin). rewrite <- Hx in Hfr. lia.
  - split_and!; simpl; [lia|lia|]. constructor; [simpl; lia|].
    eapply Forall_impl; [exact Hfr|]. simpl. intros. lia.
  - apply replace_index.
  - intros _ r Hr. assert (Hp : p ∈ ladder s b) by (by apply (wf_level_listed b Hwf p l lvl)).
    fold s in Hs. destruct Hs as [E|E]; rewrite E in *; simpl; eapply (wf_uncrossed b Hwf); done.
Qed.
End ReplaceFront.

Section Rest.
Context (b : Book) (Hwf : wf b) (o : Order).
Let s := o_Side o.
Let p := o_Price o.
Context (Hs : side_ok s) (Hlim : o_Type o = Limit) (Hqty : 0 < o_Quantity o <= MaxInt64).
Context (Hfresh : index b !! o_SeqID o = None).
Context (Hun : forall q, q ∈ ladder (opposite s) b -> if decide (s = Buy) then p < q else q < p).

Lemma rest_not_opposite : p ∉ ladder (opposite s) b.
Proof. intros Hp. specialize (Hun p Hp). case_decide; lia. Qed.

(** A level at the order's price is of the order's side. *)
Lemma rest_level_side l lvl :
  levels b !! p = Some l -> heap b !! l = Some lvl -> lv_side lvl = s.
Proof.
  intros Hl Hh. pose proof (wf_level_listed b Hwf p l lvl Hl Hh) as Hin.
  pose proof (lo_side _ _ (wf_find b Hwf p l lvl Hl Hh)) as Hls.
  destruct (side_cases s (lv_side lvl) Hs Hls) as [Heq|Heq]; [done|].
  rewrite Heq in Hin. by destruct rest_not_opposite.
Qed.

Lemma rest_not_listed : levels b !! p = None -> p ∉ ladder s b.
Proof. intros Hl Hp. destruct (wf_listed b Hwf s p Hs Hp) as (l & lvl & Hl' & _). congruence. Qed.

Lemma rest_ok_order : rest_ok s p o.
Proof. unfold rest_ok, s, p. auto. Qed.

(** The order joins the back of an existing queue. *)
Lemma rest_existing l lvl :
  levels b !! p = Some l -> heap b !! l = Some lvl ->
  let e := mkElement (next_loc b) o in
  placed s p l (lv_orders lvl ++ [e]) b
    (mkBook (bids b) (asks b) (<[o_SeqID o := mkRef l e]> (index b)) (levels b) (nextTradeID b)
      (maxOrderID b) (<[l := mkLevel (lv_price lvl) (lv_side lvl) (lv_orders lvl ++ [e])]> (heap b))
      (Pos.succ (next_loc b))).
Proof.
  intros Hl Hh e. pose proof (rest_level_side l lvl Hl Hh) as Hside.
  destruct (wf_find b Hwf p l lvl Hl Hh) as [Hpr _ Hne Hok Hnd].
  destruct (wf_fresh b Hwf l lvl Hh) as [Hlf Hfr].
  assert (Hne' : lv_orders lvl ++ [e] <> []) by (by destruct (lv_orders lvl)).
  split; try done; simpl.
  - by rewrite Hpr, Hside.
  - rewrite decide_False by done. by rewrite insert_id.
  - apply (wf_sorted b Hwf s).
  - intros q. destruct (decide (q = p)) as [->|]; [|done]. split; [done|intros _].
    change (p ∈ ladder s b). rewrite <- Hside. by apply (wf_level_listed b Hwf p l lvl).
  - left. by exists lvl.
  - rewrite Hside in Hok. apply Forall_app. split; [done|]. constructor; [apply rest_ok_order|done].
  - rewrite fmap_app. apply NoDup_app. split_and!; [done| |apply NoDup_singleton].
    simpl. intros x (y & Hy & Hin)%list_elem_of_fmap ->%list_elem_of_singleton.
    rewrite Forall_forall in Hfr. specialize (Hfr y Hin). rewrite <- Hy in Hfr. lia.
  - split_and!; [lia|lia|]. apply Forall_app. split.
    + eapply Forall_impl; [exact Hfr|]. simpl. intros. lia.
    + constructor; [simpl; lia|done].
  - intros id r. rewrite lookup_insert_Some, elem_of_app, list_elem_of_singleton. split.
    + intros [[Hid <-]|[Hid Hidx]]; [left; simpl; auto|].
      destruct (decide (ref_level r = l)) as [Hr|Hr]; [left|by right].
      apply (wf_index b Hwf) in Hidx as (lvl' & _ & Hh' & Hin & Hseq).
      rewrite Hr, Hh in Hh'. injection Hh' as <-. auto.
    + intros [(Hr & [Hin|Hin] & Hseq)|[Hr Hidx]].
      * right. assert (Hidx : index b !! id = Some r).
        { rewrite <- Hseq, (wf_indexed b Hwf p l lvl) by done. by destruct r; simpl in *; subst. }
        split; [|done]. intros Heq. congruence.
      * left. rewrite Hin in Hseq. simpl in Hseq. split; [done|]. by destruct r; simpl in *; subst.
      * right. split; [|done]. intros Heq. congruence.
Qed.

(** The order opens a new level at its price. *)
Lemma rest_new l1 l2 :
  levels b !! p = None -> StronglySorted (before s) (l1 ++ p :: l2) -> ladder s b = l1 ++ l2 ->
  let l := next_loc b in
  let e := mkElement (Pos.succ l) o in
  placed s p l [e] b
    (set_index (<[o_SeqID o := mkRef l e]> (index b))
      (set_next_loc (Pos.succ (Pos.succ l))
        (set_heap (<[l := mkLevel p s [e]]> (heap b))
          (set_levels (<[p := l]> (levels b)) (set_ladder s (l1 ++ p :: l2) b))))).
Proof.
  intros Hl Hsort Hlad l e.
  assert (Hnone : heap b !! l = None).
  { destruct (heap b !! l) as [lvl|] eqn:Hh; [|done].
    destruct (wf_fresh b Hwf l lvl Hh) as [Hlt _]. unfold l in Hlt. lia. }
  assert (Hlads : forall t, side_ok t ->
    ladder t (set_ladder s (l1 ++ p :: l2) b) = if decide (t = s) then l1 ++ p :: l2 else ladder t b)
    by (intros; by apply ladder_set_ladder).
  split; try done.
  - change (StronglySorted (before s) (ladder s (set_ladder s (l1 ++ p :: l2) b))).
    rewrite Hlads, decide_True by done. done.
  - intros q. change (q ∈ ladder s (set_ladder s (l1 ++ p :: l2) b) <->
      if decide (q = p) then [e] <> [] else q ∈ ladder s b).
    rewrite Hlads, decide_True by done. rewrite elem_of_mid, Hlad.
    destruct (decide (q = p)) as [->|Hq]; [split; [done|by left]|split; [by intros [?|?]|by right]].
  - change (ladder (opposite s) (set_ladder s (l1 ++ p :: l2) b) = ladder (opposite s) b).
    rewrite Hlads, decide_False; auto with book.
  - by right.
  - constructor; [apply rest_ok_order|done].
  - apply NoDup_singleton.
  - simpl. unfold l. split_and!; [lia|lia|]. constructor; [simpl; lia|done].
  - intros id r. simpl. rewrite lookup_insert_Some, list_elem_of_singleton. split.
    + intros [[Hid <-]|[Hid Hidx]]; [by left|right]. split; [|done]. intros Hr.
      apply (wf_index b Hwf) in Hidx as (lvl' & _ & Hh' & _). congruence.
    + intros [(Hr & Hin & Hseq)|[Hr Hidx]].
      * left. rewrite Hin in Hseq. simpl in Hseq. split; [done|]. by destruct r; simpl in *; subst.
      * right. split; [|done]. intros Heq. congruence.
Qed.
End Rest.
