(* ===== verification/BookSpec.v ===== *)
(** The abstract order book: what the matching engine promises.

    A book is two lists of orders in priority order (best price first, first
    come first served within a price). Matching walks the opposite list from
    its head; the remainder of a LIMIT order joins its own list behind every
    order with a price at least as good. There are no levels, pointers, indices
    or loops with fuel here: [BookRefine] proves that the code computes this. *)

From Stdlib Require Import ZArith Lia.
From stdpp Require Import base gmap list strings sorting.
From S2P Require Import Prelude Types Book BookInv.

Open Scope Z_scope.

Module Spec.
Record book := mk {
  s_bids : list Order;
  s_asks : list Order;
  s_nextTradeID : Z;
  s_maxOrderID : Z
}.

Definition empty : book := mk [] [] 0 0.

Definition side (s : OrderSide) (bk : book) : list Order :=
  if decide (s = Buy) then s_bids bk else s_asks bk.
Definition set_side (s : OrderSide) (q : list Order) (bk : book) : book :=
  if decide (s = Buy)
  then mk q (s_asks bk) (s_nextTradeID bk) (s_maxOrderID bk)
  else mk (s_bids bk) q (s_nextTradeID bk) (s_maxOrderID bk).

Record outcome := mkOutcome {
  trades : list Trade;
  prevented : list Z;
  taker : Order;        (* the incoming order with its remaining quantity *)
  rest : list Order;    (* the opposite side afterwards *)
  next : Z              (* the last trade number used *)
}.

Section Matching.
Context (now : Z -> Z) (s : OrderSide).

Fixpoint matching (n : Z) (o : Order) (q : list Order) : outcome :=
  match q with
  | [] => mkOutcome [] [] o [] n
  | m :: q' =>
    if negb (0 <? o_Quantity o) then mkOutcome [] [] o q n
    else if beyond_limit s o (o_Price m) then mkOutcome [] [] o q n
    else if selfMatch o m then
      let r := matching n o q' in
      mkOutcome (trades r) (o_SeqID m :: prevented r) (taker r) (rest r) (next r)
    else
      let fill := Z.min (o_Quantity o) (o_Quantity m) in
      let n := add64 n 1 in
      let t := mk_trade now s n (o_Price m) fill o m in
      let o := set_quantity (o_Quantity o - fill) o in
      if fill <? o_Quantity m then
        mkOutcome [t] [] o (set_quantity (o_Quantity m - fill) m :: q') n
      else
        let r := matching n o q' in
        mkOutcome (t :: trades r) (prevented r) (taker r) (rest r) (next r)
  end.
End Matching.

(** Insertion behind every order whose price is at least as good. *)
Fixpoint enqueue (s : OrderSide) (o : Order) (q : list Order) : list Order :=
  match q with
  | [] => [o]
  | m :: q' => if decide (before s (o_Price o) (o_Price m)) then o :: q else m :: enqueue s o q'
  end.

Definition submit (now : Z -> Z) (o : Order) (bk : book) : book * result oms_error MatchResult :=
  if decide (o_Side o = UnknownSide \/ o_Type o = UnknownType)
  then (bk, Fails ErrUnknownSideOrType) else
  let opp := opposite (o_Side o) in
  let r := matching now opp (s_nextTradeID bk) o (side opp bk) in
  let bk := set_side opp (rest r)
              (mk (s_bids bk) (s_asks bk) (next r) (Z.max (s_maxOrderID bk) (o_SeqID o))) in
  let o := taker r in
  if decide (o_Type o = Limit /\ 0 < o_Quantity o)
  then (set_side (o_Side o) (enqueue (o_Side o) o (side (o_Side o) bk)) bk,
        Good (mkResult (trades r) (prevented r) (o_Quantity o)))
  else (bk, Good (mkResult (trades r) (prevented r) 0)).

Definition find (id : Z) (bk : book) : option Order :=
  head (filter (fun o => o_SeqID o = id) (s_bids bk ++ s_asks bk)).

Definition cancel (id : Z) (by_ : string) (bk : book) : book * result oms_error unit :=
  match find id bk with
  | None => (bk, Fails ErrOrderNotFound)
  | Some o =>
      if decide (by_ <> "" /\ o_Placer o <> by_) then (bk, Fails (ErrNotOrderOwner id))
      else (mk (filter (fun o => o_SeqID o <> id) (s_bids bk))
               (filter (fun o => o_SeqID o <> id) (s_asks bk))
               (s_nextTradeID bk) (s_maxOrderID bk), Good tt)
  end.
End Spec.

(** The abstraction of a book. *)
Definition abs (b : Book) : Spec.book :=
  Spec.mk (resting Buy b) (resting Sell b) (nextTradeID b) (maxOrderID b).

(** * Facts about abstract matching *)

(** Splits on the four tests of [matching]: out of quantity, out of reach,
    self-match, partial or full fill. *)
Ltac matching_cases s o m :=
  destruct (Z.ltb_spec 0 (o_Quantity o)) as [?Ho|?Ho]; simpl;
    [destruct (beyond_limit s o (o_Price m)) eqn:?Hbl; simpl;
      [|destruct (selfMatch o m) eqn:?Hself; simpl;
        [|destruct (Z.ltb_spec (Z.min (o_Quantity o) (o_Quantity m)) (o_Quantity m)) as [?Hlt|?Hge];
          simpl]]|].

Section MatchingFacts.
Context (now : Z -> Z) (s : OrderSide).
Implicit Types (o m : Order) (q : list Order) (n : Z).

(** Only the quantity of the incoming order changes. *)
Lemma matching_taker n o q :
  exists k, Spec.taker (Spec.matching now s n o q) = set_quantity k o /\
    k = o_Quantity o - sumZ t_Quantity (Spec.trades (Spec.matching now s n o q)).
Proof.
  revert n o. induction q as [|m q IH]; intros n o; simpl.
  { exists (o_Quantity o). split; [by destruct o|lia]. }
  repeat case_match; simpl; try (exists (o_Quantity o); split; [by destruct o|lia]).
  - apply IH.
  - eexists. split; [reflexivity|]. lia.
  - destruct (IH (add64 n 1) (set_quantity (o_Quantity o - Z.min (o_Quantity o) (o_Quantity m)) o))
      as (k & Hk & Hq). exists k. rewrite Hk. split; [done|]. rewrite Hq. simpl. lia.
Qed.

Lemma matching_taker_nonneg n o q :
  0 <= o_Quantity o -> 0 <= o_Quantity (Spec.taker (Spec.matching now s n o q)).
Proof.
  revert n o. induction q as [|m q IH]; intros n o Ho; simpl; [done|].
  repeat case_match; simpl; try done; [auto|lia|]. apply IH. simpl. lia.
Qed.

Lemma matching_taker_le n o q :
  Forall (fun m => 0 <= o_Quantity m) q ->
  o_Quantity (Spec.taker (Spec.matching now s n o q)) <= o_Quantity o.
Proof.
  intros Hq. revert n o. induction Hq as [|m q Hm Hq IH]; intros n o; simpl; [lia|].
  destruct (Z.ltb_spec 0 (o_Quantity o)); simpl; [|lia].
  repeat case_match; simpl; try lia; [by apply IH|].
  etransitivity; [apply IH|simpl; lia].
Qed.

(** If something is left of the order, the next resting order is out of reach. *)
Lemma matching_stops n o q :
  0 < o_Quantity (Spec.taker (Spec.matching now s n o q)) ->
  match Spec.rest (Spec.matching now s n o q) with
  | [] => True
  | m :: _ => beyond_limit s o (o_Price m) = true
  end.
Proof.
  revert n o. induction q as [|m q IH]; intros n o; simpl; [done|].
  destruct (Z.ltb_spec 0 (o_Quantity o)) as [Ho|Ho]; simpl; [|lia].
  destruct (beyond_limit s o (o_Price m)) eqn:Hbl; simpl; [done|].
  destruct (selfMatch o m); simpl; [apply IH|].
  destruct (Z.ltb_spec (Z.min (o_Quantity o) (o_Quantity m)) (o_Quantity m)); simpl; [lia|].
  intros Hk. specialize (IH (add64 n 1) _ Hk). done.
Qed.


(** What a trade of the incoming order [o] against the list [q] looks like. *)
Definition sound_trade o q (t : Trade) : Prop :=
  exists m, m ∈ q /\ t_MakerSeqID t = o_SeqID m /\ t_MakerAccID t = o_Placer m /\
    t_Price t = o_Price m /\ 0 < t_Quantity t <= o_Quantity m /\
    t_TakerSeqID t = o_SeqID o /\ t_TakerAccID t = o_Placer o /\ t_Symbol t = o_Symbol o /\
    t_TakerSide t = opposite s /\ t_TimeStamp t = now (t_SeqID t) /\
    beyond_limit s o (t_Price t) = false /\ selfMatch o m = false.

Lemma sound_trade_weaken o o' q q' t :
  o' = set_quantity (o_Quantity o') o -> (forall m, m ∈ q -> m ∈ q') ->
  sound_trade o' q t -> sound_trade o q' t.
Proof.
  intros Ho Hq (m & Hm & H). exists m. rewrite Ho in H.
  unfold beyond_limit, selfMatch in *. simpl in H. auto.
Qed.

Lemma matching_sound n o q : Forall (fun m => 0 < o_Quantity m) q ->
  Forall (sound_trade o q) (Spec.trades (Spec.matching now s n o q)).
Proof.
  intros Hq. revert n o. induction Hq as [|m q Hm Hq IH]; intros n o; simpl; [constructor|].
  destruct (Z.ltb_spec 0 (o_Quantity o)) as [Ho|Ho]; simpl; [|constructor].
  destruct (beyond_limit s o (o_Price m)) eqn:Hbl; simpl; [constructor|].
  destruct (selfMatch o m) eqn:Hself; simpl.
  - eapply Forall_impl; [apply IH|]. intros t. apply sound_trade_weaken; [by destruct o|by right].
  - assert (Ht : sound_trade o (m :: q) (mk_trade now s (add64 n 1) (o_Price m)
      (Z.min (o_Quantity o) (o_Quantity m)) o m)).
    { exists m. simpl. split_and!; try done; [by left|lia|lia]. }
    case_match; simpl; constructor; try done.
    eapply Forall_impl; [apply IH|]. intros t. apply sound_trade_weaken; [done|by right].
Qed.

(** Trades are numbered consecutively. *)
Lemma matching_numbers n o q i t :
  Spec.trades (Spec.matching now s n o q) !! i = Some t -> t_SeqID t = wrap64 (n + Z.of_nat i + 1).
Proof.
  revert n o i. induction q as [|m q IH]; intros n o i; simpl; [done|].
  matching_cases s o m; try done; [apply IH| |]; destruct i as [|i]; simpl; try done;
    try (intros [= <-]; simpl; unfold add64; f_equal; lia).
  intros Ht. rewrite (IH _ _ _ Ht). apply (wrap64_eq64 _ _). unfold add64.
  rewrite eq64_wrap. apply eq64_of_eq. lia.
Qed.

Lemma matching_next n o q : Spec.next (Spec.matching now s n o q)
  = if decide (Spec.trades (Spec.matching now s n o q) = []) then n
    else wrap64 (n + Z.of_nat (length (Spec.trades (Spec.matching now s n o q)))).
Proof.
  revert n o. induction q as [|m q IH]; intros n o; simpl; [done|].
  matching_cases s o m; try done. rewrite IH.
  case_decide as Hnil; [by rewrite Hnil|].
  unfold add64. rewrite wrap64_add_l. f_equal. lia.
Qed.

(** Price-time priority: the orders touched form a prefix of the list, in
    order; all but the last are gone, and the last is at most reduced. *)
Definition not_self o : list Order -> list Order := filter (fun m => selfMatch o m = false).
Definition is_self o : list Order -> list Order := filter (fun m => selfMatch o m = true).

Definition consumes o q (r : Spec.outcome) : Prop :=
  (exists k1 k2, q = k1 ++ k2 /\ Spec.rest r = k2 /\
    t_MakerSeqID <$> Spec.trades r = o_SeqID <$> not_self o k1 /\
    t_Quantity <$> Spec.trades r = o_Quantity <$> not_self o k1 /\
    Spec.prevented r = o_SeqID <$> is_self o k1) \/
  (exists k1 m k2 d, q = k1 ++ m :: k2 /\ selfMatch o m = false /\ 0 < d < o_Quantity m /\
    Spec.rest r = set_quantity (o_Quantity m - d) m :: k2 /\ o_Quantity (Spec.taker r) = 0 /\
    t_MakerSeqID <$> Spec.trades r = (o_SeqID <$> not_self o k1) ++ [o_SeqID m] /\
    t_Quantity <$> Spec.trades r = (o_Quantity <$> not_self o k1) ++ [d] /\
    Spec.prevented r = o_SeqID <$> is_self o k1).

Lemma not_self_cons o m q :
  not_self o (m :: q) = if selfMatch o m then not_self o q else m :: not_self o q.
Proof. unfold not_self. rewrite filter_cons. by case_decide; destruct (selfMatch o m). Qed.

Lemma is_self_cons o m q :
  is_self o (m :: q) = if selfMatch o m then m :: is_self o q else is_self o q.
Proof. unfold is_self. rewrite filter_cons. by case_decide; destruct (selfMatch o m). Qed.

Lemma consumes_quantity k o q r : consumes (set_quantity k o) q r -> consumes o q r.
Proof. done. Qed.

Lemma matching_consumes n o q : Forall (fun m => 0 < o_Quantity m) q ->
  consumes o q (Spec.matching now s n o q).
Proof.
  intros Hq. revert n o. induction Hq as [|m q Hm Hq IH]; intros n o; simpl; [by left; exists [], []|].
  destruct (Z.ltb_spec 0 (o_Quantity o)) as [Ho|Ho]; simpl; [|by left; exists [], (m :: q)].
  destruct (beyond_limit s o (o_Price m)) eqn:Hbl; simpl; [by left; exists [], (m :: q)|].
  destruct (selfMatch o m) eqn:Hself; simpl.
  - destruct (IH n o) as [(k1 & k2 & -> & H1 & H2 & H3 & H4)|(k1 & m' & k2 & d & -> & H0 & Hd & H1 & H2 & H3 & H4 & H5)];
      [left; exists (m :: k1), k2|right; exists (m :: k1), m', k2, d]; simpl;
      rewrite ?not_self_cons, ?is_self_cons, ?Hself;
      rewrite ?fmap_cons; split_and!; try done; simpl; first [lia|congruence].
  - destruct (Z.ltb_spec (Z.min (o_Quantity o) (o_Quantity m)) (o_Quantity m)) as [Hlt|Hge]; simpl.
    + right. exists [], m, q, (Z.min (o_Quantity o) (o_Quantity m)). simpl. split_and!; try done; lia.
    + replace (Z.min (o_Quantity o) (o_Quantity m)) with (o_Quantity m) by lia.
      destruct (consumes_quantity _ _ _ _ (IH (add64 n 1) (set_quantity (o_Quantity o - o_Quantity m) o)))
        as [(k1 & k2 & -> & H1 & H2 & H3 & H4)|(k1 & m' & k2 & d & -> & H0 & Hd & H1 & H2 & H3 & H4 & H5)];
        [left; exists (m :: k1), k2|right; exists (m :: k1), m', k2, d]; simpl;
        rewrite ?not_self_cons, ?is_self_cons, ?Hself;
        rewrite ?fmap_cons; split_and!; try done; simpl; first [lia|by f_equal|congruence].
Qed.

(** No quantity appears or disappears: what the list held is what it still
    holds, what traded, and what self-match prevention pulled. *)
Definition conserves q (r : Spec.outcome) : Prop :=
  exists pulled, Spec.prevented r = o_SeqID <$> pulled /\ (forall m, m ∈ pulled -> m ∈ q) /\
    sumZ o_Quantity q
      = sumZ o_Quantity (Spec.rest r) + sumZ t_Quantity (Spec.trades r) + sumZ o_Quantity pulled.

Lemma conserves_stop q o n : conserves q (Spec.mkOutcome [] [] o q n).
Proof. exists []. simpl. split_and!; [done|by intros ? ?%elem_of_nil|lia]. Qed.

Lemma matching_conserves n o q : conserves q (Spec.matching now s n o q).
Proof.
  revert n o. induction q as [|m q IH]; intros n o; simpl; [apply conserves_stop|].
  matching_cases s o m; try apply conserves_stop.
  - destruct (IH n o) as (pl & Hp & Hin & Hsum). exists (m :: pl). simpl. rewrite Hp.
    split_and!; [done| |lia]. intros x [->|Hx]%elem_of_cons; [by left|right; auto].
  - exists []. simpl. split_and!; [done|by intros ? ?%elem_of_nil|lia].
  - destruct (IH (add64 n 1) (set_quantity (o_Quantity o - Z.min (o_Quantity o) (o_Quantity m)) o))
      as (pl & Hp & Hin & Hsum). exists pl. simpl. split_and!; [done| |lia]. intros x Hx. right. auto.
Qed.
End MatchingFacts.

(** Adding an order to a list and filtering it out by a fresh identifier. *)
Lemma filter_enqueue (P : Order -> Prop) `{!forall x, Decision (P x)} s o q :
  ~ P o -> filter P (Spec.enqueue s o q) = filter P q.
Proof.
  intros Ho. induction q as [|m q IH]; simpl.
  - by rewrite filter_cons, decide_False.
  - case_decide; rewrite !filter_cons; [by destruct (decide (P o))|]. by rewrite IH.
Qed.

Lemma filter_enqueue_only (P : Order -> Prop) `{!forall x, Decision (P x)} s o q :
  P o -> Forall (fun m => ~ P m) q -> filter P (Spec.enqueue s o q) = [o].
Proof.
  intros Ho Hq. induction Hq as [|m q Hm Hq IH]; simpl.
  - by rewrite filter_cons, decide_True.
  - case_decide; rewrite !filter_cons.
    + by rewrite decide_True, decide_False, filter_drop.
    + by rewrite decide_False, IH.
Qed.
