(* ===== verification/BookRefine.v ===== *)
(** The order book refines its abstract specification and keeps its invariant. *)

From Stdlib Require Import ZArith Lia.
From stdpp Require Import base gmap list strings sorting.
From S2P Require Import Prelude Types Book BookInv BookSpec.

Open Scope Z_scope.

(** * The index is the book *)

Section IndexFacts.
Context (b : Book) (Hwf : wf b).

Lemma elem_of_elems s x : side_ok s ->
  x ∈ elems s b <->
  o_Side (el_value x) = s /\ exists l, index b !! o_SeqID (el_value x) = Some (mkRef l x).
Proof.
  intros Hs. unfold elems. rewrite list_elem_of_bind. split.
  - intros (p & Hx & Hp). destruct (wf_listed b Hwf s p Hs Hp) as (l & lvl & Hl & Hh & Hside & Hok).
    rewrite (queue_eq b p l lvl Hl Hh) in Hx. split.
    + pose proof (lo_orders _ _ Hok) as Ho. rewrite Forall_forall in Ho.
      destruct (Ho x Hx) as (Hxs & _). congruence.
    + exists l. by apply (wf_indexed b Hwf p l lvl).
  - intros (Hside & l & Hidx). apply (wf_index b Hwf) in Hidx as (lvl & Hl & Hh & Hx & _).
    simpl in *. exists (o_Price (el_value x)). rewrite (queue_eq b _ l lvl Hl Hh). split; [done|].
    pose proof (wf_find b Hwf _ l lvl Hl Hh) as Hok. pose proof (lo_orders _ _ Hok) as Ho.
    rewrite Forall_forall in Ho. destruct (Ho x Hx) as (Hxs & _).
    rewrite <- Hside, Hxs. by apply (wf_level_listed b Hwf _ l lvl).
Qed.

Lemma elems_rest_ok s x : side_ok s -> x ∈ elems s b ->
  exists p, p ∈ ladder s b /\ rest_ok s p (el_value x).
Proof.
  intros Hs. unfold elems. rewrite list_elem_of_bind. intros (p & Hx & Hp).
  destruct (wf_listed b Hwf s p Hs Hp) as (l & lvl & Hl & Hh & Hside & Hok).
  rewrite (queue_eq b p l lvl Hl Hh) in Hx. exists p. split; [done|].
  pose proof (lo_orders _ _ Hok) as Ho. rewrite Forall_forall, Hside in Ho. by apply Ho.
Qed.

Lemma elems_part_nodup s (ps : list Z) : side_ok s -> NoDup ps ->
  (forall p, p ∈ ps -> p ∈ ladder s b) -> NoDup (ps ≫= queue b).
Proof.
  intros Hs. induction 1 as [|p ps Hp _ IH]; intros Hps; csimpl; [constructor|].
  assert (Hq : forall q x, q ∈ p :: ps -> x ∈ queue b q -> o_Price (el_value x) = q).
  { intros q x Hq Hx. destruct (wf_listed b Hwf s q Hs (Hps q Hq)) as (l & lvl & Hl & Hh & _ & Hok).
    rewrite (queue_eq b q l lvl Hl Hh) in Hx. by apply (wf_price q lvl). }
  apply NoDup_app. split_and!.
  - destruct (wf_listed b Hwf s p Hs (Hps p ltac:(by left))) as (l & lvl & Hl & Hh & _ & Hok).
    rewrite (queue_eq b p l lvl Hl Hh). eapply NoDup_fmap_1, (lo_nodup _ _ Hok).
  - intros x Hx (q & Hxq & Hq')%list_elem_of_bind.
    apply (Hq p x) in Hx; [|by left]. apply (Hq q x) in Hxq; [|by right]. congruence.
  - apply IH. intros. apply Hps. by right.
Qed.

Lemma elems_nodup s : side_ok s -> NoDup (elems s b).
Proof. intros Hs. apply (elems_part_nodup s); [done|by apply wf_ladder_nodup|done]. Qed.

(** The elements the index refers to are exactly those in the queues. *)
Lemma index_elems :
  (fun kv => ref_element kv.2) <$> map_to_list (index b) ≡ₚ elems Buy b ++ elems Sell b.
Proof.
  apply NoDup_Permutation.
  - apply NoDup_fmap_2_strong; [|apply NoDup_map_to_list].
    intros [i x] [j y] Hx%elem_of_map_to_list Hy%elem_of_map_to_list Heq. simpl in Heq.
    assert (i = j) as <-.
    { apply (wf_index b Hwf) in Hx as (? & _ & _ & _ & <-).
      apply (wf_index b Hwf) in Hy as (? & _ & _ & _ & <-). by rewrite Heq. }
    f_equal. congruence.
  - apply NoDup_app. split_and!; [by apply elems_nodup; left| |by apply elems_nodup; right].
    intros x [Hx _]%elem_of_elems [Hy _]%elem_of_elems; [congruence|by right|by left].
  - intros x. rewrite list_elem_of_fmap, elem_of_app. split.
    + intros ([id r] & -> & Hr%elem_of_map_to_list). simpl in *.
      destruct (proj1 (wf_index b Hwf id r) Hr) as (lvl & Hl & Hh & Hx & Hid).
      pose proof (wf_find b Hwf _ _ _ Hl Hh) as Hok. pose proof (lo_orders _ _ Hok) as Ho.
      rewrite Forall_forall in Ho. destruct (Ho _ Hx) as (Hside & _).
      assert (He : exists l, index b !! o_SeqID (el_value (ref_element r)) = Some (mkRef l (ref_element r)))
        by (exists (ref_level r); rewrite Hid; by destruct r).
      destruct (lo_side _ _ Hok) as [E|E]; rewrite E in Hside;
        [left|right]; apply elem_of_elems; auto; [by left|by right].
    + intros [Hx|Hx]; apply elem_of_elems in Hx as (_ & l & Hl); try (by left); try (by right);
        eexists (_, _); (split; [|by apply elem_of_map_to_list]); done.
Qed.

(** [RestingOrders] lists exactly the orders of both sides, each once. *)
Lemma RestingOrders_perm : RestingOrders b ≡ₚ resting Buy b ++ resting Sell b.
Proof.
  unfold RestingOrders, resting. rewrite <- fmap_app, <- index_elems, <- list_fmap_compose. done.
Qed.

Lemma RestingCount_length : RestingCount b = (length (elems Buy b) + length (elems Sell b))%nat.
Proof.
  unfold RestingCount. rewrite <- length_app, <- index_elems, length_fmap.
  by rewrite length_map_to_list.
Qed.

Lemma elems_le_count s : side_ok s -> (length (elems s b) <= RestingCount b)%nat.
Proof. rewrite RestingCount_length. intros [-> | ->]; lia. Qed.

(** The head of a side, with the level it lives in. *)
Lemma side_head s : side_ok s ->
  (ladder s b = [] /\ elems s b = []) \/
  exists p ps l lvl e es, ladder s b = p :: ps /\ levels b !! p = Some l /\ heap b !! l = Some lvl /\
    lv_side lvl = s /\ lv_orders lvl = e :: es /\ rest_ok s p (el_value e) /\
    elems s b = e :: es ++ (ps ≫= queue b).
Proof.
  intros Hs. unfold elems. destruct (ladder s b) as [|p ps] eqn:Hlad; [by left|right].
  destruct (wf_listed b Hwf s p Hs) as (l & lvl & Hl & Hh & Hside & Hok); [rewrite Hlad; by left|].
  pose proof (lo_nonempty _ _ Hok) as Hne. destruct (lv_orders lvl) as [|e es] eqn:Ho; [done|].
  exists p, ps, l, lvl, e, es. split_and!; try done.
  - pose proof (lo_orders _ _ Hok) as Hf. rewrite Ho, Hside in Hf. by apply Forall_cons in Hf as [??].
  - csimpl. by rewrite (queue_eq b p l lvl Hl Hh), Ho.
Qed.

Lemma best_ladder s : side_ok s ->
  best s b = match ladder s b with p :: _ => (p, true) | [] => (0, false) end.
Proof. by intros [-> | ->]. Qed.
End IndexFacts.

(** * The matching loop computes abstract matching *)

Lemma sub64_small a b : 0 <= b <= a -> a <= MaxInt64 -> sub64 a b = a - b.
Proof. intros. unfold sub64. apply wrap64_id. unfold64. lia. Qed.

Lemma deref_Some {A} (o : option A) a : o = Some a -> deref o = Ok a.
Proof. by intros ->. Qed.

Section Loop.
Context (now : Z -> Z) (s : OrderSide) (Hs : side_ok s).

(** What one run of the loop establishes. *)
Definition loop_post (b : Book) (o : Order) (tr : list Trade) (pv : list Z)
    (r : outcome (Book * list Trade * list Z * Order)) : Prop :=
  let out := Spec.matching now s (nextTradeID b) o (resting s b) in
  exists b', r = Ok (b', tr ++ Spec.trades out, pv ++ Spec.prevented out, Spec.taker out) /\
    wf b' /\ resting s b' = Spec.rest out /\ nextTradeID b' = Spec.next out /\
    maxOrderID b' = maxOrderID b /\ elems (opposite s) b' = elems (opposite s) b /\
    (forall id, index b !! id = None -> index b' !! id = None).

Lemma loop_post_stop b o tr pv :
  wf b -> Spec.matching now s (nextTradeID b) o (resting s b) = Spec.mkOutcome [] [] o (resting s b) (nextTradeID b) ->
  loop_post b o tr pv (Ok (b, tr, pv, o)).
Proof. intros Hwf Hm. unfold loop_post. rewrite Hm. simpl. exists b. by rewrite !app_nil_r. Qed.

Section Step.
Context (b : Book) (Hwf : wf b) (p : Z) (ps : list Z) (l : positive) (lvl : priceLevel).
Context (e : element) (es : list element).
Context (Hlad : ladder s b = p :: ps) (Hl : levels b !! p = Some l) (Hh : heap b !! l = Some lvl).
Context (Hside : lv_side lvl = s) (Ho : lv_orders lvl = e :: es).
Context (Hel : elems s b = e :: es ++ (ps ≫= queue b)).

(** Dropping the head of the side. *)
Lemma step_drop n :
  exists b', drop_if_empty s p l (set_nextTradeID n
      (set_index (delete (o_SeqID (el_value e)) (index b)) (set_orders l lvl es b))) = Ok b' /\
    wf b' /\ elems s b' = es ++ (ps ≫= queue b) /\ nextTradeID b' = n /\
    maxOrderID b' = maxOrderID b /\ elems (opposite s) b' = elems (opposite s) b /\
    (forall id, index b !! id = None -> index b' !! id = None).
Proof.
  destruct (remove_drop b Hwf p l lvl [] e es n Hl Hh Ho [] ps) as (b' & Hd & Hpl & Hi & Hn & Hm);
    [by rewrite Hside|].
  rewrite Hside in Hd, Hpl. exists b'. split; [exact Hd|].
  pose proof (wf_sorted b Hwf s) as Hsort. rewrite Hlad in Hsort.
  split_and!; try done.
  - by apply (placed_wf s p l es b b').
  - rewrite (placed_elems s p l es b b' [] ps); auto.
  - by apply (placed_elems_opposite s p l es b b').
  - intros id Hid. rewrite Hi. by apply lookup_delete_None; right.
Qed.

(** Reducing the head of the side to quantity [q]. *)
Lemma step_reduce n q : 0 < q <= MaxInt64 ->
  let e' := mkElement (next_loc b) (set_quantity q (el_value e)) in
  let b' := mkBook (bids b) (asks b) (<[o_SeqID (el_value e) := mkRef l e']> (index b)) (levels b)
    n (maxOrderID b) (<[l := mkLevel (lv_price lvl) (lv_side lvl) (e' :: es)]> (heap b))
    (Pos.succ (next_loc b)) in
  wf b' /\ elems s b' = e' :: es ++ (ps ≫= queue b) /\
  elems (opposite s) b' = elems (opposite s) b /\
  (forall id, index b !! id = None -> index b' !! id = None).
Proof.
  intros Hq e' b'. pose proof (replace_front b Hwf p l lvl e es n q Hl Hh Ho Hq) as Hpl.
  rewrite Hside in Hpl. fold e' in Hpl. rewrite <- Hside in Hpl at 2. fold b' in Hpl.
  pose proof (wf_sorted b Hwf s) as Hsort. rewrite Hlad in Hsort.
  split_and!.
  - by apply (placed_wf s p l (e' :: es) b b').
  - rewrite (placed_elems s p l (e' :: es) b b' [] ps); auto.
  - by apply (placed_elems_opposite s p l (e' :: es) b b').
  - intros id Hid. simpl. rewrite lookup_insert_ne; [done|]. intros Heq.
    rewrite <- Heq, (wf_indexed b Hwf p l lvl) in Hid; [done|done|done|]. rewrite Ho. by left.
Qed.
End Step.

Lemma match_loop_done fuel b o tr pv :
  o_Quantity o <= 0 -> match_loop now fuel s b o tr pv = Ok (b, tr, pv, o).
Proof. intros Hq. destruct fuel; cbn [match_loop]; by rewrite (proj2 (Z.ltb_ge 0 (o_Quantity o)) Hq). Qed.

(** The loop from any book without the head order computes abstract matching. *)
Definition loop_tail (fuel : nat) (tail : list element) : Prop :=
  forall b o tr pv, wf b -> elems s b = tail -> o_Quantity o <= MaxInt64 ->
    loop_post b o tr pv (match_loop now fuel s b o tr pv).

(** Continuing with the tail after one trade or one prevented order. *)
Lemma loop_continue fuel tail b b1 o tr1 pv1 tr2 pv2 :
  loop_tail fuel tail -> wf b1 -> elems s b1 = tail -> o_Quantity o <= MaxInt64 ->
  maxOrderID b1 = maxOrderID b -> elems (opposite s) b1 = elems (opposite s) b ->
  (forall id, index b !! id = None -> index b1 !! id = None) ->
  let out := Spec.matching now s (nextTradeID b1) o (el_value <$> tail) in
  exists b', match_loop now fuel s b1 o (tr1 ++ tr2) (pv1 ++ pv2) =
      Ok (b', tr1 ++ tr2 ++ Spec.trades out, pv1 ++ pv2 ++ Spec.prevented out, Spec.taker out) /\
    wf b' /\ resting s b' = Spec.rest out /\ nextTradeID b' = Spec.next out /\
    maxOrderID b' = maxOrderID b /\ elems (opposite s) b' = elems (opposite s) b /\
    (forall id, index b !! id = None -> index b' !! id = None).
Proof.
  intros Htail Hwf Hel Hq Hm Hop Hi out.
  destruct (Htail b1 o (tr1 ++ tr2) (pv1 ++ pv2) Hwf Hel Hq) as (b' & Hr & Hwf' & Hres & Hn & Hm' & Hop' & Hi').
  unfold resting at 1 2 3 in Hr. unfold resting at 2 in Hres. unfold resting in Hn.
  rewrite Hel in Hr, Hres, Hn. fold out in Hr, Hres, Hn.
  exists b'. rewrite Hr, <- !app_assoc. split_and!; auto; congruence.
Qed.

Section Iteration.
Context (fuel : nat) (b : Book) (Hwf : wf b) (p : Z) (ps : list Z) (l : positive) (lvl : priceLevel).
Context (e : element) (es : list element) (o : Order) (tr : list Trade) (pv : list Z).
Context (Hlad : ladder s b = p :: ps) (Hl : levels b !! p = Some l) (Hh : heap b !! l = Some lvl).
Context (Hside : lv_side lvl = s) (Ho : lv_orders lvl = e :: es).
Context (Hok : rest_ok s p (el_value e)) (Hel : elems s b = e :: es ++ (ps ≫= queue b)).
Context (Hq : 0 < o_Quantity o <= MaxInt64) (Hbl : beyond_limit s o p = false).
Context (Htail : loop_tail fuel (es ++ (ps ≫= queue b))).

Lemma iteration_head :
  resting s b = el_value e :: (el_value <$> es ++ (ps ≫= queue b)).
Proof. unfold resting. by rewrite Hel. Qed.

(** Unfolds the loop and the specification up to their case distinction. *)
Ltac enter_iteration :=
  destruct Hok as (_ & Hp & _ & Hmq);
  unfold loop_post; rewrite iteration_head; cbn [match_loop Spec.matching];
  rewrite (best_ladder b s Hs), Hlad, Hp, Hbl, (proj2 (Z.ltb_lt 0 (o_Quantity o)) (proj1 Hq));
  simpl; unfold popFront; rewrite (deref_Some _ _ Hl); simpl;
  rewrite (deref_Some _ _ Hh); simpl; rewrite Ho; simpl.

Lemma iteration_self : selfMatch o (el_value e) = true ->
  loop_post b o tr pv (match_loop now (S fuel) s b o tr pv).
Proof.
  intros Hself. enter_iteration. rewrite Hself.
  destruct (step_drop b Hwf p ps l lvl e es Hlad Hl Hh Hside Ho (nextTradeID b))
    as (b1 & Hd & Hwf1 & Hel1 & Hn1 & Hm1 & Hop1 & Hi1).
  change (set_index _ (set_orders l lvl es b)) with (set_nextTradeID (nextTradeID b)
    (set_index (delete (o_SeqID (el_value e)) (index b)) (set_orders l lvl es b))).
  rewrite Hd. simpl. rewrite <- Hn1.
  pose proof (loop_continue fuel _ b b1 o tr pv [] [o_SeqID (el_value e)] Htail Hwf1 Hel1
    (proj2 Hq) Hm1 Hop1 Hi1) as Hc. by rewrite app_nil_r in Hc.
Qed.

Lemma iteration_full : selfMatch o (el_value e) = false ->
  o_Quantity (el_value e) <= o_Quantity o ->
  loop_post b o tr pv (match_loop now (S fuel) s b o tr pv).
Proof.
  intros Hself Hle. enter_iteration. rewrite Hself, Z.min_r by done.
  rewrite !sub64_small by lia. rewrite Z.sub_diag, !Z.ltb_irrefl. simpl.
  destruct (step_drop b Hwf p ps l lvl e es Hlad Hl Hh Hside Ho (add64 (nextTradeID b) 1))
    as (b1 & Hd & Hwf1 & Hel1 & Hn1 & Hm1 & Hop1 & Hi1).
  change (set_nextTradeID _ _) with (set_nextTradeID (add64 (nextTradeID b) 1)
    (set_index (delete (o_SeqID (el_value e)) (index b)) (set_orders l lvl es b))).
  rewrite Hd. simpl. rewrite <- Hn1.
  pose proof (loop_continue fuel _ b b1
    (set_quantity (o_Quantity o - o_Quantity (el_value e)) o) tr pv
    [mk_trade now s (nextTradeID b1) p (o_Quantity (el_value e)) o (el_value e)] [] Htail Hwf1 Hel1
    ltac:(simpl; lia) Hm1 Hop1 Hi1) as Hc. rewrite app_nil_r in Hc. exact Hc.
Qed.

Lemma iteration_partial : selfMatch o (el_value e) = false ->
  o_Quantity o < o_Quantity (el_value e) ->
  loop_post b o tr pv (match_loop now (S fuel) s b o tr pv).
Proof.
  intros Hself Hlt. enter_iteration. rewrite Hself, Z.min_l by lia.
  rewrite !sub64_small by lia. rewrite (proj2 (Z.ltb_lt _ _) Hlt).
  rewrite (proj2 (Z.ltb_lt 0 _)) by lia.
  unfold pushFront. simpl. rewrite lookup_insert_eq. simpl.
  unfold set_orders, set_heap, set_index, set_nextTradeID, set_next_loc. simpl.
  rewrite insert_insert_eq, insert_delete_eq.
  destruct (step_reduce b Hwf p ps l lvl e es Hlad Hl Hh Hside Ho (add64 (nextTradeID b) 1)
    (o_Quantity (el_value e) - o_Quantity o)) as (Hwf1 & Hel1 & Hop1 & Hi1); [lia|].
  erewrite drop_if_empty_nonempty; [|apply lookup_insert_eq|done]. simpl.
  rewrite match_loop_done by (simpl; lia). eexists.
  split; [by rewrite app_nil_r|]. unfold resting at 1. split; [exact Hwf1|]. by rewrite Hel1.
Qed.

Lemma iteration : loop_post b o tr pv (match_loop now (S fuel) s b o tr pv).
Proof.
  destruct (selfMatch o (el_value e)) eqn:Hself; [by apply iteration_self|].
  destruct (Z.le_gt_cases (o_Quantity (el_value e)) (o_Quantity o));
    [by apply iteration_full|by apply iteration_partial].
Qed.
End Iteration.

Lemma match_loop_refines fuel b o tr pv :
  wf b -> (length (elems s b) <= fuel)%nat -> o_Quantity o <= MaxInt64 ->
  loop_post b o tr pv (match_loop now fuel s b o tr pv).
Proof.
  revert b o tr pv. induction fuel as [|fuel IH]; intros b o tr pv Hwf Hfuel Hmax.
  all: destruct (Z.le_gt_cases (o_Quantity o) 0) as [Hq|Hq];
    [rewrite match_loop_done by done; apply loop_post_stop; [done|]; destruct (resting s b); [done|];
     simpl; by rewrite (proj2 (Z.ltb_ge _ _) Hq)|].
  all: destruct (side_head b Hwf s Hs)
    as [[Hlad Hel]|(p & ps & l & lvl & e & es & Hlad & Hl & Hh & Hside & Ho & Hok & Hel)].
  1, 3: cbn [match_loop]; rewrite (best_ladder b s Hs), Hlad; case_match;
    (apply loop_post_stop; [done|]; unfold resting; by rewrite Hel).
  { rewrite Hel in Hfuel. simpl in Hfuel. lia. }
  destruct (beyond_limit s o p) eqn:Hbl.
  - cbn [match_loop]. rewrite (best_ladder b s Hs), Hlad, (proj2 (Z.ltb_lt _ _) Hq). simpl. rewrite Hbl.
    apply loop_post_stop; [done|]. unfold resting. rewrite Hel. simpl.
    destruct Hok as (_ & Hp & _). by rewrite Hp, Hbl, (proj2 (Z.ltb_lt _ _) Hq).
  - apply (iteration fuel b Hwf p ps l lvl e es); try done.
    intros b' o' tr' pv' Hwf' Hel' Hmax'. apply IH; [done| |done].
    rewrite Hel'. rewrite Hel in Hfuel. simpl in Hfuel. lia.
Qed.
End Loop.

(** * Resting the remainder *)

Lemma enqueue_app s o A C :
  (forall m, m ∈ A -> ~ before s (o_Price o) (o_Price m)) ->
  (forall m, m ∈ C -> before s (o_Price o) (o_Price m)) ->
  Spec.enqueue s o (A ++ C) = A ++ o :: C.
Proof.
  intros HA HC. induction A as [|m A IH]; simpl.
  - destruct C as [|m C]; simpl; [done|]. rewrite decide_True; [done|]. apply HC. by left.
  - rewrite decide_False by (apply HA; by left). f_equal. apply IH. intros. apply HA. by right.
Qed.

Lemma queue_price b s p x : wf b -> side_ok s -> p ∈ ladder s b -> x ∈ queue b p ->
  o_Price (el_value x) = p.
Proof.
  intros Hwf Hs Hp Hx. destruct (wf_listed b Hwf s p Hs Hp) as (l & lvl & Hl & Hh & _ & Hok).
  rewrite (queue_eq b p l lvl Hl Hh) in Hx. by apply (wf_price p lvl).
Qed.

(** A placement that appends [o] at its price is the specification's [enqueue]. *)
Lemma placed_enqueue b b' s o l e l1 l2 :
  wf b -> side_ok s -> el_value e = o ->
  placed s (o_Price o) l (queue b (o_Price o) ++ [e]) b b' ->
  StronglySorted (before s) (l1 ++ o_Price o :: l2) ->
  (ladder s b = l1 ++ o_Price o :: l2 \/ (ladder s b = l1 ++ l2 /\ queue b (o_Price o) = [])) ->
  resting s b' = Spec.enqueue s o (resting s b).
Proof.
  intros Hwf Hs He Hpl Hsort Hlad. set (p := o_Price o) in *.
  assert (Hel : elems s b = ((l1 ≫= queue b) ++ queue b p) ++ (l2 ≫= queue b)).
  { unfold elems. destruct Hlad as [Hlad|[Hlad Hq]]; rewrite Hlad, bind_app; csimpl;
      [by rewrite <- app_assoc|by rewrite Hq, app_nil_r]. }
  unfold resting. rewrite (placed_elems s p l _ b b' l1 l2) by (done || naive_solver).
  rewrite Hel, !app_assoc, <- (app_assoc (_ ++ _) [e]), !fmap_app. simpl. rewrite He.
  rewrite <- fmap_app. apply StronglySorted_app in Hsort as (H12 & _ & H2).
  inversion H2 as [|? ? _ HF]; subst. rewrite Forall_forall in HF.
  assert (Hin : forall q, q ∈ l1 \/ q ∈ l2 -> q ∈ ladder s b).
  { intros q Hq. destruct Hlad as [Hlad|[Hlad _]]; rewrite Hlad; set_solver. }
  symmetry. apply enqueue_app.
  - intros m (x & -> & Hx)%list_elem_of_fmap. apply elem_of_app in Hx as [Hx|Hx].
    + apply list_elem_of_bind in Hx as (q & Hx & Hq). rewrite (queue_price b s q x) by auto.
      intros Hb. apply (before_irrefl s q). eapply before_trans; [|exact Hb]. apply H12; [done|by left].
    + destruct Hlad as [Hlad|[_ Hq]]; [|by rewrite Hq in Hx; apply elem_of_nil in Hx].
      rewrite (queue_price b s p x); [apply before_irrefl|done|done|rewrite Hlad; set_solver|done].
  - intros m (x & -> & Hx)%list_elem_of_fmap. apply list_elem_of_bind in Hx as (q & Hx & Hq).
    rewrite (queue_price b s q x) by auto. by apply HF.
Qed.

Section RestOrder.
Context (b : Book) (Hwf : wf b) (o : Order).
Let s := o_Side o.
Context (Hs : side_ok s) (Hlim : o_Type o = Limit) (Hqty : 0 < o_Quantity o <= MaxInt64).
Context (Hfresh : index b !! o_SeqID o = None).
Context (Hun : forall q, q ∈ ladder (opposite s) b ->
  if decide (s = Buy) then o_Price o < q else q < o_Price o).

(** [getOrCreateLevel], [push] and the index update put the order in its place. *)
Lemma rest_order :
  exists b1 l b2 e, getOrCreateLevel s (o_Price o) b = (b1, l) /\ push l o b1 = Ok (b2, e) /\
    let b' := set_index (<[o_SeqID o := mkRef l e]> (index b2)) b2 in
    wf b' /\ resting s b' = Spec.enqueue s o (resting s b) /\
    elems (opposite s) b' = elems (opposite s) b /\
    nextTradeID b' = nextTradeID b /\ maxOrderID b' = maxOrderID b /\
    (forall id, index b !! id = None -> id <> o_SeqID o -> index b' !! id = None).
Proof.
  unfold getOrCreateLevel. destruct (levels b !! o_Price o) as [l|] eqn:Hl.
  - destruct (wf_level b Hwf _ l Hl) as (lvl & Hh & Hok).
    pose proof (rest_existing b Hwf o Hs Hlim Hqty Hfresh Hun l lvl Hl Hh) as Hpl.
    assert (Hside : lv_side lvl = s) by (by eapply rest_level_side).
    do 4 eexists. split; [reflexivity|]. unfold push. rewrite (deref_Some _ _ Hh). simpl.
    split; [reflexivity|]. simpl in Hpl.
    pose proof (wf_level_listed b Hwf _ l lvl Hl Hh) as Hin. rewrite Hside in Hin.
    destruct (list_elem_of_split _ _ Hin) as (l1 & l2 & Hlad).
    pose proof (wf_sorted b Hwf s) as Hsort. rewrite Hlad in Hsort.
    rewrite <- (queue_eq b _ l lvl Hl Hh) in Hpl at 1. split_and!.
    + by eapply placed_wf.
    + eapply placed_enqueue; [done|done| |exact Hpl|exact Hsort|by left]. done.
    + by eapply placed_elems_opposite.
    + done.
    + done.
    + intros id Hid Hne. simpl. by rewrite lookup_insert_ne.
  - pose proof (rest_not_listed b Hwf o Hs Hl) as Hni.
    destruct (search_ladder_insert s (o_Price o) (ladder s b)) as (l1 & l2 & Hlad & Hsr & Hsort & _);
      [apply (wf_sorted b Hwf)|done|].
    pose proof (rest_new b Hwf o Hs Hlim Hqty Hfresh Hun l1 l2 Hl Hsort Hlad) as Hpl. simpl in Hpl.
    assert (Hq0 : queue b (o_Price o) = []) by (unfold queue, level_at; by rewrite Hl).
    set (l := next_loc b) in *. set (e := mkElement (Pos.succ l) o) in *.
    set (b' := set_index (<[o_SeqID o := mkRef l e]> (index b)) _) in Hpl.
    assert (Ht : take (length l1) (ladder s b) ++ o_Price o :: drop (length l1) (ladder s b)
                 = l1 ++ o_Price o :: l2) by (by rewrite Hlad, take_app_length, drop_app_length).
    do 2 eexists. exists (set_index (index b) b'), e. split; [reflexivity|].
    unfold ladder at 2 4; simpl; fold (ladder s b). rewrite Hsr.
    split.
    { unfold push. unfold set_ladder; case_decide; simpl; rewrite lookup_insert_eq; simpl;
        unfold b', set_ladder, set_orders, set_heap; rewrite ?decide_True, ?decide_False by done; simpl;
        rewrite insert_insert_eq, <- Ht; reflexivity. }
    change (set_index _ (set_index (index b) b')) with b'. split_and!.
    + by eapply placed_wf.
    + eapply placed_enqueue; [done|done| |rewrite Hq0; exact Hpl|exact Hsort|by right]. done.
    + by eapply placed_elems_opposite.
    + unfold b', set_ladder. destruct (decide _); reflexivity.
    + unfold b', set_ladder. destruct (decide _); reflexivity.
    + intros id Hid Hne. unfold b', set_ladder. destruct (decide _); simpl; by rewrite lookup_insert_ne.
Qed.
End RestOrder.

(** * Submitting *)

Lemma wf_set_maxOrderID b n : wf b -> wf (set_maxOrderID n b).
Proof. intros []. by split. Qed.

Lemma matching_beyond now s n o q :
  0 < o_Quantity (Spec.taker (Spec.matching now s n o q)) -> o_Type o = Limit ->
  match Spec.rest (Spec.matching now s n o q) with
  | [] => True
  | m :: _ => if decide (s = Buy) then o_Price m < o_Price o else o_Price o < o_Price m
  end.
Proof.
  intros Hq Hlim. pose proof (matching_stops now s n o q Hq) as Hst. case_match; [done|].
  unfold beyond_limit in Hst. rewrite bool_decide_true in Hst by done. simpl in Hst.
  case_decide; by apply Z.ltb_lt.
Qed.

(** Once the best opposite price is out of reach, every opposite price is. *)
Lemma ladder_beyond b s pr : wf b -> side_ok s ->
  match resting s b with
  | [] => True
  | m :: _ => if decide (s = Buy) then o_Price m < pr else pr < o_Price m
  end ->
  forall q, q ∈ ladder s b -> if decide (s = Buy) then q < pr else pr < q.
Proof.
  intros Hwf Hs Hhd q Hq.
  destruct (side_head b Hwf s Hs) as [[Hlad _]|(p & ps & l & lvl & e & es & Hlad & _ & _ & _ & _ & (_ & Hp & _) & Hel)].
  { rewrite Hlad in Hq. by apply elem_of_nil in Hq. }
  unfold resting in Hhd. rewrite Hel in Hhd. simpl in Hhd. rewrite Hp in Hhd.
  pose proof (wf_sorted b Hwf s) as Hsort. rewrite Hlad in Hsort, Hq.
  apply elem_of_cons in Hq as [->|Hq]; [done|].
  inversion Hsort as [|? ? _ HF]; subst. rewrite Forall_forall in HF. specialize (HF q Hq).
  unfold before in HF. case_decide; lia.
Qed.

Lemma resting_nonneg b s : wf b -> side_ok s -> Forall (fun m => 0 <= o_Quantity m) (resting s b).
Proof.
  intros Hwf Hs. apply Forall_forall. intros m (x & -> & Hx)%list_elem_of_fmap.
  destruct (elems_rest_ok b Hwf s x Hs Hx) as (p & _ & _ & _ & _ & Hq). lia.
Qed.

Lemma elems_eq_resting s b b' : elems s b' = elems s b -> resting s b' = resting s b.
Proof. unfold resting. by intros ->. Qed.

Section Submit.
Context (now : Z -> Z) (o : Order) (b : Book) (Hwf : wf b).
Context (Hqty : o_Quantity o <= MaxInt64) (Hfresh : index b !! o_SeqID o = None).

Let b0 := if maxOrderID b <? o_SeqID o then set_maxOrderID (o_SeqID o) b else b.

Lemma submit_start : wf b0 /\ index b0 = index b /\ nextTradeID b0 = nextTradeID b /\
  maxOrderID b0 = Z.max (maxOrderID b) (o_SeqID o) /\ forall s, elems s b0 = elems s b.
Proof.
  unfold b0. destruct (Z.ltb_spec (maxOrderID b) (o_SeqID o)); simpl.
  - split_and!; [by apply wf_set_maxOrderID|done|done|lia|done].
  - split_and!; [done|done|done|lia|done].
Qed.

(** The matching phase, on the side opposite to the order's. *)
Lemma submit_match s : side_ok s ->
  loop_post now s b0 o [] [] (match_loop now (match_fuel b0) s b0 o [] []).
Proof.
  intros Hs. destruct submit_start as (Hwf0 & _). apply match_loop_refines; try done.
  unfold match_fuel. pose proof (elems_le_count b0 Hwf0 s Hs). lia.
Qed.

(** The abstraction after the matching phase. *)
Lemma submit_abs b1 opp rest n : opp = opposite (o_Side o) -> side_ok (o_Side o) ->
  resting opp b1 = rest -> nextTradeID b1 = n -> maxOrderID b1 = maxOrderID b0 ->
  elems (o_Side o) b1 = elems (o_Side o) b0 ->
  abs b1 = Spec.set_side opp rest
    (Spec.mk (resting Buy b) (resting Sell b) n (Z.max (maxOrderID b) (o_SeqID o))).
Proof.
  destruct submit_start as (_ & _ & _ & Hm0 & Hel0).
  intros -> Hs <- <- Hm1 Hop. rewrite Hm0 in Hm1. rewrite Hel0 in Hop.
  apply elems_eq_resting in Hop. unfold abs, Spec.set_side.
  destruct Hs as [E|E]; rewrite E in *; simpl; by rewrite Hop, Hm1.
Qed.

Lemma SubmitOrder_correct :
  exists b' r, SubmitOrder now o b = Ok (b', r) /\ wf b' /\
    (abs b', r) = Spec.submit now o (abs b) /\
    (forall id, index b !! id = None -> id <> o_SeqID o -> index b' !! id = None).
Proof.
  unfold SubmitOrder, Spec.submit. case_decide as Hun; [by exists b; eexists|].
  fold b0. destruct submit_start as (Hwf0 & Hi0 & Hn0 & Hm0 & Hel0).
  assert (Hs : side_ok (o_Side o)) by (unfold side_ok; destruct (o_Side o); naive_solver).
  set (opp := opposite (o_Side o)). assert (Hopp : side_ok opp) by (by apply side_ok_opposite).
  destruct (submit_match opp Hopp) as (b1 & Hr & Hwf1 & Hres1 & Hn1 & Hm1 & Hop1 & Hi1).
  rewrite Hn0 in Hr, Hres1, Hn1. unfold opp in Hop1. rewrite opposite_involutive in Hop1.
  assert (Hside : Spec.side opp (abs b) = resting opp b0)
    by (unfold Spec.side, abs, resting; rewrite Hel0; by destruct Hs as [E|E]; unfold opp; rewrite E).
  simpl. rewrite Hside. set (out := Spec.matching now opp (nextTradeID b) o (resting opp b0)) in *.
  match goal with |- context [match o_Side o with _ => _ end] =>
    replace (match o_Side o with Buy => _ | Sell => _ | _ => _ end)
      with (match_loop now (match_fuel b0) opp b0 o [] [])
      by (unfold opp; by destruct Hs as [E|E]; rewrite E) end.
  rewrite Hr. simpl.
  rewrite <- (submit_abs b1 opp (Spec.rest out) (Spec.next out)) by done.
  destruct (matching_taker now opp (nextTradeID b) o (resting opp b0)) as (k & Hk & _).
  fold out in Hk. rewrite Hk. simpl. unfold out in Hk, Hres1.
  destruct (bool_decide (o_Type o = Limit) && (0 <? k)) eqn:Hrest.
  2:{ rewrite decide_False by (rewrite <- Z.ltb_lt; intros [H1 H2]; by rewrite bool_decide_true, H2 in Hrest).
      exists b1; eexists. split; [reflexivity|]. split_and!; auto. intros; apply Hi1; by rewrite Hi0. }
  apply andb_prop in Hrest as [Hlim Hk0]. apply bool_decide_eq_true in Hlim. apply Z.ltb_lt in Hk0.
  rewrite decide_True by done.
  destruct (rest_order b1 Hwf1 (set_quantity k o)) as (b2 & l & b3 & e & Hg & Hp & Hwf' & Hres & Hop & Hn & Hm & Hi);
    simpl; try done.
  - split; [done|]. apply (f_equal o_Quantity) in Hk. simpl in Hk. rewrite <- Hk.
    etransitivity; [by apply matching_taker_le, resting_nonneg|exact Hqty].
  - by apply Hi1; rewrite Hi0.
  - intros q Hq. pose proof (ladder_beyond b1 opp (o_Price o) Hwf1 Hopp) as Hlb.
    rewrite Hres1 in Hlb. specialize (Hlb (matching_beyond now opp _ o _ ltac:(by rewrite Hk) Hlim) q Hq).
    unfold opp in Hlb. destruct Hs as [E|E]; by rewrite E in *.
  - simpl in *. rewrite Hg. rewrite Hp. simpl. eexists _, _. split; [reflexivity|].
    split_and!; [exact Hwf'| |].
    + f_equal. unfold abs, Spec.set_side, Spec.side. apply elems_eq_resting in Hop.
      destruct Hs as [E|E]; rewrite E in *; simpl in *; by rewrite Hres, Hop, Hn, Hm.
    + intros id Hid Hne. apply Hi; [|done]. apply Hi1. by rewrite Hi0.
Qed.
End Submit.

(** * Cancelling *)

Section Identity.
Context (b : Book) (Hwf : wf b).

(** Order identifiers are unique in the book. *)
Lemma resting_ids_nodup : NoDup (o_SeqID <$> resting Buy b ++ resting Sell b).
Proof.
  unfold resting. rewrite <- fmap_app, <- (index_elems b Hwf), <- !list_fmap_compose.
  rewrite (list_fmap_ext _ fst).
  - apply NoDup_fst_map_to_list.
  - intros i [id r] Hr%list_elem_of_lookup_2%elem_of_map_to_list. simpl.
    by apply (wf_index b Hwf) in Hr as (_ & _ & _ & _ & ->).
Qed.

Lemma resting_index o : o ∈ resting Buy b ++ resting Sell b ->
  exists r, index b !! o_SeqID o = Some r /\ el_value (ref_element r) = o.
Proof.
  unfold resting. rewrite <- fmap_app. intros (x & -> & Hx)%list_elem_of_fmap.
  apply elem_of_app in Hx as [Hx|Hx];
    apply (elem_of_elems b Hwf) in Hx as (_ & l & Hl); try (by left); try (by right); eauto.
Qed.

Lemma index_resting id r : index b !! id = Some r ->
  el_value (ref_element r) ∈ resting Buy b ++ resting Sell b /\
  o_SeqID (el_value (ref_element r)) = id.
Proof.
  intros Hr. pose proof Hr as Hr'. apply (wf_index b Hwf) in Hr' as (_ & _ & _ & _ & Hid).
  split; [|done]. unfold resting. rewrite <- fmap_app, <- (index_elems b Hwf).
  apply list_elem_of_fmap. exists (ref_element r). split; [done|].
  apply list_elem_of_fmap. exists (id, r). split; [done|]. by apply elem_of_map_to_list.
Qed.

Lemma resting_id_None id : index b !! id = None ->
  Forall (fun o => o_SeqID o <> id) (resting Buy b ++ resting Sell b).
Proof.
  intros Hid. apply Forall_forall. intros o Ho Heq.
  apply resting_index in Ho as (r & Hr & _). congruence.
Qed.

Lemma resting_id_Some id r : index b !! id = Some r ->
  exists k1 k2, resting Buy b ++ resting Sell b = k1 ++ el_value (ref_element r) :: k2 /\
    Forall (fun o => o_SeqID o <> id) (k1 ++ k2).
Proof.
  intros Hr. destruct (index_resting id r Hr) as [Hin Hid].
  destruct (list_elem_of_split _ _ Hin) as (k1 & k2 & Hk). exists k1, k2. split; [done|].
  pose proof resting_ids_nodup as Hnd. rewrite Hk, fmap_app, fmap_cons, Hid in Hnd.
  apply NoDup_app in Hnd as (_ & H1 & H2). apply NoDup_cons in H2 as [H2 _].
  apply Forall_forall. intros o [Ho|Ho]%elem_of_app Heq.
  - apply (H1 id); [rewrite <- Heq; by apply list_elem_of_fmap_2|by left].
  - apply H2. rewrite <- Heq. by apply list_elem_of_fmap_2.
Qed.

(** Looking an order up in the specification is looking it up in the index. *)
Lemma find_index id :
  Spec.find id (abs b) = (fun r => el_value (ref_element r)) <$> index b !! id.
Proof.
  unfold Spec.find, abs. simpl. destruct (index b !! id) as [r|] eqn:Hr; simpl.
  - destruct (resting_id_Some id r Hr) as (k1 & k2 & -> & HF).
    apply Forall_app in HF as [H1 _]. destruct (index_resting id r Hr) as [_ Hid].
    rewrite filter_app, filter_cons, decide_True by done.
    by rewrite filter_drop.
  - by rewrite filter_drop by (by apply resting_id_None).
Qed.
End Identity.

Section CancelOrder.
Context (b : Book) (Hwf : wf b) (id : Z) (r : OrderRef) (Hr : index b !! id = Some r).

(** The element unlinked by identity, and what its level keeps. *)
Lemma cancel_element :
  exists lvl es1 es2, levels b !! lv_price lvl = Some (ref_level r) /\ heap b !! ref_level r = Some lvl /\
    lv_orders lvl = es1 ++ ref_element r :: es2 /\ side_ok (lv_side lvl) /\
    filter (fun e' => el_id e' <> el_id (ref_element r)) (lv_orders lvl) = es1 ++ es2.
Proof.
  destruct (proj1 (wf_index b Hwf id r) Hr) as (lvl & Hl & Hh & Hin & _).
  pose proof (wf_find b Hwf _ _ lvl Hl Hh) as Hok.
  rewrite <- (lo_price _ _ Hok) in Hl. destruct (list_elem_of_split _ _ Hin) as (es1 & es2 & Ho).
  exists lvl, es1, es2. split_and!; try done; [by apply (lo_side _ _ Hok)|].
  pose proof (lo_nodup _ _ Hok) as Hnd. rewrite Ho in Hnd |- *.
  rewrite fmap_app, fmap_cons in Hnd. apply NoDup_app in Hnd as (_ & H1 & H2).
  apply NoDup_cons in H2 as [H2 _].
  rewrite filter_app, filter_cons, decide_False by (intros Hne; by apply Hne).
  rewrite !filter_keep; [done| |]; apply Forall_forall; intros e He Heq.
  - apply H2. rewrite <- Heq. by apply list_elem_of_fmap_2.
  - apply (H1 (el_id e)); [by apply list_elem_of_fmap_2|]. rewrite Heq. by left.
Qed.

(** No other element of the book carries the identifier. *)
Lemma cancel_unique s x : side_ok s -> x ∈ elems s b -> o_SeqID (el_value x) = id ->
  x <> ref_element r -> False.
Proof.
  intros Hs Hx Hid Hne. apply (elem_of_elems b Hwf s x Hs) in Hx as (_ & l & Hl).
  rewrite Hid, Hr in Hl. injection Hl as ->. by apply Hne.
Qed.

Lemma cancel_order :
  exists b1 lvl b', remove_element (ref_level r) (ref_element r) b = Ok b1 /\
    heap (set_index (delete id (index b1)) b1) !! ref_level r = Some lvl /\
    drop_if_empty (lv_side lvl) (lv_price lvl) (ref_level r)
      (set_index (delete id (index b1)) b1) = Ok b' /\
    wf b' /\ index b' = delete id (index b) /\ nextTradeID b' = nextTradeID b /\
    maxOrderID b' = maxOrderID b /\
    forall s, side_ok s -> resting s b' = filter (fun o => o_SeqID o <> id) (resting s b).
Proof.
  destruct cancel_element as (lvl & es1 & es2 & Hl & Hh & Ho & Hs & Hf).
  destruct (index_resting b Hwf id r Hr) as [_ Hid].
  unfold remove_element. rewrite (deref_Some _ _ Hh). simpl. rewrite Hf.
  do 2 eexists. pose proof (wf_level_listed b Hwf _ _ lvl Hl Hh) as Hin.
  destruct (list_elem_of_split _ _ Hin) as (l1 & l2 & Hlad).
  destruct (remove_drop b Hwf _ _ lvl es1 (ref_element r) es2 (nextTradeID b) Hl Hh Ho l1 l2 Hlad)
    as (b' & Hd & Hpl & Hi & Hn & Hm).
  rewrite Hid in Hd, Hi. exists b'. split; [reflexivity|].
  split; [apply lookup_insert_eq|]. split; [exact Hd|].
  split_and!; try done; [by eapply placed_wf|].
  intros s Hs'. destruct (side_cases _ s Hs Hs') as [-> | ->].
  - pose proof (wf_sorted b Hwf (lv_side lvl)) as Hsort. rewrite Hlad in Hsort.
    assert (Hel : elems (lv_side lvl) b =
      ((l1 ≫= queue b) ++ es1) ++ ref_element r :: es2 ++ (l2 ≫= queue b)).
    { unfold elems. rewrite Hlad, bind_app. csimpl. rewrite (queue_eq b _ _ lvl Hl Hh), Ho.
      by rewrite <- !app_assoc. }
    unfold resting. rewrite (placed_elems _ _ _ _ b b' l1 l2 Hwf Hpl Hsort) by auto.
    rewrite Hel, !fmap_app, fmap_cons, !fmap_app, filter_app, filter_cons, decide_False
      by (rewrite Hid; auto).
    assert (Hother : forall x, x ∈ ((l1 ≫= queue b) ++ es1) ++ es2 ++ (l2 ≫= queue b) ->
      o_SeqID (el_value x) <> id).
    { intros x Hx Heq. apply (cancel_unique _ x Hs); [rewrite Hel; by apply elem_of_mid; right|done|].
      intros ->. pose proof (elems_nodup b Hwf _ Hs) as Hnd. rewrite Hel in Hnd.
      apply NoDup_app in Hnd as (_ & H1 & H2). apply NoDup_cons in H2 as [H2 _].
      apply elem_of_app in Hx as [Hx|Hx]; [by apply (H1 _ Hx); left|done]. }
    apply Forall_forall in Hother.
    apply (Forall_fmap el_value (fun o => o_SeqID o <> id)) in Hother.
    rewrite !fmap_app, !Forall_app in Hother. destruct Hother as ((? & ?) & ? & ?).
    rewrite !filter_app, !filter_keep by done. by rewrite <- !app_assoc.
  - rewrite (elems_eq_resting _ _ _ (placed_elems_opposite _ _ _ _ b b' Hwf Hpl)).
    rewrite filter_keep; [done|]. apply Forall_fmap, Forall_forall. intros x Hx Heq.
    pose proof Hx as Hx'. apply (elem_of_elems b Hwf) in Hx' as [Hxs _]; [|done].
    apply (cancel_unique _ x (side_ok_opposite _ Hs) Hx Heq). intros ->.
    pose proof (wf_find b Hwf _ _ lvl Hl Hh) as Hok. pose proof (lo_orders _ _ Hok) as HF.
    rewrite Ho, Forall_app, Forall_cons in HF. destruct HF as (_ & (Hside & _) & _).
    rewrite Hside in Hxs. by destruct (opposite_ne _ Hs).
Qed.
End CancelOrder.

Lemma CancelOwned_correct b id by_ : wf b ->
  exists b' res, CancelOwned id by_ b = Ok (b', res) /\ wf b' /\
    (abs b', res) = Spec.cancel id by_ (abs b) /\
    index b' = (if is_good res then delete id (index b) else index b).
Proof.
  intros Hwf. unfold CancelOwned, Spec.cancel. rewrite (find_index b Hwf).
  destruct (index b !! id) as [r|] eqn:Hr; simpl; [|by exists b; eexists].
  case_decide; [by exists b; eexists|].
  destruct (cancel_order b Hwf id r Hr) as (b1 & lvl & b' & Hrem & Hh & Hd & Hwf' & Hi & Hn & Hm & Hres).
  rewrite Hrem. simpl in *. rewrite (deref_Some _ _ Hh). simpl. rewrite Hd. simpl.
  exists b', (Good tt). split_and!; try done.
  unfold abs. by rewrite Hn, Hm, !Hres by (unfold side_ok; auto).
Qed.

