(* ===== verification/BookProps.v ===== *)
(** What the order book guarantees.

    [reachable] closes the empty book under the operations of [book.go]; its
    books satisfy the invariant of [BookInv], and the theorems below follow from
    the refinement of [BookRefine]. [depth_*] and [submit_outcome] are the lemmas
    the properties share. *)

From Stdlib Require Import ZArith Lia.
From stdpp Require Import base gmap list strings sorting.
From S2P Require Import Prelude Types Book BookInv BookSpec BookRefine.

Open Scope Z_scope.

(** * Reachable books *)

(** What the sequencer ensures of an order before it reaches the book: an
    identifier no resting order has, and a quantity that is an [int64]. *)
Definition submittable (o : Order) (b : Book) : Prop :=
  o_Quantity o <= MaxInt64 /\ index b !! o_SeqID o = None.

#[global] Instance submittable_dec o b : Decision (submittable o b).
Proof. unfold submittable. apply _. Defined.

Inductive reachable : Book -> Prop :=
| reach_new : reachable NewBook
| reach_submit now o b b' r : reachable b -> submittable o b ->
    SubmitOrder now o b = Ok (b', r) -> reachable b'
| reach_cancel id by_ b b' r : reachable b ->
    CancelOwned id by_ b = Ok (b', r) -> reachable b'.

Lemma wf_NewBook : wf NewBook.
Proof.
  split.
  - intros s. unfold ladder. case_decide; constructor.
  - intros s p _. unfold ladder, level_at. simpl. split.
    + case_decide; simpl; intros ?%elem_of_nil; done.
    + intros (lvl & H & _). by rewrite lookup_empty in H.
  - intros p l H. simpl in H. by rewrite lookup_empty in H.
  - intros id r. simpl. rewrite lookup_empty. split; [done|].
    intros (lvl & H & _). by rewrite lookup_empty in H.
  - intros l lvl H. simpl in H. by rewrite lookup_empty in H.
  - intros x y H. by apply elem_of_nil in H.
Qed.

Definition ids_bounded (b : Book) : Prop :=
  forall id r, index b !! id = Some r -> id <= MaxOrderID b.

Lemma submit_maxOrderID now o b b' r : wf b -> submittable o b ->
  SubmitOrder now o b = Ok (b', r) ->
  maxOrderID b' = if is_good r then Z.max (maxOrderID b) (o_SeqID o) else maxOrderID b.
Proof.
  intros Hwf [Hq Hi] Hs.
  destruct (SubmitOrder_correct now o b Hwf Hq Hi) as (b1 & r1 & Hs1 & _ & Habs & _).
  rewrite Hs in Hs1. injection Hs1 as <- <-.
  pose proof (f_equal snd Habs) as Hr. simpl in Hr.
  pose proof (f_equal (fun x => Spec.s_maxOrderID x.1) Habs) as Hm. simpl in Hm.
  rewrite Hr, Hm. unfold Spec.submit, Spec.set_side. by repeat case_decide.
Qed.

Lemma reachable_inv b : reachable b -> wf b /\ ids_bounded b.
Proof.
  induction 1 as [|now o b b' r _ [Hwf Hid] Hsub Hs|id by_ b b' r _ [Hwf Hid] Hs].
  - split; [apply wf_NewBook|]. intros id r H. simpl in H. by rewrite lookup_empty in H.
  - pose proof (submit_maxOrderID _ _ _ _ _ Hwf Hsub Hs) as Hmax. destruct Hsub as [Hq Hi].
    destruct (SubmitOrder_correct now o b Hwf Hq Hi) as (b1 & r1 & Hs1 & Hwf1 & Habs & Hnew).
    rewrite Hs in Hs1. injection Hs1 as <- <-. split; [done|].
    intros i x Hx. unfold ids_bounded, MaxOrderID in *.
    destruct (is_good r) eqn:Hg.
    + destruct (decide (i = o_SeqID o)) as [->|Hne]; [lia|].
      destruct (index b !! i) as [y|] eqn:Hy; [apply Hid in Hy; lia|].
      by rewrite (Hnew i Hy Hne) in Hx.
    + assert (b' = b) as ->; [|by eapply Hid].
      unfold SubmitOrder in Hs. case_decide; [by injection Hs as <- <-|].
      exfalso. unfold Spec.submit in Habs. destruct (decide _); [tauto|].
      apply (f_equal snd) in Habs. simpl in Habs. subst r. by case_decide.
  - destruct (CancelOwned_correct b id by_ Hwf) as (b1 & r1 & Hs1 & Hwf1 & Habs & Hix).
    rewrite Hs in Hs1. injection Hs1 as <- <-. split; [done|].
    assert (Hm : maxOrderID b' = maxOrderID b).
    { apply (f_equal (fun x => Spec.s_maxOrderID x.1)) in Habs. simpl in Habs. rewrite Habs.
      unfold Spec.cancel. by repeat case_match. }
    intros i x. rewrite Hix. unfold MaxOrderID. rewrite Hm. destruct (is_good r); [|apply Hid].
    intros [_ Hx]%lookup_delete_Some. by apply Hid in Hx.
Qed.
#[export] Hint Resolve reach_new reach_submit reach_cancel : book.

(** * The outcome of a submission *)

Section SubmitOutcome.
Context (now : Z -> Z) (o : Order) (b b' : Book) (res : MatchResult).
Context (Hr : reachable b) (Hsub : submittable o b) (Hs : SubmitOrder now o b = Ok (b', Good res)).

Let out := Spec.matching now (opposite (o_Side o)) (nextTradeID b) o
             (resting (opposite (o_Side o)) b).

Lemma submit_side : side_ok (o_Side o).
Proof.
  unfold SubmitOrder in Hs. case_decide as Hd; [done|]. unfold side_ok.
  destruct (o_Side o); naive_solver.
Qed.

Lemma submit_taker : Spec.taker out = set_quantity (o_Quantity o - sumZ t_Quantity (Spec.trades out)) o.
Proof.
  destruct (matching_taker now (opposite (o_Side o)) (nextTradeID b) o
    (resting (opposite (o_Side o)) b)) as (k & Hk & ->). exact Hk.
Qed.

Lemma submit_outcome :
  Trades res = Spec.trades out /\ SelfPrevented res = Spec.prevented out /\
  RestingQuantity res = (if decide (o_Type o = Limit)
                         then Z.max 0 (o_Quantity (Spec.taker out)) else 0) /\
  resting (opposite (o_Side o)) b' = Spec.rest out /\ nextTradeID b' = Spec.next out /\
  resting (o_Side o) b' =
    if decide (0 < RestingQuantity res)
    then Spec.enqueue (o_Side o) (set_quantity (RestingQuantity res) o) (resting (o_Side o) b)
    else resting (o_Side o) b.
Proof.
  destruct (reachable_inv b Hr) as [Hwf _]. pose proof Hsub as [Hq Hi]. pose proof submit_side as Hside.
  destruct (SubmitOrder_correct now o b Hwf Hq Hi) as (b1 & r1 & Hs1 & _ & Habs & _).
  rewrite Hs in Hs1. injection Hs1 as <- <-. unfold Spec.submit in Habs.
  rewrite decide_False in Habs by (intros [E|E]; [by destruct Hside as [E'|E']; rewrite E in E'|];
    unfold SubmitOrder in Hs; rewrite decide_True in Hs by auto; done).
  assert (Eside : Spec.side (opposite (o_Side o)) (abs b) = resting (opposite (o_Side o)) b)
    by (unfold Spec.side, abs; by destruct Hside as [->| ->]).
  rewrite Eside in Habs. change (Spec.s_nextTradeID (abs b)) with (nextTradeID b) in Habs.
  fold out in Habs. cbv zeta in Habs. rewrite submit_taker in Habs |- *.
  set (k := o_Quantity o - _) in *. simpl o_Type in Habs. simpl o_Quantity in Habs.
  simpl o_Side in Habs. simpl.
  destruct (decide (o_Type o = Limit /\ 0 < k)) as [[Ht Hk]|Hn];
    injection Habs as Hb ->; simpl.
  - rewrite decide_True, decide_True by done. rewrite Z.max_r by lia.
    unfold Spec.set_side, Spec.side, abs in Hb. destruct Hside as [E|E]; rewrite E in *; simpl in *;
      injection Hb as H1 H2 H3 H4; rewrite ?H1, ?H2, ?H3; auto 10.
  - assert (H0 : (if decide (o_Type o = Limit) then Z.max 0 k else 0) = 0)
      by (case_decide; [|done]; destruct (decide (0 < k)); [tauto|lia]).
    rewrite H0. destruct (decide (0 < 0)) as [|_]; [lia|].
    unfold Spec.set_side, Spec.side, abs in Hb. destruct Hside as [E|E]; rewrite E in *; simpl in *;
      injection Hb as H1 H2 H3 H4; rewrite ?H1, ?H2, ?H3; auto 10.
Qed.
End SubmitOutcome.

(** * Market depth *)

(** A level's quantity is the 64-bit sum of its orders. *)
Lemma levelQuantity_sum lvl :
  levelQuantity lvl = wrap64 (sumZ o_Quantity (el_value <$> lv_orders lvl)).
Proof.
  unfold levelQuantity.
  enough (H : forall es acc, in64 acc ->
    foldl (fun total e => add64 total (o_Quantity (el_value e))) acc es
      = wrap64 (acc + sumZ (fun e => o_Quantity (el_value e)) es)).
  { by rewrite H, sumZ_fmap. }
  induction es as [|e es IH]; intros acc Hacc; simpl.
  - by rewrite Z.add_0_r, wrap64_id.
  - rewrite IH by apply wrap64_range. unfold add64. rewrite wrap64_add_l. f_equal. lia.
Qed.

Definition depth_row (b : Book) (s : OrderSide) (p : Z) : depthLevel :=
  mkDepth p (wrap64 (sumZ o_Quantity (filter (fun o => o_Price o = p) (resting s b)))).

(** The orders of one price are the level's queue. *)
Lemma resting_price b s p : wf b -> side_ok s -> p ∈ ladder s b ->
  filter (fun o => o_Price o = p) (resting s b) = el_value <$> queue b p.
Proof.
  intros Hwf Hs Hp. pose proof (wf_ladder_nodup b Hwf s) as Hnd. unfold resting, elems.
  assert (Hq : forall x, x ∈ ladder s b -> Forall (fun o => o_Price o = x) (el_value <$> queue b x)).
  { intros x Hx. apply Forall_fmap, Forall_forall. intros e He. by apply (queue_price b s). }
  assert (Hdrop : forall l, p ∉ l -> (forall x, x ∈ l -> x ∈ ladder s b) ->
    filter (fun o => o_Price o = p) (el_value <$> (l ≫= queue b)) = []).
  { intros l Hnin Hl. apply filter_drop, Forall_fmap, Forall_forall.
    intros e (x & He & Hx)%list_elem_of_bind. specialize (Hq x (Hl x Hx)).
    rewrite Forall_fmap, Forall_forall in Hq. specialize (Hq e He). simpl in Hq |- *. congruence. }
  apply list_elem_of_split in Hp as (l1 & l2 & Hl). rewrite Hl in Hnd |- *.
  apply NoDup_app in Hnd as (_ & H1 & [H2 _]%NoDup_cons).
  rewrite bind_app, bind_cons, !fmap_app, !filter_app.
  rewrite (Hdrop l1), (Hdrop l2), filter_keep, app_nil_r; try done.
  - apply Hq. rewrite Hl. apply elem_of_app. right. by left.
  - intros x Hx. rewrite Hl. apply elem_of_app. right. by right.
  - intros Hp. apply (H1 p Hp). by left.
  - intros x Hx. rewrite Hl. apply elem_of_app. by left.
Qed.

Lemma depth_rows_spec b s ps : wf b -> side_ok s -> (forall p, p ∈ ps -> p ∈ ladder s b) ->
  depth_rows ps b = Ok (depth_row b s <$> ps).
Proof.
  intros Hwf Hs. induction ps as [|p ps IH]; intros Hps; simpl; [done|].
  assert (Hp : p ∈ ladder s b) by (apply Hps; by left).
  destruct (wf_listed b Hwf s p Hs Hp) as (l & lvl & Hl & Hh & _).
  rewrite (deref_Some _ _ Hl). simpl. rewrite (deref_Some _ _ Hh). simpl.
  rewrite IH by (intros; apply Hps; by right). simpl. do 3 f_equal. unfold depth_row. f_equal.
  rewrite levelQuantity_sum, (resting_price b s p) by done. do 3 f_equal.
  by rewrite (queue_eq b p l lvl).
Qed.

(** * A small session, used to instantiate the theorems *)

Module Demo.
Definition clock (n : Z) : Z := 1000 + n.
Definition ask1 : Order := mkOrder 1 "NABIL" "ann" Limit 101 5 Sell zeroTime.
Definition ask2 : Order := mkOrder 2 "NABIL" "bob" Limit 100 4 Sell zeroTime.
Definition ask3 : Order := mkOrder 3 "NABIL" "cat" Limit 100 6 Sell zeroTime.
Definition bid4 : Order := mkOrder 4 "NABIL" "cat" Limit 101 7 Buy zeroTime.
Definition bid5 : Order := mkOrder 5 "NABIL" "dan" Limit 99 3 Buy zeroTime.

Definition book_of {A} (r : outcome (Book * A)) : Book :=
  match r with Ok (b, _) => b | _ => NewBook end.
Definition result_of {A} (r : outcome (Book * result oms_error A)) (d : A) : A :=
  match r with Ok (_, Good a) => a | _ => d end.
Definition submit (o : Order) (b : Book) : Book := book_of (SubmitOrder clock o b).
Definition response (o : Order) (b : Book) : MatchResult :=
  result_of (SubmitOrder clock o b) (mkResult [] [] 0).

Definition asks : Book := submit ask3 (submit ask2 (submit ask1 NewBook)).

Lemma submit_reachable o b : reachable b -> submittable o b -> reachable (submit o b).
Proof.
  intros Hr Hsub. destruct (reachable_inv b Hr) as [Hwf _]. pose proof Hsub as [Hq Hi].
  destruct (SubmitOrder_correct clock o b Hwf Hq Hi) as (b' & r & Hs & _).
  unfold submit. rewrite Hs. simpl. eauto with book.
Qed.

Ltac check := by apply (bool_decide_unpack _); vm_compute.

Lemma asks_reachable : reachable asks.
Proof. repeat (apply submit_reachable; [|check]). apply reach_new. Qed.

(** [cat]'s bid takes [bob]'s offer, pulls its own, and takes [ann]'s in part. *)
Definition result4 : MatchResult :=
  mkResult [mkTrade 1 "NABIL" 100 2 4 "bob" "cat" 4 Buy 1001;
            mkTrade 2 "NABIL" 101 1 4 "ann" "cat" 3 Buy 1002] [3] 0.
Example bid4_submits : SubmitOrder clock bid4 asks = Ok (submit bid4 asks, Good result4).
Proof. vm_compute. reflexivity. Qed.
Definition result5 : MatchResult := mkResult [] [] 3.
Example bid5_submits : SubmitOrder clock bid5 asks = Ok (submit bid5 asks, Good result5).
Proof. vm_compute. reflexivity. Qed.
Lemma bid4_ok : submittable bid4 asks.
Proof. check. Qed.
Lemma bid5_ok : submittable bid5 asks.
Proof. check. Qed.
End Demo.

(** * The properties *)

(** C1: On every reachable book, submitting an order terminates without
    panicking, and computes exactly what the abstract book prescribes: the same
    trades, the same self-match prevention, the same resting quantity, the same
    queues and counters, or the same rejection. *)
Theorem submit_refines now o b : reachable b -> submittable o b ->
  exists b' r, SubmitOrder now o b = Ok (b', r) /\ reachable b' /\
    (abs b', r) = Spec.submit now o (abs b).
Proof.
  intros Hr Hsub. destruct (reachable_inv b Hr) as [Hwf _]. pose proof Hsub as [Hq Hi].
  destruct (SubmitOrder_correct now o b Hwf Hq Hi) as (b' & r & Hs & _ & Habs & _).
  exists b', r. eauto with book.
Qed.

Lemma submit_refines_witness :
  exists b' r, SubmitOrder Demo.clock Demo.bid4 Demo.asks = Ok (b', r) /\ reachable b' /\
    (abs b', r) = Spec.submit Demo.clock Demo.bid4 (abs Demo.asks).
Proof. exact (submit_refines Demo.clock Demo.bid4 _ Demo.asks_reachable Demo.bid4_ok). Defined.

(** C21: On every reachable book, cancelling terminates without panicking and
    does what the abstract book prescribes: the order and nothing else is
    removed, unless it is not resting or belongs to someone else, in which case
    the book is unchanged and the caller is told. *)
Theorem cancel_refines id by_ b : reachable b ->
  exists b' r, CancelOwned id by_ b = Ok (b', r) /\ reachable b' /\
    (abs b', r) = Spec.cancel id by_ (abs b).
Proof.
  intros Hr. destruct (reachable_inv b Hr) as [Hwf _].
  destruct (CancelOwned_correct b id by_ Hwf) as (b' & r & Hs & _ & Habs & _).
  exists b', r. eauto with book.
Qed.

Lemma cancel_refines_witness :
  exists b' r, CancelOwned 3 "cat" Demo.asks = Ok (b', r) /\ reachable b' /\
    (abs b', r) = Spec.cancel 3 "cat" (abs Demo.asks).
Proof. apply (cancel_refines 3 "cat" Demo.asks), Demo.asks_reachable. Defined.

(** C23: Every reachable book is consistent: it is never crossed, each side's
    prices are strictly sorted best first, [RestingOrders] lists exactly the
    orders queued on its levels, and order identifiers are unique and at most
    [MaxOrderID] (so an identifier above it is fresh). *)
Theorem book_consistent b : reachable b ->
  (forall bid ask, BestBid b = (bid, true) -> BestAsk b = (ask, true) -> bid < ask) /\
  StronglySorted (before Buy) (bids b) /\ StronglySorted (before Sell) (asks b) /\
  RestingOrders b ≡ₚ resting Buy b ++ resting Sell b /\
  RestingCount b = length (resting Buy b ++ resting Sell b) /\
  NoDup (o_SeqID <$> RestingOrders b) /\
  Forall (fun o => o_SeqID o <= MaxOrderID b /\ o_Type o = Limit /\ 0 < o_Quantity o) (RestingOrders b) /\
  (forall o, MaxOrderID b < o_SeqID o -> o_Quantity o <= MaxInt64 -> submittable o b).
Proof.
  intros Hr. destruct (reachable_inv b Hr) as [Hwf Hid].
  pose proof (RestingOrders_perm b Hwf) as Hperm. split_and!; [| | |done| | | |].
  - unfold BestBid, BestAsk. intros bid ask Hb Ha.
    destruct (bids b) as [|x ?] eqn:Eb; [done|]. destruct (asks b) as [|y ?] eqn:Ea; [done|].
    injection Hb as <-. injection Ha as <-. apply (wf_uncrossed b Hwf); [rewrite Eb|rewrite Ea]; by left.
  - apply (wf_sorted b Hwf Buy).
  - apply (wf_sorted b Hwf Sell).
  - rewrite (RestingCount_length b Hwf), length_app. unfold resting. by rewrite !length_fmap.
  - rewrite Hperm. by apply resting_ids_nodup.
  - apply Forall_forall. intros o. rewrite Hperm. intros Ho.
    destruct (resting_index b Hwf o Ho) as (r & Hx & _). split; [by eapply Hid|].
    apply elem_of_app in Ho as [Ho|Ho]; apply list_elem_of_fmap in Ho as (x & -> & Hel);
      apply (elems_rest_ok b Hwf) in Hel as (p & _ & _ & _ & ? & ?); unfold side_ok; auto; split; auto; lia.
  - intros o Ho Hq. split; [done|]. destruct (index b !! o_SeqID o) as [r|] eqn:E; [|done].
    apply Hid in E. lia.
Qed.

Lemma book_consistent_witness : NoDup (o_SeqID <$> RestingOrders Demo.asks).
Proof. apply (book_consistent Demo.asks), Demo.asks_reachable. Defined.

Lemma resting_pos b s : reachable b -> side_ok s -> Forall (fun m => 0 < o_Quantity m) (resting s b).
Proof.
  intros Hr Hs. destruct (reachable_inv b Hr) as [Hwf _]. apply Forall_fmap, Forall_forall.
  intros x Hx. apply (elems_rest_ok b Hwf) in Hx as (p & _ & _ & _ & _ & ? & _); done.
Qed.

(** C24: Every trade is fair to both parties: it fills a resting order of the
    other side at that order's own price, within the taker's limit, for a
    positive quantity no larger than the maker offered, never against the
    taker's own order; trades are numbered consecutively from the book's counter. *)
Theorem trades_sound now o b b' res : reachable b -> submittable o b ->
  SubmitOrder now o b = Ok (b', Good res) ->
  Forall (sound_trade now (opposite (o_Side o)) o (resting (opposite (o_Side o)) b)) (Trades res) /\
  (forall i t, Trades res !! i = Some t -> t_SeqID t = wrap64 (nextTradeID b + Z.of_nat i + 1)).
Proof.
  intros Hr Hsub Hs. destruct (submit_outcome now o b b' res Hr Hsub Hs) as (-> & _).
  split; [|apply matching_numbers].
  apply matching_sound, resting_pos, side_ok_opposite, (submit_side now o b b' res); done.
Qed.

Lemma trades_sound_witness :
  Forall (sound_trade Demo.clock Sell Demo.bid4 (resting Sell Demo.asks)) (Trades Demo.result4).
Proof.
  exact (proj1 (trades_sound Demo.clock Demo.bid4 Demo.asks _ _
    Demo.asks_reachable Demo.bid4_ok Demo.bid4_submits)).
Defined.

(** C16: Price-time priority: the opposite side is consumed strictly from its
    head. The orders taken or pulled form a prefix of the queue, in order, each
    filled in full (or pulled, when the taker's own) before the next is touched;
    only the last may be left, reduced, at the head; and when the taker still
    has quantity left the new head is beyond its limit. *)
Theorem price_time_priority now o b b' res : reachable b -> submittable o b ->
  SubmitOrder now o b = Ok (b', Good res) ->
  let q := resting (opposite (o_Side o)) b in
  let left := o_Quantity o - sumZ t_Quantity (Trades res) in
  consumes o q (Spec.mkOutcome (Trades res) (SelfPrevented res) (set_quantity left o)
                  (resting (opposite (o_Side o)) b') (nextTradeID b')) /\
  (0 < left -> match resting (opposite (o_Side o)) b' with
               | [] => True
               | m :: _ => beyond_limit (opposite (o_Side o)) o (o_Price m) = true
               end).
Proof.
  intros Hr Hsub Hs q left. pose proof (submit_side now o b b' res Hs) as Hside.
  destruct (submit_outcome now o b b' res Hr Hsub Hs) as (Ht & Hp & _ & Hrest & Hnext & _).
  pose proof (submit_taker now o b) as Htk. unfold left. rewrite Ht, Hp, Hrest, Hnext. split.
  - pose proof (matching_consumes now (opposite (o_Side o)) (nextTradeID b) o q) as Hc.
    rewrite <- Htk. apply Hc, resting_pos, side_ok_opposite; done.
  - pose proof (matching_stops now (opposite (o_Side o)) (nextTradeID b) o q) as Hst.
    fold q in Htk |- *. rewrite Htk in Hst. exact Hst.
Qed.

Lemma price_time_priority_witness :
  exists left, left = 0 /\
    consumes Demo.bid4 (resting (opposite (o_Side Demo.bid4)) Demo.asks)
      (Spec.mkOutcome (Trades Demo.result4) (SelfPrevented Demo.result4) (set_quantity left Demo.bid4)
         (resting (opposite (o_Side Demo.bid4)) (Demo.submit Demo.bid4 Demo.asks))
         (nextTradeID (Demo.submit Demo.bid4 Demo.asks))).
Proof.
  pose proof (price_time_priority Demo.clock Demo.bid4 Demo.asks _ _
    Demo.asks_reachable Demo.bid4_ok Demo.bid4_submits) as [H _].
  eexists. split; [|exact H]. reflexivity.
Defined.

(** Quantity is conserved: what the opposite side loses is what traded plus
    the orders pulled by self-match prevention; the taker's quantity is what
    traded plus what rests (a LIMIT order) or lapses (a MARKET order); the
    resting remainder joins its queue behind every order at least as well priced. *)
Theorem quantity_conserved now o b b' res : reachable b -> submittable o b ->
  SubmitOrder now o b = Ok (b', Good res) ->
  conserves (resting (opposite (o_Side o)) b)
    (Spec.mkOutcome (Trades res) (SelfPrevented res) o (resting (opposite (o_Side o)) b') (nextTradeID b')) /\
  (0 <= o_Quantity o -> 0 <= o_Quantity o - sumZ t_Quantity (Trades res)) /\
  RestingQuantity res
    = (if decide (o_Type o = Limit) then Z.max 0 (o_Quantity o - sumZ t_Quantity (Trades res)) else 0) /\
  resting (o_Side o) b' =
    (if decide (0 < RestingQuantity res)
     then Spec.enqueue (o_Side o) (set_quantity (RestingQuantity res) o) (resting (o_Side o) b)
     else resting (o_Side o) b).
Proof.
  intros Hr Hsub Hs. pose proof (submit_taker now o b) as Htk.
  destruct (submit_outcome now o b b' res Hr Hsub Hs) as (Ht & Hp & Hq & Hrest & _ & Hown).
  rewrite Ht, Hp, Hrest. split_and!.
  - destruct (matching_conserves now (opposite (o_Side o)) (nextTradeID b) o
      (resting (opposite (o_Side o)) b)) as (pl & ? & ? & ?). exists pl. auto.
  - intros Hpos. apply (matching_taker_nonneg now (opposite (o_Side o)) (nextTradeID b)
      _ (resting (opposite (o_Side o)) b)) in Hpos. rewrite Htk in Hpos. exact Hpos.
  - rewrite Hq, Htk. done.
  - exact Hown.
Qed.

Lemma quantity_conserved_witness :
  RestingQuantity Demo.result5 = 3 /\
  resting Buy (Demo.submit Demo.bid5 Demo.asks)
    = Spec.enqueue Buy (set_quantity 3 Demo.bid5) (resting Buy Demo.asks).
Proof.
  destruct (quantity_conserved Demo.clock Demo.bid5 Demo.asks _ _
    Demo.asks_reachable Demo.bid5_ok Demo.bid5_submits) as (_ & _ & _ & H).
  split; [reflexivity|exact H].
Defined.

(** [Snapshot] never panics on a reachable book, and its rows are, best
    price first, each price with the (64-bit) sum of the quantities resting
    there. *)
Theorem snapshot_rows b : reachable b ->
  Snapshot b = Ok (depth_row b Buy <$> bids b, depth_row b Sell <$> asks b).
Proof.
  intros Hr. destruct (reachable_inv b Hr) as [Hwf _]. unfold Snapshot.
  rewrite (depth_rows_spec b Buy (bids b)), (depth_rows_spec b Sell (asks b));
    first [done|by left|by right].
Qed.

Lemma snapshot_rows_witness :
  Snapshot Demo.asks = Ok ([], [mkDepth 100 10; mkDepth 101 5]).
Proof. rewrite (snapshot_rows Demo.asks Demo.asks_reachable). vm_compute. reflexivity. Defined.

(** An order that neither trades nor pulls anything leaves the other side alone. *)
Lemma consumes_nothing o q r : consumes o q r ->
  Spec.trades r = [] -> Spec.prevented r = [] -> Spec.rest r = q.
Proof.
  intros [(k1 & k2 & -> & -> & Hids & _ & Hpv)|(k1 & m & k2 & d & _ & _ & _ & _ & _ & Hids & _)] Ht Hp.
  - destruct k1 as [|m k1]; [done|]. rewrite Ht, not_self_cons in Hids. rewrite Hp, is_self_cons in Hpv.
    by destruct (selfMatch o m).
  - rewrite Ht in Hids. by destruct (o_SeqID <$> not_self o k1).
Qed.

(** The specification's view of cancelling an order that just joined its queue. *)
Lemma cancel_enqueued (bk : Spec.book) o s q :
  side_ok s -> Forall (fun x => o_SeqID x <> o_SeqID o) (Spec.s_bids bk ++ Spec.s_asks bk) ->
  Spec.cancel (o_SeqID o) (o_Placer o)
      (Spec.set_side s (Spec.enqueue s (set_quantity q o) (Spec.side s bk)) bk) = (bk, Good tt).
Proof.
  intros Hs [HB HA]%Forall_app. pose (o' := set_quantity q o).
  assert (Hkeep : forall t, Forall (fun x => o_SeqID x <> o_SeqID o) t ->
    filter (fun x => o_SeqID x <> o_SeqID o) (Spec.enqueue s o' t) = t).
  { intros t Ht. rewrite filter_enqueue by (intros Hne; by apply Hne). by apply filter_keep. }
  assert (Hfind : Spec.find (o_SeqID o) (Spec.set_side s (Spec.enqueue s o' (Spec.side s bk)) bk) = Some o').
  { unfold Spec.find, Spec.set_side, Spec.side. destruct Hs as [-> | ->]; simpl;
      rewrite filter_app, filter_enqueue_only, filter_drop; done. }
  unfold Spec.cancel. fold o'. rewrite Hfind. rewrite decide_False by (intros [_ H]; by apply H).
  unfold Spec.set_side, Spec.side. destruct Hs as [-> | ->]; simpl;
    rewrite Hkeep, filter_keep by done; by destruct bk.
Qed.

(** Cancelling undoes resting: when a submitted order rests without trading,
    its owner can cancel it, and both queues are as they were before. *)
Theorem cancel_undoes_submit now o b b' res : reachable b -> submittable o b ->
  SubmitOrder now o b = Ok (b', Good res) ->
  Trades res = [] -> SelfPrevented res = [] -> 0 < RestingQuantity res ->
  exists b'', CancelOwned (o_SeqID o) (o_Placer o) b' = Ok (b'', Good tt) /\
    resting Buy b'' = resting Buy b /\ resting Sell b'' = resting Sell b.
Proof.
  intros Hr Hsub Hs Ht0 Hp0 Hpos. destruct (reachable_inv b Hr) as [Hwf _].
  destruct (reachable_inv b' (reach_submit now o b b' _ Hr Hsub Hs)) as [Hwf' _].
  pose proof (submit_side now o b b' res Hs) as Hside.
  destruct (submit_outcome now o b b' res Hr Hsub Hs) as (Ht & Hp & _ & Hrest & _ & Hown).
  rewrite (consumes_nothing o _ _ (matching_consumes _ _ _ _ _
    (resting_pos b _ Hr (side_ok_opposite _ Hside)))) in Hrest by congruence.
  rewrite decide_True in Hown by done.
  assert (Habs' : abs b' = Spec.set_side (o_Side o)
    (Spec.enqueue (o_Side o) (set_quantity (RestingQuantity res) o) (resting (o_Side o) b))
    (Spec.mk (resting Buy b) (resting Sell b) (nextTradeID b') (maxOrderID b'))).
  { unfold abs, Spec.set_side. destruct Hside as [E|E]; rewrite E in *; simpl in *; congruence. }
  destruct (CancelOwned_correct b' (o_SeqID o) (o_Placer o) Hwf') as (b2 & r & Hc & _ & Habs & _).
  pose proof (cancel_enqueued (Spec.mk (resting Buy b) (resting Sell b) (nextTradeID b') (maxOrderID b'))
    o (o_Side o) (RestingQuantity res) Hside (resting_id_None b Hwf _ (proj2 Hsub))) as Hspec.
  assert (Eside : Spec.side (o_Side o) (Spec.mk (resting Buy b) (resting Sell b) (nextTradeID b') (maxOrderID b'))
    = resting (o_Side o) b) by (by destruct Hside as [-> | ->]).
  rewrite Eside, <- Habs' in Hspec. rewrite Hspec in Habs. injection Habs as HB HA _ _ ->.
  exists b2. auto.
Qed.

Lemma cancel_undoes_submit_witness :
  exists b'', CancelOwned (o_SeqID Demo.bid5) (o_Placer Demo.bid5) (Demo.submit Demo.bid5 Demo.asks)
      = Ok (b'', Good tt) /\
    resting Buy b'' = resting Buy Demo.asks /\ resting Sell b'' = resting Sell Demo.asks.
Proof.
  exact (cancel_undoes_submit Demo.clock Demo.bid5 Demo.asks _ _ Demo.asks_reachable
    Demo.bid5_ok Demo.bid5_submits eq_refl eq_refl eq_refl).
Defined.
