(* ===== verification/Accounts.v ===== *)
(** The account store of [src/internal/oms/accounts.go]: what each account owns,
    what its live orders hold, and the check-and-reserve of the venue.

    Every Go method runs under one mutex, so each is one atomic function on the
    record [Accounts]. A Go map read of an absent key is [0] ([zlookup], [zlookup2]);
    additions wrap at 64 bits. *)

From Stdlib Require Import ZArith Lia.
From stdpp Require Import base gmap list strings.
From S2P Require Import Prelude Types.

Open Scope Z_scope.

(** * State *)

(** [holdKey]: a symbol and an order identifier. *)
Notation holdKey := (string * Z)%type.

Record hold := mkHold {
  h_account : string;
  h_symbol : string;
  h_side : OrderSide;
  h_price : Z;
  h_qty : Z
}.

#[global] Instance hold_eq_dec : EqDecision hold.
Proof. solve_decision. Defined.

Record Accounts := mkAccounts {
  cash : gmap string Z;
  positions : gmap string (gmap string Z);
  reservedCash : gmap string Z;
  reservedShares : gmap string (gmap string Z);
  holds : gmap holdKey hold
}.

Definition NewAccounts : Accounts := mkAccounts ∅ ∅ ∅ ∅ ∅.

Definition set_cash (c : gmap string Z) (a : Accounts) : Accounts :=
  mkAccounts c (positions a) (reservedCash a) (reservedShares a) (holds a).
Definition set_positions (p : gmap string (gmap string Z)) (a : Accounts) : Accounts :=
  mkAccounts (cash a) p (reservedCash a) (reservedShares a) (holds a).
Definition set_reservedCash (r : gmap string Z) (a : Accounts) : Accounts :=
  mkAccounts (cash a) (positions a) r (reservedShares a) (holds a).
Definition set_reservedShares (r : gmap string (gmap string Z)) (a : Accounts) : Accounts :=
  mkAccounts (cash a) (positions a) (reservedCash a) r (holds a).
Definition set_holds (h : gmap holdKey hold) (a : Accounts) : Accounts :=
  mkAccounts (cash a) (positions a) (reservedCash a) (reservedShares a) h.

(** [m[account][symbol]] and the inner map a write creates on demand. *)
Definition inner (m : gmap string (gmap string Z)) (account : string) : gmap string Z :=
  default ∅ (m !! account).
Definition zlookup2 (m : gmap string (gmap string Z)) (account symbol : string) : Z :=
  zlookup (inner m account) symbol.

(** * Balances *)

Definition Deposit (account : string) (amount : Z) (a : Accounts) : Accounts :=
  set_cash (zadd account amount (cash a)) a.

Definition setPositionLocked (account symbol : string) (qty : Z) (a : Accounts) : Accounts :=
  set_positions (<[account := <[symbol := qty]> (inner (positions a) account)]> (positions a)) a.
Definition SetPosition := setPositionLocked.

Definition Cash (account : string) (a : Accounts) : Z := zlookup (cash a) account.
Definition Position (account symbol : string) (a : Accounts) : Z :=
  zlookup2 (positions a) account symbol.
Definition ReservedCash (account : string) (a : Accounts) : Z := zlookup (reservedCash a) account.
Definition ReservedPosition (account symbol : string) (a : Accounts) : Z :=
  zlookup2 (reservedShares a) account symbol.
Definition AvailableCash (account : string) (a : Accounts) : Z :=
  sub64 (Cash account a) (ReservedCash account a).
Definition AvailablePosition (account symbol : string) (a : Accounts) : Z :=
  sub64 (Position account symbol a) (ReservedPosition account symbol a).

Definition existsLocked (account : string) (a : Accounts) : bool :=
  bool_decide (is_Some (cash a !! account)) || bool_decide (is_Some (positions a !! account)).
Definition Exists := existsLocked.

Definition HoldCount (a : Accounts) : nat := size (holds a).

(** * Arithmetic *)

(** [math.MaxInt64/quantity] is Go's truncated division, here of two
    non-negative numbers. *)
Definition notional (price quantity : Z) : result oms_error Z :=
  if (price <? 0) || (quantity <? 0) then Fails ErrNegative
  else if negb (quantity =? 0) && (Z.quot MaxInt64 quantity <? price) then Fails ErrOverflow
  else Good (mul64 price quantity).

(** * Reservations *)

Definition addReservedSharesLocked (account symbol : string) (delta : Z) (a : Accounts) : Accounts :=
  let m := zadd symbol delta (inner (reservedShares a) account) in
  let m := if zlookup m symbol =? 0 then delete symbol m else m in
  set_reservedShares (<[account := m]> (reservedShares a)) a.

Definition put_hold (key : holdKey) (h : hold) (a : Accounts) : Accounts :=
  set_holds (<[key := h]> (holds a)) a.

Definition Reserve (o : Order) (a : Accounts) : Accounts * result oms_error unit :=
  if negb (existsLocked (o_Placer o) a) then (a, Fails ErrUnknownAccount) else
  if o_Quantity o <=? 0 then (a, Fails ErrQuantityNotPositive) else
  let key := (o_Symbol o, o_SeqID o) in
  if bool_decide (is_Some (holds a !! key)) then (a, Fails ErrDuplicateReservation) else
  if decide (o_Side o = Sell) then
    let available := AvailablePosition (o_Placer o) (o_Symbol o) a in
    if available <? o_Quantity o then (a, Fails ErrInsufficientShares)
    else
      let a := addReservedSharesLocked (o_Placer o) (o_Symbol o) (o_Quantity o) a in
      (put_hold key (mkHold (o_Placer o) (o_Symbol o) Sell (o_Price o) (o_Quantity o)) a, Good tt)
  else
    let available := AvailableCash (o_Placer o) a in
    if decide (o_Type o = Market) then
      if available <=? 0 then (a, Fails ErrInsufficientFunds)
      else (put_hold key (mkHold (o_Placer o) (o_Symbol o) Buy 0 (o_Quantity o)) a, Good tt)
    else
      match notional (o_Price o) (o_Quantity o) with
      | Fails e => (a, Fails e)
      | Good cost =>
          if available <? cost then (a, Fails ErrInsufficientFunds)
          else
            let a := set_reservedCash (zadd (o_Placer o) cost (reservedCash a)) a in
            (put_hold key (mkHold (o_Placer o) (o_Symbol o) Buy (o_Price o) (o_Quantity o)) a, Good tt)
      end.

Definition RestoreHold (symbol : string) (o : Order) (a : Accounts) : Accounts :=
  let key := (symbol, o_SeqID o) in
  if bool_decide (is_Some (holds a !! key)) then a else
  if decide (o_Side o = Sell) then
    put_hold key (mkHold (o_Placer o) symbol Sell (o_Price o) (o_Quantity o))
      (addReservedSharesLocked (o_Placer o) symbol (o_Quantity o) a)
  else
    let a := match notional (o_Price o) (o_Quantity o) with
             | Good cost => set_reservedCash (zadd (o_Placer o) cost (reservedCash a)) a
             | Fails _ => a
             end in
    put_hold key (mkHold (o_Placer o) symbol Buy (o_Price o) (o_Quantity o)) a.

(** [shrinkHoldLocked] mutates the hold through its pointer; the map entry at
    [key] is that object, so the shrunken hold is written back there. *)
Definition shrinkHoldLocked (key : holdKey) (h : hold) (qty : Z) (a : Accounts) : Accounts :=
  if qty <=? 0 then a else
  let qty := if h_qty h <? qty then h_qty h else qty in
  let a := put_hold key (mkHold (h_account h) (h_symbol h) (h_side h) (h_price h) (sub64 (h_qty h) qty)) a in
  if decide (h_side h = Sell) then addReservedSharesLocked (h_account h) (h_symbol h) (wrap64 (- qty)) a else
  if h_price h =? 0 then a else
  match notional (h_price h) qty with
  | Fails _ => a
  | Good freed =>
      let r := zadd (h_account h) (wrap64 (- freed)) (reservedCash a) in
      let r := if zlookup r (h_account h) =? 0 then delete (h_account h) r else r in
      set_reservedCash r a
  end.

Definition drop_hold (key : holdKey) (a : Accounts) : Accounts :=
  set_holds (delete key (holds a)) a.

Definition releaseLocked (key : holdKey) (a : Accounts) : Accounts :=
  match holds a !! key with
  | None => a
  | Some h => drop_hold key (shrinkHoldLocked key h (h_qty h) a)
  end.
Definition Release (symbol : string) (orderID : Z) (a : Accounts) : Accounts :=
  releaseLocked (symbol, orderID) a.

(** * Completing an order *)

Definition shrinkTradedLocked (symbol : string) (orderID qty : Z) (a : Accounts) : Accounts :=
  let key := (symbol, orderID) in
  match holds a !! key with
  | None => a
  | Some h =>
      let a := shrinkHoldLocked key h qty a in
      match holds a !! key with
      | Some h' => if h_qty h' =? 0 then drop_hold key a else a
      | None => a
      end
  end.

Definition addPositionLocked (account symbol : string) (delta : Z) (a : Accounts) : Accounts :=
  set_positions
    (<[account := zadd symbol delta (inner (positions a) account)]> (positions a)) a.

(** One iteration of [Complete]'s loop over the trades. *)
Definition complete_trade (symbol : string) (a : Accounts) (t : Trade) : Accounts :=
  match notional (t_Price t) (t_Quantity t) with
  | Fails _ => a
  | Good value =>
      let a := set_cash (zadd (Buyer t) (wrap64 (- value)) (cash a)) a in
      let a := set_cash (zadd (Seller t) value (cash a)) a in
      let a := addPositionLocked (Buyer t) (t_Symbol t) (t_Quantity t) a in
      let a := addPositionLocked (Seller t) (t_Symbol t) (wrap64 (- t_Quantity t)) a in
      let a := shrinkTradedLocked symbol (t_MakerSeqID t) (t_Quantity t) a in
      shrinkTradedLocked symbol (t_TakerSeqID t) (t_Quantity t) a
  end.

Definition Complete (symbol : string) (orderID : Z) (trades : list Trade) (restingQuantity : Z)
    (selfPrevented : list Z) (a : Accounts) : Accounts :=
  let a := foldl (complete_trade symbol) a trades in
  let a := foldl (fun a id => releaseLocked (symbol, id) a) a selfPrevented in
  if restingQuantity <=? 0 then releaseLocked (symbol, orderID) a else a.

(** * Rebuilding from the journal *)

Definition LoadBalances (c : gmap string Z) (p : gmap string (gmap string Z)) (a : Accounts)
    : Accounts * result oms_error unit :=
  if negb (HoldCount a =? 0)%nat then (a, Fails (ErrLiveReservations (HoldCount a))) else
  let a := set_positions ∅ (set_cash c a) in
  let a := map_fold (fun account bySymbol a =>
             map_fold (fun symbol qty a => setPositionLocked account symbol qty a) a bySymbol) a p in
  (set_reservedShares ∅ (set_reservedCash ∅ a), Good tt).
