(* ===== verification/AccountsInv.v ===== *)
(** The reservation invariant of the account store, and what each operation
    does to balances, reservations and holds.

    [acc_wf] says that the reserved amounts are exactly what the live holds add
    up to (at 64 bits, so without any assumption on balances). The lemmas
    [*_spec] give each operation's effect; [ReservationProps] states the
    properties. *)

From Stdlib Require Import ZArith Lia.
From stdpp Require Import base gmap list strings.
From S2P Require Import Prelude Types Accounts.

Open Scope Z_scope.

(** * Reads after writes *)

Lemma zlookup_insert `{Countable K} (m : gmap K Z) k k' v :
  zlookup (<[k := v]> m) k' = if decide (k = k') then v else zlookup m k'.
Proof. unfold zlookup. rewrite lookup_insert. by case_decide. Qed.

(** Deleting an entry that reads [0] is not observable. *)
Lemma zlookup_prune `{Countable K} (m : gmap K Z) k k' :
  zlookup (if zlookup m k =? 0 then delete k m else m) k' = zlookup m k'.
Proof.
  destruct (Z.eqb_spec (zlookup m k) 0) as [E|]; [|done].
  destruct (decide (k = k')) as [<-|Hne]; unfold zlookup in *.
  - by rewrite lookup_delete_eq, E.
  - by rewrite lookup_delete_ne.
Qed.

Lemma zlookup2_insert m ac m' a s :
  zlookup2 (<[ac := m']> m) a s = if decide (ac = a) then zlookup m' s else zlookup2 m a s.
Proof. unfold zlookup2, inner. rewrite lookup_insert. by case_decide. Qed.

Lemma zlookup2_add m ac sy d a s :
  zlookup2 (<[ac := zadd sy d (inner m ac)]> m) a s
    = if decide (ac = a /\ sy = s) then add64 (zlookup2 m ac sy) d else zlookup2 m a s.
Proof.
  rewrite zlookup2_insert, zlookup_zadd. unfold zlookup2.
  destruct (decide (ac = a)) as [<-|]; destruct (decide (sy = s)) as [<-|];
    by repeat case_decide; try tauto.
Qed.

Lemma reserved_add account symbol d a ac sy :
  ReservedPosition ac sy (addReservedSharesLocked account symbol d a)
    = if decide (account = ac /\ symbol = sy) then add64 (ReservedPosition account symbol a) d
      else ReservedPosition ac sy a.
Proof.
  unfold ReservedPosition, addReservedSharesLocked. simpl.
  rewrite <- zlookup2_add, !zlookup2_insert. case_decide; [apply zlookup_prune|done].
Qed.

(** * The invariant *)

(** What one hold reserves. *)
Definition hold_cash (h : hold) : Z := if decide (h_side h = Sell) then 0 else h_price h * h_qty h.
Definition hold_shares (h : hold) : Z := if decide (h_side h = Sell) then h_qty h else 0.

Definition held_cash (account : string) (a : Accounts) : Z :=
  map_sum (fun _ h => if decide (h_account h = account) then hold_cash h else 0) (holds a).
Definition held_shares (account symbol : string) (a : Accounts) : Z :=
  map_sum (fun _ h => if decide (h_account h = account /\ h_symbol h = symbol)
                      then hold_shares h else 0) (holds a).

Definition hold_ok (h : hold) : Prop :=
  0 <= h_qty h <= MaxInt64 /\
  (h_side h <> Sell -> 0 <= h_price h /\ h_price h * h_qty h <= MaxInt64).

Record acc_wf (a : Accounts) : Prop := {
  aw_holds : forall k h, holds a !! k = Some h -> hold_ok h;
  aw_cash : forall ac, ReservedCash ac a = wrap64 (held_cash ac a);
  aw_shares : forall ac sy, ReservedPosition ac sy a = wrap64 (held_shares ac sy a)
}.

Lemma NewAccounts_wf : acc_wf NewAccounts.
Proof.
  split.
  - intros k h H. simpl in H. by rewrite lookup_empty in H.
  - intros ac. unfold held_cash. simpl. by rewrite map_sum_empty.
  - intros ac sy. unfold held_shares. simpl. by rewrite map_sum_empty.
Qed.

(** [notional] is exact multiplication or an error. *)
Lemma notional_Good p q v :
  notional p q = Good v <-> 0 <= p /\ 0 <= q /\ p * q <= MaxInt64 /\ v = p * q.
Proof.
  unfold notional.
  destruct (Z.ltb_spec p 0) as [|Hp]; simpl; [split; [done|lia]|].
  destruct (Z.ltb_spec q 0) as [|Hq]; simpl; [split; [done|lia]|].
  assert (Hmul : 0 <= p * q) by nia.
  destruct (Z.eqb_spec q 0) as [->|Hq0]; simpl.
  { unfold mul64. rewrite Z.mul_0_r. change (wrap64 0) with 0. unfold MaxInt64.
    split; [intros [= <-]; lia|by intros (_ & _ & _ & ->)]. }
  assert (Hdiv : Z.quot MaxInt64 q = MaxInt64 / q) by (apply Z.quot_div_nonneg; unfold MaxInt64; lia).
  rewrite Hdiv. destruct (Z.ltb_spec (MaxInt64 / q) p) as [Hlt|Hge]; simpl.
  - split; [done|]. intros (_ & _ & Hle & _). exfalso.
    assert (p <= MaxInt64 / q) by (apply Z.div_le_lower_bound; lia). lia.
  - assert (Hle : p * q <= MaxInt64).
    { pose proof (Z.mul_div_le MaxInt64 q ltac:(lia)). nia. }
    unfold mul64. rewrite wrap64_id by (unfold64; lia). split; [by intros [= <-]|by intros (_ & _ & _ & ->)].
Qed.

(** * Writing a hold *)

(** The hold's contribution to a sum after it is written or dropped. *)
Lemma held_cash_put key h a ac :
  held_cash ac (put_hold key h a) = held_cash ac a
    - from_option (fun h => if decide (h_account h = ac) then hold_cash h else 0) 0 (holds a !! key)
    + (if decide (h_account h = ac) then hold_cash h else 0).
Proof. unfold held_cash. simpl. by rewrite map_sum_insert. Qed.

Lemma held_shares_put key h a ac sy :
  held_shares ac sy (put_hold key h a) = held_shares ac sy a
    - from_option (fun h => if decide (h_account h = ac /\ h_symbol h = sy) then hold_shares h else 0)
        0 (holds a !! key)
    + (if decide (h_account h = ac /\ h_symbol h = sy) then hold_shares h else 0).
Proof. unfold held_shares. simpl. by rewrite map_sum_insert. Qed.

(** Rewrites a 64-bit addition of wrapped terms into one [wrap64]. *)
Lemma add64_wrap_r a b : add64 (wrap64 a) (wrap64 b) = wrap64 (a + b).
Proof. unfold add64. rewrite wrap64_add_l, Z.add_comm, wrap64_add_l. f_equal. lia. Qed.
Lemma add64_wrap a b : add64 (wrap64 a) b = wrap64 (a + b).
Proof. unfold add64. by rewrite wrap64_add_l. Qed.

(** ** A hold is reduced *)

Definition clamp (q : Z) (h : hold) : Z := Z.max 0 (Z.min q (h_qty h)).
Definition reduce (q : Z) (h : hold) : hold :=
  mkHold (h_account h) (h_symbol h) (h_side h) (h_price h) (h_qty h - clamp q h).

Lemma reduce_ok q h : hold_ok h -> hold_ok (reduce q h).
Proof. unfold hold_ok, reduce, clamp. simpl. intros [H1 H2]. split; [lia|]. intros Hs. destruct (H2 Hs). nia. Qed.

Section Shrink.
Context (a : Accounts) (key : holdKey) (h : hold) (q : Z).
Context (Hwf : acc_wf a) (Hk : holds a !! key = Some h).

Let a' := shrinkHoldLocked key h q a.

Lemma shrink_clamp : 0 < q -> (if h_qty h <? q then h_qty h else q) = clamp q h /\
  sub64 (h_qty h) (clamp q h) = h_qty h - clamp q h /\ in64 (- clamp q h).
Proof.
  intros Hq. destruct (aw_holds a Hwf key h Hk) as [Hr _]. unfold clamp.
  split; [destruct (Z.ltb_spec (h_qty h) q); lia|]. split; [|unfold64; lia].
  unfold sub64. apply wrap64_id. unfold64; lia.
Qed.

(** The reservation behind the freed quantity of a buy was computed when the
    order was accepted: the "unreachable" branch is unreachable. *)
Lemma shrink_notional : h_side h <> Sell -> notional (h_price h) (clamp q h) = Good (h_price h * clamp q h).
Proof.
  intros Hs. destruct (aw_holds a Hwf key h Hk) as [Hr H2]. destruct (H2 Hs) as [Hp Hm].
  apply notional_Good. unfold clamp. split_and!; try nia; lia.
Qed.

Lemma shrink_frame : cash a' = cash a /\ positions a' = positions a /\
  holds a' = <[key := reduce q h]> (holds a).
Proof.
  unfold a', shrinkHoldLocked. destruct (Z.leb_spec q 0) as [Hq|Hq].
  { assert (reduce q h = h) as ->; [|by rewrite insert_id].
    unfold reduce, clamp. destruct (aw_holds a Hwf key h Hk) as [Hr _].
    destruct h; simpl in *. f_equal. lia. }
  destruct (shrink_clamp Hq) as (-> & -> & _). case_decide; [done|].
  destruct (h_price h =? 0); [done|]. by rewrite shrink_notional.
Qed.

(** The two reservation tables after the reduction. *)
Lemma shrink_cash ac : ReservedCash ac a' =
  wrap64 (held_cash ac a - if decide (h_account h = ac) then hold_cash h - hold_cash (reduce q h) else 0).
Proof.
  assert (Hsame : wrap64 (held_cash ac a - 0) = ReservedCash ac a) by
    (rewrite Z.sub_0_r; symmetry; apply (aw_cash a Hwf)).
  unfold a', shrinkHoldLocked, hold_cash, reduce. simpl. destruct (Z.leb_spec q 0) as [Hq|Hq].
  { rewrite (aw_cash a Hwf). f_equal. unfold clamp. destruct (aw_holds a Hwf key h Hk) as [Hr _].
    replace (Z.max 0 (Z.min q (h_qty h))) with 0 by lia. repeat case_decide; lia. }
  destruct (shrink_clamp Hq) as (-> & -> & _). destruct (decide (h_side h = Sell)) as [Hs|Hs].
  { etransitivity; [symmetry; exact Hsame|]. f_equal. case_decide; lia. }
  destruct (Z.eqb_spec (h_price h) 0) as [->|Hp].
  { etransitivity; [symmetry; exact Hsame|]. f_equal. case_decide; lia. }
  rewrite shrink_notional by done. unfold ReservedCash at 1. simpl.
  rewrite zlookup_prune, zlookup_zadd. fold (ReservedCash (h_account h) a). fold (ReservedCash ac a).
  rewrite !(aw_cash a Hwf), add64_wrap_r. destruct (decide (h_account h = ac)) as [<-|]; f_equal; lia.
Qed.

Lemma shrink_shares ac sy : ReservedPosition ac sy a' =
  wrap64 (held_shares ac sy a - if decide (h_account h = ac /\ h_symbol h = sy)
                                then hold_shares h - hold_shares (reduce q h) else 0).
Proof.
  assert (Hsame : wrap64 (held_shares ac sy a - 0) = ReservedPosition ac sy a) by
    (rewrite Z.sub_0_r; symmetry; apply (aw_shares a Hwf)).
  unfold a', shrinkHoldLocked, hold_shares, reduce. simpl. destruct (Z.leb_spec q 0) as [Hq|Hq].
  { rewrite (aw_shares a Hwf). f_equal. unfold clamp. destruct (aw_holds a Hwf key h Hk) as [Hr _].
    replace (Z.max 0 (Z.min q (h_qty h))) with 0 by lia. repeat case_decide; lia. }
  destruct (shrink_clamp Hq) as (-> & -> & _). destruct (decide (h_side h = Sell)) as [Hs|Hs].
  - rewrite reserved_add. unfold put_hold, ReservedPosition. simpl.
    fold (ReservedPosition (h_account h) (h_symbol h) a) (ReservedPosition ac sy a).
    rewrite !(aw_shares a Hwf), add64_wrap_r.
    destruct (decide (h_account h = ac /\ h_symbol h = sy)) as [[<- <-]|]; f_equal; lia.
  - assert (Hres : forall x : Accounts, reservedShares x = reservedShares a ->
      ReservedPosition ac sy x = ReservedPosition ac sy a)
      by (intros x Hx; unfold ReservedPosition; by rewrite Hx).
    rewrite Hres by (destruct (h_price h =? 0); [done|by rewrite shrink_notional]).
    rewrite <- Hsame. f_equal. case_decide; lia.
Qed.

Lemma shrink_wf : acc_wf a'.
Proof.
  pose proof shrink_frame as (_ & _ & Hholds). split.
  - intros k h'. rewrite Hholds. intros [[_ <-]|[_ ?]]%lookup_insert_Some;
      [apply reduce_ok|]; by eapply (aw_holds a Hwf).
  - intros ac. rewrite shrink_cash. unfold held_cash at 2. rewrite Hholds, map_sum_insert, Hk. simpl.
    fold (held_cash ac a). f_equal. case_decide; lia.
  - intros ac sy. rewrite shrink_shares. unfold held_shares at 2. rewrite Hholds, map_sum_insert, Hk. simpl.
    fold (held_shares ac sy a). f_equal. case_decide; lia.
Qed.
End Shrink.

(** ** A hold is dropped once nothing is left of it *)

Lemma drop_empty_wf a key h : acc_wf a -> holds a !! key = Some h -> h_qty h = 0 ->
  acc_wf (drop_hold key a).
Proof.
  intros Hwf Hk Hq. assert (Hc : hold_cash h = 0) by (unfold hold_cash; case_decide; [done|]; rewrite Hq; lia).
  assert (Hs : hold_shares h = 0) by (unfold hold_shares; by case_decide). split; simpl.
  - intros k h' [_ ?]%lookup_delete_Some. by eapply (aw_holds a Hwf).
  - intros ac. etransitivity; [exact (aw_cash a Hwf ac)|]. unfold held_cash. simpl.
    rewrite (map_sum_delete _ _ key h Hk), Hc. f_equal. case_decide; lia.
  - intros ac sy. etransitivity; [exact (aw_shares a Hwf ac sy)|]. unfold held_shares. simpl.
    rewrite (map_sum_delete _ _ key h Hk), Hs. f_equal. case_decide; lia.
Qed.

Lemma release_spec a key : acc_wf a ->
  acc_wf (releaseLocked key a) /\ holds (releaseLocked key a) = delete key (holds a) /\
  cash (releaseLocked key a) = cash a /\ positions (releaseLocked key a) = positions a.
Proof.
  intros Hwf. unfold releaseLocked. destruct (holds a !! key) as [h|] eqn:Hk.
  - destruct (shrink_frame a key h (h_qty h) Hwf Hk) as (Hc & Hp & Hh). split_and!; try done.
    + eapply drop_empty_wf; [by apply shrink_wf|rewrite Hh; apply lookup_insert_eq|].
      destruct (aw_holds a Hwf key h Hk) as [Hr _]. unfold reduce, clamp. simpl. lia.
    + simpl. rewrite Hh. by rewrite delete_insert_eq.
  - by rewrite delete_id.
Qed.

(** What a fill leaves of a hold. *)
Definition filled (q : Z) (h : hold) : option hold :=
  if decide (h_qty (reduce q h) = 0) then None else Some (reduce q h).

Lemma shrinkTraded_spec a symbol id q : acc_wf a ->
  let a' := shrinkTradedLocked symbol id q a in
  acc_wf a' /\ holds a' = partial_alter (fun h => h ≫= filled q) (symbol, id) (holds a) /\
  cash a' = cash a /\ positions a' = positions a.
Proof.
  intros Hwf a'. unfold a', shrinkTradedLocked. destruct (holds a !! (symbol, id)) as [h|] eqn:Hk.
  - destruct (shrink_frame a (symbol, id) h q Hwf Hk) as (Hc & Hp & Hh).
    pose proof (shrink_wf a (symbol, id) h q Hwf Hk) as Hwf'.
    assert (Hk' : holds (shrinkHoldLocked (symbol, id) h q a) !! (symbol, id) = Some (reduce q h))
      by (rewrite Hh; apply lookup_insert_eq).
    rewrite Hk'.
    assert (Halt : partial_alter (fun h => h ≫= filled q) (symbol, id) (holds a)
      = partial_alter (fun _ => filled q h) (symbol, id) (holds a)) by (apply partial_alter_ext; by rewrite Hk; intros ? <-).
    rewrite Halt. unfold filled. destruct (Z.eqb_spec (h_qty (reduce q h)) 0) as [E|E]; simpl.
    + rewrite decide_True by done. split_and!; [by eapply drop_empty_wf| |done|done].
      rewrite Hh, delete_insert_eq. done.
    + rewrite decide_False by done. done.
  - split_and!; try done. apply map_eq. intros k.
    destruct (decide ((symbol, id) = k)) as [<-|]; [|by rewrite lookup_partial_alter_ne].
    by rewrite lookup_partial_alter_eq, Hk.
Qed.

(** * Placing a hold *)

(** A fresh hold whose reservation was added to the right table keeps the
    invariant; [r] is the state after the table was updated. *)
Lemma place_wf a r key h : acc_wf a -> holds a !! key = None -> holds r = holds a -> hold_ok h ->
  (forall ac, ReservedCash ac r = wrap64 (held_cash ac a + if decide (h_account h = ac) then hold_cash h else 0)) ->
  (forall ac sy, ReservedPosition ac sy r = wrap64 (held_shares ac sy a +
      if decide (h_account h = ac /\ h_symbol h = sy) then hold_shares h else 0)) ->
  acc_wf (put_hold key h r).
Proof.
  intros Hwf Hk Hr Hok Hc Hs. split.
  - intros k h'. simpl. rewrite Hr. intros [[_ <-]|[_ ?]]%lookup_insert_Some; [done|].
    by eapply (aw_holds a Hwf).
  - intros ac. rewrite held_cash_put, Hr, Hk. unfold held_cash. rewrite Hr. simpl.
    etransitivity; [apply (Hc ac)|]. unfold held_cash. f_equal. lia.
  - intros ac sy. rewrite held_shares_put, Hr, Hk. unfold held_shares. rewrite Hr. simpl.
    etransitivity; [apply (Hs ac sy)|]. unfold held_shares. f_equal. lia.
Qed.

Section Place.
Context (a : Accounts) (key : holdKey) (ac0 sy0 : string) (price qty : Z).
Context (Hwf : acc_wf a) (Hk : holds a !! key = None).

Lemma place_sell : 0 < qty <= MaxInt64 ->
  acc_wf (put_hold key (mkHold ac0 sy0 Sell price qty) (addReservedSharesLocked ac0 sy0 qty a)).
Proof.
  intros Hq. apply (place_wf a); try done; simpl.
  - unfold hold_ok. simpl. split; [lia|done].
  - intros ac. unfold hold_cash. simpl. etransitivity; [apply (aw_cash a Hwf)|].
    f_equal. case_decide; lia.
  - intros ac sy. rewrite reserved_add, !(aw_shares a Hwf). unfold hold_shares. simpl.
    rewrite add64_wrap. destruct (decide (ac0 = ac /\ sy0 = sy)) as [[<- <-]|]; f_equal; lia.
Qed.

Lemma place_buy cost : 0 < qty <= MaxInt64 -> notional price qty = Good cost ->
  acc_wf (put_hold key (mkHold ac0 sy0 Buy price qty)
            (set_reservedCash (zadd ac0 cost (reservedCash a)) a)).
Proof.
  intros Hq (Hp & _ & Hm & ->)%notional_Good. apply (place_wf a); try done; simpl.
  - unfold hold_ok. simpl. split; [lia|done].
  - intros ac. unfold ReservedCash at 1. simpl. rewrite zlookup_zadd.
    fold (ReservedCash ac0 a) (ReservedCash ac a). rewrite !(aw_cash a Hwf), add64_wrap.
    unfold hold_cash. simpl. destruct (decide (ac0 = ac)) as [<-|]; f_equal; lia.
  - intros ac sy. unfold hold_shares. simpl. etransitivity; [apply (aw_shares a Hwf)|].
    f_equal. case_decide; lia.
Qed.

(** A MARKET buy reserves nothing: its hold has price 0. *)
Lemma place_market : 0 < qty <= MaxInt64 -> acc_wf (put_hold key (mkHold ac0 sy0 Buy 0 qty) a).
Proof.
  intros Hq. apply (place_wf a); try done; simpl.
  - unfold hold_ok. simpl. split; [lia|unfold MaxInt64; lia].
  - intros ac. unfold hold_cash. simpl. etransitivity; [apply (aw_cash a Hwf)|].
    f_equal. case_decide; lia.
  - intros ac sy. unfold hold_shares. simpl. etransitivity; [apply (aw_shares a Hwf)|].
    f_equal. case_decide; lia.
Qed.
End Place.

(** [Reserve] either leaves the store alone, or records the hold [order_hold]. *)
Definition order_hold (symbol : string) (o : Order) : hold :=
  if decide (o_Side o = Sell) then mkHold (o_Placer o) symbol Sell (o_Price o) (o_Quantity o)
  else mkHold (o_Placer o) symbol Buy (if decide (o_Type o = Market) then 0 else o_Price o) (o_Quantity o).

Lemma Reserve_spec o a : acc_wf a -> o_Quantity o <= MaxInt64 ->
  acc_wf (Reserve o a).1 /\ cash (Reserve o a).1 = cash a /\ positions (Reserve o a).1 = positions a /\
  match (Reserve o a).2 with
  | Fails _ => (Reserve o a).1 = a
  | Good _ => holds a !! (o_Symbol o, o_SeqID o) = None /\ 0 < o_Quantity o /\
      holds (Reserve o a).1 = <[(o_Symbol o, o_SeqID o) := order_hold (o_Symbol o) o]> (holds a)
  end.
Proof.
  intros Hwf Hq. unfold Reserve, order_hold. destruct (negb _); [done|].
  destruct (Z.leb_spec (o_Quantity o) 0) as [|Hpos]; [done|].
  case_bool_decide as Hk; [done|]. rewrite <- eq_None_not_Some in Hk.
  destruct (decide (o_Side o = Sell)).
  - destruct (_ <? _); [done|]. simpl. split_and!; try done. by apply place_sell.
  - destruct (decide (o_Type o = Market)).
    + destruct (_ <=? _); [done|]. simpl. split_and!; try done. by apply place_market.
    + destruct (notional _ _) as [cost|e] eqn:Hn; [|done]. destruct (_ <? cost); [done|].
      simpl. split_and!; try done. by apply place_buy.
Qed.

Lemma RestoreHold_spec symbol o a : acc_wf a -> 0 < o_Quantity o <= MaxInt64 ->
  (o_Side o <> Sell -> is_good (notional (o_Price o) (o_Quantity o)) = true) ->
  let h := mkHold (o_Placer o) symbol (if decide (o_Side o = Sell) then Sell else Buy) (o_Price o) (o_Quantity o) in
  acc_wf (RestoreHold symbol o a) /\ cash (RestoreHold symbol o a) = cash a /\
  positions (RestoreHold symbol o a) = positions a /\
  holds (RestoreHold symbol o a)
    = if decide (is_Some (holds a !! (symbol, o_SeqID o))) then holds a
      else <[(symbol, o_SeqID o) := h]> (holds a).
Proof.
  intros Hwf Hq Hn h. unfold RestoreHold, h.
  destruct (decide (is_Some (holds a !! (symbol, o_SeqID o)))) as [Hk|Hk];
    [by rewrite bool_decide_true|rewrite bool_decide_false by done].
  rewrite <- eq_None_not_Some in Hk.
  destruct (decide (o_Side o = Sell)) as [Hs|Hs].
  - simpl. split_and!; try done. by apply place_sell.
  - specialize (Hn Hs). destruct (notional _ _) as [cost|] eqn:E; [|done].
    simpl. split_and!; try done. by apply place_buy.
Qed.

(** * Completing *)

(** A trade whose value fits moves; the others are skipped by the code. *)
Definition moves (t : Trade) : bool := is_good (notional (t_Price t) (t_Quantity t)).
Definition value (t : Trade) : Z := t_Price t * t_Quantity t.

(** What a trade brings an account in cash and in shares. *)
Definition cash_flow (ac : string) (t : Trade) : Z :=
  if moves t then (if decide (Seller t = ac) then value t else 0) - (if decide (Buyer t = ac) then value t else 0)
  else 0.
Definition share_flow (ac sy : string) (t : Trade) : Z :=
  if moves t then (if decide (Buyer t = ac /\ t_Symbol t = sy) then t_Quantity t else 0)
                  - (if decide (Seller t = ac /\ t_Symbol t = sy) then t_Quantity t else 0)
  else 0.
(** How much of order [id] a trade fills. *)
Definition fills (id : Z) (t : Trade) : Z :=
  if moves t then (if decide (t_MakerSeqID t = id) then t_Quantity t else 0)
                  + (if decide (t_TakerSeqID t = id) then t_Quantity t else 0)
  else 0.

Definition total_cash (a : Accounts) : Z := map_sum (fun _ v => v) (cash a).
Definition total_position (sy : string) (a : Accounts) : Z :=
  map_sum (fun _ m => zlookup m sy) (positions a).

Lemma wrap64_neg v : 0 <= v <= MaxInt64 -> wrap64 (- v) = - v.
Proof. intros. apply wrap64_id. unfold64; lia. Qed.

Lemma moves_value t : moves t = true -> notional (t_Price t) (t_Quantity t) = Good (value t) /\
  0 <= t_Price t /\ 0 <= t_Quantity t /\ 0 <= value t <= MaxInt64.
Proof.
  unfold moves, value. destruct (notional _ _) as [v|] eqn:Hn; [|done]. intros _.
  pose proof Hn as (Hp & Hq & Hm & ->)%notional_Good. split_and!; try done; nia.
Qed.

(** Reading a table after an addition, up to 64 bits. *)
Lemma zlookup_zadd64 (m : gmap string Z) k d k' :
  eq64 (zlookup (zadd k d m) k') (zlookup m k' + if decide (k = k') then d else 0).
Proof. rewrite zlookup_zadd. destruct (decide (k = k')) as [<-|]; solve64. Qed.

Lemma zlookup2_add64 m ac sy d a s :
  eq64 (zlookup2 (<[ac := zadd sy d (inner m ac)]> m) a s)
       (zlookup2 m a s + if decide (ac = a /\ sy = s) then d else 0).
Proof. rewrite zlookup2_add. destruct (decide (ac = a /\ sy = s)) as [[<- <-]|]; solve64. Qed.

(** Adding to one account's position moves the symbol's total by as much. *)
Lemma total_position_add m ac sy d sy' :
  eq64 (map_sum (fun _ x => zlookup x sy') (<[ac := zadd sy d (inner m ac)]> m))
       (map_sum (fun _ x => zlookup x sy') m + if decide (sy = sy') then d else 0).
Proof.
  rewrite map_sum_insert, zlookup_zadd64. unfold inner.
  destruct (m !! ac) as [x|]; simpl; [|unfold zlookup at 2; rewrite lookup_empty; simpl]; solve64.
Qed.

Section CompleteTrade.
Context (symbol : string) (a : Accounts) (t : Trade) (Hwf : acc_wf a).

Let a' := complete_trade symbol a t.
Let moved := addPositionLocked (Seller t) (t_Symbol t) (wrap64 (- t_Quantity t))
  (addPositionLocked (Buyer t) (t_Symbol t) (t_Quantity t)
    (set_cash (zadd (Seller t) (value t) (zadd (Buyer t) (wrap64 (- value t)) (cash a))) a)).

Lemma moved_wf : acc_wf moved.
Proof. destruct Hwf. by split. Qed.

Lemma complete_trade_unfold : a' = if moves t
  then shrinkTradedLocked symbol (t_TakerSeqID t) (t_Quantity t)
         (shrinkTradedLocked symbol (t_MakerSeqID t) (t_Quantity t) moved)
  else a.
Proof.
  unfold a', complete_trade. pose proof (moves_value t) as Hm. unfold moves in *.
  destruct (notional _ _) as [v|]; simpl in *; [|done].
  destruct (Hm eq_refl) as ([= ->] & _). done.
Qed.

Lemma complete_trade_frame : acc_wf a' /\
  cash a' = cash (if moves t then moved else a) /\
  positions a' = positions (if moves t then moved else a) /\
  holds a' = if moves t
    then partial_alter (fun h => h ≫= filled (t_Quantity t)) (symbol, t_TakerSeqID t)
           (partial_alter (fun h => h ≫= filled (t_Quantity t)) (symbol, t_MakerSeqID t) (holds a))
    else holds a.
Proof.
  rewrite complete_trade_unfold. destruct (moves t); [|done].
  destruct (shrinkTraded_spec moved symbol (t_MakerSeqID t) (t_Quantity t) moved_wf) as (H1 & Hh1 & Hc1 & Hp1).
  destruct (shrinkTraded_spec _ symbol (t_TakerSeqID t) (t_Quantity t) H1) as (H2 & Hh2 & Hc2 & Hp2).
  split_and!; [done|by rewrite Hc2|by rewrite Hp2|by rewrite Hh2, Hh1].
Qed.

Lemma complete_trade_cash ac : eq64 (Cash ac a') (Cash ac a + cash_flow ac t).
Proof.
  destruct complete_trade_frame as (_ & Hc & _). unfold Cash, cash_flow. rewrite Hc.
  destruct (moves t); [|apply eq64_of_eq; lia]. simpl. rewrite !zlookup_zadd64.
  repeat case_decide; solve64.
Qed.

Lemma complete_trade_position ac sy : eq64 (Position ac sy a') (Position ac sy a + share_flow ac sy t).
Proof.
  destruct complete_trade_frame as (_ & _ & Hp & _). unfold Position, share_flow. rewrite Hp.
  destruct (moves t); [|apply eq64_of_eq; lia]. simpl. rewrite !zlookup2_add64.
  repeat case_decide; solve64.
Qed.

Lemma complete_trade_total_cash : eq64 (total_cash a') (total_cash a).
Proof.
  destruct complete_trade_frame as (_ & Hc & _). unfold total_cash. rewrite Hc.
  destruct (moves t); [|done]. simpl. rewrite !map_sum_zadd. solve64.
Qed.

Lemma complete_trade_total_position sy : eq64 (total_position sy a') (total_position sy a).
Proof.
  destruct complete_trade_frame as (_ & _ & Hp & _). unfold total_position. rewrite Hp.
  destruct (moves t); [|done]. simpl. rewrite !total_position_add. case_decide; solve64.
Qed.
End CompleteTrade.

(** ** The holds after a run of trades *)

Definition holds_live (a : Accounts) : Prop := forall k h, holds a !! k = Some h -> 0 < h_qty h.

Lemma filled_live q h h' : 0 <= h_qty h -> filled q h = Some h' -> 0 < h_qty h'.
Proof.
  unfold filled. case_decide as E; [done|]. intros Hh [= <-]. unfold reduce, clamp in *. simpl in *. lia.
Qed.

Lemma filled_zero q h : 0 < h_qty h -> q <= 0 -> filled q h = Some h.
Proof.
  intros Hh Hq. unfold filled. assert (reduce q h = h) as ->.
  { unfold reduce, clamp. destruct h; simpl in *. f_equal. lia. }
  by rewrite decide_False by lia.
Qed.

(** Two fills are one fill of the sum. *)
Lemma filled_filled q1 q2 h : 0 < h_qty h -> 0 <= q1 -> 0 <= q2 ->
  filled q1 h ≫= filled q2 = filled (q1 + q2) h.
Proof.
  intros Hh H1 H2. unfold filled at 2. case_decide as E; simpl.
  - unfold filled, reduce, clamp in *. simpl in *. rewrite decide_True; [done|lia].
  - assert (Hr : reduce q2 (reduce q1 h) = reduce (q1 + q2) h).
    { unfold reduce, clamp in *. simpl in *. f_equal. lia. }
    unfold filled. by rewrite Hr.
Qed.

Lemma filled_bind q1 q2 o : (forall h, o = Some h -> 0 < h_qty h) -> 0 <= q1 -> 0 <= q2 ->
  (o ≫= filled q1) ≫= filled q2 = o ≫= filled (q1 + q2).
Proof. intros Ho H1 H2. destruct o as [h|]; [|done]. simpl. apply filled_filled; auto. Qed.

Lemma filled_none o : (forall h, o = Some h -> 0 < h_qty h) -> o ≫= filled 0 = o.
Proof. intros Ho. destruct o as [h|]; [|done]. simpl. apply filled_zero; [auto|lia]. Qed.

(** A partial fill, read back at any order of the symbol. *)
Lemma lookup_fill (m : gmap holdKey hold) symbol id id' q :
  (forall h, m !! (symbol, id') = Some h -> 0 < h_qty h) ->
  partial_alter (fun h => h ≫= filled q) (symbol, id) m !! (symbol, id')
    = m !! (symbol, id') ≫= filled (if decide (id = id') then q else 0).
Proof.
  intros Hm. destruct (decide (id = id')) as [<-|Hne].
  - by rewrite lookup_partial_alter_eq.
  - rewrite lookup_partial_alter_ne by congruence. by rewrite filled_none.
Qed.

Section Fills.
Context (symbol : string).

Lemma bind_filled_live (o : option hold) q h : (forall h, o = Some h -> 0 < h_qty h) ->
  o ≫= filled q = Some h -> 0 < h_qty h.
Proof.
  intros Ho. destruct o as [x|]; [|done]. simpl. apply filled_live. specialize (Ho x eq_refl). lia.
Qed.

Lemma complete_trade_hold a t id : acc_wf a -> holds_live a ->
  holds (complete_trade symbol a t) !! (symbol, id) = holds a !! (symbol, id) ≫= filled (fills id t).
Proof.
  intros Hwf Hl. destruct (complete_trade_frame symbol a t Hwf) as (_ & _ & _ & ->).
  unfold fills. destruct (moves t) eqn:Hm; [|by rewrite filled_none by (intros; by eapply Hl)].
  destruct (moves_value t Hm) as (_ & _ & Hq & _).
  assert (Hx : forall h, partial_alter (fun h => h ≫= filled (t_Quantity t)) (symbol, t_MakerSeqID t) (holds a)
      !! (symbol, id) = Some h -> 0 < h_qty h).
  { intros h. rewrite lookup_fill by (intros; by eapply Hl). apply bind_filled_live. intros; by eapply Hl. }
  rewrite lookup_fill by done. rewrite lookup_fill by (intros; by eapply Hl).
  apply filled_bind; [intros; by eapply Hl| |]; by case_decide.
Qed.

Lemma complete_trade_other a t k : acc_wf a -> k.1 <> symbol ->
  holds (complete_trade symbol a t) !! k = holds a !! k.
Proof.
  intros Hwf Hk. destruct (complete_trade_frame symbol a t Hwf) as (_ & _ & _ & ->).
  destruct (moves t); [|done]. destruct k as [s i]. simpl in Hk.
  by rewrite !lookup_partial_alter_ne by congruence.
Qed.

Lemma complete_trade_live a t : acc_wf a -> holds_live a -> holds_live (complete_trade symbol a t).
Proof.
  intros Hwf Hl [s i] h. destruct (decide (s = symbol)) as [->|Hne].
  - rewrite complete_trade_hold by done. apply bind_filled_live. intros; by eapply Hl.
  - rewrite complete_trade_other by done. apply Hl.
Qed.

Lemma fills_nonneg id t : 0 <= fills id t.
Proof.
  unfold fills. destruct (moves t) eqn:Hm; [|lia].
  destruct (moves_value t Hm) as (_ & _ & Hq & _). repeat case_decide; lia.
Qed.

Lemma complete_trades_spec trades : forall a, acc_wf a -> holds_live a ->
  let a' := foldl (complete_trade symbol) a trades in
  acc_wf a' /\ holds_live a' /\
  (forall id, holds a' !! (symbol, id) = holds a !! (symbol, id) ≫= filled (sumZ (fills id) trades)) /\
  (forall k, k.1 <> symbol -> holds a' !! k = holds a !! k) /\
  (forall ac, eq64 (Cash ac a') (Cash ac a + sumZ (cash_flow ac) trades)) /\
  (forall ac sy, eq64 (Position ac sy a') (Position ac sy a + sumZ (share_flow ac sy) trades)) /\
  eq64 (total_cash a') (total_cash a) /\
  (forall sy, eq64 (total_position sy a') (total_position sy a)).
Proof.
  induction trades as [|t trades IH]; intros a Hwf Hl; simpl.
  { split_and!; try done.
    - intros id. by rewrite filled_none by (intros; by eapply Hl).
    - intros. apply eq64_of_eq. lia.
    - intros. apply eq64_of_eq. lia. }
  destruct (complete_trade_frame symbol a t Hwf) as (Hwf1 & _).
  pose proof (complete_trade_live a t Hwf Hl) as Hl1.
  destruct (IH _ Hwf1 Hl1) as (H1 & H2 & H3 & H4 & H5 & H6 & H7 & H8). split_and!; try done.
  - intros id. rewrite H3, complete_trade_hold by done.
    apply filled_bind; [intros; by eapply Hl|apply fills_nonneg|apply sumZ_nonneg; intros; apply fills_nonneg].
  - intros k Hk. by rewrite H4, complete_trade_other.
  - intros ac. rewrite H5, complete_trade_cash by done. apply eq64_of_eq. lia.
  - intros ac sy. rewrite H6, complete_trade_position by done. apply eq64_of_eq. lia.
  - rewrite H7. by apply complete_trade_total_cash.
  - intros sy. rewrite H8. by apply complete_trade_total_position.
Qed.

Lemma release_live key a : acc_wf a -> holds_live a -> holds_live (releaseLocked key a).
Proof.
  intros Hwf Hl k h. destruct (release_spec a key Hwf) as (_ & -> & _).
  intros [_ H]%lookup_delete_Some. by eapply Hl.
Qed.

Lemma release_all_spec ids : forall a, acc_wf a -> holds_live a ->
  let a' := foldl (fun a id => releaseLocked (symbol, id) a) a ids in
  acc_wf a' /\ holds_live a' /\ cash a' = cash a /\ positions a' = positions a /\
  (forall id, holds a' !! (symbol, id) = if decide (id ∈ ids) then None else holds a !! (symbol, id)) /\
  (forall k, k.1 <> symbol -> holds a' !! k = holds a !! k).
Proof.
  induction ids as [|i ids IH]; intros a Hwf Hl; simpl.
  { split_and!; try done. }
  destruct (release_spec a (symbol, i) Hwf) as (Hwf1 & Hh & Hc & Hp).
  destruct (IH _ Hwf1 (release_live (symbol, i) a Hwf Hl)) as (H1 & H2 & H3 & H4 & H5 & H6).
  split_and!; try done; [by rewrite H3|by rewrite H4| |].
  - intros id. rewrite H5, Hh. destruct (decide (id ∈ ids)) as [Hin|Hin].
    + rewrite decide_True by (by right). done.
    + destruct (decide (id = i)) as [->|Hne].
      * rewrite decide_True by (by left). apply lookup_delete_eq.
      * rewrite decide_False by (intros [?|?]%elem_of_cons; done). rewrite lookup_delete_ne by congruence. done.
  - intros [s k] Hk. rewrite H6, Hh by done. simpl in Hk. by rewrite lookup_delete_ne by congruence.
Qed.
End Fills.
