(* ===== verification/AccountsSolv.v ===== *)
(** Solvency: no account's holds exceed what it owns.

    [solvent] is the promise reservations make. It survives every operation that
    prices its orders; a MARKET buy reserves nothing and may overdraw, as
    [accounts.go] documents. [covered] is what a trade must find in the store for
    both parties to be able to settle it. *)

From Stdlib Require Import ZArith Lia.
From stdpp Require Import base gmap list strings.
From S2P Require Import Prelude Types Accounts AccountsInv.

Open Scope Z_scope.

Record solvent (a : Accounts) : Prop := {
  so_cash : forall ac, held_cash ac a <= Cash ac a;
  so_shares : forall ac sy, held_shares ac sy a <= Position ac sy a;
  so_total_cash : total_cash a <= MaxInt64;
  so_total_shares : forall sy, total_position sy a <= MaxInt64
}.

(** * Exact readings of a solvent store *)

Section Bounds.
Context (a : Accounts) (Hwf : acc_wf a).

Lemma hold_cash_nonneg h k : holds a !! k = Some h -> 0 <= hold_cash h.
Proof.
  intros Hk. destruct (aw_holds a Hwf k h Hk) as [Hq Hp]. unfold hold_cash. case_decide; [lia|].
  destruct (Hp ltac:(done)). nia.
Qed.

Lemma hold_shares_nonneg h k : holds a !! k = Some h -> 0 <= hold_shares h.
Proof.
  intros Hk. destruct (aw_holds a Hwf k h Hk) as [Hq Hp]. unfold hold_shares. case_decide; lia.
Qed.

Lemma held_cash_nonneg ac : 0 <= held_cash ac a.
Proof. apply map_sum_nonneg. intros k h Hk. case_decide; [by eapply hold_cash_nonneg|lia]. Qed.

Lemma held_shares_nonneg ac sy : 0 <= held_shares ac sy a.
Proof. apply map_sum_nonneg. intros k h Hk. case_decide; [by eapply hold_shares_nonneg|lia]. Qed.

(** A hold is part of its account's total. *)
Lemma held_cash_ge k h : holds a !! k = Some h -> hold_cash h <= held_cash (h_account h) a.
Proof.
  intros Hk. pose proof (map_sum_ge (fun _ x => if decide (h_account x = h_account h) then hold_cash x else 0)
    (holds a) k h) as H. simpl in H. rewrite decide_True in H by done. apply H; [|done].
  intros k' x Hx. case_decide; [by eapply hold_cash_nonneg|lia].
Qed.

Lemma held_shares_ge k h : holds a !! k = Some h ->
  hold_shares h <= held_shares (h_account h) (h_symbol h) a.
Proof.
  intros Hk. pose proof (map_sum_ge (fun _ x => if decide (h_account x = h_account h /\ h_symbol x = h_symbol h)
    then hold_shares x else 0) (holds a) k h) as H. simpl in H. rewrite decide_True in H by done.
  apply H; [|done]. intros k' x Hx. case_decide; [by eapply hold_shares_nonneg|lia].
Qed.

Context (Hso : solvent a).

Lemma cash_nonneg ac : 0 <= Cash ac a.
Proof. pose proof (held_cash_nonneg ac). pose proof (so_cash a Hso ac). lia. Qed.
Lemma position_nonneg ac sy : 0 <= Position ac sy a.
Proof. pose proof (held_shares_nonneg ac sy). pose proof (so_shares a Hso ac sy). lia. Qed.

Lemma cash_entry_nonneg k v : cash a !! k = Some v -> 0 <= v.
Proof. intros Hk. pose proof (cash_nonneg k) as H. unfold Cash, zlookup in H. by rewrite Hk in H. Qed.

Lemma position_entry_nonneg sy k m : positions a !! k = Some m -> 0 <= zlookup m sy.
Proof.
  intros Hk. pose proof (position_nonneg k sy) as H. unfold Position, zlookup2, inner in H. by rewrite Hk in H.
Qed.

Lemma cash_le_total ac : Cash ac a <= total_cash a.
Proof.
  unfold Cash, zlookup. destruct (cash a !! ac) as [v|] eqn:Hk; simpl.
  - apply (map_sum_ge (fun _ v => v) _ ac v); [apply cash_entry_nonneg|done].
  - apply map_sum_nonneg. apply cash_entry_nonneg.
Qed.

Lemma position_le_total ac sy : Position ac sy a <= total_position sy a.
Proof.
  unfold Position, zlookup2, inner. destruct (positions a !! ac) as [m|] eqn:Hk; simpl.
  - apply (map_sum_ge (fun _ m => zlookup m sy) _ ac m); [apply position_entry_nonneg|done].
  - unfold zlookup. rewrite lookup_empty. simpl. apply map_sum_nonneg. apply position_entry_nonneg.
Qed.

(** In a solvent store every reading is exact. *)
Lemma solvent_exact ac : 0 <= Cash ac a <= MaxInt64 /\ ReservedCash ac a = held_cash ac a /\
  AvailableCash ac a = Cash ac a - held_cash ac a.
Proof.
  pose proof (cash_nonneg ac). pose proof (cash_le_total ac). pose proof (so_total_cash a Hso).
  pose proof (held_cash_nonneg ac). pose proof (so_cash a Hso ac).
  assert (Hr : ReservedCash ac a = held_cash ac a)
    by (rewrite (aw_cash a Hwf); apply wrap64_id; unfold64; lia).
  unfold AvailableCash, sub64. rewrite Hr. split_and!; try lia. apply wrap64_id. unfold64; lia.
Qed.

Lemma solvent_exact_shares ac sy : 0 <= Position ac sy a <= MaxInt64 /\
  ReservedPosition ac sy a = held_shares ac sy a /\
  AvailablePosition ac sy a = Position ac sy a - held_shares ac sy a.
Proof.
  pose proof (position_nonneg ac sy). pose proof (position_le_total ac sy). pose proof (so_total_shares a Hso sy).
  pose proof (held_shares_nonneg ac sy). pose proof (so_shares a Hso ac sy).
  assert (Hr : ReservedPosition ac sy a = held_shares ac sy a)
    by (rewrite (aw_shares a Hwf); apply wrap64_id; unfold64; lia).
  unfold AvailablePosition, sub64. rewrite Hr. split_and!; try lia. apply wrap64_id. unfold64; lia.
Qed.
End Bounds.

(** * The operations *)

Lemma held_same a a' : holds a' = holds a ->
  (forall ac, held_cash ac a' = held_cash ac a) /\ (forall ac sy, held_shares ac sy a' = held_shares ac sy a).
Proof. unfold held_cash, held_shares. by intros ->. Qed.

(** An order that reserves what it can cost: everything but a MARKET buy. *)
Definition priced (o : Order) : Prop := o_Side o = Sell \/ o_Type o <> Market.

Lemma Reserve_solvent o a : acc_wf a -> solvent a -> o_Quantity o <= MaxInt64 -> priced o ->
  solvent (Reserve o a).1.
Proof.
  intros Hwf Hso Hq Hpr. destruct (Reserve_spec o a Hwf Hq) as (_ & Hc & Hp & Hr).
  destruct (Reserve o a) as [a' [[]|e]] eqn:HR; simpl in *; [|by subst].
  destruct Hr as (Hk & Hpos & Hh).
  assert (HC : forall ac, Cash ac a' = Cash ac a) by (intros; unfold Cash; by rewrite Hc).
  assert (HP : forall ac sy, Position ac sy a' = Position ac sy a) by (intros; unfold Position; by rewrite Hp).
  assert (Hhc : forall ac, held_cash ac a' = held_cash ac a
    + if decide (o_Placer o = ac) then hold_cash (order_hold (o_Symbol o) o) else 0).
  { intros ac. unfold held_cash. rewrite Hh, map_sum_insert, Hk. simpl.
    unfold order_hold. destruct (decide (o_Side o = Sell)); simpl; lia. }
  assert (Hhs : forall ac sy, held_shares ac sy a' = held_shares ac sy a
    + if decide (o_Placer o = ac /\ o_Symbol o = sy) then hold_shares (order_hold (o_Symbol o) o) else 0).
  { intros ac sy. unfold held_shares. rewrite Hh, map_sum_insert, Hk. simpl.
    unfold order_hold. destruct (decide (o_Side o = Sell)); simpl; lia. }
  destruct (solvent_exact a Hwf Hso (o_Placer o)) as (_ & _ & Hav).
  destruct (solvent_exact_shares a Hwf Hso (o_Placer o) (o_Symbol o)) as (_ & _ & Hap).
  assert (Hfit : hold_cash (order_hold (o_Symbol o) o) <= AvailableCash (o_Placer o) a /\
                 hold_shares (order_hold (o_Symbol o) o) <= AvailablePosition (o_Placer o) (o_Symbol o) a).
  { pose proof (so_cash a Hso (o_Placer o)). pose proof (so_shares a Hso (o_Placer o) (o_Symbol o)).
    unfold Reserve in HR. destruct (negb _); [done|]. destruct (_ <=? 0); [done|].
    destruct (bool_decide _); [done|]. unfold order_hold, hold_cash, hold_shares.
    destruct (decide (o_Side o = Sell)) as [Hs|Hs]; simpl.
    - destruct (Z.ltb_spec (AvailablePosition (o_Placer o) (o_Symbol o) a) (o_Quantity o)); [done|]. lia.
    - destruct (decide (o_Type o = Market)); [by destruct Hpr|].
      destruct (notional _ _) as [cost|] eqn:Hn; [|done]. apply notional_Good in Hn as (_ & _ & _ & ->).
      destruct (Z.ltb_spec (AvailableCash (o_Placer o) a) (o_Price o * o_Quantity o)); [done|]. lia. }
  destruct Hfit as [Hf1 Hf2]. split.
  - intros ac. rewrite Hhc, HC. pose proof (so_cash a Hso ac). destruct (decide (o_Placer o = ac)) as [<-|]; lia.
  - intros ac sy. rewrite Hhs, HP. pose proof (so_shares a Hso ac sy).
    destruct (decide (o_Placer o = ac /\ o_Symbol o = sy)) as [[<- <-]|]; lia.
  - unfold total_cash. rewrite Hc. apply (so_total_cash a Hso).
  - intros sy. unfold total_position. rewrite Hp. apply (so_total_shares a Hso).
Qed.

Lemma release_solvent key a : acc_wf a -> solvent a -> solvent (releaseLocked key a).
Proof.
  intros Hwf Hso. destruct (release_spec a key Hwf) as (_ & Hh & Hc & Hp). split.
  - intros ac. unfold Cash. rewrite Hc. fold (Cash ac a). pose proof (so_cash a Hso ac).
    unfold held_cash in *. rewrite Hh. destruct (holds a !! key) as [h|] eqn:Hk; [|by rewrite delete_id].
    rewrite (map_sum_delete _ _ key h Hk). pose proof (hold_cash_nonneg a Hwf h key Hk). case_decide; lia.
  - intros ac sy. unfold Position. rewrite Hp. fold (Position ac sy a). pose proof (so_shares a Hso ac sy).
    unfold held_shares in *. rewrite Hh. destruct (holds a !! key) as [h|] eqn:Hk; [|by rewrite delete_id].
    rewrite (map_sum_delete _ _ key h Hk). pose proof (hold_shares_nonneg a Hwf h key Hk). case_decide; lia.
  - unfold total_cash. rewrite Hc. apply (so_total_cash a Hso).
  - intros sy. unfold total_position. rewrite Hp. apply (so_total_shares a Hso).
Qed.

(** * A covered trade *)

Definition buyer_id (t : Trade) : Z :=
  if decide (t_TakerSide t = Buy) then t_TakerSeqID t else t_MakerSeqID t.
Definition seller_id (t : Trade) : Z :=
  if decide (t_TakerSide t = Buy) then t_MakerSeqID t else t_TakerSeqID t.

(** Both parties' orders hold at least what the trade takes from them. *)
Record covered (symbol : string) (a : Accounts) (t : Trade) : Prop := {
  cv_moves : moves t = true;
  cv_parties : Buyer t <> Seller t;
  cv_ids : buyer_id t <> seller_id t;
  cv_symbol : t_Symbol t = symbol;
  cv_buyer : exists h, holds a !! (symbol, buyer_id t) = Some h /\ h_account h = Buyer t /\
    h_side h <> Sell /\ t_Price t <= h_price h /\ t_Quantity t <= h_qty h;
  cv_seller : exists h, holds a !! (symbol, seller_id t) = Some h /\ h_account h = Seller t /\
    h_side h = Sell /\ h_symbol h = symbol /\ t_Quantity t <= h_qty h
}.

Section CoveredTrade.
Context (symbol : string) (a : Accounts) (t : Trade).
Context (Hwf : acc_wf a) (Hso : solvent a) (Hcv : covered symbol a t).

Let a' := complete_trade symbol a t.

Lemma trade_bounds : 0 <= value t /\ 0 <= t_Quantity t /\
  (exists h, holds a !! (symbol, buyer_id t) = Some h /\ h_account h = Buyer t /\ h_side h <> Sell /\
     value t <= h_price h * t_Quantity t /\ t_Quantity t <= h_qty h) /\
  value t <= held_cash (Buyer t) a /\ t_Quantity t <= held_shares (Seller t) symbol a.
Proof.
  destruct (moves_value t (cv_moves _ _ _ Hcv)) as (_ & Hp & Hq & Hv).
  destruct (cv_buyer _ _ _ Hcv) as (h & Hk & Hac & Hs & Hpr & Hqh).
  destruct (cv_seller _ _ _ Hcv) as (g & Hkg & Hacg & Hsg & Hsy & Hqg).
  destruct (aw_holds a Hwf _ h Hk) as [_ Hb]. specialize (Hb Hs). unfold value in *.
  split_and!; try lia.
  - exists h. split_and!; try done. nia.
  - pose proof (held_cash_ge a Hwf _ h Hk) as Hge. rewrite Hac in Hge. unfold hold_cash in Hge.
    rewrite decide_False in Hge by done. nia.
  - pose proof (held_shares_ge a Hwf _ g Hkg) as Hge. rewrite Hacg, Hsy in Hge. unfold hold_shares in Hge.
    rewrite decide_True in Hge by done. lia.
Qed.

(** The two balances a trade touches never exceed the total. *)
Lemma pair_cash : Cash (Buyer t) a + Cash (Seller t) a <= MaxInt64.
Proof.
  etransitivity; [|apply (so_total_cash a Hso)]. unfold Cash, zlookup, total_cash.
  pose proof (map_sum_ge2 (fun _ v => v) (cash a) (Buyer t) (Seller t) (cv_parties _ _ _ Hcv)
    (cash_entry_nonneg a Hwf Hso)) as H. by destruct (cash a !! Buyer t), (cash a !! Seller t).
Qed.

Lemma pair_shares : Position (Buyer t) symbol a + Position (Seller t) symbol a <= MaxInt64.
Proof.
  etransitivity; [|apply (so_total_shares a Hso symbol)]. unfold Position, zlookup2, inner, total_position.
  pose proof (map_sum_ge2 (fun _ m => zlookup m symbol) (positions a) (Buyer t) (Seller t) (cv_parties _ _ _ Hcv)
    (position_entry_nonneg a Hwf Hso symbol)) as H.
  by destruct (positions a !! Buyer t), (positions a !! Seller t).
Qed.

Lemma covered_cash ac : Cash ac a' = Cash ac a + cash_flow ac t.
Proof.
  destruct trade_bounds as (Hv & Hq & _ & Hb & _). pose proof pair_cash.
  pose proof (so_cash a Hso (Buyer t)). pose proof (cash_nonneg a Hwf Hso (Seller t)).
  destruct (moves_value t (cv_moves _ _ _ Hcv)) as (_ & _ & _ & Hvm).
  destruct (complete_trade_frame symbol a t Hwf) as (_ & Hc & _). unfold Cash. unfold a'. rewrite Hc.
  unfold cash_flow. rewrite (cv_moves _ _ _ Hcv). simpl. rewrite wrap64_neg by lia.
  assert (Hbuy : forall k, zlookup (zadd (Buyer t) (- value t) (cash a)) k
    = zlookup (cash a) k + if decide (Buyer t = k) then - value t else 0)
    by (intros; apply zlookup_zadd_exact; unfold Cash in *; unfold64; lia).
  rewrite zlookup_zadd_exact; rewrite !Hbuy.
  - repeat case_decide; lia.
  - rewrite decide_False by apply (cv_parties _ _ _ Hcv). unfold Cash in *. unfold64; lia.
Qed.

Lemma covered_total_cash : total_cash a' = total_cash a.
Proof.
  destruct trade_bounds as (Hv & Hq & _ & Hb & _). pose proof pair_cash.
  pose proof (so_cash a Hso (Buyer t)). pose proof (cash_nonneg a Hwf Hso (Seller t)).
  destruct (moves_value t (cv_moves _ _ _ Hcv)) as (_ & _ & _ & Hvm).
  destruct (complete_trade_frame symbol a t Hwf) as (_ & Hc & _). unfold total_cash, a'. rewrite Hc.
  rewrite (cv_moves _ _ _ Hcv). simpl. rewrite wrap64_neg by lia. unfold Cash in *.
  rewrite !map_sum_zadd_exact; [lia|unfold64; lia|].
  rewrite zlookup_zadd_exact by (unfold64; lia). rewrite decide_False by apply (cv_parties _ _ _ Hcv).
  unfold64; lia.
Qed.
(** The same for shares, read through the per-account maps. *)
Lemma add_position_exact m ac q a0 sy : in64 (zlookup2 m ac symbol + q) ->
  zlookup2 (<[ac := zadd symbol q (inner m ac)]> m) a0 sy
    = zlookup2 m a0 sy + if decide (ac = a0 /\ symbol = sy) then q else 0.
Proof.
  intros Hr. rewrite zlookup2_add. destruct (decide (ac = a0 /\ symbol = sy)) as [[<- <-]|]; [|lia].
  by apply wrap64_id.
Qed.

Lemma add_position_total m ac q sy : in64 (zlookup2 m ac symbol + q) ->
  map_sum (fun _ x => zlookup x sy) (<[ac := zadd symbol q (inner m ac)]> m)
    = map_sum (fun _ x => zlookup x sy) m + if decide (symbol = sy) then q else 0.
Proof.
  intros Hr. rewrite map_sum_insert, zlookup_zadd_exact by exact Hr. unfold inner.
  destruct (m !! ac) as [x|]; simpl; [|unfold zlookup at 2; rewrite lookup_empty; simpl]; lia.
Qed.

Lemma quantity_range : 0 <= t_Quantity t <= MaxInt64 /\
  in64 (Position (Buyer t) symbol a + t_Quantity t) /\
  in64 (Position (Seller t) symbol a - t_Quantity t) /\ t_Quantity t <= Position (Seller t) symbol a.
Proof.
  destruct trade_bounds as (_ & Hq & _ & _ & Hs). pose proof pair_shares.
  pose proof (so_shares a Hso (Seller t) symbol). pose proof (position_nonneg a Hwf Hso (Buyer t) symbol).
  unfold64; lia.
Qed.

Lemma covered_position ac sy : Position ac sy a' = Position ac sy a + share_flow ac sy t.
Proof.
  destruct quantity_range as (Hq & Hb & Hs & _). pose proof (cv_parties _ _ _ Hcv) as Hne.
  destruct (complete_trade_frame symbol a t Hwf) as (_ & _ & Hp & _). unfold Position, a' in *. rewrite Hp.
  unfold share_flow. rewrite (cv_moves _ _ _ Hcv). simpl. rewrite wrap64_neg, (cv_symbol _ _ _ Hcv) by lia.
  rewrite !add_position_exact; try done.
  - repeat case_decide; lia.
  - rewrite add_position_exact by done. rewrite decide_False by tauto. unfold64; lia.
Qed.

Lemma covered_total_position sy : total_position sy a' = total_position sy a.
Proof.
  destruct quantity_range as (Hq & Hb & Hs & _). pose proof (cv_parties _ _ _ Hcv) as Hne.
  destruct (complete_trade_frame symbol a t Hwf) as (_ & _ & Hp & _). unfold Position, total_position, a' in *.
  rewrite Hp. rewrite (cv_moves _ _ _ Hcv). simpl. rewrite wrap64_neg, (cv_symbol _ _ _ Hcv) by lia.
  rewrite !add_position_total; try done.
  - case_decide; lia.
  - rewrite add_position_exact by done. rewrite decide_False by tauto. unfold64; lia.
Qed.

(** The holds give up what traded: the buyer's at its own limit price. *)
Lemma covered_holds : holds a' = partial_alter (fun h => h ≫= filled (t_Quantity t)) (symbol, buyer_id t)
  (partial_alter (fun h => h ≫= filled (t_Quantity t)) (symbol, seller_id t) (holds a)).
Proof.
  destruct (complete_trade_frame symbol a t Hwf) as (_ & _ & _ & Hh). unfold a'.
  rewrite Hh, (cv_moves _ _ _ Hcv). pose proof (cv_ids _ _ _ Hcv) as Hne.
  unfold buyer_id, seller_id in *. case_decide; [done|].
  apply partial_alter_partial_alter_ne. congruence.
Qed.

Lemma filled_cash h q : 0 <= q <= h_qty h -> forall ac,
  from_option (fun x => if decide (h_account x = ac) then hold_cash x else 0) 0 (filled q h)
    = if decide (h_account h = ac /\ h_side h <> Sell) then h_price h * (h_qty h - q) else 0.
Proof.
  intros Hq ac. unfold filled, reduce, hold_cash. replace (clamp q h) with q by (unfold clamp; lia).
  simpl. destruct (decide (h_qty h - q = 0)) as [->|]; simpl; repeat case_decide; try tauto; lia.
Qed.

Lemma filled_shares h q : 0 <= q <= h_qty h -> forall ac sy,
  from_option (fun x => if decide (h_account x = ac /\ h_symbol x = sy) then hold_shares x else 0) 0 (filled q h)
    = if decide ((h_account h = ac /\ h_symbol h = sy) /\ h_side h = Sell) then h_qty h - q else 0.
Proof.
  intros Hq ac sy. unfold filled, reduce, hold_shares. replace (clamp q h) with q by (unfold clamp; lia).
  simpl. destruct (decide (h_qty h - q = 0)) as [->|]; simpl; repeat case_decide; try tauto; lia.
Qed.

Lemma covered_held ac sy :
  held_cash ac a' <= held_cash ac a + cash_flow ac t /\
  held_shares ac sy a' <= held_shares ac sy a + share_flow ac sy t.
Proof.
  destruct trade_bounds as (Hv & Hq & _).
  destruct (cv_buyer _ _ _ Hcv) as (h & Hk & Hac & Hs & Hpr & Hqh).
  destruct (cv_seller _ _ _ Hcv) as (g & Hkg & Hacg & Hsg & Hsy & Hqg).
  pose proof (cv_ids _ _ _ Hcv) as Hids. pose proof (cv_parties _ _ _ Hcv) as Hpt.
  assert (Hk' : partial_alter (fun h => h ≫= filled (t_Quantity t)) (symbol, seller_id t) (holds a)
    !! (symbol, buyer_id t) = Some h) by (rewrite lookup_partial_alter_ne by congruence; done).
  unfold held_cash, held_shares, cash_flow, share_flow. rewrite covered_holds, (cv_moves _ _ _ Hcv), (cv_symbol _ _ _ Hcv).
  rewrite !map_sum_partial_alter, Hk', Hkg. simpl.
  rewrite !filled_cash, !filled_shares by lia. unfold hold_cash, hold_shares, value.
  rewrite Hac, Hacg, Hsg, Hsy. unfold value in Hv.
  split; repeat case_decide; simpl; first [tauto|congruence|nia].
Qed.

Lemma complete_trade_solvent : solvent a'.
Proof.
  split.
  - intros ac. rewrite covered_cash. pose proof (covered_held ac "") as [H _]. pose proof (so_cash a Hso ac). lia.
  - intros ac sy. rewrite covered_position. pose proof (covered_held ac sy) as [_ H].
    pose proof (so_shares a Hso ac sy). lia.
  - rewrite covered_total_cash. apply (so_total_cash a Hso).
  - intros sy. rewrite covered_total_position. apply (so_total_shares a Hso).
Qed.
End CoveredTrade.
