(* ===== verification/AccountsProps.v ===== *)
(** What the account store guarantees.

    [acc_reachable] closes the empty store under the methods of [accounts.go].
    [same_store] is equality up to entries that read [0], the equivalence the
    store's readers cannot see through. *)

From Stdlib Require Import ZArith Lia.
From stdpp Require Import base gmap list strings.
From S2P Require Import Prelude Types Accounts AccountsInv AccountsSolv.

Open Scope Z_scope.

(** * Stores the readers cannot tell apart *)

Record same_store (a a' : Accounts) : Prop := {
  ss_cash : forall ac, Cash ac a = Cash ac a';
  ss_positions : forall ac sy, Position ac sy a = Position ac sy a';
  ss_reserved : forall ac, ReservedCash ac a = ReservedCash ac a';
  ss_shares : forall ac sy, ReservedPosition ac sy a = ReservedPosition ac sy a';
  ss_holds : holds a = holds a'
}.

#[global] Instance same_store_equivalence : Equivalence same_store.
Proof.
  split.
  - by split.
  - intros x y []. by split.
  - intros x y z [] []. split; intros; etransitivity; eauto.
Qed.

#[global] Instance AvailableCash_proper ac : Proper (same_store ==> eq) (AvailableCash ac).
Proof. intros a a' H. unfold AvailableCash. by rewrite (ss_cash _ _ H), (ss_reserved _ _ H). Qed.
#[global] Instance AvailablePosition_proper ac sy : Proper (same_store ==> eq) (AvailablePosition ac sy).
Proof. intros a a' H. unfold AvailablePosition. by rewrite (ss_positions _ _ H), (ss_shares _ _ H). Qed.
#[global] Instance HoldCount_proper : Proper (same_store ==> eq) HoldCount.
Proof. intros a a' H. unfold HoldCount. by rewrite (ss_holds _ _ H). Qed.

(** Equal holds and balances make well-formed stores indistinguishable. *)
Lemma same_store_intro a a' : acc_wf a -> acc_wf a' -> holds a = holds a' ->
  cash a = cash a' -> positions a = positions a' -> same_store a a'.
Proof.
  intros Hwf Hwf' Hh Hc Hp. destruct (held_same a' a Hh) as [H1 H2]. split; try done.
  - intros ac. unfold Cash. by rewrite Hc.
  - intros ac sy. unfold Position. by rewrite Hp.
  - intros ac. by rewrite (aw_cash a Hwf), (aw_cash a' Hwf'), H1.
  - intros ac sy. by rewrite (aw_shares a Hwf), (aw_shares a' Hwf'), H2.
Qed.

(** * Reachable stores *)

(** A resting order read back from a recovered book. *)
Definition restorable (o : Order) : Prop :=
  0 < o_Quantity o <= MaxInt64 /\
  (o_Side o <> Sell -> is_good (notional (o_Price o) (o_Quantity o)) = true).

Inductive acc_reachable : Accounts -> Prop :=
| areach_new : acc_reachable NewAccounts
| areach_deposit a account amount : acc_reachable a -> acc_reachable (Deposit account amount a)
| areach_position a account symbol qty : acc_reachable a -> acc_reachable (SetPosition account symbol qty a)
| areach_reserve a o : acc_reachable a -> o_Quantity o <= MaxInt64 -> acc_reachable (Reserve o a).1
| areach_restore a symbol o : acc_reachable a -> restorable o -> acc_reachable (RestoreHold symbol o a)
| areach_release a symbol id : acc_reachable a -> acc_reachable (Release symbol id a)
| areach_complete a symbol id trades resting prevented : acc_reachable a ->
    acc_reachable (Complete symbol id trades resting prevented a)
| areach_load a c p : acc_reachable a -> acc_reachable (LoadBalances c p a).1.

(** [Complete] as its three phases. *)
Lemma Complete_spec symbol id trades resting prevented a : acc_wf a -> holds_live a ->
  let a' := Complete symbol id trades resting prevented a in
  acc_wf a' /\ holds_live a' /\
  (forall i, holds a' !! (symbol, i) =
     if decide (i ∈ prevented \/ (i = id /\ resting <= 0)) then None
     else holds a !! (symbol, i) ≫= filled (sumZ (fills i) trades)) /\
  (forall k, k.1 <> symbol -> holds a' !! k = holds a !! k) /\
  (forall ac, eq64 (Cash ac a') (Cash ac a + sumZ (cash_flow ac) trades)) /\
  (forall ac sy, eq64 (Position ac sy a') (Position ac sy a + sumZ (share_flow ac sy) trades)) /\
  eq64 (total_cash a') (total_cash a) /\
  (forall sy, eq64 (total_position sy a') (total_position sy a)).
Proof.
  intros Hwf Hl a'. unfold a', Complete.
  destruct (complete_trades_spec symbol trades a Hwf Hl) as (W1 & L1 & H1 & O1 & C1 & P1 & T1 & S1).
  set (a1 := foldl (complete_trade symbol) a trades) in *.
  destruct (release_all_spec symbol prevented a1 W1 L1) as (W2 & L2 & C2 & P2 & H2 & O2).
  set (a2 := foldl (fun a id => releaseLocked (symbol, id) a) a1 prevented) in *.
  destruct (Z.leb_spec resting 0) as [Hr|Hr].
  - destruct (release_spec a2 (symbol, id) W2) as (W3 & H3 & C3 & P3).
    split_and!; [done|by apply release_live| | |unfold Cash, total_cash, Position, total_position; rewrite ?C3, ?C2, ?P3, ?P2; done..].
    + intros i. rewrite H3. destruct (decide (i = id)) as [->|Hne].
      * rewrite lookup_delete_eq, decide_True by auto. done.
      * rewrite lookup_delete_ne, H2, H1 by congruence. repeat case_decide; tauto.
    + intros [s i] Hs. simpl in Hs. rewrite H3, lookup_delete_ne by congruence. by rewrite O2, O1.
  - split_and!; [done|done| | |unfold Cash, total_cash, Position, total_position; rewrite ?C2, ?P2; done..].
    + intros i. rewrite H2, H1. destruct (decide (i ∈ prevented)).
      * by rewrite decide_True by auto.
      * by rewrite decide_False by (intros [?|[_ ?]]; [done|lia]).
    + intros k Hk. by rewrite O2, O1.
Qed.

(** Loading rebuilds the position table; its reads are the journal's. *)
Lemma setPosition_read account symbol qty a ac sy :
  Position ac sy (setPositionLocked account symbol qty a)
    = if decide (account = ac /\ symbol = sy) then qty else Position ac sy a.
Proof.
  unfold Position, setPositionLocked. simpl. rewrite zlookup2_insert, zlookup_insert. unfold zlookup2.
  destruct (decide (account = ac)) as [<-|]; destruct (decide (symbol = sy)) as [<-|];
    by repeat case_decide; try tauto.
Qed.

Definition loads (upd : string -> string -> option Z) (a a' : Accounts) : Prop :=
  cash a' = cash a /\ holds a' = holds a /\
  forall ac sy, Position ac sy a' = default (Position ac sy a) (upd ac sy).

Lemma load_account account m a :
  loads (fun ac sy => if decide (account = ac) then m !! sy else None) a
    (map_fold (fun symbol qty a => setPositionLocked account symbol qty a) a m).
Proof.
  apply (map_fold_weak_ind (fun r m =>
    loads (fun ac sy => if decide (account = ac) then m !! sy else None) a r)).
  - split_and!; try done. intros ac sy. rewrite lookup_empty. by case_decide.
  - intros symbol qty m' r Hn (Hc & Hh & IH). split_and!; [done|done|]. intros ac sy.
    rewrite setPosition_read, IH. destruct (decide (account = ac)) as [<-|]; [|by rewrite decide_False by tauto].
    rewrite lookup_insert. destruct (decide (symbol = sy)) as [<-|]; [by rewrite decide_True|].
    by rewrite decide_False by tauto.
Qed.

Lemma load_positions p a :
  loads (fun ac sy => p !! ac ≫= (.!! sy)) a
    (map_fold (fun account bySymbol a =>
      map_fold (fun symbol qty a => setPositionLocked account symbol qty a) a bySymbol) a p).
Proof.
  apply (map_fold_weak_ind (fun r p => loads (fun ac sy => p !! ac ≫= (.!! sy)) a r)).
  - by split_and!.
  - intros account m p' r Hn (Hc & Hh & IH). destruct (load_account account m r) as (Hc' & Hh' & Hp').
    split_and!; [by rewrite Hc'|by rewrite Hh'|]. intros ac sy. rewrite Hp', IH, lookup_insert.
    destruct (decide (account = ac)) as [<-|]; simpl; [|done]. by rewrite Hn.
Qed.

Lemma LoadBalances_spec c p a : acc_wf a ->
  let a' := (LoadBalances c p a).1 in
  acc_wf a' /\ holds a' = holds a /\
  match (LoadBalances c p a).2 with
  | Good _ => HoldCount a = 0%nat /\ cash a' = c /\
      (forall ac sy, Position ac sy a' = default 0 (p !! ac ≫= (.!! sy)))
  | Fails e => HoldCount a <> 0%nat /\ e = ErrLiveReservations (HoldCount a) /\ a' = a
  end.
Proof.
  intros Hwf. unfold LoadBalances. destruct (Nat.eqb_spec (HoldCount a) 0) as [H0|H0]; [|done]. simpl.
  destruct (load_positions p (set_positions ∅ (set_cash c a))) as (Hc & Hh & Hp).
  set (a1 := map_fold _ _ p) in *. simpl in Hc, Hh.
  apply map_size_empty_inv in H0 as He. split_and!; try done.
  - split; simpl.
    + intros k h. rewrite Hh. apply (aw_holds a Hwf).
    + intros ac. unfold held_cash. simpl. by rewrite Hh, He, map_sum_empty.
    + intros ac sy. unfold held_shares. simpl. by rewrite Hh, He, map_sum_empty.
Qed.

Lemma acc_reachable_inv a : acc_reachable a -> acc_wf a /\ holds_live a.
Proof.
  induction 1 as [|a account amount _ [Hwf Hl]|a account symbol qty _ [Hwf Hl]|a o _ [Hwf Hl] Hq
    |a symbol o _ [Hwf Hl] Ho|a symbol id _ [Hwf Hl]|a symbol id trades resting prevented _ [Hwf Hl]
    |a c p _ [Hwf Hl]].
  - split; [apply NewAccounts_wf|]. intros k h H. simpl in H. by rewrite lookup_empty in H.
  - destruct Hwf. by split.
  - destruct Hwf. by split.
  - destruct (Reserve_spec o a Hwf Hq) as (Hwf' & _ & _ & Hr). split; [done|].
    destruct (Reserve o a) as [a' [[]|e]]; simpl in *; [|by subst]. destruct Hr as (_ & Hpos & Hh).
    intros k h. rewrite Hh. intros [[_ <-]|[_ Hk]]%lookup_insert_Some; [|by eapply Hl].
    unfold order_hold. by case_decide.
  - destruct Ho as [Hq Hn]. destruct (RestoreHold_spec symbol o a Hwf Hq Hn) as (Hwf' & _ & _ & Hh).
    split; [done|]. intros k h. rewrite Hh. case_decide; [by apply Hl|].
    intros [[_ <-]|[_ Hk]]%lookup_insert_Some; [simpl; lia|by eapply Hl].
  - split; [by apply (release_spec a (symbol, id))|by apply release_live].
  - by destruct (Complete_spec symbol id trades resting prevented a Hwf Hl) as (? & ? & _).
  - destruct (LoadBalances_spec c p a Hwf) as (Hwf' & Hh & _). split; [done|].
    intros k h. rewrite Hh. apply Hl.
Qed.

(** * A small store, used to instantiate the theorems *)

Module AccDemo.
Definition bid : Order := mkOrder 1 "NABIL" "ann" Limit 100 5 Buy zeroTime.
Definition ask : Order := mkOrder 2 "NABIL" "bob" Limit 90 3 Sell zeroTime.
Definition fill : Trade := mkTrade 1 "NABIL" 100 1 2 "ann" "bob" 3 Sell 1000.
Definition funded : Accounts := SetPosition "bob" "NABIL" 10 (Deposit "ann" 1000 NewAccounts).
Definition held : Accounts := (Reserve ask (Reserve bid funded).1).1.

Lemma funded_reachable : acc_reachable funded.
Proof. apply areach_position, areach_deposit, areach_new. Qed.
Lemma held_reachable : acc_reachable held.
Proof.
  apply areach_reserve; [apply areach_reserve; [apply funded_reachable|]|]; unfold MaxInt64; simpl; lia.
Qed.
End AccDemo.

(** * The properties *)

(** The cost of an order, in unbounded integers: the true product, or why there
    is none. *)
Definition exact_cost (p q : Z) : result oms_error Z :=
  if decide (p < 0 \/ q < 0) then Fails ErrNegative
  else if decide (MaxInt64 < p * q) then Fails ErrOverflow
  else Good (p * q).

(** [notional] is exact or refuses: for 64-bit inputs it returns the true
    product when both factors are non-negative and it fits in 64 bits, and an
    error otherwise; no wrapped cost is ever returned. *)
Theorem notional_exact p q : in64 p -> in64 q -> notional p q = exact_cost p q.
Proof.
  intros Hp Hq. unfold exact_cost. destruct (notional p q) as [v|e] eqn:Hn.
  - apply notional_Good in Hn as (? & ? & ? & ->). by rewrite !decide_False by lia.
  - case_decide as Hneg.
    + unfold notional in Hn. destruct (Z.ltb_spec p 0), (Z.ltb_spec q 0); simpl in Hn; [congruence..|lia].
    + case_decide as Hov.
      * unfold notional in Hn. destruct (Z.ltb_spec p 0), (Z.ltb_spec q 0); simpl in Hn; [lia..|].
        by destruct (negb _ && _).
      * rewrite (proj2 (notional_Good p q (p * q))) in Hn; [done|lia].
Qed.

Lemma notional_exact_witness : notional 4294967296 4294967296 = Fails ErrOverflow.
Proof. rewrite (notional_exact 4294967296 4294967296); [reflexivity|unfold64; lia..]. Defined.

(** The pre-trade check on every branch. [Reserve] accepts exactly the orders
    of known accounts with a positive quantity, no reservation yet, and enough
    uncommitted shares (a sell) or cash (a priced buy; any positive amount for a
    MARKET buy); a rejected order leaves the store untouched, and an accepted one
    changes no balance and adds exactly its own hold. *)
Theorem Reserve_outcome o a : acc_reachable a -> o_Quantity o <= MaxInt64 ->
  let affordable :=
    (o_Side o = Sell /\ o_Quantity o <= AvailablePosition (o_Placer o) (o_Symbol o) a) \/
    (o_Side o <> Sell /\ o_Type o = Market /\ 0 < AvailableCash (o_Placer o) a) \/
    (o_Side o <> Sell /\ o_Type o <> Market /\ 0 <= o_Price o /\
      o_Price o * o_Quantity o <= Z.min MaxInt64 (AvailableCash (o_Placer o) a)) in
  (is_good (Reserve o a).2 = true <->
    Exists (o_Placer o) a = true /\ 0 < o_Quantity o /\
    holds a !! (o_Symbol o, o_SeqID o) = None /\ affordable) /\
  cash (Reserve o a).1 = cash a /\ positions (Reserve o a).1 = positions a /\
  (is_good (Reserve o a).2 = false -> (Reserve o a).1 = a) /\
  (is_good (Reserve o a).2 = true ->
    holds (Reserve o a).1 = <[(o_Symbol o, o_SeqID o) := order_hold (o_Symbol o) o]> (holds a)).
Proof.
  intros Hr Hq affordable. destruct (acc_reachable_inv a Hr) as [Hwf _].
  destruct (Reserve_spec o a Hwf Hq) as (_ & Hc & Hp & Hres). split_and!; try done.
  2, 3: destruct (Reserve o a) as [a' [[]|e]]; simpl in *; try done; intros _; by destruct Hres as (_ & _ & ?).
  clear Hc Hp Hres. unfold Reserve, Exists, affordable. destruct (existsLocked _ _); simpl; [|naive_solver].
  destruct (Z.leb_spec (o_Quantity o) 0); [split; [done|lia]|].
  destruct (holds a !! _) as [h|] eqn:Hk; simpl; [split; [done|by intros (_ & _ & ? & _)]|].
  destruct (decide (o_Side o = Sell)) as [Hs|Hs].
  - destruct (Z.ltb_spec (AvailablePosition (o_Placer o) (o_Symbol o) a) (o_Quantity o)); simpl.
    + split; [done|]. intros (_ & _ & _ & [[_ ?]|[[? _]|[? _]]]); [lia|done..].
    + split; [|done]. auto 10.
  - destruct (decide (o_Type o = Market)) as [Hm|Hm].
    + destruct (Z.leb_spec (AvailableCash (o_Placer o) a) 0); simpl.
      * split; [done|]. intros (_ & _ & _ & [[? _]|[(_ & _ & ?)|(_ & ? & _)]]); [done|lia|done].
      * split; [|done]. auto 10.
    + destruct (notional _ _) as [cost|e] eqn:Hn.
      * apply notional_Good in Hn as (? & ? & ? & ->).
        destruct (Z.ltb_spec (AvailableCash (o_Placer o) a) (o_Price o * o_Quantity o)); simpl.
        -- split; [done|]. intros (_ & _ & _ & [[? _]|[(_ & ? & _)|(_ & _ & _ & ?)]]); [done..|lia].
        -- split; [|done]. intros _. split_and!; try done. right; right. split_and!; try done. lia.
      * split; [done|]. intros (_ & _ & _ & [[? _]|[(_ & ? & _)|(_ & _ & ? & ?)]]); [done..|].
        rewrite (proj2 (notional_Good _ _ (o_Price o * o_Quantity o))) in Hn; [done|lia].
Qed.

Lemma Reserve_outcome_witness :
  is_good (Reserve AccDemo.bid AccDemo.funded).2 = true /\
  holds (Reserve AccDemo.bid AccDemo.funded).1
    = <[("NABIL", 1) := order_hold "NABIL" AccDemo.bid]> (holds AccDemo.funded).
Proof.
  split; [vm_compute; reflexivity|].
  apply (Reserve_outcome AccDemo.bid AccDemo.funded AccDemo.funded_reachable);
    [unfold MaxInt64; simpl; lia|vm_compute; reflexivity].
Defined.

(** C11: Reservations are exact: in every reachable store the reserved cash and
    shares of each account are what its live holds add up to (at 64 bits), every
    hold is for a positive quantity, and with no hold left nothing is reserved:
    no reservation leaks. *)
Theorem reservations_exact a : acc_reachable a ->
  (forall ac, ReservedCash ac a = wrap64 (held_cash ac a)) /\
  (forall ac sy, ReservedPosition ac sy a = wrap64 (held_shares ac sy a)) /\
  (forall k h, holds a !! k = Some h -> 0 < h_qty h /\ 0 <= hold_cash h <= MaxInt64) /\
  (HoldCount a = 0%nat -> forall ac sy,
     ReservedCash ac a = 0 /\ ReservedPosition ac sy a = 0 /\
     AvailableCash ac a = wrap64 (Cash ac a) /\ AvailablePosition ac sy a = wrap64 (Position ac sy a)).
Proof.
  intros Hr. destruct (acc_reachable_inv a Hr) as [Hwf Hl]. split_and!.
  - apply (aw_cash a Hwf).
  - apply (aw_shares a Hwf).
  - intros k h Hk. split; [by eapply Hl|]. split; [by eapply hold_cash_nonneg|].
    destruct (aw_holds a Hwf k h Hk) as [_ Hb]. unfold hold_cash. case_decide; [unfold MaxInt64; lia|].
    by apply Hb.
  - intros H0 ac sy. apply map_size_empty_inv in H0.
    assert (Hc : ReservedCash ac a = 0)
      by (rewrite (aw_cash a Hwf); unfold held_cash; by rewrite H0, map_sum_empty).
    assert (Hs : ReservedPosition ac sy a = 0)
      by (rewrite (aw_shares a Hwf); unfold held_shares; by rewrite H0, map_sum_empty).
    unfold AvailableCash, AvailablePosition, sub64. by rewrite Hc, Hs, !Z.sub_0_r.
Qed.

Lemma reservations_exact_witness : ReservedCash "ann" AccDemo.held = wrap64 (held_cash "ann" AccDemo.held).
Proof. exact (proj1 (reservations_exact AccDemo.held AccDemo.held_reachable) "ann"). Defined.

(** [Complete] settles exactly what traded. Each account's cash and shares
    move by the trades it was party to; each order's hold shrinks by what it
    filled and disappears when nothing is left, when self-match prevention pulled
    the order, or when the taker does not rest; other symbols' holds are
    untouched. *)
Theorem Complete_settles symbol id trades resting prevented a : acc_reachable a ->
  let a' := Complete symbol id trades resting prevented a in
  (forall ac, eq64 (Cash ac a') (Cash ac a + sumZ (cash_flow ac) trades)) /\
  (forall ac sy, eq64 (Position ac sy a') (Position ac sy a + sumZ (share_flow ac sy) trades)) /\
  (forall i, holds a' !! (symbol, i) =
     if decide (i ∈ prevented \/ (i = id /\ resting <= 0)) then None
     else holds a !! (symbol, i) ≫= filled (sumZ (fills i) trades)) /\
  (forall k, k.1 <> symbol -> holds a' !! k = holds a !! k).
Proof.
  intros Hr. destruct (acc_reachable_inv a Hr) as [Hwf Hl].
  destruct (Complete_spec symbol id trades resting prevented a Hwf Hl) as (_ & _ & ? & ? & ? & ? & _). auto.
Qed.

Lemma Complete_settles_witness :
  eq64 (Cash "bob" (Complete "NABIL" 2 [AccDemo.fill] 0 [] AccDemo.held))
       (Cash "bob" AccDemo.held + sumZ (cash_flow "bob") [AccDemo.fill]).
Proof.
  destruct (Complete_settles "NABIL" 2 [AccDemo.fill] 0 [] AccDemo.held AccDemo.held_reachable) as [H _].
  exact (H "bob").
Defined.

(** Settlement conserves value: whatever the trades, the venue's total cash
    and each symbol's total shares are the same (as 64-bit integers) before and
    after [Complete]. *)
Theorem Complete_conserves symbol id trades resting prevented a : acc_reachable a ->
  let a' := Complete symbol id trades resting prevented a in
  eq64 (total_cash a') (total_cash a) /\ forall sy, eq64 (total_position sy a') (total_position sy a).
Proof.
  intros Hr. destruct (acc_reachable_inv a Hr) as [Hwf Hl].
  destruct (Complete_spec symbol id trades resting prevented a Hwf Hl) as (_ & _ & _ & _ & _ & _ & ? & ?). auto.
Qed.

Lemma Complete_conserves_witness :
  eq64 (total_cash (Complete "NABIL" 2 [AccDemo.fill] 0 [] AccDemo.held)) (total_cash AccDemo.held).
Proof. exact (proj1 (Complete_conserves "NABIL" 2 [AccDemo.fill] 0 [] AccDemo.held AccDemo.held_reachable)). Defined.

(** [Release] undoes [Reserve]: after an accepted reservation is released no
    reader can tell the store from the one before it. *)
Theorem Release_undoes_Reserve o a : acc_reachable a -> o_Quantity o <= MaxInt64 ->
  is_good (Reserve o a).2 = true ->
  same_store (Release (o_Symbol o) (o_SeqID o) (Reserve o a).1) a.
Proof.
  intros Hr Hq Hgood. destruct (acc_reachable_inv a Hr) as [Hwf _].
  destruct (Reserve_spec o a Hwf Hq) as (Hwf' & Hc & Hp & Hres).
  destruct (Reserve o a) as [a' [[]|e]]; simpl in *; [|done]. destruct Hres as (Hk & _ & Hh).
  destruct (release_spec a' (o_Symbol o, o_SeqID o) Hwf') as (Hwf2 & Hh2 & Hc2 & Hp2).
  apply same_store_intro; unfold Release; try done; [|by rewrite Hc2|by rewrite Hp2].
  by rewrite Hh2, Hh, delete_insert_id.
Qed.

Lemma Release_undoes_Reserve_witness :
  same_store (Release "NABIL" 1 (Reserve AccDemo.bid AccDemo.funded).1) AccDemo.funded.
Proof.
  apply (Release_undoes_Reserve AccDemo.bid AccDemo.funded AccDemo.funded_reachable);
    [unfold MaxInt64; simpl; lia|vm_compute; reflexivity].
Defined.

(** Loading balances from the journal succeeds exactly when no reservation is
    live, then every balance reads as the journal says and every reservation as
    zero; otherwise the store is untouched and the caller is told how many
    reservations there are. *)
Theorem LoadBalances_loads c p a : acc_reachable a ->
  let a' := (LoadBalances c p a).1 in
  match (LoadBalances c p a).2 with
  | Good _ => HoldCount a = 0%nat /\
      (forall ac, Cash ac a' = zlookup c ac /\ ReservedCash ac a' = 0) /\
      (forall ac sy, Position ac sy a' = default 0 (p !! ac ≫= (.!! sy)) /\ ReservedPosition ac sy a' = 0)
  | Fails e => e = ErrLiveReservations (HoldCount a) /\ HoldCount a <> 0%nat /\ a' = a
  end.
Proof.
  intros Hr. destruct (acc_reachable_inv a Hr) as [Hwf _].
  destruct (LoadBalances_spec c p a Hwf) as (Hwf' & Hh & Hres).
  destruct (LoadBalances c p a) as [a' [u|e]]; simpl in *; [|tauto]. destruct Hres as (H0 & Hc & Hp).
  split_and!; [done| |].
  - intros ac. split; [by unfold Cash; rewrite Hc|]. apply map_size_empty_inv in H0.
    rewrite (aw_cash a' Hwf'). unfold held_cash. by rewrite Hh, H0, map_sum_empty.
  - intros ac sy. split; [apply Hp|]. apply map_size_empty_inv in H0.
    rewrite (aw_shares a' Hwf'). unfold held_shares. by rewrite Hh, H0, map_sum_empty.
Qed.

Lemma LoadBalances_loads_witness :
  (LoadBalances ∅ ∅ AccDemo.held).2 = Fails (ErrLiveReservations 2) /\
  (LoadBalances ∅ ∅ AccDemo.held).1 = AccDemo.held.
Proof.
  assert (E : (LoadBalances ∅ ∅ AccDemo.held).2 = Fails (ErrLiveReservations 2)) by (vm_compute; reflexivity).
  pose proof (LoadBalances_loads ∅ ∅ AccDemo.held AccDemo.held_reachable) as H. cbv zeta in H.
  rewrite E in H. destruct H as (_ & _ & H). split; [exact E|exact H].
Defined.
