(* ===== verification/WalRecord.v ===== *)
(** Log records and replay, from [src/internal/oms/wal.go]: the [Record] type, its
    [Apply], and the interface the sequencer expects of a log writer.

    [WalOps] are the operations of [Writer] the sequencer calls; [WalLaws] is what
    it relies on. [Wal.v] implements them over bytes. *)

From Stdlib Require Import ZArith Lia.
From stdpp Require Import base gmap list strings.
From S2P Require Import Prelude Types Book.

Open Scope Z_scope.

Inductive RecordKind := RecordUnknown | RecordSubmit | RecordCancel.

#[global] Instance RecordKind_eq_dec : EqDecision RecordKind.
Proof. solve_decision. Defined.

(** [Record]: the intent to apply one mutation. [w_TS] is [TS.UnixNano()]. *)
Record WalRecord := mkRecord {
  w_Seq : Z;
  w_Kind : RecordKind;
  w_TS : Z;
  w_Order : Order;
  w_CancelID : Z;
  w_CancelBy : string
}.

#[global] Instance WalRecord_eq_dec : EqDecision WalRecord.
Proof. solve_decision. Defined.

(** [Record.Apply]: replay one record, discarding the mutation's own error. *)
Definition Apply (now : Z -> Z) (rec : WalRecord) (b : Book) : outcome Book :=
  match w_Kind rec with
  | RecordSubmit => '(b, _) ← Submit now (w_Order rec) b; Ok b
  | RecordCancel => '(b, _) ← CancelOwned (w_CancelID rec) (w_CancelBy rec) b; Ok b
  | RecordUnknown => Ok b
  end.

Fixpoint replay (now : Z -> Z) (recs : list WalRecord) (b : Book) : outcome Book :=
  match recs with
  | [] => Ok b
  | rec :: recs => b ← Apply now rec b; replay now recs b
  end.

(** * The log writer, as its client sees it *)

Class WalOps (W : Type) := {
  wal_Append : WalRecord -> W -> W * option oms_error;
  wal_Sync : W -> W * option oms_error;
  wal_LastSeq : W -> Z
}.

(** [durable w] is what a reader recovers from the directory if the process dies
    now; [buffered w] is what was appended since; [healthy w] holds until an
    operation fails; [carries r] says the format can represent [r]. Durable
    records never vanish; a successful append of a record at the next position
    adds it; a successful sync makes everything durable. Nothing else is promised
    of a failed operation. *)
Class WalLaws (W : Type) `{WalOps W} := {
  durable : W -> list WalRecord;
  buffered : W -> list WalRecord;
  healthy : W -> Prop;
  carries : WalRecord -> Prop;
  Append_grows r w w' e : healthy w -> carries r -> w_Seq r = wal_LastSeq w + 1 ->
    wal_Append r w = (w', e) -> durable w `prefix_of` durable w';
  Append_adds r w w' : healthy w -> carries r -> w_Seq r = wal_LastSeq w + 1 ->
    wal_Append r w = (w', None) ->
    healthy w' /\ wal_LastSeq w' = w_Seq r /\
    durable w' ++ buffered w' = durable w ++ buffered w ++ [r];
  Sync_grows w w' e : healthy w -> wal_Sync w = (w', e) -> durable w `prefix_of` durable w';
  Sync_flushes w w' : healthy w -> wal_Sync w = (w', None) ->
    healthy w' /\ wal_LastSeq w' = wal_LastSeq w /\
    durable w' = durable w ++ buffered w /\ buffered w' = []
}.

(** * Replay *)

Lemma replay_app now recs recs' b :
  replay now (recs ++ recs') b = b ← replay now recs b; replay now recs' b.
Proof.
  revert b. induction recs as [|rec recs IH]; intros b; simpl; [done|].
  destruct (Apply now rec b); simpl; [apply IH|done|done].
Qed.

(** The clock stamps trades, never the book: matching under two clocks runs in
    lockstep. *)
Lemma match_loop_clock now now' fuel s : forall b o tr tr' pv,
  match match_loop now fuel s b o tr pv, match_loop now' fuel s b o tr' pv with
  | Ok (b1, _, pv1, o1), Ok (b2, _, pv2, o2) => b1 = b2 /\ pv1 = pv2 /\ o1 = o2
  | Panic, Panic | OutOfFuel, OutOfFuel => True
  | _, _ => False
  end.
Proof.
  induction fuel as [|fuel IH]; intros b o tr tr' pv; simpl.
  - destruct (negb _); [done|]. destruct (best s b) as [p []]; [|done]. by destruct (beyond_limit s o p).
  - destruct (negb _); [done|]. destruct (best s b) as [p []]; [|done]. destruct (beyond_limit s o p); [done|].
    destruct (deref _) as [l| |]; simpl; try done. destruct (popFront l b) as [[[b1 m] ok]| |]; simpl; try done.
    destruct (selfMatch o m).
    + destruct (drop_if_empty _ _ _ _) as [b2| |]; simpl; try done. apply IH.
    + destruct (if 0 <? _ then _ else _) as [b2| |]; simpl; try done.
      destruct (drop_if_empty _ _ _ _) as [b3| |]; simpl; try done. apply IH.
Qed.

Definition book_part {A} (r : outcome (Book * A)) : outcome Book :=
  match r with Ok (b, _) => Ok b | Panic => Panic | OutOfFuel => OutOfFuel end.

(** The end of [SubmitOrder]: resting what is left. *)
Definition finish (trades : list Trade) (prevented : list Z) (o : Order) (b : Book)
    : outcome (Book * result oms_error MatchResult) :=
  if bool_decide (o_Type o = Limit) && (0 <? o_Quantity o) then
    let '(b, l) := getOrCreateLevel (o_Side o) (o_Price o) b in
    '(b, e) ← push l o b;
    let b := set_index (<[o_SeqID o := mkRef l e]> (index b)) b in
    Ok (b, Good (mkResult trades prevented (o_Quantity o)))
  else Ok (b, Good (mkResult trades prevented 0)).

Lemma finish_clock t1 t2 pv o b : book_part (finish t1 pv o b) = book_part (finish t2 pv o b).
Proof.
  unfold finish. destruct (bool_decide _ && _); [|done]. destruct (getOrCreateLevel _ _ _) as [b2 l].
  by destruct (push l o b2) as [[b3 e]| |].
Qed.

Lemma SubmitOrder_clock now now' o b :
  book_part (SubmitOrder now o b) = book_part (SubmitOrder now' o b).
Proof.
  unfold SubmitOrder. case_decide; [done|]. set (b0 := if _ <? _ then _ else _).
  assert (Hloop : forall s, match match_loop now (match_fuel b0) s b0 o [] [],
                              match_loop now' (match_fuel b0) s b0 o [] [] with
    | Ok (b1, _, pv1, o1), Ok (b2, _, pv2, o2) => b1 = b2 /\ pv1 = pv2 /\ o1 = o2
    | Panic, Panic | OutOfFuel, OutOfFuel => True
    | _, _ => False
    end) by (intros; apply match_loop_clock).
  pose proof finish_clock as Htail. unfold finish in Htail.
  unfold matchAgainstAsks, matchAgainstBids. destruct (o_Side o); [exact (Htail [] [] [] o b0)| |].
  - pose proof (Hloop Buy) as Hl. destruct (match_loop now _ _ _ _ _ _) as [[[[b1 t1] pv1] o1]| |],
      (match_loop now' _ _ _ _ _ _) as [[[[b2 t2] pv2] o2]| |]; try done.
    destruct Hl as (<- & <- & <-). apply Htail.
  - pose proof (Hloop Sell) as Hl. destruct (match_loop now _ _ _ _ _ _) as [[[[b1 t1] pv1] o1]| |],
      (match_loop now' _ _ _ _ _ _) as [[[[b2 t2] pv2] o2]| |]; try done.
    destruct Hl as (<- & <- & <-). apply Htail.
Qed.

Lemma Apply_clock now now' rec b : Apply now rec b = Apply now' rec b.
Proof.
  unfold Apply, Submit. destruct (w_Kind rec); [done| |done].
  pose proof (SubmitOrder_clock now now' (w_Order rec) b) as H.
  destruct (SubmitOrder now _ b) as [[b1 r1]| |], (SubmitOrder now' _ b) as [[b2 r2]| |]; simpl in *; congruence.
Qed.

Lemma replay_clock now now' recs b : replay now recs b = replay now' recs b.
Proof.
  revert b. induction recs as [|rec recs IH]; intros b; simpl; [done|].
  rewrite (Apply_clock now now'). destruct (Apply now' rec b); simpl; auto.
Qed.
