(* ===== verification/Sequencer.v ===== *)
(** The per-symbol sequencer of [src/internal/oms/sequencer.go].

    One goroutine owns the book: it takes a batch of requests off its channel,
    assigns identifiers, reserves, logs the batch durably, and only then applies
    it. [commit] is that whole step as a function on the sequencer's state and
    the account store; the log writer is any implementation of [WalOps]. Replies
    are the list of results in batch order; [published] is what [onTrades] got. *)

From Stdlib Require Import ZArith Lia.
From stdpp Require Import base gmap list strings.
From S2P Require Import Prelude Types Book Accounts WalRecord.

Open Scope Z_scope.

Definition maxBatch : nat := 256.

Inductive reqKind := reqSubmit | reqCancel | reqSnapshot.

#[global] Instance reqKind_eq_dec : EqDecision reqKind.
Proof. solve_decision. Defined.

(** [request], without its reply channel. *)
Record request := mkRequest {
  r_kind : reqKind;
  r_order : Order;
  r_cancelID : Z;
  r_cancelBy : string;
  r_seq : Z;
  r_orderID : Z;
  r_preErr : option oms_error
}.

Definition set_order_id (o : Order) (id : Z) (r : request) : request :=
  mkRequest (r_kind r) o (r_cancelID r) (r_cancelBy r) (r_seq r) id (r_preErr r).
Definition set_seq (n : Z) (r : request) : request :=
  mkRequest (r_kind r) (r_order r) (r_cancelID r) (r_cancelBy r) n (r_orderID r) (r_preErr r).
Definition set_preErr (e : oms_error) (r : request) : request :=
  mkRequest (r_kind r) (r_order r) (r_cancelID r) (r_cancelBy r) (r_seq r) (r_orderID r) (Some e).

(** [BookState], as the rows it serialises. *)
Definition BookState : Type := list depthLevel * list depthLevel.

(** [result], without its two time stamps. *)
Record reply := mkReply {
  p_state : option BookState;
  p_seq : Z;
  p_orderID : Z;
  p_trades : list Trade;
  p_selfPrevented : list Z;
  p_restingQty : Z;
  p_err : option oms_error
}.

Definition base_reply (r : request) : reply := mkReply None (r_seq r) (r_orderID r) [] [] 0 None.
Definition error_reply (r : request) (e : oms_error) : reply :=
  mkReply None (r_seq r) (r_orderID r) [] [] 0 (Some e).

(** The sequencer's state. [sq_accounts] and [sq_onTrades] say whether the
    pointer, resp. the callback, was attached. *)
Record Sequencer (W : Type) := mkSequencer {
  sq_book : Book;
  sq_wal : option W;
  sq_symbol : string;
  sq_accounts : bool;
  sq_onTrades : bool;
  sq_seq : Z;
  sq_nextOrderID : Z;
  sq_walErr : option oms_error;
  sq_commits : Z;
  sq_batched : Z;
  sq_resting : Z;
  sq_lastPos : Z
}.
Arguments mkSequencer {W}.
Arguments sq_book {W}.
Arguments sq_wal {W}.
Arguments sq_symbol {W}.
Arguments sq_accounts {W}.
Arguments sq_onTrades {W}.
Arguments sq_seq {W}.
Arguments sq_nextOrderID {W}.
Arguments sq_walErr {W}.
Arguments sq_commits {W}.
Arguments sq_batched {W}.
Arguments sq_resting {W}.
Arguments sq_lastPos {W}.

(** [assign]: the identifier loop of [commit] for one request. *)
Definition assign_id (symbol : string) (next : Z) (r : request) : request * Z :=
  match r_kind r with
  | reqSubmit =>
      let '(o, next) :=
        if o_SeqID (r_order r) =? 0
        then (set_seqid (add64 next 1) (r_order r), add64 next 1)
        else (r_order r, next) in
      let id := o_SeqID o in
      let o := if bool_decide (symbol <> "") then set_symbol symbol o else o in
      (set_order_id o id r, next)
  | _ => (r, next)
  end.

Fixpoint assign_ids (symbol : string) (next : Z) (batch : list request) : list request * Z :=
  match batch with
  | [] => ([], next)
  | r :: batch =>
      let '(r, next) := assign_id symbol next r in
      let '(batch, next) := assign_ids symbol next batch in
      (r :: batch, next)
  end.

(** The pre-trade loop. *)
Definition reserve_one (r : request) (a : Accounts) : request * Accounts :=
  match r_kind r with
  | reqSubmit =>
      match Reserve (r_order r) a with
      | (a, Fails e) => (set_preErr e r, a)
      | (a, Good _) => (r, a)
      end
  | _ => (r, a)
  end.

Fixpoint reserve_batch (batch : list request) (a : Accounts) : list request * Accounts :=
  match batch with
  | [] => ([], a)
  | r :: batch =>
      let '(r, a) := reserve_one r a in
      let '(batch, a) := reserve_batch batch a in
      (r :: batch, a)
  end.

Section Commit.
Context {W : Type} `{!WalOps W}.
Context (now : Z -> Z) (ts : Z).

(** Requests that take a log position. *)
Definition logged (r : request) : bool :=
  bool_decide (r_preErr r = None) && bool_decide (r_kind r <> reqSnapshot).

(** The record [logBatch] writes at position [seq]. *)
Definition to_record (seq : Z) (r : request) : WalRecord :=
  match r_kind r with
  | reqCancel => mkRecord seq RecordCancel ts zeroOrder (r_cancelID r) (r_cancelBy r)
  | _ => mkRecord seq RecordSubmit ts (r_order r) 0 ""
  end.

(** [logBatch]'s loop, which stops at the first failed append. *)
Fixpoint append_batch (batch : list request) (seq : Z) (w : W)
    : list request * Z * W * option oms_error :=
  match batch with
  | [] => ([], seq, w, None)
  | r :: batch =>
      if logged r then
        let seq := add64 seq 1 in
        let r := set_seq seq r in
        match wal_Append (to_record seq r) w with
        | (w, Some e) => (r :: batch, seq, w, Some e)
        | (w, None) =>
            let '(batch, seq, w, e) := append_batch batch seq w in
            (r :: batch, seq, w, e)
        end
      else
        let '(batch, seq, w, e) := append_batch batch seq w in
        (r :: batch, seq, w, e)
  end.

Definition logBatch (batch : list request) (seq : Z) (w : W)
    : list request * Z * W * option oms_error :=
  match append_batch batch seq w with
  | (batch, seq, w, Some e) => (batch, seq, w, Some e)
  | (batch, seq, w, None) =>
      let '(w, e) := wal_Sync w in (batch, seq, w, e)
  end.

(** What the apply loop threads: the book, the accounts, and what [onTrades] got. *)
Record applied := mkApplied {
  ap_book : Book;
  ap_accounts : Accounts;
  ap_published : list (list Trade)
}.

Context (symbol : string) (has_accounts has_onTrades : bool).

(** [release]: drop a submit's reservation. *)
Definition release (r : request) (a : Accounts) : Accounts :=
  if has_accounts && bool_decide (r_kind r = reqSubmit) then Release symbol (r_orderID r) a else a.

(** One iteration of the apply loop; [seq] and [walErr] no longer change. *)
Definition apply_one (seq : Z) (walErr : option oms_error) (r : request) (st : applied)
    : outcome (applied * reply) :=
  let '(mkApplied b a pub) := st in
  match r_kind r, r_preErr r, walErr with
  | reqSnapshot, _, _ =>
      state ← Snapshot b;
      Ok (st, mkReply (Some state) seq (r_orderID r) [] [] 0 None)
  | _, Some e, _ => Ok (st, error_reply r e)
  | _, None, Some e => Ok (mkApplied b (release r a) pub, error_reply r e)
  | reqCancel, None, None =>
      '(b, res) ← CancelOwned (r_cancelID r) (r_cancelBy r) b;
      match res with
      | Good _ =>
          let a := if has_accounts then Release symbol (r_cancelID r) a else a in
          Ok (mkApplied b a pub, base_reply r)
      | Fails e => Ok (mkApplied b a pub, error_reply r e)
      end
  | reqSubmit, None, None =>
      '(b, res) ← SubmitOrder now (r_order r) b;
      match res with
      | Fails e => Ok (mkApplied b (release r a) pub, error_reply r e)
      | Good mr =>
          let a := if has_accounts
                   then Complete symbol (r_orderID r) (Trades mr) (RestingQuantity mr) (SelfPrevented mr) a
                   else a in
          let pub := if has_onTrades && negb (bool_decide (Trades mr = [])) then pub ++ [Trades mr] else pub in
          Ok (mkApplied b a pub,
              mkReply None (r_seq r) (r_orderID r) (Trades mr) (SelfPrevented mr) (RestingQuantity mr) None)
      end
  end.

Fixpoint apply_batch (seq : Z) (walErr : option oms_error) (batch : list request) (st : applied)
    : outcome (applied * list reply) :=
  match batch with
  | [] => Ok (st, [])
  | r :: batch =>
      '(st, p) ← apply_one seq walErr r st;
      '(st, ps) ← apply_batch seq walErr batch st;
      Ok (st, p :: ps)
  end.
End Commit.

(** [commit]: the whole batch. *)
Definition commit {W} `{!WalOps W} (now : Z -> Z) (ts : Z) (batch : list request)
    (s : Sequencer W) (a : Accounts) : outcome (Sequencer W * applied * list reply) :=
  let '(batch, next) := assign_ids (sq_symbol s) (sq_nextOrderID s) batch in
  let '(batch, a) := if sq_accounts s then reserve_batch batch a else (batch, a) in
  let '(batch, seq, wal, walErr) :=
    match sq_wal s, sq_walErr s with
    | Some w, None =>
        match logBatch ts batch (sq_seq s) w with
        | (batch, _, w, Some e) => (batch, sq_seq s, Some w, Some e)
        | (batch, seq, w, None) => (batch, seq, Some w, None)
        end
    | wal, walErr => (batch, sq_seq s, wal, walErr)
    end in
  '(st, replies) ← apply_batch now (sq_symbol s) (sq_accounts s) (sq_onTrades s) seq walErr batch
                     (mkApplied (sq_book s) a []);
  Ok (mkSequencer (ap_book st) wal (sq_symbol s) (sq_accounts s) (sq_onTrades s) seq next walErr
        (add64 (sq_commits s) 1) (add64 (sq_batched s) (Z.of_nat (length batch)))
        (Z.of_nat (RestingCount (ap_book st))) seq,
      st, replies).

(** [NewSequencerWithWAL], [NewSequencer] and [attach]. *)
Definition NewSequencerWithWAL {W} `{!WalOps W} (b : Book) (w : option W) : Sequencer W :=
  mkSequencer b w "" false false (match w with Some w => wal_LastSeq w | None => 0 end)
    (MaxOrderID b) None 0 0 0 0.
Definition NewSequencer {W} `{!WalOps W} (b : Book) : Sequencer W := NewSequencerWithWAL b None.
Definition attach {W} (symbol : string) (accounts onTrades : bool) (s : Sequencer W) : Sequencer W :=
  mkSequencer (sq_book s) (sq_wal s) symbol accounts onTrades (sq_seq s) (sq_nextOrderID s)
    (sq_walErr s) (sq_commits s) (sq_batched s) (sq_resting s) (sq_lastPos s).

(** [drain]: a batch is the first request and what is already queued behind it. *)
Definition drain (first : request) (queued : list request) : list request * list request :=
  (first :: take (maxBatch - 1) queued, drop (maxBatch - 1) queued).

(** The requests [Submit], [Cancel], [CancelFor] and [Snapshot] send, and what
    [Submit] and [CancelFor] return. *)
Definition submit_request (o : Order) : request := mkRequest reqSubmit o 0 "" 0 0 None.
Definition cancelFor_request (orderID : Z) (account : string) : request :=
  mkRequest reqCancel zeroOrder orderID account 0 0 None.
Definition cancel_request (orderID : Z) : request := cancelFor_request orderID "".
Definition snapshot_request : request := mkRequest reqSnapshot zeroOrder 0 "" 0 0 None.

Record OrderResponse := mkOrderResponse {
  or_Seq : Z;
  or_OrderID : Z;
  or_Trades : list Trade;
  or_SelfPrevented : list Z;
  or_RestingQuantity : Z
}.

Definition submit_response (p : reply) : Prelude.result oms_error OrderResponse :=
  match p_err p with
  | Some e => Fails e
  | None => Good (mkOrderResponse (p_seq p) (p_orderID p) (p_trades p) (p_selfPrevented p) (p_restingQty p))
  end.
Definition cancelFor_response (p : reply) : Z * option oms_error := (p_seq p, p_err p).

Definition CommitStats {W} (s : Sequencer W) : Z * Z := (sq_commits s, sq_batched s).
