(* ===== verification/SeqFacts.v ===== *)
(** Facts about the phases of [Sequencer.commit]: identifier assignment,
    reservation, logging and applying. *)

From Stdlib Require Import ZArith Lia.
From stdpp Require Import base gmap list strings sorting.
From S2P Require Import Prelude Types Book BookInv BookSpec BookRefine BookProps.
From S2P Require Import Accounts WalRecord Sequencer.

Open Scope Z_scope.

(** * What the phases leave alone *)

(** A request but for its log position and its rejection. *)
Definition core (r : request) : reqKind * Order * Z * string * Z :=
  (r_kind r, r_order r, r_cancelID r, r_cancelBy r, r_orderID r).

Lemma core_kind r r' : core r = core r' -> r_kind r = r_kind r'.
Proof. unfold core. congruence. Qed.

Lemma reserve_batch_core batch : forall a, core <$> (reserve_batch batch a).1 = core <$> batch.
Proof.
  induction batch as [|r batch IH]; intros a; simpl; [done|].
  destruct (reserve_one r a) as [r1 a1] eqn:E. specialize (IH a1).
  destruct (reserve_batch batch a1) as [b2 a2]. simpl in *. f_equal; [|done].
  unfold reserve_one in E. destruct (r_kind r) eqn:Hk; try (by injection E as <- _).
  destruct (Reserve (r_order r) a) as [a' [u|e]]; by injection E as <- _.
Qed.

Section Logging.
Context {W : Type} `{!WalOps W} (ts : Z).

(** The records of a batch whose positions are assigned. *)
Definition records (batch : list request) : list WalRecord :=
  (fun r => to_record ts (r_seq r) r) <$> filter (fun r => logged r = true) batch.

Lemma records_cons r batch :
  records (r :: batch) = if logged r then to_record ts (r_seq r) r :: records batch else records batch.
Proof. unfold records. rewrite filter_cons. by destruct (logged r). Qed.

Lemma append_batch_core batch : forall seq w batch' seq' w' e,
  append_batch ts batch seq w = (batch', seq', w', e) ->
  core <$> batch' = core <$> batch /\ r_preErr <$> batch' = r_preErr <$> batch.
Proof.
  induction batch as [|r batch IH]; intros seq w batch' seq' w' e; simpl; [by intros [= <- _ _ _]|].
  destruct (logged r).
  - destruct (wal_Append _ w) as [w1 [e1|]]; [by intros [= <- _ _ _]|].
    destruct (append_batch ts batch _ w1) as [[[b2 s2] w2] e2] eqn:E. intros [= <- _ _ _].
    apply IH in E as [H1 H2]. rewrite !fmap_cons, H1, H2. done.
  - destruct (append_batch ts batch _ w) as [[[b2 s2] w2] e2] eqn:E. intros [= <- _ _ _].
    apply IH in E as [H1 H2]. rewrite !fmap_cons, H1, H2. done.
Qed.

(** Positions are consecutive. *)
Lemma append_batch_seqs batch : forall seq w batch' seq' w',
  append_batch ts batch seq w = (batch', seq', w', None) ->
  (forall i rec, records batch' !! i = Some rec -> w_Seq rec = wrap64 (seq + Z.of_nat i + 1)) /\
  eq64 seq' (seq + Z.of_nat (length (records batch'))).
Proof.
  induction batch as [|r batch IH]; intros seq w batch' seq' w'; simpl.
  { intros [= <- <- _]. split; [done|]. apply eq64_of_eq. simpl. lia. }
  destruct (logged r) eqn:Hl.
  - destruct (wal_Append _ w) as [w1 [e1|]]; [done|].
    destruct (append_batch ts batch _ w1) as [[[b2 s2] w2] e2] eqn:E. intros [= <- <- _ ->].
    apply IH in E as [H1 H2]. rewrite records_cons.
    replace (logged (set_seq (add64 seq 1) r)) with true by done. split.
    + intros [|i] rec; simpl.
      * intros [= <-]. unfold to_record. simpl. unfold add64. destruct (r_kind r); simpl; f_equal; lia.
      * intros Hi. rewrite (H1 i rec Hi). unfold add64. rewrite <- Z.add_assoc, wrap64_add_l. f_equal. lia.
    + rewrite H2. simpl. solve64.
  - destruct (append_batch ts batch _ w) as [[[b2 s2] w2] e2] eqn:E. intros [= <- <- _ ->].
    apply IH in E. by rewrite records_cons, Hl.
Qed.

Context `{!WalLaws W}.

(** Whatever position a request gets, the log can carry its record. *)
Definition carried (r : request) : Prop := forall n, in64 n -> carries (to_record ts n r).

Lemma carried_core r r' : core r = core r' -> carried r -> carried r'.
Proof.
  unfold core, carried, to_record. intros [= -> -> -> -> _]. done.
Qed.

Lemma carried_batch batch batch' : core <$> batch = core <$> batch' -> Forall carried batch -> Forall carried batch'.
Proof.
  revert batch'. induction batch as [|r batch IH]; intros [|r' batch']; try done.
  intros Hc [Hr Hb]%Forall_cons. rewrite !fmap_cons in Hc. injection Hc as Hk Ho Hi Hy Hd Hcb. constructor.
  - eapply carried_core; [|exact Hr]. unfold core. congruence.
  - by apply IH.
Qed.

(** Appending a batch to a healthy log. *)
Lemma append_batch_log batch : forall seq w batch' seq' w' e,
  healthy w -> wal_LastSeq w = seq -> in64 seq -> seq + Z.of_nat (length batch) <= MaxInt64 ->
  Forall carried batch -> append_batch ts batch seq w = (batch', seq', w', e) ->
  durable w `prefix_of` durable w' /\
  (e = None -> healthy w' /\ wal_LastSeq w' = seq' /\ seq <= seq' <= seq + Z.of_nat (length batch) /\
     durable w' ++ buffered w' = durable w ++ buffered w ++ records batch').
Proof.
  induction batch as [|r batch IH]; intros seq w batch' seq' w' e Hh Hls Hi Hmax Hc; simpl.
  { intros [= <- <- <- <-]. split; [done|]. intros _. split_and!; try done; try lia. by rewrite app_nil_r. }
  apply Forall_cons in Hc as [Hcr Hc]. simpl in Hmax. destruct (logged r) eqn:Hl.
  - assert (Hadd : add64 seq 1 = seq + 1) by (apply wrap64_id; unfold64; lia). rewrite Hadd.
    assert (Hcar : carries (to_record ts (seq + 1) (set_seq (seq + 1) r))) by (apply (Hcr (seq + 1)); unfold64; lia).
    assert (Hws : w_Seq (to_record ts (seq + 1) (set_seq (seq + 1) r)) = seq + 1) by (unfold to_record; by destruct (r_kind _)).
    assert (Hlt : w_Seq (to_record ts (seq + 1) (set_seq (seq + 1) r)) = wal_LastSeq w + 1) by lia.
    destruct (wal_Append _ w) as [w1 [e1|]] eqn:Ha; pose proof (Append_grows _ _ _ _ Hh Hcar Hlt Ha) as Hg;
      [intros [= <- <- <- <-]; by split|].
    destruct (Append_adds _ _ _ Hh Hcar Hlt Ha) as (Hh1 & Hls1 & Hadds).
    destruct (append_batch ts batch _ w1) as [[[b2 s2] w2] e2] eqn:E. intros [= <- <- <- <-].
    destruct (IH (seq + 1) w1 b2 s2 w2 e2 Hh1 ltac:(lia) ltac:(unfold64; lia) ltac:(lia) Hc E) as [Hg2 Hn].
    split; [by etransitivity|]. intros He. destruct (Hn He) as (H1 & H2 & H3 & H4). split_and!; try done; try lia.
    rewrite records_cons. replace (logged (set_seq (seq + 1) r)) with true by done.
    rewrite H4, (app_assoc (durable w1)), Hadds, <- !app_assoc. done.
  - destruct (append_batch ts batch _ w) as [[[b2 s2] w2] e2] eqn:E. intros [= <- <- <- <-].
    destruct (IH seq w b2 s2 w2 e2 Hh Hls Hi ltac:(lia) Hc E) as [Hg Hn]. split; [done|].
    intros He. destruct (Hn He) as (H1 & H2 & H3 & H4). split_and!; try done; try lia. by rewrite records_cons, Hl.
Qed.

(** A batch that was logged is durable; a batch that was not may be in part. *)
Lemma logBatch_spec batch seq w batch' seq' w' e :
  healthy w -> wal_LastSeq w = seq -> in64 seq -> seq + Z.of_nat (length batch) <= MaxInt64 ->
  Forall carried batch -> logBatch ts batch seq w = (batch', seq', w', e) ->
  core <$> batch' = core <$> batch /\ r_preErr <$> batch' = r_preErr <$> batch /\
  durable w `prefix_of` durable w' /\
  (e = None -> healthy w' /\ wal_LastSeq w' = seq' /\ seq <= seq' <= seq + Z.of_nat (length batch) /\
     durable w' = durable w ++ buffered w ++ records batch' /\ buffered w' = [] /\
     (forall i rec, records batch' !! i = Some rec -> w_Seq rec = wrap64 (seq + Z.of_nat i + 1)) /\
     eq64 seq' (seq + Z.of_nat (length (records batch')))).
Proof.
  intros Hh Hls Hi Hmax Hca. unfold logBatch.
  destruct (append_batch ts batch seq w) as [[[b1 s1] w1] [e1|]] eqn:Ha;
    pose proof (append_batch_core _ _ _ _ _ _ _ Ha) as [Hc Hp];
    destruct (append_batch_log _ _ _ _ _ _ _ Hh Hls Hi Hmax Hca Ha) as [Hg Hn].
  - intros [= <- <- <- <-]. done.
  - destruct (wal_Sync w1) as [w2 e2] eqn:Hs. intros [= <- <- <- <-].
    destruct (Hn eq_refl) as (Hh1 & Hls1 & Hr1 & Hadds).
    split_and!; try done; [etransitivity; [done|by eapply Sync_grows]|].
    intros ->. destruct (Sync_flushes _ _ Hh1 Hs) as (Hh2 & Hls2 & -> & ->).
    pose proof (append_batch_seqs _ _ _ _ _ _ Ha) as [H1 H2]. split_and!; try done; try lia.
Qed.
End Logging.

(** * Fresh identifiers *)

(** Submits carry identifiers above [lo], increasing through the batch, that
    their reply will report, and quantities that are [int64]s. *)
Fixpoint ids_above (lo : Z) (batch : list request) : Prop :=
  match batch with
  | [] => True
  | r :: batch =>
      match r_kind r with
      | reqSubmit => lo < o_SeqID (r_order r) /\ r_orderID r = o_SeqID (r_order r) /\
                     o_Quantity (r_order r) <= MaxInt64 /\ ids_above (o_SeqID (r_order r)) batch
      | _ => ids_above lo batch
      end
  end.

Lemma ids_above_core batch : forall batch' lo, core <$> batch = core <$> batch' ->
  ids_above lo batch -> ids_above lo batch'.
Proof.
  induction batch as [|r batch IH]; intros [|r' batch'] lo; simpl; try done.
  intros [= Hk Ho _ _ Hid Hb]. rewrite <- Hk, <- Ho, <- Hid.
  destruct (r_kind r); intros H; [split_and!; [apply H..|]|..]; eapply IH; try done; apply H.
Qed.

Lemma ids_above_weaken batch lo lo' : lo' <= lo -> ids_above lo batch -> ids_above lo' batch.
Proof.
  revert lo lo'. induction batch as [|r batch IH]; intros lo lo' Hle; simpl; [done|].
  destruct (r_kind r); [|by apply IH..]. intros (H1 & H2 & H3 & H4). split_and!; try done. lia.
Qed.

Lemma ids_above_all batch : forall lo, ids_above lo batch ->
  forall r, r ∈ batch -> r_kind r = reqSubmit -> lo < o_SeqID (r_order r).
Proof.
  induction batch as [|x batch IH]; intros lo; simpl; [intros _ r Hr; by apply elem_of_nil in Hr|].
  intros H r [->|Hr]%elem_of_cons Hk; [rewrite Hk in H; apply H|].
  destruct (r_kind x); [destruct H as (Hx & _ & _ & H); specialize (IH _ H r Hr Hk); lia|by eapply IH..].
Qed.

(** What identifier assignment makes of a request that has none. *)
Definition assigned (symbol : string) (id : Z) (r : request) : request :=
  match r_kind r with
  | reqSubmit =>
      let o := set_seqid id (r_order r) in
      set_order_id (if bool_decide (symbol <> "") then set_symbol symbol o else o) id r
  | _ => r
  end.

(** A request as it arrives from [Submit], [CancelFor] or [Snapshot]. *)
Definition arriving (r : request) : Prop :=
  r_preErr r = None /\ (r_kind r = reqSubmit -> o_SeqID (r_order r) = 0 /\ o_Quantity (r_order r) <= MaxInt64).

Lemma assign_ids_spec symbol batch : forall next, Forall arriving batch ->
  in64 next -> next + Z.of_nat (length batch) <= MaxInt64 ->
  let '(batch', next') := assign_ids symbol next batch in
  ids_above next batch' /\ next <= next' <= next + Z.of_nat (length batch) /\
  Forall (fun r => r_preErr r = None) batch' /\ r_kind <$> batch' = r_kind <$> batch /\
  Forall2 (fun r r' => exists id, in64 id /\ r' = assigned symbol id r) batch batch' /\
  (forall r, r ∈ batch' -> r_kind r = reqSubmit -> o_SeqID (r_order r) <= next').
Proof.
  assert (Hsame : forall r next, r_kind r <> reqSubmit -> arriving r -> in64 next -> exists id, in64 id /\ r = assigned symbol id r).
  { intros r next Hk _ Hn. exists next. split; [done|]. unfold assigned. by destruct (r_kind r). }
  induction batch as [|r batch IH]; intros next Hb Hn Hmax; simpl.
  { split_and!; try done; try lia. intros r Hr. by apply elem_of_nil in Hr. }
  apply Forall_cons in Hb as [Harr Hb]. pose proof Harr as [Hpre Hr]. simpl in Hmax.
  unfold assign_id. destruct (r_kind r) eqn:Hk.
  2,3: specialize (IH next Hb Hn ltac:(lia)); destruct (assign_ids symbol next batch) as [b2 n2];
    destruct IH as (IH1 & IH2 & IH3 & IH4 & IH5 & IH6); simpl; rewrite ?Hk;
    split_and!; try done; try lia; [by constructor|by f_equal| |];
    [constructor; [apply (Hsame r next); congruence|done]|];
    intros x [->|Hx]%elem_of_cons Hxk; [congruence|by apply IH6].
  destruct (Hr eq_refl) as [H0 Hq]. rewrite H0. simpl.
  assert (E : add64 next 1 = next + 1) by (apply wrap64_id; unfold64; lia). rewrite E.
  specialize (IH (next + 1) Hb ltac:(unfold64; lia) ltac:(lia)).
  destruct (assign_ids symbol (next + 1) batch) as [b2 n2]. destruct IH as (IH1 & IH2 & IH3 & IH4 & IH5 & IH6).
  set (o := if bool_decide (symbol <> "") then _ else _).
  assert (Ho : o_SeqID o = next + 1 /\ o_Quantity o = o_Quantity (r_order r)) by (unfold o; by case_bool_decide).
  assert (Has : set_order_id o (next + 1) r = assigned symbol (next + 1) r) by (unfold assigned; by rewrite Hk).
  destruct Ho as [Ho1 Ho2]. simpl. rewrite Hk, Ho1, Ho2.
  split_and!; try done; try lia; [by constructor|by f_equal| |].
  - constructor; [|done]. exists (next + 1). split; [unfold64; lia|done].
  - intros x [->|Hx]%elem_of_cons Hxk; [simpl; lia|by apply IH6].
Qed.

(** * Applying *)

Section Applying.
Context (now : Z -> Z) (ts : Z) (symbol : string) (has_accounts has_onTrades : bool).
Context (seq : Z) (walErr : option oms_error).

Let apply_one := apply_one now symbol has_accounts has_onTrades seq walErr.
Let apply_batch := apply_batch now symbol has_accounts has_onTrades seq walErr.

(** The identifier a request may add to the book. *)
Definition top (lo : Z) (r : request) : Z :=
  match r_kind r with reqSubmit => o_SeqID (r_order r) | _ => lo end.

Lemma Snapshot_total b : reachable b -> exists st, Snapshot b = Ok st.
Proof.
  intros Hr. destruct (reachable_inv b Hr) as [Hwf _]. unfold Snapshot.
  rewrite (depth_rows_spec b Buy (bids b)) by first [done|by left].
  rewrite (depth_rows_spec b Sell (asks b)) by first [done|by right]. by eexists.
Qed.

Lemma fresh_submittable o b : reachable b -> MaxOrderID b < o_SeqID o -> o_Quantity o <= MaxInt64 ->
  submittable o b.
Proof.
  intros Hr Hid Hq. destruct (reachable_inv b Hr) as [_ Hb]. split; [done|].
  destruct (index b !! o_SeqID o) as [x|] eqn:E; [|done]. apply Hb in E. lia.
Qed.

(** What one request does to the book, as replay sees it. *)
Lemma apply_one_book r b a pub lo : reachable b -> MaxOrderID b <= lo -> ids_above lo [r] ->
  exists b' a' pub' p, apply_one r (mkApplied b a pub) = Ok (mkApplied b' a' pub', p) /\
    reachable b' /\ MaxOrderID b' <= top lo r /\ p_orderID p = r_orderID r /\
    match walErr with
    | None => replay now (records ts [r]) b = Ok b'
    | Some _ => b' = b /\ pub' = pub
    end.
Proof.
  intros Hr Hlo Hids. unfold apply_one, Sequencer.apply_one, records, top. rewrite filter_cons, filter_nil.
  unfold logged. destruct (r_kind r) eqn:Hk, (r_preErr r) as [e|] eqn:Hp; simpl in Hids; rewrite ?Hk in Hids;
    rewrite ?bool_decide_true, ?bool_decide_false by done; simpl;
    try (destruct (Snapshot_total b Hr) as [st ->]; simpl; eexists _, _, _, _; split; [reflexivity|];
         destruct walErr; split_and!; done).
  - eexists _, _, _, _. split; [reflexivity|]. destruct walErr; split_and!; try done; lia.
  - destruct walErr as [e|]; [eexists _, _, _, _; split; [reflexivity|]; split_and!; try done; lia|].
    destruct Hids as (Hid & Hrid & Hq & _).
    assert (Hsub : submittable (r_order r) b) by (apply fresh_submittable; [done|lia|done]).
    destruct (reachable_inv b Hr) as [Hwf _]. pose proof Hsub as [Hq' Hi].
    destruct (SubmitOrder_correct now (r_order r) b Hwf Hq' Hi) as (b' & res & Hs & _).
    pose proof (submit_maxOrderID now _ b b' res Hwf Hsub Hs) as Hmax.
    assert (Hm : MaxOrderID b' <= o_SeqID (r_order r))
      by (unfold MaxOrderID in *; destruct (is_good res); lia).
    unfold Apply, Submit, to_record. simpl. rewrite Hk. simpl. rewrite Hs. simpl.
    destruct res as [mr|e]; eexists _, _, _, _; (split; [reflexivity|]); split_and!; eauto with book.
  - eexists _, _, _, _. split; [reflexivity|]. destruct walErr; split_and!; done.
  - destruct walErr as [e|]; [eexists _, _, _, _; split; [reflexivity|]; split_and!; done|].
    destruct (reachable_inv b Hr) as [Hwf _].
    destruct (CancelOwned_correct b (r_cancelID r) (r_cancelBy r) Hwf) as (b' & res & Hs & _ & Habs & _).
    assert (Hm : MaxOrderID b' = MaxOrderID b).
    { apply (f_equal (fun x => Spec.s_maxOrderID x.1)) in Habs. simpl in Habs. unfold MaxOrderID.
      rewrite Habs. unfold Spec.cancel. by repeat case_match. }
    unfold Apply, to_record. simpl. rewrite Hk. simpl. rewrite Hs. simpl. rewrite <- Hm in Hlo.
    destruct res as [u|e]; eexists _, _, _, _; (split; [reflexivity|]); split_and!; eauto with book.
Qed.

Lemma apply_batch_book batch : forall b a pub lo, reachable b -> MaxOrderID b <= lo -> ids_above lo batch ->
  exists b' a' pub' ps, apply_batch batch (mkApplied b a pub) = Ok (mkApplied b' a' pub', ps) /\
    reachable b' /\ length ps = length batch /\
    (forall hi, lo <= hi -> (forall r, r ∈ batch -> r_kind r = reqSubmit -> o_SeqID (r_order r) <= hi) ->
       MaxOrderID b' <= hi) /\
    match walErr with
    | None => replay now (records ts batch) b = Ok b'
    | Some _ => b' = b /\ pub' = pub
    end.
Proof.
  induction batch as [|r batch IH]; intros b a pub lo Hr Hlo Hids.
  { eexists _, _, _, _. split; [reflexivity|]. split_and!; try done; [intros; lia|by destruct walErr]. }
  assert (Hids' : ids_above lo [r] /\ ids_above (top lo r) batch).
  { simpl in *. unfold top. destruct (r_kind r); tauto. }
  destruct Hids' as [H1 H2].
  destruct (apply_one_book r b a pub lo Hr Hlo H1) as (b1 & a1 & pub1 & p & He & Hr1 & Hm1 & _ & Hrep1).
  destruct (IH b1 a1 pub1 (top lo r) Hr1 Hm1 H2) as (b2 & a2 & pub2 & ps & He2 & Hr2 & Hlen & Hm2 & Hrep2).
  eexists _, _, _, _. split.
  { unfold apply_batch, apply_one in *. cbn [Sequencer.apply_batch]. rewrite He. simpl. rewrite He2. reflexivity. }
  split_and!; [done|simpl; by rewrite Hlen| |].
  - intros hi Hhi Hall. apply Hm2; [|intros; apply Hall; [by right|done]].
    unfold top. destruct (r_kind r) eqn:Hk; try done. apply Hall; [by left|done].
  - destruct walErr as [e|]; [destruct Hrep1 as [-> ->]; done|].
    change (r :: batch) with ([r] ++ batch). unfold records in *. rewrite filter_app, fmap_app, replay_app, Hrep1.
    exact Hrep2.
Qed.
End Applying.

(** * Replies *)

Section Replies.
Context (now : Z -> Z) (symbol : string) (has_accounts has_onTrades : bool).
Context (seq : Z) (walErr : option oms_error).

Let apply_one := apply_one now symbol has_accounts has_onTrades seq walErr.
Let apply_batch := apply_batch now symbol has_accounts has_onTrades seq walErr.

(** Splits on every outcome of [apply_one] in hypothesis [H]. *)
Local Ltac apply_one_cases H :=
  unfold apply_one, Sequencer.apply_one in H;
  repeat match type of H with
    | (match ?x with _ => _ end) = _ => destruct x eqn:?; simpl in H; try done
    | (?x ≫= _) = _ => destruct x eqn:?; simpl in H; try done
    end.

(** A mutation is acknowledged only if it took a log position, with that
    position and its identifier. *)
Lemma apply_one_ack r st st' p : apply_one r st = Ok (st', p) ->
  p_err p = None -> p_state p = None ->
  walErr = None /\ logged r = true /\ p_seq p = r_seq r /\ p_orderID p = r_orderID r.
Proof.
  intros Ha. unfold logged. destruct st as [b a pub]. apply_one_cases Ha; injection Ha as <- <-; simpl; try done;
    intros _ _; split_and!; try done; by apply andb_true_intro; split; apply bool_decide_true.
Qed.

(** Only snapshots carry a state. *)
Lemma apply_one_state r st st' p : apply_one r st = Ok (st', p) -> r_kind r <> reqSnapshot -> p_state p = None.
Proof.
  intros Ha Hk. destruct st as [b a pub]. apply_one_cases Ha; try done; by injection Ha as <- <-.
Qed.

(** Nothing but snapshots succeeds once the log has failed. *)
Lemma apply_one_failed r st st' p e : walErr = Some e -> apply_one r st = Ok (st', p) ->
  p_state p = None -> p_trades p = [] /\ p_err p = Some (default e (r_preErr r)).
Proof.
  intros He Ha. destruct st as [b a pub]. apply_one_cases Ha; try congruence; injection Ha as <- <-; simpl; try done;
    intros _; split; congruence.
Qed.

Lemma apply_one_published r st st' p : apply_one r st = Ok (st', p) ->
  ap_published st' = ap_published st ++
    if has_onTrades && negb (bool_decide (p_trades p = [])) then [p_trades p] else [].
Proof.
  intros Ha. destruct st as [b a pub]. apply_one_cases Ha; injection Ha as <- <-; simpl;
    rewrite ?andb_false_r, ?app_nil_r; try done.
  all: by destruct (has_onTrades && _); rewrite ?app_nil_r.
Qed.

Lemma apply_batch_inv batch : forall st st' ps, apply_batch batch st = Ok (st', ps) ->
  (forall p, p ∈ ps -> exists r s s', r ∈ batch /\ apply_one r s = Ok (s', p)) /\
  ap_published st' = ap_published st ++
    if has_onTrades then filter (fun ts => ts <> []) (p_trades <$> ps) else [].
Proof.
  unfold apply_batch, apply_one in *.
  induction batch as [|r batch IH]; intros st st' ps; cbn [Sequencer.apply_batch].
  { intros [= <- <-]. split; [intros p Hp; by apply elem_of_nil in Hp|]. destruct has_onTrades; by rewrite app_nil_r. }
  destruct (Sequencer.apply_one _ _ _ _ _ _ r st) as [[s1 p1]| |] eqn:E1; simpl; try done.
  destruct (Sequencer.apply_batch _ _ _ _ _ _ batch s1) as [[s2 ps2]| |] eqn:E2; simpl; try done.
  intros [= <- <-]. destruct (IH _ _ _ E2) as [H1 H2]. split.
  - intros p [->|Hp]%elem_of_cons; [exists r, st, s1; split; [by left|done]|].
    destruct (H1 p Hp) as (r' & s & s' & Hr' & He). exists r', s, s'. split; [by right|done].
  - rewrite H2, (apply_one_published _ _ _ _ E1), <- app_assoc. f_equal.
    destruct has_onTrades; simpl; [|done]. rewrite filter_cons. case_bool_decide; simpl; case_decide; try done; tauto.
Qed.
End Replies.

(** A commit leaves what was attached. *)
Lemma commit_attached {W} `{!WalOps W} now ts batch (s : Sequencer W) a s' st ps : commit now ts batch s a = Ok (s', st, ps) ->
  sq_symbol s' = sq_symbol s /\ sq_accounts s' = sq_accounts s /\ sq_onTrades s' = sq_onTrades s.
Proof.
  unfold commit. destruct (assign_ids _ _ _) as [? ?]. destruct (if sq_accounts s then _ else _) as [? ?].
  destruct (match sq_wal s with Some _ => _ | None => _ end) as [[[? ?] ?] ?].
  destruct (apply_batch _ _ _ _ _ _ _ _) as [[? ?]| |]; simpl; try done. by intros [= <- _ _].
Qed.
