(* ===== verification/SeqProps.v ===== *)
(** What the sequencer guarantees of its log, for any log writer that satisfies
    [WalLaws].

    [running] closes a freshly recovered sequencer under [commit]. *)

From Stdlib Require Import ZArith Lia.
From stdpp Require Import base gmap list strings sorting.
From S2P Require Import Prelude Types Book BookInv BookSpec BookRefine BookProps.
From S2P Require Import Accounts WalRecord Sequencer SeqFacts.

Open Scope Z_scope.

Section Running.
Context {W : Type} `{WalLaws W}.

(** The book is what some prefix of the durable log replays to; all of it, at
    the position the sequencer holds, as long as no write has failed. *)
Definition wal_ok (s : Sequencer W) : Prop :=
  match sq_wal s with
  | None => True
  | Some w => exists log, replay id log NewBook = Ok (sq_book s) /\ log `prefix_of` durable w /\
      (sq_walErr s = None -> log = durable w /\ buffered w = [] /\ healthy w /\
         wal_LastSeq w = sq_seq s /\ in64 (sq_seq s))
  end.

Record seq_ok (s : Sequencer W) : Prop := {
  so_book : reachable (sq_book s);
  so_next : MaxOrderID (sq_book s) <= sq_nextOrderID s;
  so_int : in64 (sq_nextOrderID s);
  so_wal : wal_ok s
}.

(** Whatever identifier and position it gets, the log can carry the request. *)
Definition carriable (ts : Z) (symbol : string) (r : request) : Prop :=
  forall id, in64 id -> carried ts (assigned symbol id r).

(** A batch as it arrives, for which identifiers and log positions remain. *)
Record batch_ok (ts : Z) (batch : list request) (s : Sequencer W) : Prop := {
  ba_arriving : Forall arriving batch;
  ba_ids : sq_nextOrderID s + Z.of_nat (length batch) <= MaxInt64;
  ba_seqs : sq_seq s + Z.of_nat (length batch) <= MaxInt64;
  ba_carriable : Forall (carriable ts (sq_symbol s)) batch
}.

Inductive running : Sequencer W -> Prop :=
| running_start now w b symbol accounts onTrades :
    replay now (durable w) NewBook = Ok b -> buffered w = [] -> reachable b -> in64 (MaxOrderID b) ->
    healthy w -> in64 (wal_LastSeq w) ->
    running (attach symbol accounts onTrades (NewSequencerWithWAL b (Some w)))
| running_commit now ts batch s a s' st ps : running s -> batch_ok ts batch s ->
    commit now ts batch s a = Ok (s', st, ps) -> running s'.

(** The batch as the apply loop sees it. *)
Definition prepared (s : Sequencer W) (a : Accounts) (batch : list request)
    : list request * Accounts * Z :=
  let '(batch, next) := assign_ids (sq_symbol s) (sq_nextOrderID s) batch in
  let '(batch, a) := if sq_accounts s then reserve_batch batch a else (batch, a) in
  (batch, a, next).

Definition log_phase (ts : Z) (s : Sequencer W) (batch : list request)
    : list request * Z * option W * option oms_error :=
  match sq_wal s, sq_walErr s with
  | Some w, None =>
      match logBatch ts batch (sq_seq s) w with
      | (batch, _, w, Some e) => (batch, sq_seq s, Some w, Some e)
      | (batch, seq, w, None) => (batch, seq, Some w, None)
      end
  | wal, walErr => (batch, sq_seq s, wal, walErr)
  end.

Lemma prepared_spec ts s a batch : seq_ok s -> batch_ok ts batch s ->
  let '(batch', a', next) := prepared s a batch in
  ids_above (sq_nextOrderID s) batch' /\ length batch' = length batch /\
  sq_nextOrderID s <= next <= sq_nextOrderID s + Z.of_nat (length batch) /\
  Forall (carried ts) batch' /\
  (forall r, r ∈ batch' -> r_kind r = reqSubmit -> o_SeqID (r_order r) <= next).
Proof.
  intros Hok [Hb Hmax _ Hcar]. unfold prepared.
  pose proof (assign_ids_spec (sq_symbol s) batch (sq_nextOrderID s) Hb (so_int s Hok) Hmax) as Ha.
  destruct (assign_ids _ _ batch) as [b1 next]. destruct Ha as (Hids & Hn & _ & Hk & Has & Htop).
  assert (Hca : Forall (carried ts) b1).
  { eapply Forall2_Forall_r; [exact Has|]. eapply Forall_impl; [exact Hcar|].
    intros r Hr r' (id & Hid & ->). by apply Hr. }
  assert (Hlen : length b1 = length batch) by (by rewrite <- (length_fmap r_kind), Hk, length_fmap).
  destruct (sq_accounts s); [|done].
  pose proof (reserve_batch_core b1 a) as Hc. destruct (reserve_batch b1 a) as [b2 a2]. simpl in Hc.
  split_and!; try done; try lia.
  - by apply (ids_above_core b1).
  - rewrite <- Hlen, <- (length_fmap core), Hc. apply length_fmap.
  - by apply (carried_batch ts b1).
  - intros r Hr Hkr. apply (list_elem_of_fmap_2 core) in Hr. rewrite Hc in Hr.
    apply list_elem_of_fmap in Hr as (r' & Hcore & Hr'). injection Hcore as Hk' Ho' _ _ _.
    rewrite Ho'. apply Htop; congruence.
Qed.

Lemma log_phase_spec ts s a batch0 batch a1 next : seq_ok s -> batch_ok ts batch0 s ->
  prepared s a batch0 = (batch, a1, next) ->
  let '(batch', seq, wal, walErr) := log_phase ts s batch in
  core <$> batch' = core <$> batch /\ r_preErr <$> batch' = r_preErr <$> batch /\
  (walErr <> None -> seq = sq_seq s) /\
  match wal with
  | None => sq_wal s = None
  | Some w' => exists w, sq_wal s = Some w /\ durable w `prefix_of` durable w' /\
      (walErr = None -> healthy w' /\ wal_LastSeq w' = seq /\ in64 seq /\ buffered w = [] /\
         durable w' = durable w ++ records ts batch' /\ buffered w' = [] /\
         (forall i rec, records ts batch' !! i = Some rec -> w_Seq rec = wrap64 (sq_seq s + Z.of_nat i + 1)) /\
         eq64 seq (sq_seq s + Z.of_nat (length (records ts batch'))))
  end /\ (sq_walErr s <> None -> walErr = sq_walErr s).
Proof.
  intros Hok Hb Hpr. pose proof (prepared_spec ts s a batch0 Hok Hb) as Hprep. rewrite Hpr in Hprep.
  destruct Hprep as (_ & Hlen0 & _ & Hcar & _). pose proof (ba_seqs _ _ _ Hb) as Hmax. rewrite <- Hlen0 in Hmax.
  pose proof (so_wal s Hok) as Hw. unfold wal_ok, log_phase in *.
  destruct (sq_wal s) as [w|]; [|by destruct (sq_walErr s)].
  destruct Hw as (log & _ & _ & Hlog). destruct (sq_walErr s) as [e0|].
  - split_and!; try done. exists w. split_and!; done.
  - destruct (Hlog eq_refl) as (_ & Hbuf & Hh & Hls & Hi).
    destruct (logBatch ts batch (sq_seq s) w) as [[[b2 s2] w2] [e2|]] eqn:E;
      pose proof (logBatch_spec ts batch (sq_seq s) w _ _ _ _ Hh Hls Hi Hmax Hcar E) as (Hc & Hp & Hg & Hs); split_and!; try done; exists w.
    + split_and!; try done.
    + destruct (Hs eq_refl) as (Hh2 & Hls2 & Hle & Hd & Hb2 & Hseq & Hlen).
      rewrite Hbuf in Hd. split_and!; try done. intros _. split_and!; try done. unfold64; lia.
Qed.

(** One commit: everything the properties need. *)
Lemma commit_spec now ts batch s a : seq_ok s -> batch_ok ts batch s ->
  let '(b1, a1, next) := prepared s a batch in
  let '(b2, seq, wal, walErr) := log_phase ts s b1 in
  exists st ps s',
    apply_batch now (sq_symbol s) (sq_accounts s) (sq_onTrades s) seq walErr b2
      (mkApplied (sq_book s) a1 []) = Ok (st, ps) /\
    commit now ts batch s a = Ok (s', st, ps) /\ seq_ok s' /\ length ps = length batch /\
    sq_book s' = ap_book st /\ sq_seq s' = seq /\ sq_wal s' = wal /\ sq_walErr s' = walErr /\
    sq_nextOrderID s' = next /\ sq_lastPos s' = seq /\
    sq_resting s' = Z.of_nat (RestingCount (sq_book s')) /\
    (walErr <> None -> sq_book s' = sq_book s /\ ap_published st = []).
Proof.
  intros Hok Hbatch. pose proof (prepared_spec ts s a batch Hok Hbatch) as Hp.
  destruct (prepared s a batch) as [[b1 a1] next] eqn:Ep. destruct Hp as (Hids & Hlen & Hnext & _ & Htop).
  pose proof (log_phase_spec ts s a batch b1 a1 next Hok Hbatch Ep) as Hl.
  destruct (log_phase ts s b1) as [[[b2 seq] wal] walErr] eqn:El.
  destruct Hl as (Hcore & Hpre & Hseq & Hwal & Hsticky).
  pose proof (ids_above_core b1 b2 _ (eq_sym Hcore) Hids) as Hids2.
  destruct (apply_batch_book now ts (sq_symbol s) (sq_accounts s) (sq_onTrades s) seq walErr b2
    (sq_book s) a1 [] (sq_nextOrderID s) (so_book s Hok) (so_next s Hok) Hids2)
    as (b' & a' & pub' & ps & Ha & Hr & Hplen & Hmax & Hrep).
  assert (Hlen2 : length b2 = length b1) by (by rewrite <- (length_fmap core), Hcore, length_fmap).
  assert (Hm : MaxOrderID b' <= next).
  { apply Hmax; [lia|]. intros r Hr2 Hk. apply (list_elem_of_fmap_2 core) in Hr2. rewrite Hcore in Hr2.
    apply list_elem_of_fmap in Hr2 as (r' & Hc & Hr'). injection Hc as Hk' Ho' _ _ _. rewrite Ho'.
    apply Htop; congruence. }
  eexists _, _, _. split; [exact Ha|]. split.
  { unfold commit. unfold prepared in Ep. destruct (assign_ids _ _ batch) as [b0 n0].
    destruct (if sq_accounts s then _ else _) as [b1' a1']. injection Ep as -> -> ->.
    unfold log_phase in El. rewrite El, Ha. reflexivity. }
  simpl. split_and!; try done; [|congruence|by intros; destruct walErr; [destruct Hrep as [-> ->]|]].
  split; simpl; try done.
  - pose proof (so_int s Hok) as Hi. pose proof (ba_ids _ _ _ Hbatch). unfold64; lia.
  - unfold wal_ok. simpl. destruct wal as [w'|]; [|done]. destruct Hwal as (w & Hw & Hpfx & Hnone).
    pose proof (so_wal s Hok) as Hok'. unfold wal_ok in Hok'. rewrite Hw in Hok'.
    destruct Hok' as (log & Hlog & Hpl & Hall). destruct walErr as [e|].
    + destruct Hrep as [-> _]. exists log. split_and!; [done| |done]. by etransitivity.
    + destruct (Hnone eq_refl) as (Hh & Hls & Hi & _ & Hd & Hb & _). exists (durable w'). split_and!; try done.
      destruct (sq_walErr s) as [e|]; [by specialize (Hsticky ltac:(done))|].
      destruct (Hall eq_refl) as [-> _].
      rewrite Hd, replay_app, Hlog. simpl. rewrite (replay_clock id now). exact Hrep.
Qed.

Lemma running_ok s : running s -> seq_ok s.
Proof.
  induction 1 as [now w b symbol accounts onTrades Hrep Hbuf Hr Hint Hh Hls|now ts batch s a s' st ps _ IH Hb Hc].
  - split; simpl; try done. unfold wal_ok. simpl. exists (durable w). split_and!; try done.
    by rewrite (replay_clock id now).
  - pose proof (commit_spec now ts batch s a IH Hb) as Hs.
    destruct (prepared s a batch) as [[b1 a1] next]. destruct (log_phase ts s b1) as [[[b2 seq] wal] walErr].
    destruct Hs as (st1 & ps1 & s1 & _ & Hc1 & Hok & _). congruence.
Qed.
End Running.

(** * A log in memory, used to instantiate the theorems *)

Module SeqDemo.
(** It refuses appends once [room] records have been taken. *)
Record MemLog := mkLog { ml_durable : list WalRecord; ml_buffered : list WalRecord; ml_last : Z; room : nat }.

#[global] Instance MemLog_ops : WalOps MemLog := {
  wal_Append r w := match room w with
    | O => (w, Some ErrWalIO)
    | S n => (mkLog (ml_durable w) (ml_buffered w ++ [r]) (w_Seq r) n, None)
    end;
  wal_Sync w := (mkLog (ml_durable w ++ ml_buffered w) [] (ml_last w) (room w), None);
  wal_LastSeq w := ml_last w
}.

#[global, refine] Instance MemLog_laws : WalLaws MemLog := {
  durable := ml_durable;
  buffered := ml_buffered;
  healthy _ := True;
  carries _ := True
}.
Proof.
  - intros r [d b l [|n]] w' e _ _ _ [= <- _]; simpl; done.
  - intros r [d b l [|n]] w' _ _ _; simpl; [done|]. intros [= <-]. done.
  - intros w w' e _ [= <- _]. simpl. by apply prefix_app_r.
  - intros w w' _ [= <-]. done.
Defined.

Definition start (n : nat) : Sequencer MemLog :=
  attach "NABIL" false true (NewSequencerWithWAL NewBook (Some (mkLog [] [] 0 n))).
Definition ask : Order := mkOrder 0 "" "bob" Limit 100 5 Sell zeroTime.
Definition bid : Order := mkOrder 0 "" "ann" Limit 101 3 Buy zeroTime.
Definition batch : list request :=
  [submit_request ask; submit_request bid; snapshot_request; cancelFor_request 1 "bob"].

Lemma batch_ok_start n : batch_ok 7 batch (start n).
Proof.
  split; [|unfold MaxInt64; simpl; lia..|by repeat constructor].
  repeat constructor; simpl; unfold MaxInt64; intros; try done; lia.
Qed.
Lemma start_running n : running (start n).
Proof. by apply (running_start id); try done; try apply reach_new. Qed.

Definition state_of (r : outcome (Sequencer MemLog * applied * list reply)) : Sequencer MemLog :=
  match r with Ok (s, _, _) => s | _ => start 0 end.
Definition applied_of (r : outcome (Sequencer MemLog * applied * list reply)) : applied :=
  match r with Ok (_, st, _) => st | _ => mkApplied NewBook NewAccounts [] end.
Definition replies_of (r : outcome (Sequencer MemLog * applied * list reply)) : list reply :=
  match r with Ok (_, _, ps) => ps | _ => [] end.
Definition run (n : nat) := commit id 7 batch (start n) NewAccounts.

Lemma commit_result now ts batch s a : seq_ok s -> batch_ok ts batch s ->
  let r := commit now ts batch s a in r = Ok (state_of r, applied_of r, replies_of r).
Proof.
  intros Hok Hb. pose proof (commit_spec now ts batch s a Hok Hb) as Hs.
  destruct (prepared _ _ _) as [[b1 a1] next]. destruct (log_phase _ _ _) as [[[b2 seq] wal] walErr].
  destruct Hs as (st & ps & s' & _ & Hc & _). cbv zeta. by rewrite Hc.
Qed.

Lemma run_ok n : run n = Ok (state_of (run n), applied_of (run n), replies_of (run n)).
Proof. apply commit_result; [apply running_ok, start_running|apply batch_ok_start]. Qed.
End SeqDemo.

(** * The properties *)

Section Properties.
Context {W : Type} `{WalLaws W}.

(** A commit always completes: on a running sequencer no batch of arriving
    requests makes it panic or loop, every request gets exactly one reply, and
    the sequencer it leaves is running. *)
Theorem commit_total now ts batch (s : Sequencer W) a : running s -> batch_ok ts batch s ->
  exists s' st ps, commit now ts batch s a = Ok (s', st, ps) /\ running s' /\ length ps = length batch.
Proof.
  intros Hr Hb. pose proof (commit_spec now ts batch s a (running_ok s Hr) Hb) as Hs.
  destruct (prepared s a batch) as [[b1 a1] next]. destruct (log_phase ts s b1) as [[[b2 seq] wal] walErr].
  destruct Hs as (st & ps & s' & _ & Hc & _ & Hlen & _). exists s', st, ps. split_and!; try done.
  by eapply running_commit.
Qed.

(** Recovery is exact: whatever batches were committed, replaying the
    durable log into an empty book, under any clock, rebuilds the sequencer's
    book, as long as no write failed; after a failed write the book is still
    what a prefix of the durable log replays to. *)
Theorem crash_recovers now (s : Sequencer W) w : running s -> sq_wal s = Some w ->
  (sq_walErr s = None -> replay now (durable w) NewBook = Ok (sq_book s)) /\
  exists log, log `prefix_of` durable w /\ replay now log NewBook = Ok (sq_book s).
Proof.
  intros Hr Hw. pose proof (so_wal s (running_ok s Hr)) as Hok. unfold wal_ok in Hok. rewrite Hw in Hok.
  destruct Hok as (log & Hlog & Hp & Hall). rewrite (replay_clock id now) in Hlog. split.
  - intros He. destruct (Hall He) as [<- _]. done.
  - by exists log.
Qed.

(** C8: Nothing is acknowledged before it is durable: when a mutation's reply
    carries no error, the durable log holds a record at the reply's position,
    one of those this commit added, at consecutive positions, at the end of the
    log. What [onTrades] is given is the non-empty trade lists replied, in order. *)
Theorem acknowledged_is_durable now ts batch (s : Sequencer W) a s' st ps w : running s -> batch_ok ts batch s ->
  sq_wal s = Some w -> commit now ts batch s a = Ok (s', st, ps) ->
  exists w' recs, sq_wal s' = Some w' /\
    (sq_walErr s' = None -> durable w' = durable w ++ recs) /\
    (forall i rec, recs !! i = Some rec -> w_Seq rec = wrap64 (sq_seq s + Z.of_nat i + 1)) /\
    (forall p, p ∈ ps -> p_err p = None -> p_state p = None ->
       sq_walErr s' = None /\ exists rec, rec ∈ recs /\ w_Seq rec = p_seq p) /\
    ap_published st = if sq_onTrades s then filter (fun ts => ts <> []) (p_trades <$> ps) else [].
Proof.
  intros Hr Hb Hw Hc. pose proof (commit_spec now ts batch s a (running_ok s Hr) Hb) as Hs.
  destruct (prepared s a batch) as [[b1 a1] next] eqn:Ep.
  pose proof (log_phase_spec ts s a batch b1 a1 next (running_ok s Hr) Hb Ep) as Hl.
  destruct (log_phase ts s b1) as [[[b2 seq] wal] walErr].
  destruct Hs as (st1 & ps1 & s1 & Ha & Hc1 & _ & _ & _ & _ & Hw1 & He1 & _).
  rewrite Hc in Hc1. injection Hc1 as <- <- <-. destruct Hl as (_ & _ & _ & Hl & _).
  destruct wal as [w'|]; [|congruence]. destruct Hl as (w0 & Hw0 & _ & Hnone).
  rewrite Hw in Hw0. injection Hw0 as <-.
  destruct (apply_batch_inv now (sq_symbol s) (sq_accounts s) (sq_onTrades s) seq walErr b2 _ _ _ Ha) as [Hps Hpub].
  exists w', (match walErr with None => records ts b2 | Some _ => [] end).
  split_and!; [done| | | |exact Hpub].
  - rewrite He1. intros ->. by apply Hnone.
  - destruct walErr; [done|]. by apply Hnone.
  - intros p Hp Herr Hst. destruct (Hps p Hp) as (r & x & x' & Hin & Ho).
    destruct (apply_one_ack _ _ _ _ _ _ _ _ _ _ Ho Herr Hst) as (-> & Hlog & Hseq & _).
    split; [done|]. exists (to_record ts (r_seq r) r). split.
    + unfold records. apply (list_elem_of_fmap_2 (fun r => to_record ts (r_seq r) r)).
      by apply list_elem_of_filter.
    + rewrite Hseq. unfold to_record. by destruct (r_kind r).
Qed.

(** C29: A failed write stops the venue cleanly: when the log has failed, the
    book and the log position are as before the commit, nothing is published,
    every order and cancel of the batch is refused with the log's error (or its
    own pre-trade rejection) and no trades, and the failure is permanent. *)
Theorem log_failure_is_clean now ts batch (s : Sequencer W) a s' st ps e : running s -> batch_ok ts batch s ->
  commit now ts batch s a = Ok (s', st, ps) -> sq_walErr s' = Some e ->
  sq_book s' = sq_book s /\ sq_seq s' = sq_seq s /\ ap_published st = [] /\
  (forall p, p ∈ ps -> p_state p = None -> p_trades p = [] /\ p_err p <> None) /\
  (forall now ts batch a s'' st ps, batch_ok ts batch s' -> commit now ts batch s' a = Ok (s'', st, ps) ->
     sq_walErr s'' = Some e).
Proof.
  intros Hr Hb Hc He. pose proof (commit_spec now ts batch s a (running_ok s Hr) Hb) as Hs.
  destruct (prepared s a batch) as [[b1 a1] next] eqn:Ep.
  pose proof (log_phase_spec ts s a batch b1 a1 next (running_ok s Hr) Hb Ep) as Hl.
  destruct (log_phase ts s b1) as [[[b2 seq] wal] walErr].
  destruct Hs as (st1 & ps1 & s1 & Ha & Hc1 & Hok1 & _ & _ & Hseq & _ & He1 & _ & _ & _ & Hfail).
  rewrite Hc in Hc1. injection Hc1 as <- <- <-. rewrite He in He1. subst walErr.
  destruct Hl as (_ & _ & Hseq' & _). destruct (Hfail ltac:(done)) as [Hbook Hpub].
  split_and!; try done; [rewrite Hseq; by apply Hseq'| |].
  - intros p Hp Hst. destruct (apply_batch_inv _ _ _ _ _ _ _ _ _ _ Ha) as [Hps _].
    destruct (Hps p Hp) as (r & x & x' & _ & Ho).
    by destruct (apply_one_failed _ _ _ _ _ _ _ _ _ _ e eq_refl Ho Hst) as [-> ->].
  - intros now' ts' batch' a' s'' st' ps' Hb' Hc'.
    pose proof (commit_spec now' ts' batch' s' a' Hok1 Hb') as Hs'.
    destruct (prepared s' a' batch') as [[b1' a1'] next'] eqn:Ep'.
    pose proof (log_phase_spec ts' s' a' batch' b1' a1' next' Hok1 Hb' Ep') as Hl'.
    destruct (log_phase ts' s' b1') as [[[b2' seq'] wal'] walErr'].
    destruct Hs' as (? & ? & ? & _ & Hc1' & _ & _ & _ & _ & _ & He1' & _).
    rewrite Hc' in Hc1'. injection Hc1' as <- <- <-. destruct Hl' as (_ & _ & _ & _ & Hst').
    rewrite He1', Hst'; [done|by rewrite He].
Qed.
End Properties.

Lemma commit_total_witness :
  exists s' st ps, commit id 7 SeqDemo.batch (SeqDemo.start 9) NewAccounts = Ok (s', st, ps) /\
    running s' /\ length ps = length SeqDemo.batch.
Proof.
  exact (commit_total id 7 SeqDemo.batch (SeqDemo.start 9) NewAccounts (SeqDemo.start_running 9)
    (SeqDemo.batch_ok_start 9)).
Defined.

Lemma crash_recovers_witness :
  exists w, length (durable w) = 3%nat /\
    replay id (durable w) NewBook = Ok (sq_book (SeqDemo.state_of (SeqDemo.run 9))).
Proof.
  assert (Hr : running (SeqDemo.state_of (SeqDemo.run 9)))
    by (eapply running_commit; [apply (SeqDemo.start_running 9)|apply SeqDemo.batch_ok_start|apply SeqDemo.run_ok]).
  assert (Hw : exists w, sq_wal (SeqDemo.state_of (SeqDemo.run 9)) = Some w /\ length (durable w) = 3%nat)
    by (eexists; split; vm_compute; reflexivity).
  destruct Hw as (w & Hw & Hlen). exists w. split; [exact Hlen|].
  apply (crash_recovers id _ w Hr Hw). vm_compute. reflexivity.
Defined.

Lemma acknowledged_is_durable_witness :
  exists w' recs, sq_wal (SeqDemo.state_of (SeqDemo.run 9)) = Some w' /\
    (sq_walErr (SeqDemo.state_of (SeqDemo.run 9)) = None -> durable w' = [] ++ recs).
Proof.
  destruct (acknowledged_is_durable id 7 SeqDemo.batch (SeqDemo.start 9) NewAccounts _ _ _
    (SeqDemo.mkLog [] [] 0 9) (SeqDemo.start_running 9) (SeqDemo.batch_ok_start 9) eq_refl (SeqDemo.run_ok 9))
    as (w' & recs & Hw & Hd & _). exists w', recs. split; [exact Hw|exact Hd].
Defined.

Lemma log_failure_is_clean_witness :
  sq_book (SeqDemo.state_of (SeqDemo.run 1)) = NewBook /\ sq_seq (SeqDemo.state_of (SeqDemo.run 1)) = 0.
Proof.
  destruct (log_failure_is_clean id 7 SeqDemo.batch (SeqDemo.start 1) NewAccounts _ _ _ ErrWalIO
    (SeqDemo.start_running 1) (SeqDemo.batch_ok_start 1) (SeqDemo.run_ok 1) ltac:(vm_compute; reflexivity))
    as (H1 & H2 & _). split; [exact H1|exact H2].
Defined.
