(* ===== verification/VenueFacts.v ===== *)
(** The book and the account store together: how settling a match keeps the holds
    in step with the orders.

    [holds_are s L a] says that the holds of symbol [s] are exactly those of the
    orders of [L]. [settle] follows the abstract matching trade by trade. *)

From Stdlib Require Import ZArith Lia.
From stdpp Require Import base gmap list strings sorting.
From S2P Require Import Prelude Types Book BookInv BookSpec Accounts AccountsInv AccountsSolv.

Open Scope Z_scope.

Definition holds_are (s : string) (L : list Order) (a : Accounts) : Prop :=
  forall id h, holds a !! (s, id) = Some h <-> exists o, o ∈ L /\ o_SeqID o = id /\ h = order_hold s o.

#[global] Instance holds_are_perm s : Proper ((≡ₚ) ==> eq ==> iff) (holds_are s).
Proof.
  intros L L' HL a a' <-. unfold holds_are. by setoid_rewrite HL.
Qed.

(** An order that still wants to trade. *)
Definition live_order (o : Order) : list Order := if decide (0 < o_Quantity o) then [o] else [].

(** A LIMIT order whose value fits in 64 bits: what [notional] checks for a buy. *)
Definition valued (o : Order) : Prop := 0 <= o_Price o /\ o_Price o * o_Quantity o <= MaxInt64.

Lemma fill_order_hold s o d : 0 < d <= o_Quantity o ->
  filled d (order_hold s o) = if decide (d = o_Quantity o) then None
                              else Some (order_hold s (set_quantity (o_Quantity o - d) o)).
Proof.
  intros Hd. unfold filled, reduce.
  assert (Hq : h_qty (order_hold s o) = o_Quantity o) by (unfold order_hold; by case_decide).
  assert (Hc : clamp d (order_hold s o) = d) by (unfold clamp; rewrite Hq; lia).
  rewrite Hc, Hq. simpl. destruct (decide (d = o_Quantity o)).
  - by rewrite decide_True by lia.
  - rewrite decide_False by lia. unfold order_hold. simpl. by destruct (decide (o_Side o = Sell)).
Qed.

(** Who holds what, as a function of the identifier. *)
Lemma holds_are_lookup s L a o : holds_are s L a -> o ∈ L -> holds a !! (s, o_SeqID o) = Some (order_hold s o).
Proof. intros H Ho. apply H. by exists o. Qed.

Section Step.
Context (s : string) (a : Accounts) (t : Trade) (o m : Order) (L : list Order).
Context (Hwf : acc_wf a) (Hl : holds_live a) (Hare : holds_are s (o :: m :: L) a).
Context (Hnd : NoDup (o_SeqID <$> o :: m :: L)).
Context (Hmk : t_MakerSeqID t = o_SeqID m) (Htk : t_TakerSeqID t = o_SeqID o) (Hmv : moves t = true).
Context (Hq : 0 < t_Quantity t) (Hqo : t_Quantity t <= o_Quantity o) (Hqm : t_Quantity t <= o_Quantity m).

Let o' := set_quantity (o_Quantity o - t_Quantity t) o.
Let m' := set_quantity (o_Quantity m - t_Quantity t) m.

Lemma step_ids : o_SeqID o <> o_SeqID m /\ forall x, x ∈ L -> o_SeqID x <> o_SeqID o /\ o_SeqID x <> o_SeqID m.
Proof.
  rewrite !fmap_cons in Hnd. apply NoDup_cons in Hnd as [H1 H2]. apply NoDup_cons in H2 as [H2 _].
  split; [intros E; apply H1; rewrite E; by left|].
  intros x Hx. apply (list_elem_of_fmap_2 o_SeqID) in Hx.
  split; intros E; rewrite E in Hx; [apply H1; by right|done].
Qed.

Lemma step_hold id : holds (complete_trade s a t) !! (s, id) =
  holds a !! (s, id) ≫= filled (if decide (id = o_SeqID o \/ id = o_SeqID m) then t_Quantity t else 0).
Proof.
  rewrite complete_trade_hold by done. unfold fills. rewrite Hmv, Hmk, Htk.
  destruct step_ids as [Hne _]. f_equal. f_equal. repeat case_decide; try tauto; try lia; congruence.
Qed.

Lemma step_holds_are : holds_are s (live_order o' ++ live_order m' ++ L) (complete_trade s a t).
Proof.
  destruct step_ids as [Hne HL]. intros id h. rewrite step_hold.
  assert (Hlive : forall x, x = o \/ x = m -> forall y, y ∈ live_order (set_quantity (o_Quantity x - t_Quantity t) x) <->
    t_Quantity t <> o_Quantity x /\ y = set_quantity (o_Quantity x - t_Quantity t) x).
  { intros x Hx y. unfold live_order. simpl. case_decide; rewrite ?list_elem_of_singleton, ?elem_of_nil;
      destruct Hx as [-> | ->]; intuition lia. }
  assert (Hone : forall x, x = o \/ x = m -> holds a !! (s, o_SeqID x) ≫= filled (t_Quantity t) = Some h <->
    exists y, y ∈ live_order (set_quantity (o_Quantity x - t_Quantity t) x) /\ h = order_hold s y).
  { intros x Hx. assert (Hin : x ∈ o :: m :: L) by (destruct Hx as [-> | ->]; set_solver).
    rewrite (holds_are_lookup s _ a x Hare Hin). simpl.
    rewrite fill_order_hold by (destruct Hx as [-> | ->]; lia). split.
    - case_decide; [done|]. intros [= <-]. eexists. split; [apply Hlive|]; done.
    - intros (y & Hy & ->). apply Hlive in Hy as [Hne' ->]; [|done]. by rewrite decide_False. }
  destruct (decide (id = o_SeqID o \/ id = o_SeqID m)) as [Hid|Hid].
  - assert (Hx : exists x, (x = o \/ x = m) /\ id = o_SeqID x) by (destruct Hid; eauto).
    destruct Hx as (x & Hx & ->). rewrite (Hone x Hx). split.
    + intros (y & Hy & ->). exists y. pose proof Hy as Hy'. apply Hlive in Hy' as [_ ->]; [|done].
      split_and!; try done. rewrite !elem_of_app. destruct Hx as [-> | ->]; auto.
    + intros (y & Hy & Hid' & ->). exists y. split; [|done]. rewrite !elem_of_app in Hy.
      destruct Hy as [Hy|[Hy|Hy]].
      * pose proof Hy as Hy'. apply Hlive in Hy' as [_ ->]; [|by left]. simpl in Hid'.
        destruct Hx as [-> | ->]; [done|congruence].
      * pose proof Hy as Hy'. apply Hlive in Hy' as [_ ->]; [|by right]. simpl in Hid'.
        destruct Hx as [-> | ->]; [congruence|done].
      * destruct (HL y Hy). destruct Hx as [-> | ->]; congruence.
  - rewrite filled_none by (intros; by eapply Hl). etransitivity; [apply (Hare id h)|]. split.
    + intros (y & Hy & Hid' & ->). exists y. split_and!; try done. rewrite !elem_of_cons in Hy.
      rewrite !elem_of_app. destruct Hy as [-> |[-> |Hy]]; [by destruct Hid; left|by destruct Hid; right|auto].
    + intros (y & Hy & Hid' & ->). exists y. split_and!; try done. rewrite !elem_of_app in Hy.
      rewrite !elem_of_cons. destruct Hy as [Hy|[Hy|Hy]]; [..|auto];
        apply Hlive in Hy as [_ ->]; auto; simpl in Hid'; destruct Hid; auto.
Qed.
End Step.

(** A fill of a valued order moves. *)
Lemma valued_moves m t : valued m -> t_Price t = o_Price m -> 0 < t_Quantity t <= o_Quantity m -> moves t = true.
Proof.
  intros [Hp Hv] Ht Hq. unfold moves.
  assert (Hn : notional (t_Price t) (t_Quantity t) = Good (t_Price t * t_Quantity t))
    by (apply notional_Good; rewrite Ht; split_and!; try done; nia).
  by rewrite Hn.
Qed.

(** An order whose holds can pay for whatever it trades, placed by someone. *)
Record backed (s : string) (o : Order) : Prop := {
  bk_priced : priced o;
  bk_type : o_Type o <> UnknownType;
  bk_placer : o_Placer o <> ""%string;
  bk_symbol : o_Symbol o = s
}.

Lemma step_covered now s a sd n o m L fill :
  side_ok sd -> o_Side o = opposite sd -> o_Side m = sd -> o_Type m = Limit -> valued m ->
  beyond_limit sd o (o_Price m) = false -> selfMatch o m = false -> backed s o ->
  holds_are s (o :: m :: L) a -> NoDup (o_SeqID <$> o :: m :: L) ->
  0 < fill -> fill <= o_Quantity o -> fill <= o_Quantity m ->
  covered s a (mk_trade now sd n (o_Price m) fill o m).
Proof.
  intros Hsd Ho Hm Hlim Hval Hbl Hself [Hpr Hty Hplc Hsy] Hare Hnd Hf Hfo Hfm.
  assert (Hpl : o_Placer o <> o_Placer m).
  { unfold selfMatch in Hself. intros E.
    by rewrite (bool_decide_false _ Hplc), (bool_decide_true _ E) in Hself. }
  assert (Hid : o_SeqID o <> o_SeqID m).
  { rewrite !fmap_cons in Hnd. apply NoDup_cons in Hnd as [H1 _]. intros E. apply H1. rewrite E. by left. }
  pose proof (holds_are_lookup s _ a o Hare ltac:(by left)) as Hho.
  pose proof (holds_are_lookup s _ a m Hare ltac:(by right; left)) as Hhm.
  assert (Hmv : moves (mk_trade now sd n (o_Price m) fill o m) = true) by (by eapply valued_moves).
  unfold order_hold in Hho, Hhm. rewrite Ho in Hho. rewrite Hm in Hhm.
  destruct Hsd as [-> | ->]; simpl in Ho, Hho, Hhm;
    split; unfold buyer_id, seller_id, Buyer, Seller, mk_trade; simpl; try done.
  - eexists. split; [exact Hhm|]. by rewrite Hlim.
  - eexists. split; [exact Hho|]. done.
  - eexists. split; [exact Hho|]. simpl. split_and!; try done.
    destruct (decide (o_Type o = Market)) as [E|E]; [destruct Hpr; congruence|].
    assert (Hl : o_Type o = Limit) by (destruct (o_Type o); done).
    unfold beyond_limit in Hbl. rewrite bool_decide_true in Hbl by done. simpl in Hbl. lia.
  - eexists. split; [exact Hhm|]. done.
Qed.

(** * Settling a match *)

(** The resting orders a match may touch. *)
Definition maker_ok (sd : OrderSide) (m : Order) : Prop :=
  o_Side m = sd /\ o_Type m = Limit /\ 0 < o_Quantity m /\ valued m.

Section Settle.
Context (now : Z -> Z) (s : string) (sd : OrderSide) (Hsd : side_ok sd).

Definition settled (o : Order) (L : list Order) (a : Accounts) (r : Spec.outcome) : Prop :=
  let a' := foldl (complete_trade s) a (Spec.trades r) in
  acc_wf a' /\ holds_live a' /\
  (exists pulled, Spec.prevented r = o_SeqID <$> pulled /\
     holds_are s (live_order (Spec.taker r) ++ Spec.rest r ++ pulled ++ L) a' /\
     NoDup (o_SeqID <$> Spec.taker r :: Spec.rest r ++ pulled ++ L)) /\
  (solvent a -> backed s o -> o_Side o = opposite sd -> solvent a').

(** Nothing traded: the store and the orders are as they were. *)
Lemma settled_stop n o q L a : acc_wf a -> holds_live a ->
  holds_are s (live_order o ++ q ++ L) a -> NoDup (o_SeqID <$> o :: q ++ L) ->
  settled o L a (Spec.mkOutcome [] [] o q n).
Proof. intros. split_and!; try done. by exists []. Qed.

Lemma live_order_pos o : 0 < o_Quantity o -> live_order o = [o].
Proof. intros. unfold live_order. by rewrite decide_True. Qed.
Lemma live_order_zero o : o_Quantity o <= 0 -> live_order o = [].
Proof. intros. unfold live_order. by rewrite decide_False by lia. Qed.

(** One trade of the match. *)
Lemma settle_trade n o m L a : maker_ok sd m -> acc_wf a -> holds_live a ->
  beyond_limit sd o (o_Price m) = false -> selfMatch o m = false -> 0 < o_Quantity o ->
  holds_are s (o :: m :: L) a -> NoDup (o_SeqID <$> o :: m :: L) ->
  let fill := Z.min (o_Quantity o) (o_Quantity m) in
  let a' := complete_trade s a (mk_trade now sd n (o_Price m) fill o m) in
  acc_wf a' /\ holds_live a' /\
  holds_are s (live_order (set_quantity (o_Quantity o - fill) o)
               ++ live_order (set_quantity (o_Quantity m - fill) m) ++ L) a' /\
  (solvent a -> backed s o -> o_Side o = opposite sd -> solvent a').
Proof.
  intros (Hms & Hmt & Hmq & Hmv) Hwf Hl Hbl Hself Ho Hare Hnd fill a'.
  assert (Hf : 0 < fill /\ fill <= o_Quantity o /\ fill <= o_Quantity m) by lia. destruct Hf as (Hf & Hfo & Hfm).
  assert (Hmoves : moves (mk_trade now sd n (o_Price m) fill o m) = true) by (by eapply valued_moves).
  split_and!.
  - by apply complete_trade_frame.
  - by apply complete_trade_live.
  - by apply step_holds_are.
  - intros Hso Hb Hside. apply complete_trade_solvent; try done. by apply (step_covered now s a sd n o m L).
Qed.

Lemma settle q : forall n o L a, Forall (maker_ok sd) q -> acc_wf a -> holds_live a ->
  holds_are s (live_order o ++ q ++ L) a -> NoDup (o_SeqID <$> o :: q ++ L) ->
  settled o L a (Spec.matching now sd n o q).
Proof.
  induction q as [|m q IH]; intros n o L a Hq Hwf Hl Hare Hnd; simpl; [by apply settled_stop|].
  apply Forall_cons in Hq as [Hm Hq].
  matching_cases sd o m; try (by apply settled_stop).
  - (* the maker is the taker's own: it is pulled *)
    destruct (IH n o (m :: L) a Hq Hwf Hl) as (H1 & H2 & (pl & Hp & Hh & Hn) & H4).
    + by rewrite <- Permutation_middle.
    + by rewrite <- Permutation_middle.
    + split_and!; try done. exists (m :: pl). rewrite Hp. simpl. split_and!; try done.
      * by rewrite <- Permutation_middle in Hh.
      * by rewrite <- Permutation_middle in Hn.
  - (* the taker is filled, the maker keeps the rest *)
    rewrite live_order_pos in Hare by done.
    destruct (settle_trade (add64 n 1) o m (q ++ L) a Hm Hwf Hl Hbl Hself Ho Hare Hnd) as (H1 & H2 & H3 & H4).
    split_and!; try done. exists []. split_and!; try done. simpl.
    by rewrite (live_order_pos (set_quantity _ m)) in H3 by (simpl; lia).
  - (* the maker is filled *)
    rewrite live_order_pos in Hare by done.
    destruct (settle_trade (add64 n 1) o m (q ++ L) a Hm Hwf Hl Hbl Hself Ho Hare Hnd) as (H1 & H2 & H3 & H4).
    rewrite (live_order_zero (set_quantity _ m)) in H3 by (simpl; lia). simpl in H3.
    set (o' := set_quantity (o_Quantity o - Z.min (o_Quantity o) (o_Quantity m)) o) in *.
    destruct (IH (add64 n 1) o' L _ Hq H1 H2 H3) as (I1 & I2 & I3 & I4).
    { rewrite !fmap_cons in Hnd |- *. apply NoDup_cons in Hnd as [Hn1 Hn2]. apply NoDup_cons in Hn2 as [_ Hn2].
      apply NoDup_cons. split; [|done]. intros Hin. apply Hn1. by right. }
    split_and!; try done. intros Hso Hb Hside. apply I4; [by apply H4| |done].
    destruct Hb. by split.
Qed.
End Settle.
