(* ===== verification/Venue.v ===== *)
(** One symbol of the venue: its book, and the account store it settles into.

    [venue_ok s b pend a] is the invariant between two steps of the apply loop:
    the holds of symbol [s] are exactly those of the resting orders and of the
    orders [pend] that are reserved and not yet applied. *)

From Stdlib Require Import ZArith Lia.
From stdpp Require Import base gmap list strings sorting.
From S2P Require Import Prelude Types Book BookInv BookSpec BookRefine BookProps.
From S2P Require Import Accounts AccountsInv AccountsSolv AccountsProps VenueFacts.

Open Scope Z_scope.

(** * Releasing *)

Lemma holds_are_ext s L L' a : (forall o, o ∈ L <-> o ∈ L') -> holds_are s L a -> holds_are s L' a.
Proof. intros H HL id h. rewrite (HL id h). by setoid_rewrite H. Qed.

Lemma holds_are_other s L a a' : (forall id, holds a' !! (s, id) = holds a !! (s, id)) ->
  holds_are s L a -> holds_are s L a'.
Proof. intros H HL id h. rewrite H. apply HL. Qed.

Lemma release_holds_are s id L a : acc_wf a -> holds_are s L a ->
  holds_are s (filter (fun o => o_SeqID o <> id) L) (releaseLocked (s, id) a).
Proof.
  intros Hwf HL i h. destruct (release_spec a (s, id) Hwf) as (_ & -> & _).
  setoid_rewrite list_elem_of_filter. destruct (decide (i = id)) as [->|Hne].
  - rewrite lookup_delete_eq. split; [done|]. intros (o & [Ho _] & Hid & _). done.
  - rewrite lookup_delete_ne by congruence. rewrite (HL i h). split; intros (o & Ho & Hid & Hh); exists o.
    + split_and!; congruence.
    + tauto.
Qed.

Lemma release_all_holds_are s ids L a : acc_wf a -> holds_live a -> holds_are s L a ->
  holds_are s (filter (fun o => o_SeqID o ∉ ids) L) (foldl (fun a id => releaseLocked (s, id) a) a ids).
Proof.
  intros Hwf Hl HL i h. destruct (release_all_spec s ids a Hwf Hl) as (_ & _ & _ & _ & H & _).
  rewrite H. setoid_rewrite list_elem_of_filter. case_decide as Hi.
  - split; [done|]. intros (o & [Ho _] & <- & _). done.
  - rewrite (HL i h). split; intros (o & Ho & Hid & Hh); exists o; [split_and!; congruence|tauto].
Qed.

(** * Refusals leave the book alone *)

Lemma CancelOwned_Fails id by_ b b' e : CancelOwned id by_ b = Ok (b', Fails e) -> b' = b.
Proof.
  unfold CancelOwned. destruct (index b !! id) as [r|]; [|by intros [= <- _]].
  destruct (decide _); [by intros [= <- _]|].
  destruct (remove_element _ _ b) as [b1| |]; simpl; try done.
  destruct (deref _) as [lvl| |]; simpl; try done. by destruct (drop_if_empty _ _ _ _).
Qed.

Lemma SubmitOrder_Fails now o b b' e : reachable b -> submittable o b ->
  SubmitOrder now o b = Ok (b', Fails e) -> b' = b.
Proof.
  intros Hr [Hq Hi] Hs. destruct (reachable_inv b Hr) as [Hwf _].
  destruct (SubmitOrder_correct now o b Hwf Hq Hi) as (b2 & r2 & Hs2 & _ & Habs & _).
  rewrite Hs in Hs2. injection Hs2 as <- <-. unfold SubmitOrder in Hs. case_decide as Hd; [by injection Hs|].
  exfalso. unfold Spec.submit in Habs. rewrite decide_False in Habs by done.
  apply (f_equal snd) in Habs. by destruct (decide _).
Qed.

(** * The invariant *)

Record venue_ok (s : string) (b : Book) (pend : list Order) (a : Accounts) : Prop := {
  vo_book : reachable b;
  vo_wf : acc_wf a;
  vo_live : holds_live a;
  vo_holds : holds_are s (RestingOrders b ++ pend) a;
  vo_valued : Forall valued (RestingOrders b)
}.

Lemma enqueue_perm s o q : Spec.enqueue s o q ≡ₚ o :: q.
Proof.
  induction q as [|m q IH]; simpl; [done|]. case_decide; [done|]. rewrite IH. apply Permutation_swap.
Qed.

Lemma resting_perm b s : reachable b -> side_ok s ->
  RestingOrders b ≡ₚ resting (opposite s) b ++ resting s b.
Proof.
  intros Hr Hs. destruct (reachable_inv b Hr) as [Hwf _]. rewrite (RestingOrders_perm b Hwf).
  destruct Hs as [-> | ->]; simpl; [apply Permutation_app_comm|done].
Qed.

Lemma makers_ok b s : reachable b -> side_ok s -> Forall valued (RestingOrders b) ->
  Forall (maker_ok s) (resting s b).
Proof.
  intros Hr Hs Hv. destruct (reachable_inv b Hr) as [Hwf _]. rewrite Forall_forall in Hv |- *. intros m Hm.
  assert (Hin : m ∈ RestingOrders b) by (rewrite (resting_perm b s Hr Hs), elem_of_app; by right).
  apply list_elem_of_fmap in Hm as (x & -> & Hx).
  destruct (elems_rest_ok b Hwf s x Hs Hx) as (p & _ & H1 & _ & H3 & H4 & _). split_and!; auto.
Qed.

(** Consuming a list keeps its orders valued. *)
Lemma rest_valued o q r : consumes o q r -> Forall valued q -> Forall valued (Spec.rest r).
Proof.
  intros [(k1 & k2 & -> & -> & _)|(k1 & m & k2 & d & -> & _ & Hd & -> & _)] Hv;
    apply Forall_app in Hv as [_ Hv]; [done|].
  apply Forall_cons in Hv as [[Hp Hm] Hv]. constructor; [|done]. split; simpl; [done|]. nia.
Qed.

Section Submit.
Context (now : Z -> Z) (s : string) (o : Order) (b b' : Book) (pend : list Order) (a : Accounts) (res : MatchResult).
Context (Hok : venue_ok s b (o :: pend) a) (Hsub : submittable o b).
Context (Hnd : NoDup (o_SeqID <$> RestingOrders b ++ o :: pend)).
Context (Hpos : 0 < o_Quantity o) (Hval : o_Type o = Limit -> valued o).
Context (Hs : SubmitOrder now o b = Ok (b', Good res)).

Let opp := opposite (o_Side o).
Let out := Spec.matching now opp (nextTradeID b) o (resting opp b).
Let a1 := foldl (complete_trade s) a (Trades res).
Let L := resting (o_Side o) b ++ pend.

Lemma venue_side : side_ok (o_Side o) /\ side_ok opp.
Proof. pose proof (submit_side now o b b' res Hs) as H. split; [done|]. by apply side_ok_opposite. Qed.

Lemma venue_perm : RestingOrders b ++ o :: pend ≡ₚ o :: resting opp b ++ L.
Proof.
  rewrite (resting_perm b (o_Side o) (vo_book _ _ _ _ Hok)) by apply venue_side.
  unfold L. rewrite <- Permutation_middle. by rewrite app_assoc.
Qed.

Lemma venue_settled : settled s opp o L a out.
Proof.
  destruct venue_side as [_ Hopp]. apply settle; try done.
  - apply makers_ok; [apply Hok|done|apply Hok].
  - apply (vo_wf _ _ _ _ Hok).
  - apply (vo_live _ _ _ _ Hok).
  - rewrite live_order_pos by done. simpl. rewrite <- venue_perm. apply (vo_holds _ _ _ _ Hok).
  - by rewrite <- venue_perm.
Qed.

Lemma venue_taker : Spec.taker out = set_quantity (o_Quantity (Spec.taker out)) o.
Proof. pose proof (submit_taker now o b) as Ht. cbv zeta in Ht. fold opp out in Ht. by rewrite Ht. Qed.

Lemma venue_outcome : Trades res = Spec.trades out /\ SelfPrevented res = Spec.prevented out /\
  RestingQuantity res = (if decide (o_Type o = Limit) then Z.max 0 (o_Quantity (Spec.taker out)) else 0) /\
  reachable b'.
Proof.
  destruct (submit_outcome now o b b' res (vo_book _ _ _ _ Hok) Hsub Hs) as (H1 & H2 & H3 & _).
  split_and!; [exact H1|exact H2|exact H3|]. eapply reach_submit; [apply Hok|exact Hsub|exact Hs].
Qed.

(** The orders resting afterwards: the rest of the other side, what was queued,
    and what is left of a LIMIT order. *)
Lemma venue_resting : RestingOrders b' ++ pend ≡ₚ
  (if decide (0 < RestingQuantity res) then [Spec.taker out] else []) ++ Spec.rest out ++ L.
Proof.
  destruct venue_outcome as (_ & _ & Hq & Hr').
  destruct (submit_outcome now o b b' res (vo_book _ _ _ _ Hok) Hsub Hs) as (_ & _ & _ & Hrest & _ & Hown).
  rewrite (resting_perm b' (o_Side o)) by first [done|apply venue_side].
  rewrite Hrest, Hown. fold opp out. unfold L. destruct (decide (0 < RestingQuantity res)) as [Hr|Hr]; simpl.
  - rewrite enqueue_perm. assert (Ht : Spec.taker out = set_quantity (RestingQuantity res) o).
    { rewrite Hq in Hr |- *. destruct (decide (o_Type o = Limit)); [|lia].
      rewrite venue_taker at 1. f_equal. lia. }
    rewrite Ht, <- !app_assoc. simpl. symmetry. apply Permutation_middle.
  - by rewrite <- app_assoc.
Qed.

Let a' := Complete s (o_SeqID o) (Trades res) (RestingQuantity res) (SelfPrevented res) a.
Let a2 := foldl (fun a id => releaseLocked (s, id) a) a1 (SelfPrevented res).

(** Self-match prevention's releases leave the holds of what was not pulled. *)
Lemma venue_released : acc_wf a2 /\ holds_live a2 /\
  holds_are s (live_order (Spec.taker out) ++ Spec.rest out ++ L) a2 /\
  NoDup (o_SeqID <$> Spec.taker out :: Spec.rest out ++ L).
Proof.
  destruct venue_outcome as (Ht & Hp & _). destruct venue_settled as (H1 & H2 & (pl & Hpl & Hh & Hn) & _).
  unfold a2, a1. rewrite Ht, Hp, Hpl.
  destruct (release_all_spec s (o_SeqID <$> pl) _ H1 H2) as (W & V & _).
  assert (Hn' : NoDup (o_SeqID <$> pl ++ Spec.taker out :: Spec.rest out ++ L)).
  { rewrite <- Permutation_middle. assert (Hp' : pl ++ Spec.rest out ++ L ≡ₚ Spec.rest out ++ pl ++ L).
    { rewrite !app_assoc. f_equiv. apply Permutation_app_comm. }
    by rewrite Hp'. }
  rewrite fmap_app in Hn'. apply NoDup_app in Hn' as (_ & Hdis & Hn').
  split_and!; [done|done| |exact Hn'].
  eapply holds_are_ext; [|by apply release_all_holds_are].
  intros x. rewrite list_elem_of_filter, !elem_of_app. split.
  - intros [Hni [Hx|[Hx|[Hx|Hx]]]]; auto. destruct Hni. by apply list_elem_of_fmap_2.
  - intros Hx. split; [|tauto]. intros Hin. apply (Hdis _ Hin). apply list_elem_of_fmap_2.
    rewrite elem_of_cons, elem_of_app. destruct Hx as [Hx|Hx]; [left|tauto].
    unfold live_order in Hx. case_decide; [by apply list_elem_of_singleton in Hx|by apply elem_of_nil in Hx].
Qed.
(** The step preserves the invariant: what is held is what rests. *)
Lemma venue_submit_holds : holds_are s (RestingOrders b' ++ pend) a'.
Proof.
  destruct venue_outcome as (_ & _ & Hq & _). destruct venue_released as (W & V & Hh & Hn).
  rewrite venue_resting. unfold a', Complete. fold a1 a2.
  assert (Htid : o_SeqID (Spec.taker out) = o_SeqID o) by (rewrite venue_taker; done).
  destruct (Z.leb_spec (RestingQuantity res) 0) as [Hr|Hr].
  - rewrite decide_False by lia. simpl.
    eapply holds_are_ext; [|by apply release_holds_are].
    rewrite fmap_cons in Hn. apply NoDup_cons in Hn as [Hni _]. rewrite Htid in Hni.
    intros x. rewrite list_elem_of_filter, !elem_of_app. split.
    + intros [Hx [Hl|Hl]]; [|done]. destruct Hx. unfold live_order in Hl.
      case_decide; [|by apply elem_of_nil in Hl]. apply list_elem_of_singleton in Hl as ->. done.
    + intros Hx. split; [|by right]. intros E. apply Hni. rewrite <- E. apply list_elem_of_fmap_2.
      by rewrite elem_of_app.
  - rewrite decide_True by done.
    rewrite live_order_pos in Hh; [done|]. rewrite Hq in Hr. destruct (decide (o_Type o = Limit)); lia.
Qed.

Lemma venue_submit_valued : Forall valued (RestingOrders b').
Proof.
  destruct venue_outcome as (_ & _ & Hq & Hr').
  destruct (submit_outcome now o b b' res (vo_book _ _ _ _ Hok) Hsub Hs) as (_ & _ & _ & Hrest & _ & Hown).
  destruct venue_side as [Hside Hopp]. pose proof (vo_valued _ _ _ _ Hok) as Hv.
  rewrite (resting_perm b (o_Side o)) in Hv by first [done|apply Hok]. apply Forall_app in Hv as [Hv1 Hv2].
  rewrite (resting_perm b' (o_Side o)) by done. apply Forall_app. split.
  - rewrite Hrest. eapply rest_valued; [|exact Hv1]. apply matching_consumes, resting_pos; [apply Hok|done].
  - rewrite Hown. case_decide as Hr; [|done]. rewrite enqueue_perm. constructor; [|done].
    rewrite Hq in Hr. destruct (decide (o_Type o = Limit)) as [Hl|]; [|lia]. destruct (Hval Hl) as [Hp Hm].
    rewrite Hq. fold opp out.
    assert (Hle : o_Quantity (Spec.taker out) <= o_Quantity o).
    { apply matching_taker_le. eapply Forall_impl; [apply resting_pos; [apply Hok|done]|]. simpl. intros; lia. }
    split; simpl; [done|]. nia.
Qed.

Lemma venue_submit : venue_ok s b' pend a' /\ (solvent a -> backed s o -> solvent a') /\
  (forall k, k.1 <> s -> holds a' !! k = holds a !! k).
Proof.
  destruct venue_outcome as (Ht & Hp & _ & Hr').
  destruct (Complete_spec s (o_SeqID o) (Trades res) (RestingQuantity res) (SelfPrevented res) a
    (vo_wf _ _ _ _ Hok) (vo_live _ _ _ _ Hok)) as (W & V & _ & Hother & _).
  split; [|split; [|exact Hother]].
  - split; [done|exact W|exact V|exact venue_submit_holds|exact venue_submit_valued].
  - intros Hso Hb. destruct venue_settled as (H1 & H2 & _ & Hsolv).
    assert (Hs1 : solvent a1).
    { unfold a1. rewrite Ht. apply Hsolv; try done. unfold opp. by rewrite opposite_involutive. }
    assert (Hs2 : forall ids x, acc_wf x -> holds_live x -> solvent x ->
      solvent (foldl (fun a id => releaseLocked (s, id) a) x ids)).
    { induction ids as [|i ids IH]; intros x Hx Hlx Hsx; simpl; [done|].
      apply IH; [by apply release_spec|by apply release_live|by apply release_solvent]. }
    assert (Hw1 : acc_wf a1 /\ holds_live a1) by (unfold a1; by rewrite Ht).
    destruct Hw1 as [Hw1 Hl1]. unfold a', Complete. fold a1.
    destruct (_ <=? 0); [apply release_solvent|]; try by apply Hs2.
    by destruct (release_all_spec s (SelfPrevented res) a1 Hw1 Hl1) as (? & _).
Qed.
End Submit.

(** A refused order gives its hold back. *)
Lemma venue_release s b o pend a : venue_ok s b (o :: pend) a ->
  NoDup (o_SeqID <$> RestingOrders b ++ o :: pend) ->
  venue_ok s b pend (releaseLocked (s, o_SeqID o) a).
Proof.
  intros Hok Hnd. destruct (release_spec a (s, o_SeqID o) (vo_wf _ _ _ _ Hok)) as (W & _).
  split; [apply Hok|done|apply release_live; apply Hok| |apply Hok].
  eapply holds_are_ext; [|apply release_holds_are; [apply Hok|apply (vo_holds _ _ _ _ Hok)]].
  rewrite <- Permutation_middle, fmap_cons in Hnd. apply NoDup_cons in Hnd as [Hni _].
  intros x. rewrite list_elem_of_filter, !elem_of_app, elem_of_cons. split.
  - intros [Hx [Hl|[-> |Hl]]]; auto. done.
  - intros Hx. split; [|tauto]. intros E. apply Hni. rewrite <- E. apply list_elem_of_fmap_2.
    by rewrite elem_of_app.
Qed.

(** Cancelling removes the order and its hold. *)
Lemma venue_cancel s b b' id by_ pend a : venue_ok s b pend a ->
  Forall (fun o => o_SeqID o <> id) pend ->
  CancelOwned id by_ b = Ok (b', Good tt) -> venue_ok s b' pend (releaseLocked (s, id) a).
Proof.
  intros Hok Hp Hc. pose proof (reach_cancel id by_ b b' _ (vo_book _ _ _ _ Hok) Hc) as Hr'.
  destruct (reachable_inv b (vo_book _ _ _ _ Hok)) as [Hwf _].
  destruct (reachable_inv b' Hr') as [Hwf' _].
  destruct (CancelOwned_correct b id by_ Hwf) as (b1 & r1 & Hc1 & _ & Habs & _).
  rewrite Hc in Hc1. injection Hc1 as <- <-. unfold Spec.cancel in Habs.
  assert (Hrest : RestingOrders b' ≡ₚ filter (fun o => o_SeqID o <> id) (RestingOrders b)).
  { rewrite (RestingOrders_perm b Hwf), (RestingOrders_perm b' Hwf'), filter_app.
    repeat case_match; try done. injection Habs as H1 H2 _ _. by rewrite H1, H2. }
  destruct (release_spec a (s, id) (vo_wf _ _ _ _ Hok)) as (W & _).
  split; [done|done|apply release_live; apply Hok| |].
  - rewrite Hrest. rewrite <- (filter_keep (fun o => o_SeqID o <> id) pend Hp), <- filter_app.
    apply release_holds_are; apply Hok.
  - rewrite Hrest. apply Forall_forall. intros x [_ Hx]%list_elem_of_filter.
    by apply (proj1 (Forall_forall _ _) (vo_valued _ _ _ _ Hok)).
Qed.
