(* ===== verification/BookCount.v ===== *)
(** What a submission does to the number of resting orders, to the numbers of trades,
    and to what every resting order satisfies. *)

From Stdlib Require Import ZArith Lia.
From stdpp Require Import base gmap list strings sorting.
From S2P Require Import Prelude Types Book BookInv BookSpec BookRefine BookProps SeqFacts VenueFacts Venue.

Open Scope Z_scope.

(** A book's trade numbers cannot outgrow its order identifiers: an order that
    arrives adds one to what rests or trades at most. *)
Record counted (b : Book) : Prop := {
  cn_number : 0 <= nextTradeID b;
  cn_bound : nextTradeID b + Z.of_nat (RestingCount b) <= MaxOrderID b
}.

Lemma counted_NewBook : counted NewBook.
Proof. by split. Qed.

Lemma RestingCount_orders b : RestingCount b = length (RestingOrders b).
Proof. unfold RestingCount, RestingOrders. by rewrite length_fmap, length_map_to_list. Qed.

(** Every trade but the last takes a resting order off the list, and so does the
    last unless it uses the incoming order up. *)
Lemma matching_count now s n o q : Forall (fun m => 0 < o_Quantity m) q ->
  let r := Spec.matching now s n o q in
  (length (Spec.trades r) + length (Spec.rest r) +
     (if decide (0 < o_Quantity (Spec.taker r))%Z then 1 else 0) <= length q + 1)%nat.
Proof.
  intros Hq r. assert (Hlen : forall k, (length (not_self o k) <= length k)%nat)
    by (intros k; apply length_filter).
  destruct (matching_consumes now s n o q Hq)
    as [(k1 & k2 & -> & Hr & Hm & _)|(k1 & m & k2 & d & -> & _ & _ & Hr & Ht & Hm & _)];
    fold r in Hr, Hm |- *; apply (f_equal length) in Hm; rewrite ?length_app, !length_fmap in Hm;
    rewrite Hm, Hr, !length_app; specialize (Hlen k1); simpl.
  - case_decide; lia.
  - fold r in Ht. rewrite Ht, decide_False by lia. lia.
Qed.

(** A list whose head is within reach gets no longer, and no room is left for the
    order either. *)
Lemma matching_crosses now s n o m q : Forall (fun m => 0 < o_Quantity m) (m :: q) -> 0 < o_Quantity o ->
  beyond_limit s o (o_Price m) = false ->
  let r := Spec.matching now s n o (m :: q) in
  (length (Spec.rest r) + (if decide (0 < o_Quantity (Spec.taker r))%Z then 1 else 0) <= length (m :: q))%nat.
Proof.
  intros Hq Ho Hb. apply Forall_cons in Hq as [Hm Hq]. cbn [Spec.matching].
  rewrite (proj2 (Z.ltb_lt _ _) Ho), Hb. cbn [negb]. destruct (selfMatch o m).
  - cbn [Spec.rest Spec.taker]. pose proof (matching_count now s n o q Hq) as Hc. cbv zeta in Hc. cbn [length]. lia.
  - destruct (Z.ltb_spec (Z.min (o_Quantity o) (o_Quantity m)) (o_Quantity m)); cbn [Spec.rest Spec.taker].
    + rewrite decide_False by (simpl; lia). simpl. lia.
    + match goal with |- context [Spec.matching now s ?k ?x q] => pose proof (matching_count now s k x q Hq) as Hc end.
      cbv zeta in Hc. cbn [length]. lia.
Qed.

Section Submit.
Context (now : Z -> Z) (o : Order) (b b' : Book) (res : MatchResult).
Context (Hr : reachable b) (Hsub : submittable o b) (Hs : SubmitOrder now o b = Ok (b', Good res)).

Let opp := opposite (o_Side o).
Let out := Spec.matching now opp (nextTradeID b) o (resting opp b).

Lemma count_sides : side_ok (o_Side o) /\ side_ok opp /\ reachable b' /\
  RestingCount b = (length (resting opp b) + length (resting (o_Side o) b))%nat /\
  RestingCount b' = (length (resting opp b') + length (resting (o_Side o) b'))%nat.
Proof.
  pose proof (submit_side now o b b' res Hs) as Hside. pose proof (reach_submit now o b b' _ Hr Hsub Hs) as Hr'.
  split_and!; [done|by apply side_ok_opposite|done|..]; rewrite RestingCount_orders.
  - by rewrite (resting_perm b (o_Side o) Hr Hside), length_app.
  - by rewrite (resting_perm b' (o_Side o) Hr' Hside), length_app.
Qed.

(** The resting orders afterwards number what the list and the order's rest do. *)
Lemma count_after : RestingCount b' =
  (length (Spec.rest out) + length (resting (o_Side o) b) + (if decide (0 < RestingQuantity res)%Z then 1 else 0))%nat /\
  (0 < RestingQuantity res -> 0 < o_Quantity (Spec.taker out)).
Proof.
  destruct count_sides as (_ & _ & _ & _ & ->).
  destruct (submit_outcome now o b b' res Hr Hsub Hs) as (_ & _ & Hq & Hrest & _ & Hown). fold opp out in Hq, Hrest.
  rewrite Hrest, Hown. split.
  - destruct (decide (0 < RestingQuantity res)); [rewrite enqueue_perm; simpl; lia|lia].
  - rewrite Hq. destruct (decide (o_Type o = Limit)); lia.
Qed.

Lemma count_matching : (length (Spec.trades out) + length (Spec.rest out) +
    (if decide (0 < o_Quantity (Spec.taker out))%Z then 1 else 0) <= length (resting opp b) + 1)%nat.
Proof. apply matching_count. apply resting_pos; [done|]. apply count_sides. Qed.

(** While the other side's best order is within reach the depth does not grow. *)
Lemma count_crosses m q : resting opp b = m :: q -> 0 < o_Quantity o -> beyond_limit opp o (o_Price m) = false ->
  (RestingCount b' <= RestingCount b)%nat.
Proof.
  intros Hq Ho Hb. destruct count_sides as (_ & Hopp & _ & -> & _). destruct count_after as [-> Hafter].
  assert (Hpos : Forall (fun m => 0 < o_Quantity m) (m :: q)) by (rewrite <- Hq; by apply resting_pos).
  pose proof (matching_crosses now opp (nextTradeID b) o m q Hpos Ho Hb) as Hc. cbv zeta in Hc. rewrite <- Hq in Hc. fold out in Hc.
  destruct (decide (0 < RestingQuantity res)) as [Hd|Hd]; [rewrite decide_True in Hc by auto; lia|].
  destruct (decide (0 < o_Quantity (Spec.taker out))); lia.
Qed.

(** What holds of every resting order, however little is left of it, stays true. *)
Lemma resting_kept (P : Order -> Prop) : (forall k m, 1 <= k <= o_Quantity m -> P m -> P (set_quantity k m)) ->
  (o_Type o = Limit -> P o) -> Forall P (RestingOrders b) -> Forall P (RestingOrders b').
Proof.
  intros HP Ho Hall. destruct count_sides as (Hside & Hopp & Hr' & _ & _).
  rewrite (resting_perm b (o_Side o) Hr Hside) in Hall. apply Forall_app in Hall as [H1 H2].
  destruct (submit_outcome now o b b' res Hr Hsub Hs) as (_ & _ & Hq & Hrest & _ & Hown). fold opp out in Hq, Hrest.
  rewrite (resting_perm b' (o_Side o) Hr' Hside). apply Forall_app. split.
  - fold opp. rewrite Hrest. pose proof (resting_pos b opp Hr Hopp) as Hpos.
    destruct (matching_consumes now opp (nextTradeID b) o _ Hpos)
      as [(k1 & k2 & E & Hk & _)|(k1 & m & k2 & d & E & _ & Hd & Hk & _)]; fold out in Hk; fold opp in H1; rewrite Hk; rewrite E in H1;
      apply Forall_app in H1 as [_ H1]; [done|].
    apply Forall_cons in H1 as [Hm H1]. constructor; [|done]. apply HP; [lia|done].
  - rewrite Hown. destruct (decide (0 < RestingQuantity res)) as [Hd|Hd]; [|done]. rewrite enqueue_perm. constructor; [|done].
    rewrite Hq in Hd |- *. destruct (decide (o_Type o = Limit)) as [Hl|]; [|lia]. apply HP; [|auto].
    assert (0 < o_Quantity (Spec.taker out)) by lia. split; [lia|].
    assert (Hle : o_Quantity (Spec.taker out) <= o_Quantity o); [|lia].
    apply matching_taker_le. eapply Forall_impl; [apply (resting_pos b opp Hr Hopp)|]. simpl. intros; lia.
Qed.

Context (Hb : counted b) (Hfresh : MaxOrderID b < o_SeqID o <= MaxInt64).

(** Trades are numbered without wrapping. *)
Lemma counted_trades :
  (forall i t, Trades res !! i = Some t -> t_SeqID t = nextTradeID b + Z.of_nat i + 1 /\ 1 <= t_SeqID t <= MaxInt64) /\
  nextTradeID b' = nextTradeID b + Z.of_nat (length (Trades res)).
Proof.
  destruct (submit_outcome now o b b' res Hr Hsub Hs) as (-> & _ & _ & _ & -> & _). fold opp out.
  destruct count_sides as (_ & _ & _ & Hn & _). pose proof count_matching as Hc. destruct Hb as [Hnn Hbd].
  assert (Hroom : nextTradeID b + Z.of_nat (length (Spec.trades out)) <= MaxInt64) by (case_decide; lia). split.
  - intros i t Ht. pose proof (lookup_lt_Some _ _ _ Ht) as Hi.
    rewrite (matching_numbers now opp _ _ _ i t Ht), wrap64_id by (unfold64; lia). lia.
  - unfold out. rewrite matching_next. fold out. destruct (decide (Spec.trades out = [])) as [He|_]; [rewrite He; cbn [length]; lia|]. apply wrap64_id. unfold64. lia.
Qed.

Lemma counted_submit : counted b' /\ MaxOrderID b' = o_SeqID o.
Proof.
  destruct (reachable_inv b Hr) as [Hwf _]. pose proof Hb as [Hnn Hbd].
  assert (Hmax : MaxOrderID b' = o_SeqID o).
  { pose proof (submit_maxOrderID now o b b' _ Hwf Hsub Hs) as Hm. simpl in Hm. unfold MaxOrderID in *. lia. }
  split; [|done]. destruct counted_trades as [_ Hnext]. split; [lia|].
  destruct (submit_outcome now o b b' res Hr Hsub Hs) as (Htr & _). fold opp out in Htr.
  destruct count_after as [-> Hafter]. rewrite Hmax, Hnext, Htr. destruct count_sides as (_ & _ & _ & Hn & _).
  pose proof count_matching as Hc. destruct (decide (0 < RestingQuantity res)) as [Hd|Hd];
    [rewrite decide_True in Hc by auto; lia|case_decide; lia].
Qed.
End Submit.

(** Cancelling takes nothing but the order away. *)
Lemma cancel_kept id by_ b b' r : reachable b -> CancelOwned id by_ b = Ok (b', r) ->
  (forall P, Forall P (RestingOrders b) -> Forall P (RestingOrders b')) /\
  (RestingCount b' <= RestingCount b)%nat /\ nextTradeID b' = nextTradeID b /\ MaxOrderID b' = MaxOrderID b.
Proof.
  intros Hr Hc. destruct r as [u|e]; [|by apply CancelOwned_Fails in Hc as ->].
  pose proof (reach_cancel id by_ b b' _ Hr Hc) as Hr'.
  destruct (reachable_inv b Hr) as [Hwf _]. destruct (reachable_inv b' Hr') as [Hwf' _].
  destruct (CancelOwned_correct b id by_ Hwf) as (b1 & r1 & Hc1 & _ & Habs & _).
  rewrite Hc in Hc1. injection Hc1 as <- <-. unfold Spec.cancel in Habs.
  assert (Hrest : RestingOrders b' ≡ₚ filter (fun o => o_SeqID o <> id) (RestingOrders b) /\
    nextTradeID b' = nextTradeID b /\ MaxOrderID b' = MaxOrderID b).
  { rewrite (RestingOrders_perm b Hwf), (RestingOrders_perm b' Hwf'), filter_app. unfold MaxOrderID.
    repeat case_match; try done. injection Habs as H1 H2 H3 H4. by rewrite H1, H2. }
  destruct Hrest as (Hrest & Hn & Hm). split_and!; try done.
  - intros P HP. rewrite Hrest. rewrite Forall_forall in *. intros x [_ Hx]%list_elem_of_filter. by apply HP.
  - rewrite !RestingCount_orders, Hrest. apply length_filter.
Qed.

(** A valid side and type are all an order needs to be accepted. *)
Lemma submit_accepted now o b : reachable b -> submittable o b -> side_ok (o_Side o) -> o_Type o <> UnknownType ->
  exists b' res, SubmitOrder now o b = Ok (b', Good res).
Proof.
  intros Hr [Hq Hi] Hside Hty. destruct (reachable_inv _ Hr) as [Hwf _].
  destruct (SubmitOrder_correct now o b Hwf Hq Hi) as (b' & r & Hs & _ & Habs & _). exists b'.
  assert (Hgood : exists res, r = Good res); [|by destruct Hgood as [res ->]; exists res].
  apply (f_equal snd) in Habs. cbn [snd] in Habs. rewrite Habs. unfold Spec.submit.
  rewrite decide_False by (intros [E|E]; [destruct Hside as [E'|E']; congruence|done]). case_decide; by eexists.
Qed.
