(* ===== verification/VenueProps.v ===== *)
(** The venue: a sequencer committing into the shared account store.

    The book and the store never disagree: after every commit, whether the log
    took the batch or failed, each symbol's holds are exactly its resting orders',
    and an account whose orders are priced never owes more than it owns. *)

From Stdlib Require Import ZArith Lia.
From stdpp Require Import base gmap list strings sorting.
From S2P Require Import Prelude Types Book BookInv BookSpec BookRefine BookProps.
From S2P Require Import Accounts AccountsInv AccountsSolv AccountsProps WalRecord Sequencer.
From S2P Require Import SeqFacts SeqProps VenueFacts Venue.

Open Scope Z_scope.

(** * Reserving *)

(** The submits of a batch that hold a reservation. *)
Definition accepted (r : request) : bool :=
  bool_decide (r_kind r = reqSubmit) && bool_decide (r_preErr r = None).
Definition pending (batch : list request) : list Order := r_order <$> filter (fun r => accepted r = true) batch.

Lemma pending_cons r batch :
  pending (r :: batch) = (if accepted r then [r_order r] else []) ++ pending batch.
Proof. unfold pending. rewrite filter_cons. by destruct (accepted r). Qed.

Lemma pending_core batch : forall batch', core <$> batch = core <$> batch' ->
  r_preErr <$> batch = r_preErr <$> batch' -> pending batch = pending batch'.
Proof.
  induction batch as [|r batch IH]; intros [|r' batch']; try done.
  intros [= Hk Ho _ _ _ Hb] [= Hp Hb']. rewrite !pending_cons, (IH batch' Hb Hb').
  unfold accepted. by rewrite Hk, Ho, Hp.
Qed.

(** Requests of symbol [s], as they reach the pre-trade check. *)
Definition orderly (s : string) (r : request) : Prop :=
  r_preErr r = None /\
  (r_kind r = reqSubmit -> o_Symbol (r_order r) = s /\ o_Quantity (r_order r) <= MaxInt64 /\
     (o_Type (r_order r) = Limit -> valued (r_order r))).

(** Orders whose reservation will do. *)
Definition sound_order (o : Order) : Prop :=
  0 < o_Quantity o /\ (o_Type o = Limit -> valued o).

Definition priced_request (s : string) (r : request) : Prop :=
  r_kind r = reqSubmit -> priced (r_order r) /\ o_Placer (r_order r) <> ""%string.

Lemma venue_reserve s b pend a o a' : venue_ok s b pend a -> o_Symbol o = s -> o_Quantity o <= MaxInt64 ->
  Reserve o a = (a', Good tt) -> venue_ok s b (pend ++ [o]) a' /\ 0 < o_Quantity o.
Proof.
  intros Hok Hs Hq HR. destruct (Reserve_spec o a (vo_wf _ _ _ _ Hok) Hq) as (W & _ & _ & Hres).
  rewrite HR in W, Hres. simpl in W, Hres. rewrite Hs in Hres. destruct Hres as (Hk & Hpos & Hh).
  split; [|done]. split; [apply Hok|done| | |apply Hok].
  - intros k h. rewrite Hh. intros [[_ <-]|[_ Hx]]%lookup_insert_Some; [unfold order_hold; by case_decide|].
    by eapply (vo_live _ _ _ _ Hok).
  - pose proof (vo_holds _ _ _ _ Hok) as HL. intros id h. rewrite Hh. setoid_rewrite elem_of_app.
    setoid_rewrite elem_of_app. setoid_rewrite list_elem_of_singleton.
    destruct (decide (id = o_SeqID o)) as [->|Hne].
    + rewrite lookup_insert_eq. split; [intros [= <-]; exists o; auto|].
      intros (x & [Hx|[Hx| ->]] & Hid & ->); [| |done];
        rewrite <- Hid in Hk; rewrite (holds_are_lookup s _ a x HL) in Hk; try done;
        rewrite elem_of_app; auto.
    + rewrite lookup_insert_ne by congruence. rewrite (HL id h). setoid_rewrite elem_of_app.
      split; intros (x & Hx & Hid & Hhx); exists x; split_and!; try done; [tauto|].
      destruct Hx as [Hx|[Hx| ->]]; auto. done.
Qed.

Lemma Reserve_other o a k : acc_wf a -> o_Quantity o <= MaxInt64 -> k.1 <> o_Symbol o ->
  holds (Reserve o a).1 !! k = holds a !! k.
Proof.
  intros Hwf Hq Hk. destruct (Reserve_spec o a Hwf Hq) as (_ & _ & _ & Hres).
  destruct (Reserve o a) as [a' [u|e]]; simpl in *; [|by subst]. destruct Hres as (_ & _ & ->).
  rewrite lookup_insert_ne; [done|]. intros <-. done.
Qed.

(** The reserve phase: what it accepts becomes pending. *)
Lemma reserve_batch_venue s b batch : forall pend a, venue_ok s b pend a -> Forall (orderly s) batch ->
  let '(batch', a') := reserve_batch batch a in
  venue_ok s b (pend ++ pending batch') a' /\ Forall sound_order (pending batch') /\
  (forall k, k.1 <> s -> holds a' !! k = holds a !! k) /\
  (solvent a -> Forall (priced_request s) batch -> solvent a') /\
  (Forall (priced_request s) batch -> Forall (fun o => priced o /\ o_Placer o <> ""%string) (pending batch')) /\
  Forall (fun o => o_Symbol o = s) (pending batch').
Proof.
  induction batch as [|r batch IH]; intros pend a Hok Hb; simpl.
  { rewrite app_nil_r. split_and!; try done; constructor. }
  apply Forall_cons in Hb as [[Hpre Hr] Hb]. unfold reserve_one.
  assert (Hskip : forall r', accepted r' = false ->
    let '(batch', a') := (let '(b0, a0) := reserve_batch batch a in (r' :: b0, a0)) in
    venue_ok s b (pend ++ pending batch') a' /\ Forall sound_order (pending batch') /\
    (forall k, k.1 <> s -> holds a' !! k = holds a !! k) /\
    (solvent a -> Forall (priced_request s) (r :: batch) -> solvent a') /\
    (Forall (priced_request s) (r :: batch) ->
       Forall (fun o => priced o /\ o_Placer o <> ""%string) (pending batch')) /\
    Forall (fun o => o_Symbol o = s) (pending batch')).
  { intros r' Hacc. specialize (IH pend a Hok Hb). destruct (reserve_batch batch a) as [b2 a2].
    rewrite pending_cons, Hacc. simpl. destruct IH as (H1 & H2 & H3 & H4 & H5 & H6). split_and!; try done.
    - intros Hso [_ Hp]%Forall_cons. auto.
    - intros [_ Hp]%Forall_cons. auto. }
  destruct (r_kind r) eqn:Hk; try (by apply Hskip; unfold accepted; rewrite Hk).
  destruct (Hr eq_refl) as (Hsy & Hq & Hv). destruct (Reserve (r_order r) a) as [a1 [[]|e]] eqn:HR.
  - destruct (venue_reserve s b pend a (r_order r) a1 Hok Hsy Hq HR) as [Hok1 Hpos].
    specialize (IH _ _ Hok1 Hb). destruct (reserve_batch batch a1) as [b2 a2].
    destruct IH as (H1 & H2 & H3 & H4 & H5 & H6).
    rewrite pending_cons. assert (Hacc : accepted r = true) by (unfold accepted; by rewrite Hk, Hpre).
    rewrite Hacc. simpl. rewrite <- app_assoc in H1. split_and!; try done.
    + by constructor.
    + intros k Hks. rewrite H3 by done. pose proof (Reserve_other (r_order r) a k (vo_wf _ _ _ _ Hok) Hq) as Ho.
      rewrite HR in Ho. apply Ho. congruence.
    + intros Hso [Hp Hps]%Forall_cons. apply H4; [|done].
      pose proof (Reserve_solvent (r_order r) a (vo_wf _ _ _ _ Hok) Hso Hq) as Hs1. rewrite HR in Hs1.
      apply Hs1. by apply Hp.
    + intros [Hp Hps]%Forall_cons. constructor; [by apply Hp|auto].
    + by constructor.
  - assert (Ha : a1 = a).
    { pose proof (Reserve_spec (r_order r) a (vo_wf _ _ _ _ Hok) Hq) as (_ & _ & _ & Hf). by rewrite HR in Hf. }
    subst a1. apply Hskip. unfold accepted, set_preErr. simpl. by rewrite andb_false_r.
Qed.

(** * Applying *)

Definition orders_backed (s : string) (os : list Order) : Prop := Forall (fun o => backed s o) os.

Lemma pending_ids lo batch : ids_above lo batch ->
  NoDup (o_SeqID <$> pending batch) /\ Forall (fun o => lo < o_SeqID o) (pending batch).
Proof.
  revert lo. induction batch as [|r batch IH]; intros lo; simpl; [split; [constructor|done]|].
  rewrite pending_cons. unfold accepted. destruct (r_kind r) eqn:Hk; simpl; [|apply IH..].
  intros (Hid & _ & _ & H). destruct (IH _ H) as [H1 H2].
  assert (H2' : Forall (fun o => lo < o_SeqID o) (pending batch))
    by (eapply Forall_impl; [exact H2|]; simpl; intros; lia).
  destruct (bool_decide _); simpl; [|done]. split; [|by constructor].
  apply NoDup_cons. split; [|done]. intros (o & Ho & Hin)%list_elem_of_fmap.
  rewrite Forall_forall in H2. specialize (H2 o Hin). lia.
Qed.

Section ApplyVenue.
Context (now : Z -> Z) (s : string) (onTrades : bool) (seq : Z) (walErr : option oms_error).

Let apply_one := apply_one now s true onTrades seq walErr.
Let apply_batch := apply_batch now s true onTrades seq walErr.

Lemma venue_nodup b pend lo : reachable b -> MaxOrderID b <= lo ->
  NoDup (o_SeqID <$> pend) -> Forall (fun o => lo < o_SeqID o) pend ->
  NoDup (o_SeqID <$> RestingOrders b ++ pend).
Proof.
  intros Hr Hlo Hnd Hgt. destruct (reachable_inv b Hr) as [Hwf Hb]. rewrite fmap_app. apply NoDup_app.
  split_and!; [rewrite (RestingOrders_perm b Hwf); by apply resting_ids_nodup| |done].
  intros id (x & -> & Hx)%list_elem_of_fmap (o & Ho & Hin)%list_elem_of_fmap.
  rewrite (RestingOrders_perm b Hwf) in Hx. destruct (resting_index b Hwf x Hx) as (y & Hy & _).
  apply Hb in Hy. rewrite Forall_forall in Hgt. specialize (Hgt o Hin). lia.
Qed.

(** One request: what it settles, releases or leaves. *)
Lemma apply_one_venue r rest b a pub b' a' pub' p lo :
  venue_ok s b ((if accepted r then [r_order r] else []) ++ rest) a ->
  MaxOrderID b <= lo -> ids_above lo [r] ->
  NoDup (o_SeqID <$> rest) -> Forall (fun o => top lo r < o_SeqID o) rest ->
  (accepted r = true -> sound_order (r_order r)) ->
  apply_one r (mkApplied b a pub) = Ok (mkApplied b' a' pub', p) ->
  venue_ok s b' rest a' /\
  (solvent a -> (accepted r = true -> backed s (r_order r)) -> solvent a') /\
  (forall k, k.1 <> s -> holds a' !! k = holds a !! k).
Proof.
  intros Hok Hlo Hids Hnd Hgt Hsound Ha. unfold apply_one, Sequencer.apply_one, accepted, top in *.
  pose proof (vo_book _ _ _ _ Hok) as Hr.
  destruct (r_kind r) eqn:Hk; simpl in Hids; rewrite ?Hk in Hids; simpl in *.
  2:{ destruct (r_preErr r) as [e|]; [by injection Ha as <- <- _ _|].
      destruct walErr as [e|]; [injection Ha as <- <- _ _; unfold release; simpl; rewrite Hk; done|].
      destruct (CancelOwned _ _ b) as [[b1 [[]|e]]| |] eqn:Hc; simpl in Ha; try done.
      - injection Ha as <- <- _ _. split_and!.
        + unfold Release. eapply venue_cancel; [exact Hok| |exact Hc].
          eapply Forall_impl; [exact Hgt|]. simpl. intros o Ho E.
          destruct (reachable_inv b Hr) as [Hwf Hb]. unfold CancelOwned in Hc.
          destruct (index b !! r_cancelID r) as [x|] eqn:Hx; [|done]. apply Hb in Hx. lia.
        + intros Hso _. apply release_solvent; [apply Hok|done].
        + intros k Hks. unfold Release. destruct (release_spec a (s, r_cancelID r) (vo_wf _ _ _ _ Hok)) as (_ & -> & _).
          rewrite lookup_delete_ne; [done|]. intros <-. done.
      - injection Ha as <- <- _ _. by apply CancelOwned_Fails in Hc as ->. }
  2:{ destruct (Snapshot b); simpl in Ha; try done. by injection Ha as <- <- _ _. }
  destruct (r_preErr r) as [e|] eqn:Hp; [by injection Ha as <- <- _ _|].
  destruct Hids as (Hid & Hrid & Hq & _).
  rewrite (bool_decide_true (None = None)) in Hok, Hsound |- * by done. simpl in Hok, Hsound.
  destruct (Hsound eq_refl) as [Hpos Hval].
  assert (Hnd' : NoDup (o_SeqID <$> RestingOrders b ++ r_order r :: rest)).
  { apply (venue_nodup b _ lo); try done.
    - rewrite fmap_cons. apply NoDup_cons. split; [|done]. intros (x & Hx & Hin)%list_elem_of_fmap.
      rewrite Forall_forall in Hgt. specialize (Hgt x Hin). lia.
    - constructor; [done|]. eapply Forall_impl; [exact Hgt|]. simpl. intros; lia. }
  assert (Hrel : venue_ok s b rest (release s true r a) /\
    (solvent a -> solvent (release s true r a)) /\
    (forall k, k.1 <> s -> holds (release s true r a) !! k = holds a !! k)).
  { unfold release, Release. rewrite Hk, Hrid. simpl. split_and!.
    - by apply venue_release.
    - intros. apply release_solvent; [apply Hok|done].
    - intros k Hks. destruct (release_spec a (s, o_SeqID (r_order r)) (vo_wf _ _ _ _ Hok)) as (_ & -> & _).
      rewrite lookup_delete_ne; [done|]. intros <-. done. }
  destruct walErr as [e|]; [injection Ha as <- <- _ _; tauto|].
  assert (Hsub : submittable (r_order r) b) by (apply fresh_submittable; [done|lia|done]).
  destruct (SubmitOrder now (r_order r) b) as [[b1 [mr|e]]| |] eqn:Hs; simpl in Ha; try done.
  - injection Ha as <- <- _ _. rewrite Hrid.
    destruct (venue_submit now s (r_order r) b b1 rest a mr Hok Hsub Hnd' Hpos Hval Hs) as (H1 & H2 & H3).
    split_and!; auto.
  - injection Ha as <- <- _ _. apply SubmitOrder_Fails in Hs as ->; [tauto|done..].
Qed.
Lemma apply_batch_venue batch : forall b a pub b' a' pub' ps lo,
  venue_ok s b (pending batch) a -> MaxOrderID b <= lo -> ids_above lo batch ->
  Forall sound_order (pending batch) ->
  apply_batch batch (mkApplied b a pub) = Ok (mkApplied b' a' pub', ps) ->
  venue_ok s b' [] a' /\
  (solvent a -> Forall (backed s) (pending batch) -> solvent a') /\
  (forall k, k.1 <> s -> holds a' !! k = holds a !! k).
Proof.
  unfold apply_batch. induction batch as [|r batch IH]; intros b a pub b' a' pub' ps lo Hok Hlo Hids Hsound;
    cbn [Sequencer.apply_batch].
  { by intros [= <- <- _ _]. }
  assert (Hids' : ids_above lo [r] /\ ids_above (top lo r) batch).
  { simpl in *. unfold top. destruct (r_kind r); tauto. }
  destruct Hids' as [H1 H2]. destruct (pending_ids _ _ H2) as [Hnd Hgt].
  destruct (apply_one_book now 0 s true onTrades seq walErr r b a pub lo (vo_book _ _ _ _ Hok) Hlo H1)
    as (b1 & a1 & pub1 & p1 & He & _ & Hm1 & _).
  rewrite He. simpl. destruct (Sequencer.apply_batch _ _ _ _ _ _ batch _) as [[st2 ps2]| |] eqn:E2; simpl; try done.
  intros [= -> _]. rewrite pending_cons in Hok, Hsound. apply Forall_app in Hsound as [Hs1 Hs2].
  destruct (apply_one_venue r (pending batch) b a pub b1 a1 pub1 p1 lo Hok Hlo H1 Hnd Hgt) as (Hok1 & Hso1 & Ho1).
  { intros Hacc. rewrite Hacc in Hs1. by apply Forall_cons in Hs1 as [? _]. }
  { exact He. }
  destruct (IH b1 a1 pub1 b' a' pub' ps2 (top lo r) Hok1 Hm1 H2 Hs2 E2) as (Hok2 & Hso2 & Ho2).
  split_and!; [done| |].
  - intros Hso Hb. rewrite pending_cons in Hb. apply Forall_app in Hb as [Hb1 Hb2].
    apply Hso2; [|done]. apply Hso1; [done|]. intros Hacc. rewrite Hacc in Hb1. by apply Forall_cons in Hb1 as [? _].
  - intros k Hk. by rewrite Ho2, Ho1.
Qed.
End ApplyVenue.

(** * The properties *)

(** A request as it arrives: unrejected, unnumbered, and, for a LIMIT order, of a
    value that fits in 64 bits. *)
Definition arrives (r : request) : Prop :=
  arriving r /\ (r_kind r = reqSubmit -> o_Type (r_order r) = Limit -> valued (r_order r)).

(** Orders that reserve what they can cost, from named accounts. *)
Definition pays (r : request) : Prop :=
  r_kind r = reqSubmit ->
  priced (r_order r) /\ o_Placer (r_order r) <> ""%string /\ o_Type (r_order r) <> UnknownType.

(** What identifier assignment makes of the batch. *)
Lemma assign_ids_orders (P : Order -> Prop) symbol batch : symbol <> ""%string ->
  (forall o i, P o -> P (set_symbol symbol (set_seqid i o)) /\ P (set_symbol symbol o)) -> forall next,
  Forall (fun r => r_preErr r = None /\ (r_kind r = reqSubmit -> P (r_order r))) batch ->
  Forall (fun r => r_preErr r = None /\
            (r_kind r = reqSubmit -> P (r_order r) /\ o_Symbol (r_order r) = symbol))
    (assign_ids symbol next batch).1.
Proof.
  intros Hsym HP. induction batch as [|r batch IH]; intros next Hb; simpl; [constructor|].
  apply Forall_cons in Hb as [[Hpre Hr] Hb]. unfold assign_id.
  destruct (r_kind r) eqn:Hk.
  - destruct (o_SeqID (r_order r) =? 0); rewrite (bool_decide_true (symbol <> ""%string)) by done;
      match goal with |- context [assign_ids symbol ?n batch] => specialize (IH n Hb); destruct (assign_ids symbol n batch) end;
      simpl in *; constructor; try done; simpl; split; try done; intros _; split; try done; by destruct (HP (r_order r) (add64 next 1) (Hr eq_refl)).
  - specialize (IH next Hb). destruct (assign_ids symbol next batch). simpl in *. constructor; [|done]. by rewrite Hk.
  - specialize (IH next Hb). destruct (assign_ids symbol next batch). simpl in *. constructor; [|done]. by rewrite Hk.
Qed.

Section CommitVenue.
Context {W : Type} `{WalLaws W}.

(** A sequencer with its collaborators attached, in step with the store. *)
Record attached (s : Sequencer W) (a : Accounts) : Prop := {
  at_running : running s;
  at_accounts : sq_accounts s = true;
  at_symbol : sq_symbol s <> ""%string;
  at_venue : venue_ok (sq_symbol s) (sq_book s) [] a
}.

Lemma arrives_orderly s next batch : s <> ""%string -> Forall arrives batch ->
  Forall (orderly s) (assign_ids s next batch).1.
Proof.
  intros Hs Hb. eapply Forall_impl.
  - apply (assign_ids_orders (fun o => o_Quantity o <= MaxInt64 /\ (o_Type o = Limit -> valued o))); [done| |].
    + intros o i Ho. done.
    + eapply Forall_impl; [exact Hb|]. intros r [[Hp Hr] Hv]. split; [done|]. intros Hk. split; [by apply Hr|auto].
  - intros r [Hp Hr]. split; [done|]. intros Hk. destruct (Hr Hk) as [[? ?] ?]. auto.
Qed.

Lemma pays_priced s next batch : s <> ""%string -> Forall arriving batch -> Forall pays batch ->
  Forall (fun r => r_kind r = reqSubmit -> backed s (r_order r)) (assign_ids s next batch).1.
Proof.
  intros Hs Ha Hb. eapply Forall_impl.
  - apply (assign_ids_orders (fun o => priced o /\ o_Placer o <> ""%string /\ o_Type o <> UnknownType)); [done| |].
    + intros o i Ho. done.
    + rewrite Forall_forall in Ha, Hb |- *. intros r Hr. split; [by apply Ha|]. intros Hk. by apply Hb.
  - intros r [Hp Hr] Hk. destruct (Hr Hk) as [(? & ? & ?) ?]. by split.
Qed.

Lemma commit_venue now ts batch s a s' st ps : attached s a -> batch_ok ts batch s -> Forall arrives batch ->
  commit now ts batch s a = Ok (s', st, ps) ->
  attached s' (ap_accounts st) /\ sq_symbol s' = sq_symbol s /\
  (solvent a -> Forall pays batch -> solvent (ap_accounts st)) /\
  (forall k, k.1 <> sq_symbol s -> holds (ap_accounts st) !! k = holds a !! k).
Proof.
  intros [Hrun Hacc Hsym Hven] Hb Harr Hc. pose proof (running_ok s Hrun) as Hok.
  pose proof (commit_spec now ts batch s a Hok Hb) as Hs.
  pose proof (prepared_spec ts s a batch Hok Hb) as Hprep. unfold prepared in Hs, Hprep.
  pose proof (arrives_orderly (sq_symbol s) (sq_nextOrderID s) batch Hsym Harr) as Hord.
  pose proof (pays_priced (sq_symbol s) (sq_nextOrderID s) batch Hsym (ba_arriving _ _ _ Hb)) as Hpay.
  destruct (assign_ids _ _ batch) as [b0 next] eqn:Ea. simpl in Hord, Hpay. rewrite Hacc in Hs, Hprep.
  pose proof (reserve_batch_venue (sq_symbol s) (sq_book s) b0 [] a Hven Hord) as Hres.
  pose proof (reserve_batch_core b0 a) as Hcore0. destruct (reserve_batch b0 a) as [b1 a1] eqn:Er. simpl in Hcore0.
  destruct Hres as (Hv1 & Hsound & Hoth1 & Hsolv1 & _ & _).
  assert (Ep : prepared s a batch = (b1, a1, next)) by (unfold prepared; by rewrite Ea, Hacc, Er).
  pose proof (log_phase_spec ts s a batch b1 a1 next Hok Hb Ep) as Hl. destruct (log_phase ts s b1) as [[[b2 seq] wal] walErr].
  destruct Hl as (Hcore & Hpre & _). destruct Hs as (st1 & ps1 & s1 & Ha & Hc1 & _ & _ & Hbook & _).
  rewrite Hc in Hc1. injection Hc1 as <- <- <-.
  assert (Hpend : pending b1 = pending b2) by (by apply pending_core).
  destruct Hprep as (Hids & _). apply (ids_above_core b1 b2) in Hids; [|done].
  rewrite Hpend in Hv1, Hsound. destruct st as [b' a' pub']. simpl in *.
  destruct (apply_batch_venue now (sq_symbol s) (sq_onTrades s) seq walErr b2 _ _ _ _ _ _ _ _
    Hv1 (so_next s Hok) Hids Hsound Ha) as (Hv2 & Hsolv2 & Hoth2).
  destruct (commit_attached _ _ _ _ _ _ _ _ Hc) as (Hsym' & Hacc' & _). rewrite Hacc in Hacc'. split_and!; [|done| |].
  - split; [by eapply running_commit|done|by rewrite Hsym'|rewrite Hsym', Hbook; exact Hv2].
  - intros Hso Hp. specialize (Hpay Hp).
    assert (Hback : Forall (backed (sq_symbol s)) (pending b2)).
    { rewrite <- Hpend. apply Forall_fmap, Forall_forall. intros r [Hacr Hr]%list_elem_of_filter.
      apply (list_elem_of_fmap_2 core) in Hr. rewrite Hcore0 in Hr.
      apply list_elem_of_fmap in Hr as (r' & Hcr & Hr'). injection Hcr as Hk Ho _ _ _.
      unfold accepted in Hacr. apply andb_prop in Hacr as [Hk' _]. apply bool_decide_eq_true in Hk'.
      simpl. rewrite Ho. rewrite Forall_forall in Hpay. apply Hpay; congruence. }
    apply Hsolv2; [|done]. apply Hsolv1; [done|].
    eapply Forall_impl; [exact Hpay|]. intros r Hr Hk. destruct (Hr Hk). auto.
  - intros k Hk. by rewrite Hoth2, Hoth1.
Qed.

(** The book and the account store agree: after every commit, whether the log
    took the batch or failed, the holds of the sequencer's symbol are exactly one
    per resting order, for that order's remaining quantity and price; nothing is
    leaked by a rejection, a fill, a cancel, self-match prevention or a failed
    log, and no other symbol's holds move. *)
Theorem holds_are_resting_orders now ts batch s a s' st ps :
  attached s a -> batch_ok ts batch s -> Forall arrives batch ->
  commit now ts batch s a = Ok (s', st, ps) ->
  (forall id h, holds (ap_accounts st) !! (sq_symbol s, id) = Some h <->
     exists o, o ∈ RestingOrders (sq_book s') /\ o_SeqID o = id /\ h = order_hold (sq_symbol s) o) /\
  (forall k, k.1 <> sq_symbol s -> holds (ap_accounts st) !! k = holds a !! k) /\
  attached s' (ap_accounts st).
Proof.
  intros Hat Hb Harr Hc. destruct (commit_venue now ts batch s a s' st ps Hat Hb Harr Hc) as (Hat' & Hsym & _ & Hoth).
  split_and!; [|done|done]. pose proof (vo_holds _ _ _ _ (at_venue _ _ Hat')) as HL.
  rewrite app_nil_r, Hsym in HL. exact HL.
Qed.

(** C13: Solvency: from a solvent store, committing any batch of priced orders of
    named accounts (everything but MARKET buys) leaves every account able to pay
    for all its resting orders: what is reserved never exceeds what is owned, and
    nobody's available cash or shares are negative. *)
Theorem commit_keeps_solvent now ts batch s a s' st ps :
  attached s a -> batch_ok ts batch s -> Forall arrives batch -> Forall pays batch -> solvent a ->
  commit now ts batch s a = Ok (s', st, ps) ->
  solvent (ap_accounts st) /\
  (forall ac, 0 <= ReservedCash ac (ap_accounts st) <= Cash ac (ap_accounts st) /\
              0 <= AvailableCash ac (ap_accounts st)) /\
  (forall ac sy, 0 <= ReservedPosition ac sy (ap_accounts st) <= Position ac sy (ap_accounts st) /\
                 0 <= AvailablePosition ac sy (ap_accounts st)).
Proof.
  intros Hat Hb Harr Hp Hso Hc.
  destruct (commit_venue now ts batch s a s' st ps Hat Hb Harr Hc) as (Hat' & _ & Hs & _).
  specialize (Hs Hso Hp). pose proof (vo_wf _ _ _ _ (at_venue _ _ Hat')) as Hwf. split_and!; [done| |].
  - intros ac. destruct (solvent_exact _ Hwf Hs ac) as (_ & -> & ->).
    pose proof (held_cash_nonneg _ Hwf ac). pose proof (so_cash _ Hs ac). lia.
  - intros ac sy. destruct (solvent_exact_shares _ Hwf Hs ac sy) as (_ & -> & ->).
    pose proof (held_shares_nonneg _ Hwf ac sy). pose proof (so_shares _ Hs ac sy). lia.
Qed.
End CommitVenue.

Module VenueDemo.
Import SeqDemo.

Definition store : Accounts := SetPosition "bob" "NABIL" 10 (Deposit "ann" 1000 NewAccounts).
Definition opened : Sequencer MemLog :=
  attach "NABIL" true true (NewSequencerWithWAL NewBook (Some (mkLog [] [] 0 9))).

Lemma opened_attached : attached opened store.
Proof.
  split; [|done|done|].
  - by apply (running_start id); try done; try apply reach_new.
  - split; [apply reach_new| | | |constructor].
    + by destruct NewAccounts_wf; split.
    + intros k h Hk. simpl in Hk. by rewrite lookup_empty in Hk.
    + intros id h. simpl. rewrite lookup_empty. split; [done|]. intros (o & Ho & _). by apply elem_of_nil in Ho.
Qed.

Lemma batch_arrives : Forall arrives batch /\ Forall pays batch.
Proof.
  split; repeat constructor; simpl; unfold MaxInt64; intros; try done; try lia; by right.
Qed.

Lemma store_solvent : solvent store.
Proof.
  split.
  - intros ac. unfold held_cash. simpl. rewrite map_sum_empty. unfold Cash, store. simpl.
    rewrite zlookup_zadd. case_decide; [by vm_compute|]. unfold zlookup. by rewrite lookup_empty.
  - intros ac sy. unfold held_shares. simpl. rewrite map_sum_empty. unfold store.
    unfold SetPosition. rewrite setPosition_read. case_decide; [lia|]. by vm_compute.
  - by vm_compute.
  - intros sy. unfold total_position, store. simpl. rewrite map_sum_insert_new by done. rewrite map_sum_empty.
    rewrite zlookup_insert. case_decide; by vm_compute.
Qed.

Lemma batch_ok_opened : batch_ok 7 batch opened.
Proof. by destruct (batch_ok_start 9); split. Qed.

Definition outcome := commit id 7 batch opened store.

Lemma outcome_ok : outcome = Ok (state_of outcome, applied_of outcome, replies_of outcome).
Proof.
  apply commit_result; [apply running_ok, (at_running _ _ opened_attached)|exact batch_ok_opened].
Qed.
End VenueDemo.

Lemma holds_are_resting_orders_witness :
  attached (SeqDemo.state_of VenueDemo.outcome) (ap_accounts (SeqDemo.applied_of VenueDemo.outcome)).
Proof.
  exact (proj2 (proj2 (holds_are_resting_orders id 7 SeqDemo.batch VenueDemo.opened VenueDemo.store _ _ _
    VenueDemo.opened_attached VenueDemo.batch_ok_opened (proj1 VenueDemo.batch_arrives) VenueDemo.outcome_ok))).
Defined.

Lemma commit_keeps_solvent_witness : solvent (ap_accounts (SeqDemo.applied_of VenueDemo.outcome)).
Proof.
  exact (proj1 (commit_keeps_solvent id 7 SeqDemo.batch VenueDemo.opened VenueDemo.store _ _ _
    VenueDemo.opened_attached VenueDemo.batch_ok_opened (proj1 VenueDemo.batch_arrives)
    (proj2 VenueDemo.batch_arrives) VenueDemo.store_solvent VenueDemo.outcome_ok)).
Defined.
