(* ===== verification/SeqRun.v ===== *)
(** The sequencer's goroutine, [run] of [src/internal/oms/sequencer.go]: as long as
    it is not told to stop, it takes what is queued, up to [maxBatch] requests, and
    commits it.

    A turn is what its [select] does with a request ready: [arrivals] is what callers
    had sent by then, and the turn's clock stamps the batch. A turn with nothing
    queued waits. The channel keeps order, so it is a list. *)

From Stdlib Require Import ZArith Lia.
From stdpp Require Import base gmap list strings sorting.
From S2P Require Import Prelude Types Book BookInv BookSpec BookRefine BookProps.
From S2P Require Import Accounts AccountsInv AccountsSolv WalRecord Sequencer SeqFacts SeqProps VenueFacts Venue VenueProps.

Open Scope Z_scope.

Section Run.
Context {W : Type} `{!WalOps W}.
Context (now : Z -> Z).

(** The goroutine's state between two turns; [lp_served] is each batch with its replies. *)
Record loop := mkLoop {
  lp_queue : list request;
  lp_seq : Sequencer W;
  lp_accounts : Accounts;
  lp_served : list (list request * list reply)
}.

Definition turn (arrivals : list request) (ts : Z) (l : loop) : outcome loop :=
  match lp_queue l ++ arrivals with
  | [] => Ok (mkLoop [] (lp_seq l) (lp_accounts l) (lp_served l))
  | first :: queued =>
      let '(batch, queue) := drain first queued in
      '(s, st, ps) ← commit now ts batch (lp_seq l) (lp_accounts l);
      Ok (mkLoop queue s (ap_accounts st) (lp_served l ++ [(batch, ps)]))
  end.

Fixpoint run (turns : list (list request * Z)) (l : loop) : outcome loop :=
  match turns with
  | [] => Ok l
  | (arrivals, ts) :: turns => l ← turn arrivals ts l; run turns l
  end.
End Run.
Arguments loop : clear implicits.

(** * The property *)

Section RunProps.
Context {W : Type} `{!WalOps W} `{!WalLaws W}.
Context (now : Z -> Z).

(** Identifiers and positions advance by no more than the batch. *)
Lemma commit_advances ts batch (s : Sequencer W) a s' st ps : seq_ok s -> batch_ok ts batch s ->
  commit now ts batch s a = Ok (s', st, ps) ->
  sq_nextOrderID s' <= sq_nextOrderID s + Z.of_nat (length batch) /\
  sq_seq s' <= sq_seq s + Z.of_nat (length batch).
Proof.
  intros Hok Hb Hc. pose proof (commit_spec now ts batch s a Hok Hb) as Hs.
  pose proof (prepared_spec ts s a batch Hok Hb) as Hp.
  destruct (prepared s a batch) as [[b1 a1] next] eqn:Ep. destruct Hp as (_ & Hlen & Hnext & _).
  pose proof (log_phase_spec ts s a batch b1 a1 next Hok Hb Ep) as Hl.
  destruct (log_phase ts s b1) as [[[b2 seq] wal] we] eqn:El.
  destruct Hs as (st1 & ps1 & s1 & _ & Hc1 & _ & _ & _ & Hseq & _ & _ & Hnx & _).
  rewrite Hc in Hc1. injection Hc1 as <- <- <-. destruct Hl as (Hcore & _ & Hfail & Hl & _).
  pose proof (ba_seqs _ _ _ Hb) as Hmax. split; [lia|].
  rewrite Hseq. destruct we as [e|]; [rewrite Hfail by done; lia|].
    destruct wal as [w'|]; [|unfold log_phase in El; rewrite Hl in El; injection El as _ <- _; lia].
    destruct Hl as (w & Hw & _ & Hn). destruct (Hn eq_refl) as (_ & _ & Hi & _ & _ & _ & _ & He).
    pose proof (so_wal s Hok) as Hwo. unfold wal_ok in Hwo. rewrite Hw in Hwo. destruct Hwo as (lg & _ & _ & Hall).
    assert (Hr : (length (records ts b2) <= length batch)%nat).
    { unfold records. rewrite length_fmap. rewrite <- Hlen, <- (length_fmap core b1), <- Hcore, length_fmap. apply length_filter. }
    assert (Hlo : MinInt64 <= sq_seq s).
    { destruct (sq_walErr s) eqn:Ee; [|by apply Hall]. unfold log_phase in El. rewrite Hw, Ee in El. by injection El. }
    assert (E : seq = sq_seq s + Z.of_nat (length (records ts b2))) by (apply eq64_inj; [done|unfold64; lia|done]). lia.
Qed.

(** Requests the loop can take, under the clock readings of the turns left. *)
Record ready (turns : list (list request * Z)) (l : loop W) : Prop := {
  rd_attached : attached (lp_seq l) (lp_accounts l);
  rd_arrives : Forall arrives (lp_queue l ++ concat turns.*1);
  rd_carried : forall ts, ts ∈ turns.*2 -> Forall (carriable ts (sq_symbol (lp_seq l))) (lp_queue l ++ concat turns.*1);
  rd_ids : sq_nextOrderID (lp_seq l) + Z.of_nat (length (lp_queue l ++ concat turns.*1)) <= MaxInt64;
  rd_seqs : sq_seq (lp_seq l) + Z.of_nat (length (lp_queue l ++ concat turns.*1)) <= MaxInt64
}.

(** What is served is a prefix of what was sent, batch by batch. *)
Definition served_ok (served : list (list request * list reply)) : Prop :=
  Forall (fun bp => (1 <= length bp.1 <= maxBatch)%nat /\ length bp.2 = length bp.1) served.

Lemma turn_ready arrivals ts turns (l : loop W) : ready ((arrivals, ts) :: turns) l ->
  exists l', turn now arrivals ts l = Ok l' /\ ready turns l' /\
    exists new, lp_served l' = lp_served l ++ new /\ served_ok new /\
      concat new.*1 ++ lp_queue l' = lp_queue l ++ arrivals /\
      (lp_queue l' = [] \/ length new = 1%nat).
Proof.
  intros [Hat Harr Hcar Hids Hseqs]. rewrite fmap_cons in Harr, Hids, Hseqs. cbn [fst concat] in *.
  assert (Hcar' : forall ts', ts' ∈ ts :: turns.*2 -> Forall (carriable ts' (sq_symbol (lp_seq l))) ((lp_queue l ++ arrivals) ++ concat turns.*1))
    by (intros ts' Hts; rewrite <- app_assoc; by apply Hcar).
  clear Hcar. rewrite !app_assoc in Harr, Hids, Hseqs. unfold turn. destruct (lp_queue l ++ arrivals) as [|first queued] eqn:Eq.
  - eexists. split; [reflexivity|]. split.
    + split; cbn [lp_queue lp_seq lp_accounts app] in *; try done. intros ts' Hts. apply Hcar'. by right.
    + exists []. cbn [lp_served lp_queue]. rewrite app_nil_r. split_and!; try done; [by constructor|by left].
  - set (batch := first :: take (maxBatch - 1) queued). set (rest := drop (maxBatch - 1) queued).
    assert (Hsplit : batch ++ rest = first :: queued) by (unfold batch, rest; cbn [app]; by rewrite take_drop).
    rewrite <- Hsplit in Harr, Hids, Hseqs, Hcar'. rewrite <- !app_assoc in Harr, Hids, Hseqs.
    apply Forall_app in Harr as [Harr1 Harr2]. rewrite length_app in Hids, Hseqs.
    assert (Hb : batch_ok ts batch (lp_seq l)).
    { split; [eapply Forall_impl; [exact Harr1|]; by intros r [Hr _]|lia|lia|].
      by apply (proj1 (proj1 (Forall_app _ _ _) (proj1 (proj1 (Forall_app _ _ _) (Hcar' ts (list_elem_of_here _ _)))))). }
    pose proof (running_ok _ (at_running _ _ Hat)) as Hok.
    pose proof (commit_spec now ts batch (lp_seq l) (lp_accounts l) Hok Hb) as Hs.
    destruct (prepared _ _ _) as [[b1 a1] next]. destruct (log_phase _ _ _) as [[[b2 seq] wal] we].
    destruct Hs as (st & ps & s' & _ & Hc & _ & Hlen & _).
    destruct (commit_venue now ts batch _ _ s' st ps Hat Hb Harr1 Hc) as (Hat' & Hsy & _).
    destruct (commit_advances ts batch _ _ s' st ps Hok Hb Hc) as (Hn & Hq).
    unfold drain. fold batch rest. rewrite Hc. cbn [mbind outcome_bind]. eexists. split; [reflexivity|]. split.
    + split; cbn [lp_queue lp_seq lp_accounts]; [done|done| |lia|lia].
      intros ts' Hts. rewrite Hsy. specialize (Hcar' ts' (list_elem_of_further _ _ _ Hts)).
      rewrite <- app_assoc in Hcar'. by apply Forall_app in Hcar' as [_ ?].
    + exists [(batch, ps)]. cbn [lp_served lp_queue]. split_and!; [done| |cbn [fmap list_fmap fst concat]; rewrite app_nil_r; exact Hsplit|by right].
      apply Forall_singleton. split; [|exact Hlen]. simpl. unfold batch. cbn [length]. rewrite length_take. unfold maxBatch. lia.
Qed.

Lemma run_ready turns : forall l : loop W, ready turns l ->
  exists l', run now turns l = Ok l' /\ attached (lp_seq l') (lp_accounts l') /\
    exists new, lp_served l' = lp_served l ++ new /\ served_ok new /\
      concat new.*1 ++ lp_queue l' = lp_queue l ++ concat turns.*1 /\
      (concat turns.*1 = [] -> (length (lp_queue l) <= length turns)%nat -> lp_queue l' = []).
Proof.
  induction turns as [|[arrivals ts] turns IH]; intros l Hr; cbn [run].
  { exists l. split_and!; [done|apply Hr|]. exists []. rewrite !app_nil_r. split_and!; try done; [constructor|].
    intros _ Hq. by apply length_zero_iff_nil, Nat.le_0_r. }
  destruct (turn_ready arrivals ts turns l Hr) as (l1 & -> & Hr1 & new1 & Hs1 & Hok1 & Hq1 & He1).
  cbn [mbind outcome_bind]. destruct (IH l1 Hr1) as (l2 & Hrun & Hat & new2 & Hs2 & Hok2 & Hq2 & He2).
  exists l2. split_and!; [done|done|]. exists (new1 ++ new2). rewrite fmap_cons. cbn [fst concat].
  rewrite fmap_app, concat_app. split_and!.
  - by rewrite Hs2, Hs1, app_assoc.
  - by apply Forall_app.
  - by rewrite <- app_assoc, Hq2, app_assoc, Hq1, app_assoc.
  - intros [Ha Hno]%app_nil Hle. cbn [length] in Hle. apply He2; [done|].
    apply (f_equal length) in Hq1. rewrite Ha, app_nil_r, length_app in Hq1. destruct He1 as [->|He1]; [simpl; lia|].
    destruct new1 as [|[b p] [|]]; try done. apply Forall_singleton in Hok1 as [[Hb _] _]. cbn [fst fmap list_fmap concat] in *.
    rewrite app_nil_r in Hq1. lia.
Qed.

(** The sequencer serves everyone, once and in order. While it runs, whatever is
    sent and whenever, each batch it commits is 1 to [maxBatch] requests with one
    reply each; the batches one after the other, and then what is still queued, are
    exactly what was queued and sent, in that order; no commit panics and the symbol
    stays in its invariant. When nothing more is sent, it empties the queue in at
    most as many turns as there are requests. *)
Theorem run_serves_in_order turns (l : loop W) : ready turns l ->
  exists l', run now turns l = Ok l' /\ attached (lp_seq l') (lp_accounts l') /\
    exists new, lp_served l' = lp_served l ++ new /\ served_ok new /\
      concat new.*1 ++ lp_queue l' = lp_queue l ++ concat turns.*1 /\
      (concat turns.*1 = [] -> (length (lp_queue l) <= length turns)%nat -> lp_queue l' = []).
Proof. apply run_ready. Qed.
End RunProps.

Module RunDemo.
Import SeqDemo.
Definition l0 : loop MemLog := mkLoop [] VenueDemo.opened VenueDemo.store [].
Definition turns : list (list request * Z) := [(SeqDemo.batch, 7)].

Lemma l0_ready : ready turns l0.
Proof.
  destruct VenueDemo.batch_ok_opened as [H1 H2 H3 H4]. split.
  - apply VenueDemo.opened_attached.
  - apply VenueDemo.batch_arrives.
  - intros ts Hts. apply list_elem_of_singleton in Hts as ->. exact H4.
  - exact H2.
  - exact H3.
Qed.
End RunDemo.

Lemma run_serves_in_order_witness : exists l', run id RunDemo.turns RunDemo.l0 = Ok l' /\
  length (concat (lp_served l').*1) = 4%nat.
Proof.
  destruct (run_serves_in_order id RunDemo.turns RunDemo.l0 RunDemo.l0_ready) as (l' & Hr & _ & new & Hs & _ & Hq & _).
  exists l'. split; [exact Hr|].
  assert (E : match run id RunDemo.turns RunDemo.l0 with Ok l => Some (length (concat (lp_served l).*1)) | _ => None end = Some 4%nat)
    by (vm_compute; reflexivity).
  rewrite Hr in E. injection E as E. exact E.
Defined.
