(* ===== verification/MutexBook.v ===== *)
(** The interface [OrderBook] of [src/internal/oms/types.go] and its two
    implementations: [Book], and the [MutexBook] of [src/internal/oms/book_mutex.go].

    A [MutexBook]'s method locks, calls the book's and unlocks when it returns.
    [step] interleaves these three parts for any number of callers; the theorem is
    that callers only ever see the book's methods one at a time, which is also why
    this library takes a method under a mutex as one step elsewhere. *)

From Stdlib Require Import ZArith Lia.
From stdpp Require Import base gmap list strings.
From S2P Require Import Prelude Types Book BookInv BookSpec BookRefine BookProps Sequencer SeqFacts.

Open Scope Z_scope.

(** * The interface *)

(** [OrderBook]: each method is a function of the book to the book and the result. *)
Class OrderBook (B : Type) := {
  ob_Submit : (Z -> Z) -> Order -> B -> outcome (B * result oms_error (list Trade));
  ob_Cancel : Z -> B -> outcome (B * result oms_error unit);
  ob_Snapshot : B -> outcome (B * BookState)
}.

#[global] Instance Book_OrderBook : OrderBook Book := {
  ob_Submit := Submit;
  ob_Cancel := Cancel;
  ob_Snapshot b := s ← Snapshot b; Ok (b, s)
}.

(** What it promises, against the abstract book. *)
Class OrderBookLaws (B : Type) `{!OrderBook B} := {
  ob_valid : B -> Prop;
  ob_view : B -> Spec.book;
  ob_takes : Order -> B -> Prop;
  ob_Submit_spec now o b : ob_valid b -> ob_takes o b ->
    exists b' r, ob_Submit now o b = Ok (b', r) /\ ob_valid b' /\ ob_view b' = (Spec.submit now o (ob_view b)).1 /\
      match r, (Spec.submit now o (ob_view b)).2 with
      | Good trades, Good res => trades = Trades res
      | Fails e, Fails e' => e = e'
      | _, _ => False
      end;
  ob_Cancel_spec orderID b : ob_valid b ->
    exists b' r, ob_Cancel orderID b = Ok (b', r) /\ ob_valid b' /\ (ob_view b', r) = Spec.cancel orderID "" (ob_view b);
  ob_Snapshot_spec b : ob_valid b -> exists s, ob_Snapshot b = Ok (b, s)
}.

#[global, refine] Instance Book_OrderBookLaws : OrderBookLaws Book := {
  ob_valid := reachable;
  ob_view := abs;
  ob_takes := submittable
}.
Proof.
  - intros now o b Hr Hsub. destruct (reachable_inv b Hr) as [Hwf _]. pose proof Hsub as [Hq Hi].
    destruct (SubmitOrder_correct now o b Hwf Hq Hi) as (b' & r & Hs & _ & Habs & _).
    exists b', (match r with Good res => Good (Trades res) | Fails e => Fails e end).
    rewrite <- Habs. cbn [ob_Submit Book_OrderBook fst snd]. unfold Submit. rewrite Hs. cbn [mbind outcome_bind].
    split_and!; [done|by eapply reach_submit|done|by destruct r].
  - intros orderID b Hr. destruct (reachable_inv b Hr) as [Hwf _].
    destruct (CancelOwned_correct b orderID "" Hwf) as (b' & r & Hs & _ & Habs & _).
    exists b', r. split_and!; [done|by eapply reach_cancel|done].
  - intros b Hr. destruct (Snapshot_total b Hr) as [s Hs]. exists s. cbn [ob_Snapshot Book_OrderBook]. by rewrite Hs.
Defined.

(** * A mutex around an object *)

Module Mutex.
Section Mutex.
Context {S Call Answer : Type} (run : Call -> S -> outcome (S * Answer)).

Record guarded := mkGuarded { mu : bool; object : S }.

(** A caller: before [Lock], between [Lock] and the method's return, between that
    and the deferred [Unlock], and back. *)
Inductive caller :=
| Calling (c : Call)
| Locked (c : Call)
| Unlocking (a : Answer)
| Returned (a : Answer).

Definition inside (t : caller) : bool := match t with Locked _ | Unlocking _ => true | _ => false end.
Definition is_back (t : caller) : bool := match t with Returned _ => true | _ => false end.

(** One part of one caller's method; the list says which method ran, for whom, and
    what it answered. *)
Inductive step : guarded -> list caller -> list (nat * Call * Answer) -> guarded -> list caller -> Prop :=
| step_lock s ts i c : ts !! i = Some (Calling c) ->
    step (mkGuarded false s) ts [] (mkGuarded true s) (<[i := Locked c]> ts)
| step_run m s s' ts i c a : ts !! i = Some (Locked c) -> run c s = Ok (s', a) ->
    step (mkGuarded m s) ts [(i, c, a)] (mkGuarded m s') (<[i := Unlocking a]> ts)
| step_unlock m s ts i a : ts !! i = Some (Unlocking a) ->
    step (mkGuarded m s) ts [] (mkGuarded false s) (<[i := Returned a]> ts).

Inductive steps (g : guarded) (ts : list caller) : list (nat * Call * Answer) -> guarded -> list caller -> Prop :=
| steps_nil : steps g ts [] g ts
| steps_snoc h x g1 ts1 g2 ts2 : steps g ts h g1 ts1 -> step g1 ts1 x g2 ts2 -> steps g ts (h ++ x) g2 ts2.

(** The methods one after the other. *)
Fixpoint in_turn (h : list (nat * Call * Answer)) (s : S) : outcome (S * list Answer) :=
  match h with
  | [] => Ok (s, [])
  | (_, c, _) :: h => '(s, a) ← run c s; '(s, rs) ← in_turn h s; Ok (s, a :: rs)
  end.

Lemma in_turn_snoc h i c a s s1 s2 rs : in_turn h s = Ok (s1, rs) -> run c s1 = Ok (s2, a) ->
  in_turn (h ++ [(i, c, a)]) s = Ok (s2, rs ++ [a]).
Proof.
  revert s rs. induction h as [|[[j d] b] h IH]; intros s rs; simpl; [intros [= <- <-] ->; done|].
  destruct (run d s) as [[s0 a0]| |]; cbn [mbind outcome_bind]; try done.
  destruct (in_turn h s0) as [[s3 rs3]| |] eqn:E; cbn [mbind outcome_bind]; try done. intros [= -> <-] Hr.
  by rewrite (IH s0 rs3 E Hr).
Qed.

(** The caller of call [c] is at its stage, given what ran. *)
Definition tracked (h : list (nat * Call * Answer)) (i : nat) (c : Call) (t : caller) : Prop :=
  match t with
  | Calling c' | Locked c' => c' = c /\ forall x, x ∈ h -> x.1.1 <> i
  | Unlocking a | Returned a => (i, c, a) ∈ h
  end.

Record guarded_ok (cs : list Call) (s0 : S) (h : list (nat * Call * Answer)) (g : guarded) (ts : list caller) : Prop := {
  gu_turns : in_turn h s0 = Ok (object g, snd <$> h);
  gu_callers : length ts = length cs /\ forall i c t, cs !! i = Some c -> ts !! i = Some t -> tracked h i c t;
  gu_once : NoDup ((fun x => x.1.1) <$> h);
  gu_mutex : if mu g then exists i t, ts !! i = Some t /\ inside t = true /\
                 forall j u, ts !! j = Some u -> inside u = true -> j = i
             else forall j u, ts !! j = Some u -> inside u = false
}.

Lemma tracked_other h i j c t x : j <> i -> x.1.1 = i -> tracked h j c t -> tracked (h ++ [x]) j c t.
Proof.
  intros Hne Hx. unfold tracked. destruct t as [c'|c'|a|a]; try (rewrite elem_of_app; tauto).
  all: intros [-> H]; split; [done|]; intros y [Hy| ->%list_elem_of_singleton]%elem_of_app; [by apply H|congruence].
Qed.

(** Replacing a caller that is alone inside, or lets itself in when nobody is. *)
Lemma alone_insert (ts : list caller) i t : (i < length ts)%nat ->
  (forall j u, ts !! j = Some u -> inside u = true -> j = i) ->
  forall j u, <[i := t]> ts !! j = Some u -> inside u = true -> j = i /\ u = t.
Proof.
  intros Hi Hal j u Hj Hu. destruct (decide (j = i)) as [->|Hne].
  - rewrite list_lookup_insert_eq in Hj by done. by injection Hj as <-.
  - rewrite list_lookup_insert_ne in Hj by done. destruct Hne. by eapply Hal.
Qed.

Lemma guarded_step cs s0 h g ts x g' ts' : guarded_ok cs s0 h g ts -> step g ts x g' ts' -> guarded_ok cs s0 (h ++ x) g' ts'.
Proof.
  intros [Ht [Hl Hc] Ho Hm] Hs.
  assert (Hcall : forall i t, ts !! i = Some t -> exists c, cs !! i = Some c).
  { intros i t Hi. apply lookup_lt_Some in Hi. rewrite Hl in Hi. by apply lookup_lt_is_Some_2 in Hi. }
  destruct Hs as [s ts i c Hi|m s s' ts i c a Hi Hr|m s ts i a Hi]; cbn [mu object] in *; pose proof (lookup_lt_Some _ _ _ Hi) as Hlt.
  - rewrite app_nil_r. split; cbn [mu object]; try done.
    + rewrite length_insert. split; [done|]. intros j d t Hd Hj. destruct (decide (j = i)) as [->|Hne].
      * rewrite list_lookup_insert_eq in Hj by done. injection Hj as <-. exact (Hc i d _ Hd Hi).
      * rewrite list_lookup_insert_ne in Hj by done. by eapply Hc.
    + exists i, (Locked c). split_and!; [by apply list_lookup_insert_eq|done|]. intros j u Hj Hu.
      eapply (alone_insert ts i (Locked c)); [done| |exact Hj|exact Hu]. intros k v Hk Hv. rewrite (Hm k v Hk) in Hv. done.
  - destruct (Hcall i _ Hi) as [d Hd]. pose proof (Hc i d _ Hd Hi) as [-> Hfresh].
    split; cbn [mu object].
    + rewrite fmap_app. by eapply in_turn_snoc.
    + rewrite length_insert. split; [done|]. intros j e t He Hj. destruct (decide (j = i)) as [->|Hne].
      * rewrite list_lookup_insert_eq in Hj by done. injection Hj as <-. rewrite Hd in He. injection He as <-.
        unfold tracked. rewrite elem_of_app. right. by apply list_elem_of_singleton.
      * rewrite list_lookup_insert_ne in Hj by done. apply (tracked_other h i); [done|done|]. by eapply Hc.
    + rewrite fmap_app. apply NoDup_app. split_and!; [done| |apply NoDup_singleton].
      intros k (y & -> & Hy)%list_elem_of_fmap Hk. apply list_elem_of_singleton in Hk. by apply (Hfresh y).
    + assert (Hin : exists i0 t, ts !! i0 = Some t /\ inside t = true /\ forall j u, ts !! j = Some u -> inside u = true -> j = i0).
      { destruct m; [done|]. specialize (Hm i _ Hi); done. }
      assert (m = true) as -> by (destruct m; [done|]; specialize (Hm i _ Hi); done).
      destruct Hin as (i0 & t & _ & _ & Hal). assert (i = i0) as <- by (by eapply Hal).
      exists i, (Unlocking a). split_and!; [by apply list_lookup_insert_eq|done|]. intros j u Hj Hu. by eapply alone_insert.
  - rewrite app_nil_r. assert (m = true) as -> by (destruct m; [done|]; specialize (Hm i _ Hi); done).
    destruct Hm as (i0 & t & _ & _ & Hal). assert (i = i0) as <- by (by eapply Hal).
    split; cbn [mu object]; try done.
    + rewrite length_insert. split; [done|]. intros j d u Hd Hj. destruct (decide (j = i)) as [->|Hne].
      * rewrite list_lookup_insert_eq in Hj by done. injection Hj as <-. exact (Hc i d _ Hd Hi).
      * rewrite list_lookup_insert_ne in Hj by done. by eapply Hc.
    + intros j u Hj. destruct (inside u) eqn:Hu; [|done].
      destruct (alone_insert ts i (Returned a) Hlt Hal j u Hj Hu) as [_ ->]. done.
Qed.

Lemma steps_ok cs s0 h g ts : steps (mkGuarded false s0) (Calling <$> cs) h g ts -> guarded_ok cs s0 h g ts.
Proof.
  induction 1 as [|h x g1 ts1 g2 ts2 _ IH Hs]; [|by eapply guarded_step].
  split; [done| |constructor|].
  - rewrite length_fmap. split; [done|]. intros i c t Hi Ht. rewrite list_lookup_fmap, Hi in Ht. injection Ht as <-.
    split; [done|]. intros x Hx. by apply elem_of_nil in Hx.
  - intros j u Hj. rewrite list_lookup_fmap in Hj. destruct (cs !! j); [|done]. by injection Hj as <-.
Qed.

(** Somebody can always go on, as long as the methods return. *)
Lemma step_exists cs s0 h g ts : guarded_ok cs s0 h g ts ->
  (forall i c, ts !! i = Some (Locked c) -> exists s' a, run c (object g) = Ok (s', a)) ->
  (forall i t, ts !! i = Some t -> exists a, t = Returned a) \/ exists x g' ts', step g ts x g' ts'.
Proof.
  intros [_ _ _ Hm] Hrun. destruct g as [m s]. cbn [mu object] in *. destruct m.
  - right. destruct Hm as (i & t & Hi & Hin & _). destruct t as [c|c|a|a]; try done.
    + destruct (Hrun i c Hi) as (s' & a & Hr). eexists _, _, _. by eapply step_run.
    + eexists _, _, _. by eapply step_unlock.
  - destruct (decide (Forall (fun t => is_back t = true) ts)) as [Hall|Hn].
    + left. intros i t Hi. rewrite Forall_lookup in Hall. specialize (Hall i t Hi). destruct t as [| | |a]; try done. by exists a.
    + right. apply not_Forall_Exists in Hn; [|apply _]. apply Exists_exists in Hn as (t & Ht & Hnr).
      apply list_elem_of_lookup in Ht as [i Hi]. destruct t as [c|c|a|a]; [|by specialize (Hm i _ Hi)..|by destruct Hnr].
      eexists _, _, _. by eapply step_lock.
Qed.
End Mutex.
Arguments mkGuarded {S} _ _.
Arguments mu {S} _.
Arguments object {S} _.
Arguments Calling {Call Answer} _.
Arguments Locked {Call Answer} _.
Arguments Unlocking {Call Answer} _.
Arguments Returned {Call Answer} _.
End Mutex.

(** * [MutexBook] *)

Definition MutexBook : Type := @Mutex.guarded Book.Book.
Definition NewMutexBook : MutexBook := Mutex.mkGuarded false NewBook.

(** Its methods' bodies, and what they return. *)
Inductive book_call :=
| CallSubmit (now : Z -> Z) (o : Order)
| CallCancel (orderID : Z)
| CallSnapshot
| CallRestingCount.
Inductive book_answer :=
| Submitted (r : result oms_error (list Trade))
| Cancelled (r : result oms_error unit)
| Shown (s : BookState)
| Counted (n : nat).

Definition run_call (c : book_call) (b : Book.Book) : outcome (Book.Book * book_answer) :=
  match c with
  | CallSubmit now o => '(b, r) ← Submit now o b; Ok (b, Submitted r)
  | CallCancel orderID => '(b, r) ← Cancel orderID b; Ok (b, Cancelled r)
  | CallSnapshot => s ← Snapshot b; Ok (b, Shown s)
  | CallRestingCount => Ok (b, Counted (RestingCount b))
  end.

(** A method as its only caller sees it: lock, body, unlock; a lock that is held
    would not return. *)
Definition MutexBook_Submit (now : Z -> Z) (o : Order) (m : MutexBook)
    : outcome (MutexBook * result oms_error (list Trade)) :=
  if Mutex.mu m then OutOfFuel else '(b, r) ← Submit now o (Mutex.object m); Ok (Mutex.mkGuarded false b, r).
Definition MutexBook_Cancel (orderID : Z) (m : MutexBook) : outcome (MutexBook * result oms_error unit) :=
  if Mutex.mu m then OutOfFuel else '(b, r) ← Cancel orderID (Mutex.object m); Ok (Mutex.mkGuarded false b, r).
Definition MutexBook_Snapshot (m : MutexBook) : outcome (MutexBook * BookState) :=
  if Mutex.mu m then OutOfFuel else s ← Snapshot (Mutex.object m); Ok (Mutex.mkGuarded false (Mutex.object m), s).
Definition MutexBook_RestingCount (m : MutexBook) : outcome (MutexBook * nat) :=
  if Mutex.mu m then OutOfFuel else Ok (Mutex.mkGuarded false (Mutex.object m), RestingCount (Mutex.object m)).

#[global] Instance MutexBook_OrderBook : OrderBook MutexBook := {
  ob_Submit := MutexBook_Submit;
  ob_Cancel := MutexBook_Cancel;
  ob_Snapshot := MutexBook_Snapshot
}.

#[global, refine] Instance MutexBook_OrderBookLaws : OrderBookLaws MutexBook := {
  ob_valid m := Mutex.mu m = false /\ reachable (Mutex.object m);
  ob_view m := abs (Mutex.object m);
  ob_takes o m := submittable o (Mutex.object m)
}.
Proof.
  - intros now o [m b] [Hm Hr] Hsub. cbn [Mutex.mu Mutex.object] in *.
    destruct (@ob_Submit_spec _ _ Book_OrderBookLaws now o b Hr Hsub) as (b' & r & Hs & Hr' & Hv & Ha). exists (Mutex.mkGuarded false b'), r.
    cbn [ob_Submit MutexBook_OrderBook Book_OrderBook] in *. unfold MutexBook_Submit. cbn [Mutex.mu Mutex.object]. by rewrite Hm, Hs.
  - intros orderID [m b] [Hm Hr]. cbn [Mutex.mu Mutex.object] in *.
    destruct (@ob_Cancel_spec _ _ Book_OrderBookLaws orderID b Hr) as (b' & r & Hs & Hr' & Hv). exists (Mutex.mkGuarded false b'), r.
    cbn [ob_Cancel MutexBook_OrderBook Book_OrderBook] in *. unfold MutexBook_Cancel. cbn [Mutex.mu Mutex.object]. by rewrite Hm, Hs.
  - intros [m b] [Hm Hr]. cbn [Mutex.mu Mutex.object] in *. destruct (Snapshot_total b Hr) as [s Hs]. exists s.
    cbn [ob_Snapshot MutexBook_OrderBook]. unfold MutexBook_Snapshot. cbn [Mutex.mu Mutex.object]. by rewrite Hm, Hs.
Defined.

(** What a book of the baseline's callers may be handed. *)
Definition lawful_call (c : book_call) (b : Book.Book) : Prop :=
  match c with CallSubmit _ o => submittable o b | _ => True end.

Lemma run_call_total c b : reachable b -> lawful_call c b -> exists b' a, run_call c b = Ok (b', a) /\ reachable b'.
Proof.
  intros Hr Hc. destruct c as [now o|orderID| |]; cbn [run_call].
  - destruct (@ob_Submit_spec _ _ Book_OrderBookLaws now o b Hr Hc) as (b' & r & Hs & Hr' & _). cbn [ob_Submit Book_OrderBook] in Hs. rewrite Hs. by eexists _, _.
  - destruct (@ob_Cancel_spec _ _ Book_OrderBookLaws orderID b Hr) as (b' & r & Hs & Hr' & _). cbn [ob_Cancel Book_OrderBook] in Hs. rewrite Hs. by eexists _, _.
  - destruct (Snapshot_total b Hr) as [s Hs]. rewrite Hs. by eexists _, _.
  - by eexists _, _.
Qed.


(** * Witness *)

Module MutexDemo.
(** Two callers: one submits an ask, the other counts while it waits for the lock. *)
Definition calls : list book_call := [CallSubmit Demo.clock Demo.ask1; CallRestingCount].
Definition b1 : Book.Book := Demo.submit Demo.ask1 NewBook.
Definition h : list (nat * book_call * book_answer) := [(0%nat, CallSubmit Demo.clock Demo.ask1, Submitted (Good []))].
Definition ts : list (Mutex.caller (Call := book_call) (Answer := book_answer)) :=
  [Mutex.Returned (Submitted (Good [])); Mutex.Calling CallRestingCount].

Lemma h_steps : Mutex.steps run_call (Mutex.mkGuarded false NewBook) (Mutex.Calling <$> calls) h (Mutex.mkGuarded false b1) ts.
Proof.
  change h with (([] ++ []) ++ h ++ []). rewrite app_assoc.
  eapply Mutex.steps_snoc; [eapply Mutex.steps_snoc; [eapply Mutex.steps_snoc; [apply Mutex.steps_nil|]|]|].
  - apply (Mutex.step_lock run_call NewBook _ 0 (CallSubmit Demo.clock Demo.ask1)). reflexivity.
  - apply (Mutex.step_run run_call true NewBook b1 _ 0 (CallSubmit Demo.clock Demo.ask1)); vm_compute; reflexivity.
  - exact (Mutex.step_unlock run_call true b1 [Mutex.Unlocking (Submitted (Good [])); Mutex.Calling CallRestingCount] 0
      (Submitted (Good [])) eq_refl).
Qed.
End MutexDemo.

