(* ===== verification/Bytes.v ===== *)
(** Bytes, little-endian integers and CRC-32, as [wal.go] uses them from
    [encoding/binary] and [hash/crc32].

    A byte is a [Z] in [0, 256). [crc_update] is [crc32.Update] with the IEEE
    polynomial, one bit at a time. *)

From Stdlib Require Import ZArith Lia.
From stdpp Require Import base list.
From S2P Require Import Prelude.

Open Scope Z_scope.

Definition is_byte (b : Z) : Prop := 0 <= b < 256.
Definition bytes_ok (l : list Z) : Prop := Forall is_byte l.

(** * Little-endian integers *)

(** [PutUint32] and [PutUint64]: the [n] low bytes, least significant first. *)
Fixpoint le_put (n : nat) (v : Z) : list Z :=
  match n with
  | O => []
  | S n => v mod 256 :: le_put n (v / 256)
  end.

(** [Uint32] and [Uint64]. *)
Fixpoint le_get (l : list Z) : Z :=
  match l with
  | [] => 0
  | b :: l => b + 256 * le_get l
  end.

Lemma le_put_length n v : length (le_put n v) = n.
Proof. revert v. induction n; intros; simpl; auto. Qed.

Lemma le_put_bytes n v : bytes_ok (le_put n v).
Proof.
  revert v. induction n as [|n IH]; intros v; simpl; constructor; [|apply IH].
  apply Z.mod_pos_bound. lia.
Qed.

Lemma le_get_put n v : le_get (le_put n v) = v mod 256 ^ Z.of_nat n.
Proof.
  revert v. induction n as [|n IH]; intros v; [by rewrite Z.mod_1_r|].
  cbn [le_put le_get]. rewrite IH, Nat2Z.inj_succ, Z.pow_succ_r by lia.
  rewrite Z.rem_mul_r by lia. done.
Qed.

Lemma le_get_bound l : bytes_ok l -> 0 <= le_get l < 256 ^ Z.of_nat (length l).
Proof.
  induction 1 as [|b l Hb _ IH]; simpl length; [done|].
  cbn [le_get]. rewrite Nat2Z.inj_succ, Z.pow_succ_r by lia. unfold is_byte in Hb. lia.
Qed.

(** Decoding is injective on byte strings of one length. *)
Lemma le_get_inj l k : length l = length k -> bytes_ok l -> bytes_ok k -> le_get l = le_get k -> l = k.
Proof.
  revert k. induction l as [|b l IH]; intros [|c k]; simpl; try done.
  intros Hlen [Hb Hl]%Forall_cons [Hc Hk]%Forall_cons Heq. unfold is_byte in *.
  assert (b = c /\ le_get l = le_get k) as [-> H] by lia. f_equal. apply IH; auto with lia.
Qed.

(** An [int64] through its [uint64] bytes. *)
Lemma le_int64 v : in64 v -> wrap64 (le_get (le_put 8 v)) = v.
Proof.
  intros Hv. rewrite le_get_put. change (256 ^ Z.of_nat 8) with 18446744073709551616.
  assert (H : eq64 (v mod 18446744073709551616) v) by (apply eq64_mod; by rewrite Z.mod_mod).
  unfold eq64 in H. rewrite H. by apply wrap64_id.
Qed.

(** * CRC-32 *)

Definition crc_poly : Z := 0xEDB88320.
Definition mask32 : Z := 0xFFFFFFFF.

Definition crc_bit (c : Z) : Z :=
  if Z.testbit c 0 then Z.lxor (Z.shiftr c 1) crc_poly else Z.shiftr c 1.
Definition crc_byte (c b : Z) : Z := Nat.iter 8 crc_bit (Z.lxor c b).
Definition crc_update (crc : Z) (l : list Z) : Z :=
  Z.lxor mask32 (foldl crc_byte (Z.lxor mask32 crc) l).

(** The check value of the standard: the CRC of ["123456789"]. *)
Example crc_check : crc_update 0 [49; 50; 51; 52; 53; 54; 55; 56; 57] = 0xCBF43926.
Proof. vm_compute. reflexivity. Qed.

Lemma crc_update_app crc l k : crc_update (crc_update crc l) k = crc_update crc (l ++ k).
Proof.
  unfold crc_update. rewrite foldl_app. by rewrite <- Z.lxor_assoc, Z.lxor_nilpotent, Z.lxor_0_l.
Qed.

(** ** Every step is a bijection of the 32-bit words *)

Definition is_word (c : Z) : Prop := 0 <= c < 2 ^ 32.

Lemma is_word_bits c : 0 <= c -> is_word c <-> forall i, 32 <= i -> Z.testbit c i = false.
Proof.
  intros Hc. unfold is_word. split.
  - intros [_ Hlt] i Hi. destruct (Z.eq_dec c 0) as [->|]; [apply Z.bits_0|].
    apply Z.bits_above_log2; [done|]. apply Z.log2_lt_pow2 in Hlt; lia.
  - intros Hb. split; [done|]. destruct (Z.eq_dec c 0) as [->|]; [lia|].
    apply Z.log2_lt_pow2; [lia|]. destruct (Z.lt_ge_cases (Z.log2 c) 32) as [|Hge]; [done|].
    specialize (Hb _ Hge). rewrite Z.bit_log2 in Hb by lia. done.
Qed.

Lemma lxor_word a b : is_word a -> is_word b -> is_word (Z.lxor a b).
Proof.
  intros [Ha Ha'] [Hb Hb']. assert (Hn : 0 <= Z.lxor a b) by (apply Z.lxor_nonneg; lia).
  apply is_word_bits; [done|]. intros i Hi. rewrite Z.lxor_spec.
  rewrite (proj1 (is_word_bits a Ha)), (proj1 (is_word_bits b Hb)); done.
Qed.

Lemma crc_bit_word c : is_word c -> is_word (crc_bit c).
Proof.
  intros [Hc Hc']. assert (Hs : is_word (Z.shiftr c 1)).
  { rewrite Z.shiftr_div_pow2 by lia. unfold is_word. change (2 ^ 1) with 2.
    change (2 ^ 32) with 4294967296 in *. split; [apply Z.div_pos|apply Z.div_lt_upper_bound]; lia. }
  unfold crc_bit. destruct (Z.testbit c 0); [|done]. apply lxor_word; [done|]. unfold is_word, crc_poly.
  change (2 ^ 32) with 4294967296. lia.
Qed.

(** The top bit of a step is the bit that was shifted out. *)
Lemma crc_bit_top c : is_word c -> Z.testbit (crc_bit c) 31 = Z.testbit c 0.
Proof.
  intros [Hc Hc']. assert (Ht : Z.testbit c 32 = false) by (apply (proj1 (is_word_bits c Hc)); [by split|lia]).
  unfold crc_bit. destruct (Z.testbit c 0); rewrite ?Z.lxor_spec, Z.shiftr_spec by lia;
    change (31 + 1) with 32; by rewrite Ht.
Qed.

Lemma crc_bit_inj c d : is_word c -> is_word d -> crc_bit c = crc_bit d -> c = d.
Proof.
  intros Hc Hd Heq. assert (H0 : Z.testbit c 0 = Z.testbit d 0)
    by (rewrite <- (crc_bit_top c Hc), <- (crc_bit_top d Hd); by rewrite Heq).
  assert (Hs : Z.shiftr c 1 = Z.shiftr d 1).
  { unfold crc_bit in Heq. rewrite H0 in Heq. destruct (Z.testbit d 0); [|done].
    apply (f_equal (fun x => Z.lxor x crc_poly)) in Heq.
    by rewrite !Z.lxor_assoc, !Z.lxor_nilpotent, !Z.lxor_0_r in Heq. }
  apply Z.bits_inj. intros i. destruct (Z.lt_trichotomy i 0) as [Hi|[->|Hi]]; [by rewrite !Z.testbit_neg_r|done|].
  apply (f_equal (fun x => Z.testbit x (i - 1))) in Hs. rewrite !Z.shiftr_spec in Hs by lia.
  by replace (i - 1 + 1) with i in Hs by lia.
Qed.

Lemma iter_word n c : is_word c -> is_word (Nat.iter n crc_bit c).
Proof. intros Hc. induction n; simpl; [done|]. by apply crc_bit_word. Qed.

Lemma iter_inj n c d : is_word c -> is_word d -> Nat.iter n crc_bit c = Nat.iter n crc_bit d -> c = d.
Proof.
  intros Hc Hd. induction n as [|n IH]; simpl; [done|].
  intros H. apply IH, crc_bit_inj; [by apply iter_word..|done].
Qed.

Lemma byte_word b : is_byte b -> is_word b.
Proof. unfold is_byte, is_word. change (2 ^ 32) with 4294967296. lia. Qed.

Lemma lxor_cancel a b c : Z.lxor a b = Z.lxor a c -> b = c.
Proof.
  intros H. apply (f_equal (Z.lxor a)) in H.
  by rewrite <- !Z.lxor_assoc, Z.lxor_nilpotent, !Z.lxor_0_l in H.
Qed.

Lemma crc_byte_word c b : is_word c -> is_byte b -> is_word (crc_byte c b).
Proof. intros Hc Hb. apply iter_word, lxor_word; [done|by apply byte_word]. Qed.

Lemma crc_byte_inj_l c d b : is_word c -> is_word d -> is_byte b -> crc_byte c b = crc_byte d b -> c = d.
Proof.
  intros Hc Hd Hb H. apply iter_inj in H; [|apply lxor_word; [done|by apply byte_word]..].
  rewrite (Z.lxor_comm c), (Z.lxor_comm d) in H. by apply lxor_cancel in H.
Qed.

Lemma crc_byte_inj_r c b b' : is_word c -> is_byte b -> is_byte b' -> crc_byte c b = crc_byte c b' -> b = b'.
Proof.
  intros Hc Hb Hb' H. apply iter_inj in H; [|apply lxor_word; [done|by apply byte_word]..].
  by apply lxor_cancel in H.
Qed.

Lemma crc_fold_word l c : is_word c -> bytes_ok l -> is_word (foldl crc_byte c l).
Proof. revert c. induction l as [|b l IH]; intros c Hc; [done|]. intros [Hb Hl]%Forall_cons. apply IH; [by apply crc_byte_word|done]. Qed.

Lemma crc_fold_inj l c d : is_word c -> is_word d -> bytes_ok l ->
  foldl crc_byte c l = foldl crc_byte d l -> c = d.
Proof.
  revert c d. induction l as [|b l IH]; intros c d Hc Hd; [done|]. intros [Hb Hl]%Forall_cons H.
  apply IH in H; [|by apply crc_byte_word..|done]. by eapply crc_byte_inj_l.
Qed.

(** Changing one byte changes the CRC. *)
Lemma crc_one_byte l b b' k : bytes_ok (l ++ b :: k) -> is_byte b' -> b <> b' ->
  crc_update 0 (l ++ b :: k) <> crc_update 0 (l ++ b' :: k).
Proof.
  intros Hok Hb' Hne H. apply Forall_app in Hok as [Hl [Hb Hk]%Forall_cons].
  unfold crc_update in H. apply lxor_cancel in H. rewrite !foldl_app in H. simpl in H.
  assert (Hw : is_word (foldl crc_byte (Z.lxor mask32 0) l)) by (apply crc_fold_word; [|done]; unfold is_word; vm_compute; done).
  apply crc_fold_inj in H; [|by apply crc_byte_word..|done]. by apply crc_byte_inj_r in H.
Qed.

Lemma crc_word l : bytes_ok l -> is_word (crc_update 0 l).
Proof.
  intros Hl. unfold crc_update. apply lxor_word; [by vm_compute|]. apply crc_fold_word; [by vm_compute|done].
Qed.
