(* ===== verification/WalFormat.v ===== *)
(** The on-disk format of the write-ahead log, [src/internal/oms/wal.go]: how a
    record becomes bytes, and how a segment's bytes are read back.

    A segment is a list of bytes. [json.Marshal] and [json.Unmarshal] of the
    payload are the operations of the class [PayloadCodec]; [CodecLaws] is the
    round trip they document for text that JSON can represent. *)

From Stdlib Require Import ZArith Lia.
From stdpp Require Import base gmap list strings.
From S2P Require Import Prelude Types WalRecord Bytes.

Open Scope Z_scope.

Definition walMagic : list Z := [68; 87; 65; 76].
Definition walVersion : Z := 1.
Definition walHeaderSize : nat := 8.
Definition recHeaderSize : nat := 20.
Definition walCRCSize : nat := 4.
Definition maxRecordPayload : Z := 1048576.

(** [walPayload]: the variable part of a record. *)
Record walPayload := mkPayload {
  pl_Kind : RecordKind;
  pl_Order : option Order;
  pl_CancelID : Z;
  pl_CancelBy : string
}.

Class PayloadCodec := {
  json_Marshal : walPayload -> option (list Z);
  json_Unmarshal : list Z -> option walPayload
}.

(** What is marshalled reads back, when its text and times are representable. *)
Class CodecLaws `{PayloadCodec} := {
  representable : walPayload -> Prop;
  marshal_bytes p bs : json_Marshal p = Some bs -> bytes_ok bs;
  marshal_round p bs : representable p -> json_Marshal p = Some bs -> json_Unmarshal bs = Some p
}.

(** [orderPtr]. *)
Definition orderPtr (rec : WalRecord) : option Order :=
  if decide (w_Kind rec = RecordSubmit) then Some (w_Order rec) else None.

Definition payload_of (rec : WalRecord) : walPayload :=
  mkPayload (w_Kind rec) (orderPtr rec) (w_CancelID rec) (w_CancelBy rec).

(** The fixed header of a record, and the whole record, as [Append] writes them. *)
Definition rec_header (len seq ts : Z) : list Z := le_put 4 len ++ le_put 8 seq ++ le_put 8 ts.

Definition rec_crc (hdr payload : list Z) : Z := crc_update (crc_update 0 hdr) payload.

Section Format.
Context `{PayloadCodec}.

Definition encode (rec : WalRecord) : result oms_error (list Z * list Z * list Z) :=
  match json_Marshal (payload_of rec) with
  | None => Fails ErrWalDecode
  | Some payload =>
      if maxRecordPayload <? Z.of_nat (length payload) then Fails ErrPayloadTooBig
      else
        let hdr := rec_header (Z.of_nat (length payload)) (w_Seq rec) (w_TS rec) in
        Good (hdr, payload, le_put 4 (rec_crc hdr payload))
  end.

Definition seg_header : list Z := walMagic ++ le_put 4 walVersion.

(** * Reading *)

(** [newReader]'s checks, on a segment's bytes. *)
Definition check_header (seg : list Z) : option oms_error :=
  if (length seg <? walHeaderSize)%nat then Some ErrCorruptWAL
  else if negb (bool_decide (take 4 seg = walMagic)) then Some ErrCorruptWAL
  else if negb (le_get (take 4 (drop 4 seg)) =? walVersion) then Some ErrWalVersion
  else None.

Inductive read_result :=
| ReadEOF
| ReadErr (e : oms_error)
| ReadRec (rec : WalRecord) (size : nat).

(** The record a verified header and payload denote. *)
Definition decode (hdr : list Z) (p : walPayload) : WalRecord :=
  mkRecord (wrap64 (le_get (take 8 (drop 4 hdr)))) (pl_Kind p) (wrap64 (le_get (take 8 (drop 12 hdr))))
    (default zeroOrder (pl_Order p)) (pl_CancelID p) (pl_CancelBy p).

(** [next] on the bytes from the reader's offset on. [io.ReadFull] on too few
    bytes is [io.EOF] or [io.ErrUnexpectedEOF], which [next] does not tell apart. *)
Definition next (bs : list Z) : read_result :=
  if (length bs <? recHeaderSize)%nat then ReadEOF else
  let hdr := take recHeaderSize bs in
  let n := le_get (take 4 hdr) in
  if maxRecordPayload <? n then ReadErr ErrCorruptWAL else
  let n := Z.to_nat n in
  let rest := drop recHeaderSize bs in
  if (length rest <? n)%nat then ReadEOF else
  let payload := take n rest in
  let rest := drop n rest in
  if (length rest <? walCRCSize)%nat then ReadEOF else
  let want := le_get (take walCRCSize rest) in
  if negb (rec_crc hdr payload =? want) then ReadErr ErrCorruptWAL else
  match json_Unmarshal payload with
  | None => ReadErr ErrWalDecode
  | Some p => ReadRec (decode hdr p) (recHeaderSize + n + walCRCSize)
  end.

(** [Records]: everything up to the first bad record, the offset just past the
    last good one, and the error that ended the scan if it was not a short tail. *)
Fixpoint records_loop (fuel : nat) (bs : list Z) (offset : nat)
    : list WalRecord * nat * option oms_error :=
  match fuel with
  | O => ([], offset, None)
  | S fuel =>
      match next bs with
      | ReadEOF => ([], offset, None)
      | ReadErr e => ([], offset, Some e)
      | ReadRec rec size =>
          let '(recs, off, e) := records_loop fuel (drop size bs) (offset + size) in
          (rec :: recs, off, e)
      end
  end.

(** Every record takes at least 24 bytes, so the bytes themselves are fuel enough. *)
Definition records_from (bs : list Z) (offset : nat) : list WalRecord * nat * option oms_error :=
  records_loop (S (length bs)) bs offset.

(** [OpenReaderAt] followed by [Records]. *)
Definition read_at (seg : list Z) (offset : nat) : result oms_error (list WalRecord * nat * option oms_error) :=
  if (offset <? walHeaderSize)%nat then Fails ErrWalIO else
  match check_header seg with
  | Some e => Fails e
  | None => Good (records_from (drop offset seg) offset)
  end.
Definition read_segment (seg : list Z) := read_at seg walHeaderSize.

(** [scanSegment]: the highest position and the offset past the last good record. *)
Definition max_seq (recs : list WalRecord) : Z := foldl (fun m r => Z.max m (w_Seq r)) 0 recs.

Definition scanSegment (seg : list Z) : result oms_error (Z * nat) :=
  match read_segment seg with
  | Fails e => Fails e
  | Good (recs, off, Some e) => Fails e
  | Good (recs, off, None) => Good (max_seq recs, off)
  end.
End Format.

(** * Round trip *)

Section RoundTrip.
Context `{CodecLaws}.

(** What the log can carry: 64-bit numbers, a payload that is representable, and
    no order on a record that is not a submit (a cancel has none to log). *)
Record loggable (rec : WalRecord) : Prop := {
  lg_seq : in64 (w_Seq rec);
  lg_ts : in64 (w_TS rec);
  lg_repr : representable (payload_of rec);
  lg_order : w_Kind rec <> RecordSubmit -> w_Order rec = zeroOrder
}.

(** The bytes of one record. *)
Definition enc (rec : WalRecord) (bs : list Z) : Prop :=
  exists hdr payload crc, encode rec = Good (hdr, payload, crc) /\ bs = hdr ++ payload ++ crc.

Lemma rec_header_length n s t : length (rec_header n s t) = 20%nat.
Proof. unfold rec_header. by rewrite !length_app, !le_put_length. Qed.

Lemma rec_header_bytes n s t : bytes_ok (rec_header n s t).
Proof. unfold rec_header. repeat (apply Forall_app; split); apply le_put_bytes. Qed.

Lemma rec_header_fields n s t : 0 <= n < 2 ^ 32 ->
  le_get (take 4 (rec_header n s t)) = n /\
  take 8 (drop 4 (rec_header n s t)) = le_put 8 s /\ take 8 (drop 12 (rec_header n s t)) = le_put 8 t.
Proof.
  intros Hn. unfold rec_header.
  assert (H4 := le_put_length 4 n). assert (H8 := le_put_length 8 s). assert (H8' := le_put_length 8 t).
  split_and!.
  - rewrite take_app_length' by done. rewrite le_get_put. by apply Z.mod_small.
  - rewrite drop_app_length' by done. by rewrite take_app_length' by done.
  - rewrite app_assoc, drop_app_length' by (by rewrite length_app, H4, H8).
    by rewrite take_ge by (rewrite H8'; done).
Qed.

Lemma decode_payload rec n : 0 <= n < 2 ^ 32 -> loggable rec ->
  decode (rec_header n (w_Seq rec) (w_TS rec)) (payload_of rec) = rec.
Proof.
  intros Hn [Hs Ht _ Ho]. destruct (rec_header_fields n (w_Seq rec) (w_TS rec) Hn) as (_ & H1 & H2).
  unfold decode. rewrite H1, H2, !le_int64 by done. unfold payload_of, orderPtr. simpl.
  destruct rec as [seq kind ts o cid cby]; simpl in *. f_equal.
  destruct (decide (kind = RecordSubmit)) as [|Hne]; [done|]. by rewrite Ho.
Qed.

(** What [encode] produces. *)
Lemma encode_inv rec hdr payload crc : encode rec = Good (hdr, payload, crc) ->
  json_Marshal (payload_of rec) = Some payload /\ Z.of_nat (length payload) <= maxRecordPayload /\
  hdr = rec_header (Z.of_nat (length payload)) (w_Seq rec) (w_TS rec) /\
  crc = le_put 4 (rec_crc hdr payload) /\ bytes_ok hdr /\ bytes_ok payload.
Proof.
  unfold encode. destruct (json_Marshal _) as [p|] eqn:Hm; [|done].
  destruct (Z.ltb_spec maxRecordPayload (Z.of_nat (length p))); [done|]. intros [= <- <- <-].
  split_and!; try done; [apply rec_header_bytes|by eapply marshal_bytes].
Qed.

(** A record that is wholly there is read back, whatever follows it. *)
Lemma next_enc rec bs rest : loggable rec -> enc rec bs ->
  next (bs ++ rest) = ReadRec rec (length bs).
Proof.
  intros Hl (hdr & payload & crc & He & ->).
  destruct (encode_inv _ _ _ _ He) as (Hm & Hlen & Hh & Hc & Hhb & Hpb).
  assert (H20 : length hdr = 20%nat) by (rewrite Hh; apply rec_header_length).
  assert (H4 : length crc = 4%nat) by (rewrite Hc; apply le_put_length).
  assert (Hn : 0 <= Z.of_nat (length payload) < 2 ^ 32)
    by (unfold maxRecordPayload in Hlen; change (2 ^ 32) with 4294967296; lia).
  destruct (rec_header_fields _ (w_Seq rec) (w_TS rec) Hn) as (Hf & _). rewrite <- Hh in Hf.
  unfold next, recHeaderSize, walCRCSize. rewrite <- !app_assoc.
  rewrite (proj2 (Nat.ltb_ge _ _)) by (rewrite length_app; lia).
  rewrite take_app_length' by done. rewrite drop_app_length' by done. rewrite Hf, Nat2Z.id.
  rewrite (proj2 (Z.ltb_ge _ _)) by done.
  rewrite (proj2 (Nat.ltb_ge _ _)) by (rewrite !length_app; lia).
  rewrite take_app_length' by done. rewrite drop_app_length' by done.
  rewrite (proj2 (Nat.ltb_ge _ _)) by (rewrite !length_app; lia).
  rewrite take_app_length' by done. rewrite Hc, le_get_put.
  rewrite Z.mod_small; [|unfold rec_crc; rewrite crc_update_app; apply crc_word; by apply Forall_app].
  rewrite Z.eqb_refl. simpl. rewrite (marshal_round _ _ (lg_repr _ Hl) Hm).
  rewrite Hh at 1. rewrite decode_payload by done. f_equal. rewrite !length_app, H20. simpl. lia.
Qed.

(** A record of which only part is there is not read, and is not an error. *)
Lemma next_torn rec bs k : enc rec bs -> (k < length bs)%nat -> next (take k bs) = ReadEOF.
Proof.
  intros (hdr & payload & crc & He & ->) Hk.
  destruct (encode_inv _ _ _ _ He) as (Hm & Hlen & Hh & Hc & Hhb & Hpb).
  assert (H20 : length hdr = 20%nat) by (rewrite Hh; apply rec_header_length).
  assert (H4 : length crc = 4%nat) by (rewrite Hc; apply le_put_length).
  assert (Hn : 0 <= Z.of_nat (length payload) < 2 ^ 32)
    by (unfold maxRecordPayload in Hlen; change (2 ^ 32) with 4294967296; lia).
  destruct (rec_header_fields _ (w_Seq rec) (w_TS rec) Hn) as (Hf & _). rewrite <- Hh in Hf.
  rewrite !length_app in Hk. unfold next, recHeaderSize, walCRCSize.
  destruct (Nat.ltb_spec (length (take k (hdr ++ payload ++ crc))) 20) as [|Hge]; [done|].
  rewrite length_take, !length_app in Hge.
  assert (Ht : take 20 (take k (hdr ++ payload ++ crc)) = hdr)
    by (rewrite take_take, Nat.min_l by lia; by rewrite take_app_length').
  rewrite Ht, Hf, Nat2Z.id.
  rewrite (proj2 (Z.ltb_ge _ _)) by done.
  assert (Hd : drop 20 (take k (hdr ++ payload ++ crc)) = take (k - 20) (payload ++ crc)).
  { rewrite skipn_firstn_comm. by rewrite drop_app_length' by done. }
  rewrite Hd. destruct (Nat.ltb_spec (length (take (k - 20) (payload ++ crc))) (length payload)) as [|Hge']; [done|].
  rewrite skipn_firstn_comm, drop_app_length' by done.
  rewrite (proj2 (Nat.ltb_lt _ _)); [done|]. rewrite length_take. lia.
Qed.
End RoundTrip.
