(* ===== verification/WalRead.v ===== *)
(** What a reader makes of a segment: whole logs, torn tails and damaged bytes. *)

From Stdlib Require Import ZArith Lia.
From stdpp Require Import base gmap list strings.
From S2P Require Import Prelude Types WalRecord Bytes WalFormat.

Open Scope Z_scope.

Section Reading.
Context `{CodecLaws}.

Lemma enc_length rec bs : enc rec bs -> (24 <= length bs)%nat.
Proof.
  intros (hdr & payload & crc & He & ->). destruct (encode_inv _ _ _ _ He) as (_ & _ & -> & -> & _).
  rewrite !length_app, rec_header_length. simpl. lia.
Qed.

Lemma enc_bytes rec bs : enc rec bs -> bytes_ok bs.
Proof.
  intros (hdr & payload & crc & He & ->). destruct (encode_inv _ _ _ _ He) as (_ & _ & _ & -> & Hh & Hp).
  repeat (apply Forall_app; split); [done..|apply le_put_bytes].
Qed.

Lemma next_nil : next [] = ReadEOF.
Proof. done. Qed.

(** The records at the front of the bytes, then whatever [next] says of the rest. *)
Lemma records_loop_app recs chunks tail : Forall loggable recs -> Forall2 enc recs chunks ->
  forall fuel off, (length recs < fuel)%nat ->
  records_loop fuel (concat chunks ++ tail) off =
    match next tail with
    | ReadEOF => (recs, (off + length (concat chunks))%nat, None)
    | ReadErr e => (recs, (off + length (concat chunks))%nat, Some e)
    | ReadRec _ _ =>
        let '(more, off, e) := records_loop (fuel - length recs) tail (off + length (concat chunks)) in
        (recs ++ more, off, e)
    end.
Proof.
  intros Hl Henc. induction Henc as [|rec bs recs chunks Hb _ IH]; intros fuel off Hf; simpl.
  - rewrite Nat.add_0_r, Nat.sub_0_r. destruct fuel as [|fuel]; [simpl in Hf; lia|]. simpl.
    destruct (next tail); try done. by destruct (records_loop _ _ _) as [[? ?] ?].
  - apply Forall_cons in Hl as [Hlr Hl]. destruct fuel as [|fuel]; [simpl in Hf; lia|]. simpl in Hf |- *.
    rewrite <- app_assoc, (next_enc rec bs _ Hlr Hb), drop_app_length.
    rewrite (IH Hl fuel (off + length bs)%nat ltac:(lia)), length_app, Nat.add_assoc.
    destruct (next tail); try done. by destruct (records_loop _ _ _) as [[? ?] ?].
Qed.

Lemma chunks_fuel recs chunks : Forall2 enc recs chunks -> (length recs <= length (concat chunks))%nat.
Proof.
  induction 1 as [|rec bs recs chunks Hb _ IH]; simpl; [lia|]. rewrite length_app.
  apply enc_length in Hb. lia.
Qed.

(** Everything that was written is read back, up to a tail that cannot be read. *)
Lemma records_from_app recs chunks tail off : Forall loggable recs -> Forall2 enc recs chunks ->
  (forall rec n, next tail <> ReadRec rec n) ->
  records_from (concat chunks ++ tail) off =
    (recs, (off + length (concat chunks))%nat, match next tail with ReadErr e => Some e | _ => None end).
Proof.
  intros Hl Henc Ht. unfold records_from.
  rewrite (records_loop_app recs chunks tail Hl Henc)
    by (rewrite length_app; pose proof (chunks_fuel recs chunks Henc); lia).
  destruct (next tail) as [|e|rec n] eqn:Hn; [done|done|]. by destruct (Ht rec n).
Qed.

Lemma records_from_chunks recs chunks off : Forall loggable recs -> Forall2 enc recs chunks ->
  records_from (concat chunks) off = (recs, (off + length (concat chunks))%nat, None).
Proof.
  intros Hl Henc. rewrite <- (app_nil_r (concat chunks)) at 1. by rewrite (records_from_app recs).
Qed.

(** Cutting a log anywhere leaves some whole records and part of the next. *)
Lemma cut_chunks recs chunks k : Forall2 enc recs chunks -> (k <= length (concat chunks))%nat ->
  exists j part, (j <= length recs)%nat /\ take k (concat chunks) = concat (take j chunks) ++ part /\
    (part = [] \/ exists rec bs i, recs !! j = Some rec /\ enc rec bs /\ part = take i bs /\ (i < length bs)%nat) /\
    (forall i, (length (concat (take i chunks)) <= k)%nat -> (i <= length chunks)%nat -> (i <= j)%nat).
Proof.
  intros Henc. revert k. induction Henc as [|rec bs recs chunks Hb Henc IH]; intros k Hk; simpl in *.
  { exists O, []. split_and!; auto. by rewrite take_nil. }
  destruct (Nat.lt_ge_cases k (length bs)) as [Hlt|Hge].
  - exists O, (take k bs). split_and!; [lia| |right; by exists rec, bs, k|].
    + simpl. by rewrite take_app_le by lia.
    + intros [|i]; simpl; [lia|]. rewrite length_app. lia.
  - rewrite length_app in Hk. destruct (IH (k - length bs)%nat ltac:(lia)) as (j & part & Hj & Htk & Hpart & Hmax).
    exists (S j), part. split_and!; [simpl; lia| |exact Hpart|].
    + rewrite take_app_ge by done. rewrite Htk. simpl. by rewrite app_assoc.
    + intros [|i] Hi Hin; [lia|]. simpl in Hi, Hin. rewrite length_app in Hi.
      specialize (Hmax i ltac:(lia) ltac:(lia)). lia.
Qed.

Lemma Forall2_take_chunks recs chunks j : Forall2 enc recs chunks -> Forall2 enc (take j recs) (take j chunks).
Proof. intros. by apply Forall2_take. Qed.

(** A torn log reads as the records that are wholly there, without an error. *)
Lemma records_from_torn recs chunks k off : Forall loggable recs -> Forall2 enc recs chunks ->
  (k <= length (concat chunks))%nat ->
  exists j, (j <= length recs)%nat /\
    records_from (take k (concat chunks)) off = (take j recs, (off + length (concat (take j chunks)))%nat, None) /\
    (length (concat (take j chunks)) <= k)%nat /\
    (forall i, (length (concat (take i chunks)) <= k)%nat -> (i <= length recs)%nat -> (i <= j)%nat).
Proof.
  intros Hl Henc Hk. destruct (cut_chunks recs chunks k Henc Hk) as (j & part & Hj & Htk & Hpart & Hmax).
  exists j. assert (Hn : next part = ReadEOF).
  { destruct Hpart as [->|(rec & bs & i & _ & Hb & -> & Hi)]; [done|]. by apply (next_torn rec). }
  split_and!; [done| | |].
  - rewrite Htk, (records_from_app (take j recs)).
    + by rewrite Hn.
    + by apply Forall_take.
    + by apply Forall2_take_chunks.
    + intros rec n. by rewrite Hn.
  - apply (f_equal length) in Htk. rewrite length_take, length_app in Htk. lia.
  - intros i Hi Hin. apply Hmax; [done|]. by rewrite <- (Forall2_length _ _ _ Henc).
Qed.

(** * Damage *)

Lemma split_three {A} (l r x y z : list A) b : l ++ b :: r = x ++ y ++ z ->
  (exists r1, x = l ++ b :: r1 /\ r = r1 ++ y ++ z) \/
  (exists l1 r1, l = x ++ l1 /\ y = l1 ++ b :: r1 /\ r = r1 ++ z) \/
  (exists l1, l = x ++ y ++ l1 /\ z = l1 ++ b :: r).
Proof.
  assert (Hcut : forall (l r x y : list A) b, l ++ b :: r = x ++ y ->
    (exists r1, x = l ++ b :: r1 /\ r = r1 ++ y) \/ (exists l1, l = x ++ l1 /\ y = l1 ++ b :: r)).
  { clear. intros l r x y b Heq. apply app_eq_inv in Heq as [(k & -> & Hk)|(k & -> & Hk)]; [right; by exists k|].
    destruct k as [|c k]; simpl in Hk.
    - right. exists []. rewrite !app_nil_r. done.
    - injection Hk as <- ->. left. by exists k. }
  intros [(r1 & -> & ->)|(l1 & -> & Hyz)]%Hcut; [left; by exists r1|right].
  symmetry in Hyz. apply Hcut in Hyz as [(r1 & -> & ->)|(l2 & -> & ->)]; [left; by exists l1, r1|right].
  by exists l2.
Qed.

(** A changed byte past the length prefix is always caught. *)
Lemma next_damaged rec l b b' r rest : enc rec (l ++ b :: r) -> (4 <= length l)%nat ->
  is_byte b' -> b <> b' -> next (l ++ b' :: r ++ rest) = ReadErr ErrCorruptWAL.
Proof.
  intros (hdr & payload & crc & He & Hbs) Hl Hb' Hne.
  destruct (encode_inv _ _ _ _ He) as (Hm & Hlen & Hh & Hc & Hhb & Hpb).
  assert (H20 : length hdr = 20%nat) by (rewrite Hh; apply rec_header_length).
  assert (H4 : length crc = 4%nat) by (rewrite Hc; apply le_put_length).
  assert (Hn : 0 <= Z.of_nat (length payload) < 2 ^ 32)
    by (unfold maxRecordPayload in Hlen; change (2 ^ 32) with 4294967296; lia).
  destruct (rec_header_fields _ (w_Seq rec) (w_TS rec) Hn) as (Hf & _). rewrite <- Hh in Hf.
  assert (Hgen : forall hdr' payload' crc', length hdr' = 20%nat -> length payload' = length payload ->
    length crc' = 4%nat -> take 4 hdr' = take 4 hdr -> rec_crc hdr' payload' <> le_get crc' ->
    next ((hdr' ++ payload' ++ crc') ++ rest) = ReadErr ErrCorruptWAL).
  { intros hdr' payload' crc' Hlh Hlp Hlc Htk Hne'. unfold next, recHeaderSize, walCRCSize.
    rewrite <- !app_assoc, (proj2 (Nat.ltb_ge _ _)) by (rewrite length_app; lia).
    rewrite take_app_length', drop_app_length' by done. rewrite Htk, Hf, Nat2Z.id.
    rewrite (proj2 (Z.ltb_ge _ _)) by done.
    rewrite (proj2 (Nat.ltb_ge _ _)) by (rewrite !length_app; lia).
    rewrite take_app_length', drop_app_length' by done.
    rewrite (proj2 (Nat.ltb_ge _ _)) by (rewrite !length_app; lia).
    rewrite take_app_length' by done. by rewrite (proj2 (Z.eqb_neq _ _)). }
  assert (Hcrc : le_get crc = rec_crc hdr payload).
  { rewrite Hc, le_get_put. apply Z.mod_small. unfold rec_crc. rewrite crc_update_app. apply crc_word.
    by apply Forall_app. }
  destruct (split_three _ _ _ _ _ _ Hbs) as [(r1 & Hx & ->)|[(l1 & r1 & -> & Hy & ->)|(l1 & -> & Hz)]].
  - replace (l ++ b' :: (r1 ++ payload ++ crc) ++ rest) with (((l ++ b' :: r1) ++ payload ++ crc) ++ rest)
      by (by rewrite <- !app_assoc).
    rewrite Hx in H20, Hhb, Hcrc. apply Hgen; try done.
    + rewrite length_app in *. done.
    + rewrite Hx, !take_app_le by done. done.
    + rewrite Hcrc. unfold rec_crc. rewrite !crc_update_app, <- !app_assoc. simpl. apply not_eq_sym, crc_one_byte; [|done..].
      rewrite app_comm_cons, app_assoc. by apply Forall_app.
  - replace ((hdr ++ l1) ++ b' :: (r1 ++ crc) ++ rest) with ((hdr ++ (l1 ++ b' :: r1) ++ crc) ++ rest)
      by (by rewrite <- !app_assoc).
    rewrite Hy in Hpb, Hcrc. apply Hgen; try done.
    + rewrite Hy, !length_app. done.
    + rewrite Hcrc. unfold rec_crc. rewrite !crc_update_app, !app_assoc. apply not_eq_sym, crc_one_byte; [|done..].
      rewrite <- app_assoc. by apply Forall_app.
  - replace ((hdr ++ payload ++ l1) ++ b' :: r ++ rest) with ((hdr ++ payload ++ (l1 ++ b' :: r)) ++ rest)
      by (by rewrite <- !app_assoc).
    assert (Hcb : bytes_ok crc) by (rewrite Hc; apply le_put_bytes). rewrite Hz in H4, Hcrc, Hcb. apply Hgen; try done.
    + rewrite length_app in *. done.
    + rewrite <- Hcrc. intros Heq. apply le_get_inj in Heq.
      * apply app_inv_head in Heq. by injection Heq.
      * by rewrite !length_app.
      * done.
      * apply Forall_app in Hcb as [? [_ ?]%Forall_cons]. apply Forall_app. split; [done|]. by constructor.
Qed.
End Reading.
