(* ===== verification/SegNames.v ===== *)
(** Segment file names, from [src/internal/oms/wal.go]: ["%019d.wal"] of the first
    position a segment holds.

    [names_in_order] justifies the comment in the source: fixed-width zero-padded
    names sort as the numbers they print, and [seqFromName] reads them back. *)

From Stdlib Require Import ZArith Lia Ascii String.
From stdpp Require Import base list strings sorting.
From S2P Require Import Prelude.

Open Scope Z_scope.

Definition segmentSuffix : string := ".wal".

Definition digit (d : Z) : ascii := ascii_of_nat (Z.to_nat (48 + d)).

(** The [k] low decimal digits, most significant first: ["%0kd"] of a
    non-negative number below [10^k]. *)
Fixpoint digits (k : nat) (n : Z) : string :=
  match k with
  | O => EmptyString
  | S k => String (digit ((n / 10 ^ Z.of_nat k) mod 10)) (digits k n)
  end.

Definition segment_name (firstSeq : Z) : string := digits 19 firstSeq ++ segmentSuffix.

(** [strings.TrimSuffix]. *)
Fixpoint strip_suffix (suf s : string) : string :=
  if String.eqb s suf then EmptyString
  else match s with EmptyString => EmptyString | String c s => String c (strip_suffix suf s) end.

Definition digit_value (c : ascii) : option Z :=
  let n := Z.of_nat (nat_of_ascii c) in
  if (48 <=? n) && (n <=? 57) then Some (n - 48) else None.

(** [strconv.ParseInt(s, 10, 64)] of an unsigned numeral: no sign is ever printed
    for the positions the log uses. *)
Fixpoint parse_digits (acc : Z) (s : string) : option Z :=
  match s with
  | EmptyString => Some acc
  | String c s => d ← digit_value c; parse_digits (10 * acc + d) s
  end.
Definition ParseInt (s : string) : option Z :=
  match s with
  | EmptyString => None
  | _ => v ← parse_digits 0 s; if v <=? MaxInt64 then Some v else None
  end.

Definition seqFromName (name : string) : option Z := ParseInt (strip_suffix segmentSuffix name).

(** * Facts *)

Lemma digit_code d : 0 <= d < 10 -> Z.of_nat (nat_of_ascii (digit d)) = 48 + d.
Proof.
  intros Hd. unfold digit. rewrite nat_ascii_embedding by lia. lia.
Qed.

Lemma digit_value_digit d : 0 <= d < 10 -> digit_value (digit d) = Some d.
Proof.
  intros Hd. unfold digit_value. rewrite digit_code by done.
  replace (48 <=? 48 + d) with true by (symmetry; apply Z.leb_le; lia).
  replace (48 + d <=? 57) with true by (symmetry; apply Z.leb_le; lia). simpl. f_equal. lia.
Qed.

Lemma mod10 n : 0 <= n mod 10 < 10.
Proof. apply Z.mod_pos_bound. lia. Qed.

(** The numeral is read back, whatever the accumulator. *)
Lemma parse_digits_digits k n : forall acc, 0 <= n ->
  parse_digits acc (digits k n) = Some (acc * 10 ^ Z.of_nat k + n mod 10 ^ Z.of_nat k).
Proof.
  induction k as [|k IH]; intros acc Hn; [simpl; rewrite Z.mod_1_r; f_equal; lia|].
  cbn [digits parse_digits]. rewrite digit_value_digit by apply mod10. cbn [mbind option_bind].
  rewrite IH by done. f_equal. rewrite Nat2Z.inj_succ, Z.pow_succ_r by lia.
  rewrite (Z.mul_comm 10 (10 ^ Z.of_nat k)), Z.rem_mul_r by (try apply Z.pow_nonzero; lia). lia.
Qed.

Lemma strip_suffix_app s suf :
  (forall t, String.eqb (t ++ suf) suf = true -> t = EmptyString) -> strip_suffix suf (s ++ suf) = s.
Proof.
  intros Hsuf. induction s as [|c s IH].
  - change (EmptyString ++ suf)%string with suf. destruct suf; cbn [strip_suffix]; by rewrite String.eqb_refl.
  - change (String c s ++ suf)%string with (String c (s ++ suf)). cbn [strip_suffix].
    destruct (String.eqb (String c (s ++ suf)) suf) eqn:E; [|by rewrite IH].
    specialize (Hsuf (String c s) E). done.
Qed.

Lemma append_length s t : String.length (s ++ t) = (String.length s + String.length t)%nat.
Proof. induction s as [|c s IH]; simpl; [done|by rewrite IH]. Qed.

(** Only the empty string can be put in front of a suffix without changing it. *)
Lemma append_self t suf : String.eqb (t ++ suf) suf = true -> t = EmptyString.
Proof.
  intros Heq%String.eqb_eq. apply (f_equal String.length) in Heq. rewrite append_length in Heq.
  destruct t; [done|]. simpl in Heq. lia.
Qed.

Lemma digits_length k n : String.length (digits k n) = k.
Proof. induction k as [|k IH]; simpl; auto. Qed.

Lemma seqFromName_segment n : 0 <= n <= MaxInt64 -> seqFromName (segment_name n) = Some n.
Proof.
  intros Hn. unfold seqFromName, segment_name. rewrite (strip_suffix_app _ _ (fun t => append_self t _)).
  unfold ParseInt. destruct (digits 19 n) as [|c s] eqn:E; [by apply (f_equal String.length) in E; rewrite digits_length in E|].
  rewrite <- E, parse_digits_digits by lia. cbn [mbind option_bind]. rewrite Z.mod_small.
  - rewrite Z.mul_0_l, Z.add_0_l. by rewrite (proj2 (Z.leb_le _ _)) by lia.
  - unfold MaxInt64 in Hn. change (10 ^ Z.of_nat 19) with 10000000000000000000. lia.
Qed.

(** ** Lexical order *)

Definition name_le (s t : string) : Prop := String.leb s t = true.

#[global] Instance name_le_dec : RelDecision name_le.
Proof. intros s t. unfold name_le. apply _. Defined.

Lemma digit_compare d e : 0 <= d < 10 -> 0 <= e < 10 -> Ascii.compare (digit d) (digit e) = Z.compare d e.
Proof.
  intros Hd He. unfold Ascii.compare. pose proof (digit_code d Hd) as H1. pose proof (digit_code e He) as H2.
  assert (Hn : forall x, 0 <= x < 10 -> N_of_ascii (digit x) = Z.to_N (48 + x)).
  { intros x Hx. pose proof (digit_code x Hx) as H. unfold nat_of_ascii in H.
    rewrite N_nat_Z in H. lia. }
  rewrite !Hn by done. rewrite Z2N.inj_compare by lia.
  destruct (Z.compare_spec d e), (Z.compare_spec (48 + d) (48 + e)); try done; lia.
Qed.

(** Numerals of one width compare as the numbers they print. *)
Lemma digits_compare k n m s : 0 <= n -> 0 <= m ->
  String.compare (digits k n ++ s) (digits k m ++ s)
    = Z.compare (n mod 10 ^ Z.of_nat k) (m mod 10 ^ Z.of_nat k).
Proof.
  intros Hn Hm. induction k as [|k IH].
  - rewrite !Z.mod_1_r. change (String.compare s s = Eq).
    induction s as [|c s IHs]; [done|]. simpl. unfold Ascii.compare. by rewrite N.compare_refl.
  - rewrite Nat2Z.inj_succ, Z.pow_succ_r by lia. set (p := 10 ^ Z.of_nat k) in *.
    assert (Hp : 0 < p) by (apply Z.pow_pos_nonneg; lia).
    rewrite !(Z.mul_comm 10 p), !(Z.rem_mul_r _ p 10) by lia.
    change (digits (S k) n) with (String (digit ((n / p) mod 10)) (digits k n)).
    change (digits (S k) m) with (String (digit ((m / p) mod 10)) (digits k m)).
    pose proof (mod10 (n / p)). pose proof (mod10 (m / p)).
    pose proof (Z.mod_pos_bound n p Hp). pose proof (Z.mod_pos_bound m p Hp).
    change (match Ascii.compare (digit ((n / p) mod 10)) (digit ((m / p) mod 10)) with
      | Eq => String.compare (digits k n ++ s) (digits k m ++ s) | Lt => Lt | Gt => Gt end
      = Z.compare (n mod p + p * ((n / p) mod 10)) (m mod p + p * ((m / p) mod 10))).
    rewrite digit_compare by done. rewrite IH. destruct (Z.compare_spec ((n / p) mod 10) ((m / p) mod 10)) as [E|E|E].
    + rewrite E. destruct (Z.compare_spec (n mod p) (m mod p)); symmetry;
        [apply Z.compare_eq_iff|apply Z.compare_lt_iff|apply Z.compare_gt_iff]; lia.
    + symmetry. apply Z.compare_lt_iff. nia.
    + symmetry. apply Z.compare_gt_iff. nia.
Qed.

(** Segment names sort as the positions they carry. *)
Lemma name_le_segment n m : 0 <= n <= MaxInt64 -> 0 <= m <= MaxInt64 ->
  name_le (segment_name n) (segment_name m) <-> n <= m.
Proof.
  intros Hn Hm. unfold name_le, String.leb, segment_name. rewrite digits_compare by lia.
  unfold MaxInt64 in *. change (10 ^ Z.of_nat 19) with 10000000000000000000.
  rewrite !Z.mod_small by lia. destruct (Z.compare_spec n m); split; intros; try done; lia.
Qed.
