(* ===== verification/Wal.v ===== *)
(** The log writer and recovery, from [src/internal/oms/wal.go]: [Writer] over a
    directory of segment files, [OpenWriter], [Recover] and [LastPosition].

    The directory is a map from file names to files. A file's bytes are split into
    those an fsync has made durable and those only written; whether its name
    itself is durable is [f_linked], which [syncDir] sets. Each system call takes
    the next entry of [script], which says whether it succeeds and, if not, how
    far it got; an exhausted script means success. [bufio.Writer] is modelled from
    its documented behaviour: a 4096-byte buffer and an error that sticks. *)

From Stdlib Require Import ZArith Lia.
From stdpp Require Import base gmap list strings sorting.
From S2P Require Import Prelude Types Book WalRecord Bytes WalFormat SegNames.

Open Scope Z_scope.

(** * Files *)

Record File := mkFile { f_synced : list Z; f_unsynced : list Z; f_linked : bool }.

Definition f_bytes (f : File) : list Z := f_synced f ++ f_unsynced f.

(** What the next system call does: all of its work, or [n] bytes of it and an error. *)
Inductive SysRes := SysOk | SysErr (n : nat).

Record Dir := mkDir { files : gmap string File; script : list SysRes }.

Definition file_at (name : string) (d : Dir) : File := default (mkFile [] [] false) (files d !! name).
Definition set_file (name : string) (f : File) (d : Dir) : Dir := mkDir (<[name := f]> (files d)) (script d).

Definition sys_next (d : Dir) : SysRes * Dir :=
  (default SysOk (head (script d)), mkDir (files d) (tail (script d))).

(** [os.OpenFile] with [O_CREATE|O_WRONLY|O_TRUNC]. *)
Definition sys_create (name : string) (d : Dir) : Dir * option oms_error :=
  match sys_next d with
  | (SysOk, d) => (set_file name (mkFile [] [] (f_linked (file_at name d))) d, None)
  | (SysErr _, d) => (d, Some ErrWalIO)
  end.

(** [File.Write] at the end of the file: everything, or a part and an error. *)
Definition sys_write (name : string) (p : list Z) (d : Dir) : Dir * nat * option oms_error :=
  let '(r, d) := sys_next d in
  let f := file_at name d in
  match r with
  | SysOk => (set_file name (mkFile (f_synced f) (f_unsynced f ++ p) (f_linked f)) d, length p, None)
  | SysErr n =>
      (set_file name (mkFile (f_synced f) (f_unsynced f ++ take n p) (f_linked f)) d,
       length (take n p), Some ErrWalIO)
  end.

(** [File.Sync]. *)
Definition sys_fsync (name : string) (d : Dir) : Dir * option oms_error :=
  let '(r, d) := sys_next d in
  let f := file_at name d in
  match r with
  | SysOk => (set_file name (mkFile (f_synced f ++ f_unsynced f) [] (f_linked f)) d, None)
  | SysErr n =>
      (set_file name (mkFile (f_synced f ++ take n (f_unsynced f)) (drop n (f_unsynced f)) (f_linked f)) d,
       Some ErrWalIO)
  end.

(** [File.Truncate], and the calls that change nothing: [MkdirAll] of a directory
    that is there, [OpenFile] of a file that is there, [Seek], [Close]. *)
Definition sys_truncate (name : string) (off : nat) (d : Dir) : Dir * option oms_error :=
  match sys_next d with
  | (SysOk, d) =>
      let f := file_at name d in
      (set_file name (mkFile (take off (f_synced f)) (take (off - length (f_synced f)) (f_unsynced f)) (f_linked f)) d,
       None)
  | (SysErr _, d) => (d, Some ErrWalIO)
  end.
Definition sys_touch (d : Dir) : Dir * option oms_error :=
  match sys_next d with
  | (SysOk, d) => (d, None)
  | (SysErr _, d) => (d, Some ErrWalIO)
  end.

(** [syncDir]: open the directory, sync it. *)
Definition syncDir (d : Dir) : Dir * option oms_error :=
  match sys_touch d with
  | (d, Some e) => (d, Some e)
  | (d, None) =>
      match sys_next d with
      | (SysOk, d) =>
          (mkDir ((fun f => mkFile (f_synced f) (f_unsynced f) true) <$> files d) (script d), None)
      | (SysErr _, d) => (d, Some ErrWalIO)
      end
  end.

(** [strings.HasSuffix], which is what the pattern ["*.wal"] asks of a name. *)
Fixpoint has_suffix (suf s : string) : bool :=
  String.eqb s suf || match s with EmptyString => false | String.String _ s => has_suffix suf s end.

(** [segmentPaths]. *)
Definition segmentPaths (d : Dir) : list string :=
  merge_sort name_le (filter (fun n => has_suffix segmentSuffix n = true) (elements (dom (files d)))).

(** * The writer *)

Definition bufSize : nat := 4096.

(** [bufio.Writer] on a file. *)
Record Bufio := mkBufio { bw_buf : list Z; bw_err : option oms_error }.

(** [f] and [bw] are set and cleared together. *)
Record Writer := mkWriter {
  wr_dir : Dir;
  wr_f : option (string * Bufio);
  MaxSegmentBytes : Z;
  segBytes : Z;
  lastSeq : Z
}.

Definition DefaultSegmentBytes : Z := 67108864.

Definition set_bw (d : Dir) (f : option (string * Bufio)) (w : Writer) : Writer :=
  mkWriter d f (MaxSegmentBytes w) (segBytes w) (lastSeq w).

(** [bufio.Writer.Flush]. *)
Definition bw_Flush (name : string) (bw : Bufio) (d : Dir) : Bufio * Dir * option oms_error :=
  match bw_err bw with
  | Some e => (bw, d, Some e)
  | None =>
      if bool_decide (bw_buf bw = []) then (bw, d, None) else
      match sys_write name (bw_buf bw) d with
      | (d, n, Some e) => (mkBufio (drop n (bw_buf bw)) (Some e), d, Some e)
      | (d, _, None) => (mkBufio [] None, d, None)
      end
  end.

(** [bufio.Writer.Write]: a write that does not fit fills the buffer and flushes
    it, or goes straight to the file when the buffer is empty. *)
Fixpoint bw_Write (fuel : nat) (name : string) (p : list Z) (bw : Bufio) (d : Dir)
    : outcome (Bufio * Dir * option oms_error) :=
  match bw_err bw with
  | Some e => Ok (bw, d, Some e)
  | None =>
      if (length p <=? bufSize - length (bw_buf bw))%nat then Ok (mkBufio (bw_buf bw ++ p) None, d, None) else
      match fuel with
      | O => OutOfFuel
      | S fuel =>
          if bool_decide (bw_buf bw = []) then
            let '(d, n, e) := sys_write name p d in
            bw_Write fuel name (drop n p) (mkBufio [] e) d
          else
            let n := (bufSize - length (bw_buf bw))%nat in
            let '(bw, d, _) := bw_Flush name (mkBufio (bw_buf bw ++ take n p) None) d in
            bw_Write fuel name (drop n p) bw d
      end
  end.

(** One fill and one direct write: two iterations always do. *)
Definition write_fuel : nat := 2.

(** Sequencing of Go statements that return early on an error. *)
Definition and_then {S} (m : outcome (S * option oms_error)) (k : S -> outcome (S * option oms_error))
    : outcome (S * option oms_error) :=
  '(s, e) ← m; match e with Some e => Ok (s, Some e) | None => k s end.

(** [w.bw.Write(p)]: a nil [bw] panics. *)
Definition wr_write (p : list Z) (w : Writer) : outcome (Writer * option oms_error) :=
  '(name, bw) ← deref (wr_f w);
  '(bw, d, e) ← bw_Write write_fuel name p bw (wr_dir w);
  Ok (set_bw d (Some (name, bw)) w, e).

(** [Sync]: flush, then fsync. *)
Definition wr_flush (w : Writer) : outcome (Writer * option oms_error) :=
  '(name, bw) ← deref (wr_f w);
  let '(bw, d, e) := bw_Flush name bw (wr_dir w) in
  Ok (set_bw d (Some (name, bw)) w, e).
Definition wr_fsync (w : Writer) : outcome (Writer * option oms_error) :=
  '(name, bw) ← deref (wr_f w);
  let '(d, e) := sys_fsync name (wr_dir w) in
  Ok (set_bw d (Some (name, bw)) w, e).
Definition Sync (w : Writer) : outcome (Writer * option oms_error) := and_then (wr_flush w) wr_fsync.

(** [Close]: the segment is released whatever [Sync] says. *)
Definition Close (w : Writer) : outcome (Writer * option oms_error) :=
  match wr_f w with
  | None => Ok (w, None)
  | Some _ =>
      '(w, err) ← Sync w;
      let '(d, cerr) := sys_touch (wr_dir w) in
      Ok (set_bw d None w, match err with Some e => Some e | None => cerr end)
  end.

(** [openSegment]. *)
Definition openSegment (firstSeq : Z) (w : Writer) : Writer * option oms_error :=
  let name := segment_name firstSeq in
  let fail d e := (set_bw d (wr_f w) w, Some e) in
  match sys_create name (wr_dir w) with
  | (d, Some e) => fail d e
  | (d, None) =>
      match sys_write name seg_header d with
      | (d, _, Some e) => fail (sys_touch d).1 e
      | (d, _, None) =>
          match sys_fsync name d with
          | (d, Some e) => fail (sys_touch d).1 e
          | (d, None) =>
              match syncDir d with
              | (d, Some e) => fail (sys_touch d).1 e
              | (d, None) =>
                  (mkWriter d (Some (name, mkBufio [] None)) (MaxSegmentBytes w)
                     (Z.of_nat walHeaderSize) (lastSeq w), None)
              end
          end
      end
  end.

Definition rotate (firstSeq : Z) (w : Writer) : outcome (Writer * option oms_error) :=
  and_then (Close w) (fun w => Ok (openSegment firstSeq w)).

Section Codec.
Context `{PayloadCodec}.

(** [Append]. *)
Definition Append (rec : WalRecord) (w : Writer) : outcome (Writer * option oms_error) :=
  match encode rec with
  | Fails e => Ok (w, Some e)
  | Good (hdr, payload, crc) =>
      let total := Z.of_nat (recHeaderSize + length payload + walCRCSize) in
      and_then
        (if (MaxSegmentBytes w <? add64 (segBytes w) total) && (Z.of_nat walHeaderSize <? segBytes w)
         then rotate (w_Seq rec) w else Ok (w, None))
        (fun w => and_then (wr_write hdr w) (fun w => and_then (wr_write payload w) (fun w =>
           and_then (wr_write crc w) (fun w =>
             Ok (mkWriter (wr_dir w) (wr_f w) (MaxSegmentBytes w) (add64 (segBytes w) total)
                   (if lastSeq w <? w_Seq rec then w_Seq rec else lastSeq w), None)))))
  end.

(** The position [OpenWriter] and [LastPosition] read off the newest segment: its
    highest record, or, for a segment without one, the position before its name. *)
Definition watermark (name : string) (seq : Z) : Z :=
  match seqFromName name with
  | Some n => if seq <? sub64 n 1 then sub64 n 1 else seq
  | None => seq
  end.

(** [OpenWriter]: the directory afterwards, and the writer or the error. *)
Definition OpenWriter (d : Dir) : Dir * result oms_error Writer :=
  match sys_touch d with
  | (d, Some e) => (d, Fails e)
  | (d, None) =>
      match last (segmentPaths d) with
      | None =>
          match openSegment 1 (mkWriter d None DefaultSegmentBytes 0 0) with
          | (w, Some e) => (wr_dir w, Fails e)
          | (w, None) => (wr_dir w, Good w)
          end
      | Some name =>
          match scanSegment (f_bytes (file_at name d)) with
          | Fails e => (d, Fails e)
          | Good (seq, goodOffset) =>
              match sys_touch d with
              | (d, Some e) => (d, Fails e)
              | (d, None) =>
              match sys_truncate name goodOffset d with
              | (d, Some e) => ((sys_touch d).1, Fails e)
              | (d, None) =>
              match sys_touch d with
              | (d, Some e) => ((sys_touch d).1, Fails e)
              | (d, None) =>
              match sys_fsync name d with
              | (d, Some e) => ((sys_touch d).1, Fails e)
              | (d, None) =>
                  (d, Good (mkWriter d (Some (name, mkBufio [] None)) DefaultSegmentBytes
                              (Z.of_nat goodOffset) (watermark name seq)))
              end end end end
          end
      end
  end.

(** * Recovery *)

(** The loop over one segment's records. *)
Fixpoint replay_after (now : Z -> Z) (afterSeq : Z) (recs : list WalRecord) (last : Z) (b : Book)
    : outcome (Book * Z) :=
  match recs with
  | [] => Ok (b, last)
  | rec :: recs =>
      let last := if last <? w_Seq rec then w_Seq rec else last in
      b ← (if afterSeq <? w_Seq rec then Apply now rec b else Ok b);
      replay_after now afterSeq recs last b
  end.

Fixpoint recover_segments (now : Z -> Z) (afterSeq : Z) (segs : list (list Z)) (last : Z) (b : Book)
    : outcome (Book * Z * option oms_error) :=
  match segs with
  | [] => Ok (b, last, None)
  | seg :: segs =>
      match read_segment seg with
      | Fails e => Ok (b, last, Some e)
      | Good (recs, _, e) =>
          '(b, last) ← replay_after now afterSeq recs last b;
          match e with
          | Some e => Ok (b, last, Some e)
          | None => recover_segments now afterSeq segs last b
          end
      end
  end.

(** The bytes of every segment, in log order. *)
Definition segments (d : Dir) : list (list Z) := (fun n => f_bytes (file_at n d)) <$> segmentPaths d.

(** [Recover]: the book, the highest position seen, and the error if any. *)
Definition Recover (now : Z -> Z) (d : Dir) (b : Book) (afterSeq : Z) : outcome (Book * Z * option oms_error) :=
  recover_segments now afterSeq (segments d) 0 b.

(** [LastPosition]. *)
Definition LastPosition (d : Dir) : result oms_error Z :=
  match last (segmentPaths d) with
  | None => Good 0
  | Some name =>
      match scanSegment (f_bytes (file_at name d)) with
      | Fails e => Fails e
      | Good (seq, _) => Good (watermark name seq)
      end
  end.

(** A writer is a log for the sequencer. [Append] and [Sync] never run out of fuel,
    and panic only on a closed writer, which the sequencer no longer calls. *)
Definition run_op (r : outcome (Writer * option oms_error)) (w : Writer) : Writer * option oms_error :=
  match r with Ok we => we | _ => (w, Some ErrWalIO) end.

#[global] Instance Writer_ops : WalOps Writer := {
  wal_Append rec w := run_op (Append rec w) w;
  wal_Sync w := run_op (Sync w) w;
  wal_LastSeq := lastSeq
}.
End Codec.
