(* ===== verification/WalDir.v ===== *)
(** Directories of segments: the order of their names, and what can be read from a
    segment that was cut anywhere.

    [Seg] is a segment as it was meant: its first position, its records and their
    bytes. [files_of] lays segments out in a directory under their names. *)

From Stdlib Require Import ZArith Lia Ascii String.
From stdpp Require Import base gmap list strings sorting.
From S2P Require Import Prelude Types Book WalRecord Bytes WalFormat WalRead SegNames Wal.

Open Scope Z_scope.

(** * Names *)

Lemma string_compare_trans s t u :
  String.compare s t <> Gt -> String.compare t u <> Gt -> String.compare s u <> Gt.
Proof.
  assert (Hc : forall a b, Ascii.compare a b = N.compare (N_of_ascii a) (N_of_ascii b)) by done.
  revert t u. induction s as [|a s IH]; intros [|b t] [|c u]; simpl; try done. rewrite !Hc.
  destruct (N.compare_spec (N_of_ascii a) (N_of_ascii b)), (N.compare_spec (N_of_ascii b) (N_of_ascii c)),
    (N.compare_spec (N_of_ascii a) (N_of_ascii c)); try done; try lia. apply IH.
Qed.

Lemma name_le_compare s t : name_le s t <-> String.compare s t <> Gt.
Proof. unfold name_le, String.leb. by destruct (String.compare s t). Qed.

#[global] Instance name_le_trans : Transitive name_le.
Proof. intros s t u. rewrite !name_le_compare. apply string_compare_trans. Qed.

#[global] Instance name_le_antisymm : AntiSymm eq name_le.
Proof.
  intros s t. rewrite !name_le_compare, (String.compare_antisym t s). intros H1 H2.
  apply String.compare_eq_iff. by destruct (String.compare s t).
Qed.

#[global] Instance name_le_total : Total name_le.
Proof.
  intros s t. rewrite !name_le_compare, (String.compare_antisym t s).
  destruct (String.compare s t); simpl; auto; by right.
Qed.

Lemma has_suffix_app s suf : has_suffix suf (s ++ suf) = true.
Proof.
  induction s as [|c s IH].
  - change (EmptyString ++ suf)%string with suf. destruct suf; cbn [has_suffix]; by rewrite String.eqb_refl.
  - change (String c s ++ suf)%string with (String c (s ++ suf)). cbn [has_suffix]. by rewrite IH, orb_true_r.
Qed.

(** Positions, hence names, start at 1. *)
Definition name_ok (n : Z) : Prop := 1 <= n <= MaxInt64.

Lemma name_ok_range n : name_ok n -> 0 <= n <= MaxInt64.
Proof. unfold name_ok. lia. Qed.

Lemma segment_name_inj n m : name_ok n -> name_ok m -> segment_name n = segment_name m -> n = m.
Proof.
  intros Hn Hm Heq. apply (f_equal seqFromName) in Heq.
  rewrite !seqFromName_segment in Heq by by apply name_ok_range.
  by injection Heq.
Qed.

(** * Directories *)

Definition files_of (l : list (Z * File)) : gmap string File :=
  list_to_map ((fun p => (segment_name p.1, p.2)) <$> l).

Definition names_ok (l : list Z) : Prop := StronglySorted Z.lt l /\ Forall name_ok l.

Lemma names_ok_app l k : names_ok (l ++ k) -> names_ok l /\ names_ok k /\ (forall x y, x ∈ l -> y ∈ k -> x < y).
Proof.
  intros [Hs Hn]. apply StronglySorted_app in Hs as (H1 & H2 & H3). apply Forall_app in Hn as [? ?].
  split_and!; try done.
Qed.

Lemma names_NoDup l : names_ok l -> NoDup (segment_name <$> l).
Proof.
  intros [Hs Hn]. induction Hs as [|n l Hs IH Hlt]; [constructor|].
  apply Forall_cons in Hn as [Hn Hl]. rewrite fmap_cons. constructor; [|by apply IH].
  intros (m & Heq & Hm)%list_elem_of_fmap. rewrite Forall_forall in Hlt, Hl.
  apply segment_name_inj in Heq; [|done|by apply Hl]. specialize (Hlt m Hm). lia.
Qed.

Section Layout.
Context (l : list (Z * File)) (Hl : names_ok l.*1).

Lemma files_of_keys : ((fun p => (segment_name p.1, p.2)) <$> l).*1 = segment_name <$> l.*1.
Proof. rewrite <- !list_fmap_compose. done. Qed.

Lemma files_of_lookup n f : (n, f) ∈ l -> files_of l !! segment_name n = Some f.
Proof.
  intros Hin. apply elem_of_list_to_map_1.
  - rewrite files_of_keys. by apply names_NoDup.
  - apply (list_elem_of_fmap_2 (fun p => (segment_name p.1, p.2)) l (n, f) Hin).
Qed.

Lemma files_of_names : elements (dom (files_of l)) ≡ₚ segment_name <$> l.*1.
Proof.
  unfold files_of. apply NoDup_Permutation; [apply NoDup_elements|by apply names_NoDup|].
  intros x. rewrite elem_of_elements, dom_list_to_map_L, elem_of_list_to_set, files_of_keys. done.
Qed.

(** [segmentPaths] lists the segments in the order of their positions. *)
Lemma segmentPaths_files sc : segmentPaths (mkDir (files_of l) sc) = segment_name <$> l.*1.
Proof.
  unfold segmentPaths. simpl. apply (StronglySorted_unique name_le).
  - by apply StronglySorted_merge_sort; apply _.
  - destruct Hl as [Hs Hn]. clear Hl. induction Hs as [|n k Hs IH Hlt]; [constructor|].
    apply Forall_cons in Hn as [Hn Hk]. rewrite fmap_cons. constructor; [by apply IH|].
    apply Forall_fmap, Forall_forall. intros m Hm. simpl. rewrite Forall_forall in Hlt, Hk.
    apply name_le_segment; [by apply name_ok_range|by apply name_ok_range, Hk|]. specialize (Hlt m Hm). lia.
  - rewrite merge_sort_Permutation, filter_keep; [apply files_of_names|].
    rewrite files_of_names. apply Forall_fmap, Forall_forall. intros n _. apply has_suffix_app.
Qed.

Lemma file_at_files n f sc : (n, f) ∈ l -> file_at (segment_name n) (mkDir (files_of l) sc) = f.
Proof. intros H. unfold file_at. simpl. by rewrite (files_of_lookup n f). Qed.

(** Reading every segment in order. *)
Lemma map_segments {A} (g : File -> A) sc :
  (fun n => g (file_at n (mkDir (files_of l) sc))) <$> segmentPaths (mkDir (files_of l) sc) = g <$> l.*2.
Proof.
  rewrite segmentPaths_files, <- !list_fmap_compose. apply list_fmap_ext. intros i [n f] Hi. simpl.
  f_equal. apply file_at_files. by eapply list_elem_of_lookup_2.
Qed.
End Layout.

Lemma files_of_snoc l n f : names_ok (l.*1 ++ [n]) -> files_of (l ++ [(n, f)]) = <[segment_name n := f]> (files_of l).
Proof.
  intros Hn. unfold files_of. rewrite fmap_app. simpl. apply list_to_map_snoc.
  rewrite files_of_keys. apply names_NoDup in Hn. rewrite fmap_app in Hn. apply NoDup_app in Hn as (_ & Hn & _).
  intros Hin. apply (Hn _ Hin). by left.
Qed.

Lemma files_of_set l n f g sc : names_ok (l.*1 ++ [n]) ->
  set_file (segment_name n) g (mkDir (files_of (l ++ [(n, f)])) sc) = mkDir (files_of (l ++ [(n, g)])) sc.
Proof. intros Hn. unfold set_file. simpl. by rewrite !files_of_snoc, insert_insert_eq. Qed.

Lemma files_of_last l n f sc : names_ok (l.*1 ++ [n]) ->
  file_at (segment_name n) (mkDir (files_of (l ++ [(n, f)])) sc) = f.
Proof. intros Hn. unfold file_at. simpl. by rewrite files_of_snoc, lookup_insert_eq. Qed.

(** * Segments *)

Section Segments.
Context `{CodecLaws}.

Record Seg := mkSeg { sg_first : Z; sg_recs : list WalRecord; sg_chunks : list (list Z) }.

Definition seg_ok (sg : Seg) : Prop := Forall loggable (sg_recs sg) /\ Forall2 enc (sg_recs sg) (sg_chunks sg).
Definition content (sg : Seg) : list Z := seg_header ++ concat (sg_chunks sg).

(** The records a reader gets out of a segment, up to a failure. *)
Definition readable (bs : list Z) : list WalRecord :=
  match read_segment bs with Good (recs, _, _) => recs | Fails _ => [] end.

Lemma seg_header_length : length seg_header = 8%nat.
Proof. done. Qed.

Lemma read_segment_header bs : read_segment (seg_header ++ bs) = Good (records_from bs 8).
Proof. done. Qed.

(** A segment cut at [k] bytes holds the [j] records that are wholly there. *)
Definition whole (sg : Seg) (k j : nat) : Prop :=
  (j <= length (sg_recs sg))%nat /\ (8 + length (concat (take j (sg_chunks sg))) <= k)%nat /\
  (forall i, (8 + length (concat (take i (sg_chunks sg))) <= k)%nat -> (i <= length (sg_recs sg))%nat -> (i <= j)%nat).

Lemma read_cut sg k : seg_ok sg -> (8 <= k)%nat ->
  exists j, whole sg k j /\ read_segment (take k (content sg)) =
    Good (take j (sg_recs sg), (8 + length (concat (take j (sg_chunks sg))))%nat, None).
Proof.
  intros [Hlog Henc] Hk. unfold content. rewrite take_app_ge by done. rewrite read_segment_header.
  rewrite seg_header_length. destruct (Nat.le_gt_cases (k - 8) (length (concat (sg_chunks sg)))) as [Hle|Hgt].
  - destruct (records_from_torn (sg_recs sg) (sg_chunks sg) (k - 8) 8 Hlog Henc Hle) as (j & Hj & Hr & Hlen & Hmax).
    exists j. split; [|by rewrite Hr]. split_and!; [done|lia|]. intros i Hi. apply Hmax. lia.
  - exists (length (sg_recs sg)). rewrite (take_ge (concat _)) by lia.
    rewrite (records_from_chunks (sg_recs sg)) by done. pose proof (Forall2_length _ _ _ Henc) as Hlen.
    unfold whole. rewrite Hlen, (take_ge (sg_chunks sg)), <- Hlen, (take_ge (sg_recs sg)) by done.
    split_and!; try done; lia.
Qed.

Lemma read_full sg : seg_ok sg ->
  read_segment (content sg) = Good (sg_recs sg, length (content sg), None).
Proof.
  intros [Hlog Henc]. unfold content. rewrite read_segment_header, (records_from_chunks (sg_recs sg)) by done.
  by rewrite length_app.
Qed.

Lemma readable_full sg : seg_ok sg -> readable (content sg) = sg_recs sg.
Proof. intros Hok. unfold readable. by rewrite read_full. Qed.

Lemma readable_short bs : (length bs < 8)%nat -> readable bs = [].
Proof.
  intros Hlt. unfold readable, read_segment, read_at, check_header.
  rewrite (proj2 (Nat.ltb_ge _ _)) by done. by rewrite (proj2 (Nat.ltb_lt _ _)) by done.
Qed.

Lemma prefix_take {A} (l k : list A) : l `prefix_of` k -> l = take (length l) k.
Proof. intros [r ->]. by rewrite take_app_length. Qed.

(** Reading more of a segment never loses a record. *)
Lemma readable_mono sg s t : seg_ok sg -> s `prefix_of` t -> t `prefix_of` content sg ->
  readable s `prefix_of` readable t.
Proof.
  intros Hok Hst Ht. assert (Hs : s `prefix_of` content sg) by (by etransitivity).
  apply prefix_length in Hst as Hlen. destruct (Nat.lt_ge_cases (length s) 8).
  - rewrite (readable_short s) by done. apply prefix_nil.
  - rewrite (prefix_take _ _ Hs), (prefix_take _ _ Ht). unfold readable.
    destruct (read_cut sg (length s) Hok ltac:(lia)) as (j & (Hj & Hlj & _) & ->).
    destruct (read_cut sg (length t) Hok ltac:(lia)) as (j' & (_ & _ & Hmax) & ->).
    assert (Hle : (j <= j')%nat) by (apply Hmax; [lia|done]).
    exists (drop j (take j' (sg_recs sg))). rewrite <- (take_drop j (take j' _)) at 1.
    by rewrite take_take, Nat.min_l.
Qed.

Lemma readable_prefix sg s : seg_ok sg -> s `prefix_of` content sg -> readable s `prefix_of` sg_recs sg.
Proof. intros Hok Hs. rewrite <- (readable_full sg Hok). by apply (readable_mono sg). Qed.
End Segments.
