(* ===== verification/WalInv.v ===== *)
(** The invariant of a log writer, preserved by [Append], [Sync] and rotation.

    [streaming] follows one segment through buffered writes: what is on disk and
    in the buffer is always a prefix of what was asked for, all of it while the
    buffer's error is clear. [healthy_as] is the whole writer between operations. *)

From Stdlib Require Import ZArith Lia.
From stdpp Require Import base gmap list strings sorting.
From S2P Require Import Prelude Types Book WalRecord Bytes WalFormat WalRead SegNames Wal WalDir.

Open Scope Z_scope.

(** * Buffered writes *)

Section Streaming.
Context (l : list (Z * File)) (n : Z) (Hn : names_ok (l.*1 ++ [n])).

Let name := segment_name n.

(** [data] has been written through [bw]; [s0] was durable to begin with. *)
Definition streaming (s0 data : list Z) (bw : Bufio) (d : Dir) : Prop :=
  exists s u, files d = files_of (l ++ [(n, mkFile s u true)]) /\ s0 `prefix_of` s /\
    (length (bw_buf bw) <= bufSize)%nat /\
    match bw_err bw with
    | None => s ++ u ++ bw_buf bw = data
    | Some _ => s ++ u `prefix_of` data
    end.

Lemma streaming_more s0 data p bw d : bw_err bw <> None -> streaming s0 data bw d -> streaming s0 (data ++ p) bw d.
Proof.
  intros He (s & u & H1 & H2 & H3 & H4). exists s, u. split_and!; try done.
  destruct (bw_err bw); [|done]. by apply prefix_app_r.
Qed.

(** A write to the file. *)
Lemma sys_write_files s u p d d' k e : files d = files_of (l ++ [(n, mkFile s u true)]) ->
  sys_write name p d = (d', k, e) ->
  exists w, w `prefix_of` p /\ k = length w /\ files d' = files_of (l ++ [(n, mkFile s (u ++ w) true)]) /\
    (e = None -> w = p) /\ drop k p = drop (length w) p.
Proof.
  intros Hf. unfold sys_write, sys_next. destruct d as [fs sc]. simpl in Hf |- *. subst fs.
  rewrite (files_of_last l n _ (tail sc) Hn). destruct (default SysOk (head sc)) as [|m].
  - intros [= <- <- <-]. exists p. unfold name. rewrite files_of_set by done. by split_and!.
  - intros [= <- <- <-]. exists (take m p). unfold name. rewrite files_of_set by done. split_and!; try done.
    exists (drop m p). by rewrite take_drop.
Qed.

Lemma flush_streaming s0 data bw d bw' d' e : streaming s0 data bw d -> bw_Flush name bw d = (bw', d', e) ->
  streaming s0 data bw' d' /\ bw_err bw' = e /\ (e = None -> bw_buf bw' = []).
Proof.
  intros (s & u & Hf & Hs & Hb & Hd). unfold bw_Flush. destruct bw as [buf err]. simpl in *.
  destruct err as [e0|].
  { intros [= <- <- <-]. split; [by exists s, u|done]. }
  case_bool_decide as Hnil.
  { intros [= <- <- <-]. split; [by exists s, u|done]. }
  destruct (sys_write name buf d) as [[d1 k] e1] eqn:Hw.
  destruct (sys_write_files s u buf d d1 k e1 Hf Hw) as (w & Hw1 & -> & Hf1 & Hok & _).
  destruct e1 as [e1|]; intros [= <- <- <-]; (split; [exists s, (u ++ w)|done]); split_and!; simpl; try done.
  - rewrite length_drop. lia.
  - rewrite <- Hd. by do 2 apply prefix_app.
  - lia.
  - rewrite (Hok eq_refl), app_nil_r. done.
Qed.

(** What a write leaves, when it returns. *)
Definition written (s0 data : list Z) (r : outcome (Bufio * Dir * option oms_error)) : Prop :=
  exists bw d e, r = Ok (bw, d, e) /\ streaming s0 data bw d /\ bw_err bw = e.

Lemma write_fits fuel p s0 data bw d : streaming s0 data bw d ->
  (bw_err bw = None -> (length p <= bufSize - length (bw_buf bw))%nat) ->
  written s0 (data ++ p) (bw_Write fuel name p bw d).
Proof.
  intros Hst Hle. destruct bw as [buf [e0|]]; simpl in *.
  - exists (mkBufio buf (Some e0)), d, (Some e0). split_and!; [by destruct fuel| |done]. by apply streaming_more.
  - exists (mkBufio (buf ++ p) None), d, None. specialize (Hle eq_refl).
    split_and!; [destruct fuel; simpl; by rewrite (proj2 (Nat.leb_le _ _))| |done].
    destruct Hst as (s & u & Hf & Hs & Hb & Hd). exists s, u. simpl in *. split_and!; try done.
    + rewrite length_app. unfold bufSize in *. lia.
    + by rewrite <- Hd, <- !app_assoc.
Qed.

(** An empty buffer: small writes are kept, large ones go straight to the file. *)
Lemma write_direct fuel p s0 data d : streaming s0 data (mkBufio [] None) d ->
  written s0 (data ++ p) (bw_Write (S fuel) name p (mkBufio [] None) d).
Proof.
  intros Hst. destruct (Nat.leb_spec (length p) bufSize) as [Hle|Hgt];
    [apply write_fits; [done|]; intros _; simpl; unfold bufSize in *; lia|].
  cbn [bw_Write bw_err bw_buf length]. rewrite Nat.sub_0_r, (proj2 (Nat.leb_gt _ _)) by done.
  rewrite bool_decide_true by done. destruct Hst as (s & u & Hf & Hs & Hb & Hd). simpl in Hd.
  destruct (sys_write name p d) as [[d1 k] e1] eqn:Hw.
  destruct (sys_write_files s u p d d1 k e1 Hf Hw) as (w & Hw1 & -> & Hf1 & Hok & _).
  rewrite app_nil_r in Hd.
  assert (Hst1 : streaming s0 (data ++ w) (mkBufio [] e1) d1).
  { exists s, (u ++ w). split_and!; try done; simpl; try (unfold bufSize; lia).
    rewrite <- Hd, <- !app_assoc, app_nil_r. by destruct e1. }
  destruct Hw1 as [r ->]. rewrite drop_app_length, app_assoc. apply write_fits; [done|].
  simpl. intros ->. specialize (Hok eq_refl). apply (f_equal length) in Hok. rewrite length_app in Hok.
  unfold bufSize. lia.
Qed.

(** One buffered write: never out of fuel. *)
Lemma write_streaming s0 data bw d p : streaming s0 data bw d ->
  written s0 (data ++ p) (bw_Write write_fuel name p bw d).
Proof.
  intros Hst. unfold write_fuel. destruct bw as [buf [e0|]]; [by apply write_fits|].
  destruct (Nat.leb_spec (length p) (bufSize - length buf)) as [Hle|Hgt]; [by apply write_fits|].
  destruct (decide (buf = [])) as [->|Hne]; [by apply write_direct|].
  cbn [bw_Write bw_err bw_buf]. rewrite (proj2 (Nat.leb_gt _ _)), bool_decide_false by done.
  destruct Hst as (s & u & Hf & Hs & Hb & Hd). simpl in Hb, Hd.
  set (k := (bufSize - length buf)%nat) in *.
  assert (Hst1 : streaming s0 (data ++ take k p) (mkBufio (buf ++ take k p) None) d).
  { exists s, u. split_and!; try done; simpl; [rewrite length_app, length_take; lia|].
    by rewrite <- Hd, <- !app_assoc. }
  destruct (bw_Flush name (mkBufio (buf ++ take k p) None) d) as [[bw1 d1] e1] eqn:Hfl.
  destruct (flush_streaming _ _ _ _ _ _ _ Hst1 Hfl) as (Hst2 & He1 & Hnil).
  replace (data ++ p) with ((data ++ take k p) ++ drop k p) by (rewrite <- app_assoc; by rewrite take_drop).
  destruct e1 as [e1|].
  - apply (write_fits 1 _ _ _ _ _ Hst2). congruence.
  - specialize (Hnil eq_refl). destruct bw1 as [buf1 err1]. simpl in *. subst buf1 err1. by apply (write_direct 0).
Qed.

(** fsync. *)
Lemma fsync_streaming s0 data bw d d' e : streaming s0 data bw d -> sys_fsync name d = (d', e) ->
  streaming s0 data bw d' /\
  (e = None -> bw_err bw = None -> bw_buf bw = [] -> files d' = files_of (l ++ [(n, mkFile data [] true)])).
Proof.
  intros (s & u & Hf & Hs & Hb & Hd). unfold sys_fsync, sys_next. destruct d as [fs sc]. simpl in Hf |- *. subst fs.
  rewrite (files_of_last l n _ (tail sc) Hn). destruct (default SysOk (head sc)) as [|m];
    intros [= <- <-]; unfold name; rewrite files_of_set by done; simpl; split; try done.
  - exists (s ++ u), []. split_and!; try done; [by apply prefix_app_r|].
    simpl. destruct (bw_err bw); [by rewrite app_nil_r|]. by rewrite <- app_assoc.
  - intros _ He Hnil. rewrite He in Hd. rewrite Hnil, app_nil_r in Hd. by rewrite <- Hd.
  - exists (s ++ take m u), (drop m u). split_and!; try done; [by apply prefix_app_r|].
    destruct (bw_err bw); rewrite <- ?app_assoc; [by rewrite take_drop|].
    by rewrite (app_assoc (take m u)), take_drop.
Qed.
End Streaming.

(** * Opening a segment *)

(** A directory whose last segment may be on its way in: its name is not durable. *)
Definition opening (l : list (Z * File)) (n : Z) (d : Dir) : Prop :=
  files d = files_of l \/ exists s u, files d = files_of (l ++ [(n, mkFile s u false)]).

Section Opening.
Context (l : list (Z * File)) (n : Z) (Hn : names_ok (l.*1 ++ [n])).

Lemma names_fresh : files_of l !! segment_name n = None.
Proof.
  apply not_elem_of_list_to_map_1. rewrite files_of_keys. apply names_NoDup in Hn. rewrite fmap_app in Hn.
  apply NoDup_app in Hn as (_ & H & _). intros Hin. apply (H _ Hin). by left.
Qed.

Lemma files_of_linked k : (fun f => mkFile (f_synced f) (f_unsynced f) true) <$> files_of k
  = files_of ((fun p => (p.1, mkFile (f_synced p.2) (f_unsynced p.2) true)) <$> k).
Proof. unfold files_of. rewrite <- list_to_map_fmap, <- !list_fmap_compose. done. Qed.

Lemma linked_id (k : list (Z * File)) : Forall (fun p => f_linked p.2 = true) k ->
  (fun p => (p.1, mkFile (f_synced p.2) (f_unsynced p.2) true)) <$> k = k.
Proof.
  induction 1 as [|[m [s u b]] k Hk _ IH]; [done|]. rewrite fmap_cons, IH. simpl in *. by rewrite Hk.
Qed.

Lemma sys_touch_files d d' e : sys_touch d = (d', e) -> files d' = files d.
Proof. unfold sys_touch, sys_next. by destruct (default SysOk _); intros [= <- _]. Qed.

Lemma openSegment_spec w w' e : files (wr_dir w) = files_of l -> Forall (fun p => f_linked p.2 = true) l ->
  openSegment n w = (w', e) ->
  match e with
  | None => w' = mkWriter (wr_dir w') (Some (segment_name n, mkBufio [] None)) (MaxSegmentBytes w)
                   (Z.of_nat walHeaderSize) (lastSeq w) /\
            files (wr_dir w') = files_of (l ++ [(n, mkFile seg_header [] true)])
  | Some _ => opening l n (wr_dir w') \/ files (wr_dir w') = files_of (l ++ [(n, mkFile seg_header [] true)])
  end.
Proof.
  intros Hf Hlk. unfold openSegment. destruct w as [[fs sc] ff mx sb ls]. simpl in *. subst fs.
  unfold sys_create, sys_next. simpl. destruct (default SysOk (head sc)).
  2:{ intros [= <- <-]. left. by left. }
  assert (Hsw : forall f sc', set_file (segment_name n) f (mkDir (files_of l) sc') = mkDir (files_of (l ++ [(n, f)])) sc')
    by (intros; unfold set_file; simpl; by rewrite files_of_snoc).
  unfold file_at at 1. simpl. rewrite names_fresh. simpl. rewrite Hsw. clear Hsw.
  assert (Hop : forall s u d, files d = files_of (l ++ [(n, mkFile s u false)]) -> opening l n (sys_touch d).1).
  { intros s u d Hd. destruct (sys_touch d) as [d' e'] eqn:E. right. exists s, u. simpl.
    by rewrite (sys_touch_files _ _ _ E). }
  unfold sys_write, sys_next. simpl. rewrite files_of_last by done. simpl. generalize (tail sc). intros sc1.
  destruct (default SysOk (head sc1)); simpl; rewrite files_of_set by done.
  2:{ intros [= <- <-]. left. by eapply Hop. }
  unfold sys_fsync, sys_next. simpl. rewrite files_of_last by done. simpl. generalize (tail sc1). intros sc2.
  destruct (default SysOk (head sc2)); simpl; rewrite files_of_set by done.
  2:{ intros [= <- <-]. left. by eapply Hop. }
  unfold syncDir. destruct (sys_touch _) as [d1 [e1|]] eqn:E1; apply sys_touch_files in E1; simpl in E1.
  { intros [= <- <-]. left. by eapply Hop. }
  unfold sys_next. destruct (default SysOk (head (script d1))); simpl.
  2:{ intros [= <- <-]. left. eapply Hop. exact E1. }
  intros [= <- <-]. simpl. split; [done|]. rewrite E1, files_of_linked, fmap_app, linked_id by done. done.
Qed.
End Opening.
