(* ===== verification/WalLaw.v ===== *)
(** The log writer keeps the promises of [WalLaws].

    [healthy_as closed sg w] describes a writer none of whose operations failed:
    the segments [closed] are wholly durable, [sg] is open, and the positions of
    all records, and the segments' names between them, increase. *)

From Stdlib Require Import ZArith Lia.
From stdpp Require Import base gmap list strings sorting.
From S2P Require Import Prelude Types Book WalRecord Bytes WalFormat WalRead SegNames Wal WalDir WalInv.

Open Scope Z_scope.

Section Laws.
Context `{CodecLaws}.

(** What a crash cannot take from a file. *)
Definition stable (f : File) : list Z := if f_linked f then f_synced f else [].

Definition durable_dir (d : Dir) : list WalRecord :=
  concat ((fun n => readable (stable (file_at n d))) <$> segmentPaths d).

Definition buf_of (w : Writer) (name : string) : list Z :=
  match wr_f w with Some (n, bw) => if decide (n = name) then bw_buf bw else [] | None => [] end.

Definition appended (w : Writer) : list WalRecord :=
  concat ((fun n => readable (f_bytes (file_at n (wr_dir w)) ++ buf_of w n)) <$> segmentPaths (wr_dir w)).

Definition all_recs (segs : list Seg) : list WalRecord := concat (sg_recs <$> segs).

(** A segment's name and positions, as one increasing sequence: a name comes just
    before the first position it announces. *)
Definition marks (sg : Seg) : list Z := (2 * sg_first sg - 1) :: ((fun r => 2 * w_Seq r) <$> sg_recs sg).
Definition all_marks (segs : list Seg) : list Z := concat (marks <$> segs).

Definition closed_files (segs : list Seg) : list (Z * File) :=
  (fun sg => (sg_first sg, mkFile (content sg) [] true)) <$> segs.

(** The position a segment has reached. *)
Definition seg_top (sg : Seg) : Z :=
  match last (sg_recs sg) with Some r => w_Seq r | None => sg_first sg - 1 end.

Record healthy_as (closed : list Seg) (sg : Seg) (w : Writer) : Prop := {
  hw_segs : Forall seg_ok (closed ++ [sg]);
  hw_names : Forall name_ok (sg_first <$> closed ++ [sg]);
  hw_order : StronglySorted Z.lt (all_marks (closed ++ [sg]));
  hw_top : lastSeq w = seg_top sg;
  hw_seq : 0 <= lastSeq w <= MaxInt64;
  hw_bytes : segBytes w = Z.of_nat (length (content sg));
  hw_room : segBytes w <= MaxInt64 - 2097152 /\ MaxSegmentBytes w <= MaxInt64 - 2097152;
  hw_file : exists bw, wr_f w = Some (segment_name (sg_first sg), bw) /\ bw_err bw = None /\
    streaming (closed_files closed) (sg_first sg) seg_header (content sg) bw (wr_dir w)
}.

(** ** Names and files *)

Lemma all_marks_app a b : all_marks (a ++ b) = all_marks a ++ all_marks b.
Proof. unfold all_marks. by rewrite fmap_app, concat_app. Qed.

Lemma all_recs_app a b : all_recs (a ++ b) = all_recs a ++ all_recs b.
Proof. unfold all_recs. by rewrite fmap_app, concat_app. Qed.

Lemma first_in_marks sg segs : sg ∈ segs -> 2 * sg_first sg - 1 ∈ all_marks segs.
Proof.
  intros Hin. unfold all_marks. apply list_elem_of_In, in_concat. exists (marks sg).
  split; apply list_elem_of_In; [by apply list_elem_of_fmap_2|by left].
Qed.

Lemma marks_names segs : StronglySorted Z.lt (all_marks segs) -> StronglySorted Z.lt (sg_first <$> segs).
Proof.
  induction segs as [|sg segs IH]; [constructor|]. intros Hs.
  change (sg :: segs) with ([sg] ++ segs) in Hs. rewrite all_marks_app in Hs.
  apply StronglySorted_app in Hs as (Hlt & _ & Hs). rewrite fmap_cons. constructor; [by apply IH|].
  apply Forall_fmap, Forall_forall. intros x Hx. simpl.
  assert (Hm : 2 * sg_first sg - 1 < 2 * sg_first x - 1).
  { apply Hlt; [|by apply first_in_marks]. apply first_in_marks. by left. }
  lia.
Qed.

Lemma sorted_last l m : StronglySorted Z.lt (l ++ [m]) -> Forall (fun x => x <= m) (l ++ [m]).
Proof.
  intros (Hs & _)%StronglySorted_app. apply Forall_app. split; [|by repeat constructor].
  apply Forall_forall. intros x Hx. assert (x < m) by (apply Hs; [done|by left]). lia.
Qed.

(** Nothing in the log is past the position of its last segment. *)
Lemma marks_top closed sg : StronglySorted Z.lt (all_marks (closed ++ [sg])) ->
  Forall (fun m => m <= 2 * seg_top sg + 1) (all_marks (closed ++ [sg])) /\
  (sg_recs sg <> [] -> Forall (fun m => m <= 2 * seg_top sg) (all_marks (closed ++ [sg]))).
Proof.
  intros Hs. unfold seg_top. rewrite all_marks_app in *. assert (Hsg : all_marks [sg] = marks sg) by (unfold all_marks; simpl; by rewrite app_nil_r).
  rewrite Hsg in *. unfold marks in *. destruct (sg_recs sg) as [|r recs _] using rev_ind.
  - simpl in *. apply sorted_last in Hs. split; [|done]. eapply Forall_impl; [exact Hs|]. simpl. intros; lia.
  - rewrite last_snoc. rewrite fmap_app, app_comm_cons, app_assoc in *. apply sorted_last in Hs.
    split; [|done]. eapply Forall_impl; [exact Hs|]. simpl. intros; lia.
Qed.

Lemma hw_last closed sg w : healthy_as closed sg w ->
  Forall (fun m => m <= 2 * lastSeq w + 1) (all_marks (closed ++ [sg])).
Proof. intros Hw. rewrite (hw_top _ _ _ Hw). apply marks_top, Hw. Qed.

Lemma hw_some closed sg w : healthy_as closed sg w -> sg_recs sg <> [] ->
  Forall (fun m => m <= 2 * lastSeq w) (all_marks (closed ++ [sg])).
Proof. intros Hw. rewrite (hw_top _ _ _ Hw). apply marks_top, Hw. Qed.

Lemma closed_files_fst segs : (closed_files segs).*1 = sg_first <$> segs.
Proof. unfold closed_files. by rewrite <- list_fmap_compose. Qed.

Lemma healthy_names closed sg w : healthy_as closed sg w -> names_ok ((closed_files closed).*1 ++ [sg_first sg]).
Proof.
  intros Hw. rewrite closed_files_fst. pose proof (marks_names _ (hw_order _ _ _ Hw)) as Hs.
  pose proof (hw_names _ _ _ Hw) as Hn. rewrite fmap_app in Hs, Hn. by split.
Qed.

Lemma closed_files_snoc segs sg :
  closed_files (segs ++ [sg]) = closed_files segs ++ [(sg_first sg, mkFile (content sg) [] true)].
Proof. unfold closed_files. by rewrite fmap_app. Qed.

Lemma read_closed (g : File -> list Z) segs : Forall seg_ok segs ->
  (forall c, g (mkFile c [] true) = c) ->
  concat ((fun f => readable (g f)) <$> (closed_files segs).*2) = all_recs segs.
Proof.
  intros Hok Hg. unfold all_recs, closed_files. rewrite <- !list_fmap_compose. f_equal.
  apply list_fmap_ext. intros i sg Hi. simpl. rewrite Hg. apply readable_full.
  rewrite Forall_forall in Hok. apply Hok. by eapply list_elem_of_lookup_2.
Qed.

Lemma durable_files l d : names_ok l.*1 -> files d = files_of l ->
  durable_dir d = concat ((fun f => readable (stable f)) <$> l.*2).
Proof.
  intros Hn Hf. unfold durable_dir. destruct d as [fs sc]. simpl in Hf. subst fs.
  by rewrite (map_segments l Hn (fun f => readable (stable f)) sc).
Qed.

(** The durable log of closed segments and one more file. *)
Lemma durable_open segs n f d : Forall seg_ok segs -> names_ok ((closed_files segs).*1 ++ [n]) ->
  files d = files_of (closed_files segs ++ [(n, f)]) -> durable_dir d = all_recs segs ++ readable (stable f).
Proof.
  intros Hok Hn Hf. rewrite (durable_files (closed_files segs ++ [(n, f)])); [|by rewrite fmap_app|done].
  rewrite !fmap_app, concat_app, (read_closed stable) by done. simpl. by rewrite app_nil_r.
Qed.

Lemma durable_closed segs d : Forall seg_ok segs -> names_ok (closed_files segs).*1 ->
  files d = files_of (closed_files segs) -> durable_dir d = all_recs segs.
Proof. intros Hok Hn Hf. rewrite (durable_files (closed_files segs)) by done. by rewrite (read_closed stable). Qed.

(** However an operation on the open segment ends, nothing durable is lost. *)
Lemma streaming_durable closed sg s u d bw d' : Forall seg_ok closed -> seg_ok sg ->
  names_ok ((closed_files closed).*1 ++ [sg_first sg]) ->
  files d = files_of (closed_files closed ++ [(sg_first sg, mkFile s u true)]) ->
  streaming (closed_files closed) (sg_first sg) s (content sg) bw d' ->
  durable_dir d `prefix_of` durable_dir d'.
Proof.
  intros Hc Hsg Hn Hf (s' & u' & Hf' & Hs & _ & Hd).
  rewrite (durable_open closed _ _ d Hc Hn Hf), (durable_open closed _ _ d' Hc Hn Hf'). apply prefix_app.
  apply (readable_mono sg); [done|done|]. etransitivity; [by apply prefix_app_r|].
  simpl. destruct (bw_err bw) as [e|]; [exact Hd|]. rewrite <- Hd, app_assoc. by apply prefix_app_r.
Qed.

Lemma healthy_segs closed sg w : healthy_as closed sg w -> Forall seg_ok closed /\ seg_ok sg.
Proof. intros Hw. pose proof (hw_segs _ _ _ Hw) as Hs. by apply Forall_app in Hs as [? [? _]%Forall_cons]. Qed.

Lemma healthy_appended closed sg w : healthy_as closed sg w -> appended w = all_recs (closed ++ [sg]).
Proof.
  intros Hw. pose proof (healthy_names _ _ _ Hw) as Hn. destruct (healthy_segs _ _ _ Hw) as [Hc Hsg].
  destruct (hw_file _ _ _ Hw) as (bw & Hf & He & (s & u & Hfs & _ & _ & Hd)). rewrite He in Hd.
  unfold appended, buf_of. rewrite Hf. destruct (wr_dir w) as [fs sc]. simpl in *. subst fs.
  set (l := closed_files closed ++ [(sg_first sg, mkFile s u true)]).
  assert (Hl : names_ok l.*1) by (unfold l; by rewrite fmap_app).
  rewrite (segmentPaths_files l Hl sc), <- list_fmap_compose. unfold l. rewrite !fmap_app, concat_app, all_recs_app.
  f_equal.
  - unfold all_recs, closed_files. rewrite <- !list_fmap_compose. f_equal. apply list_fmap_ext.
    intros i x Hi. assert (Hx : x ∈ closed) by (by eapply list_elem_of_lookup_2). simpl.
    rewrite (file_at_files l Hl (sg_first x) (mkFile (content x) [] true)).
    2:{ apply elem_of_app. left. apply (list_elem_of_fmap_2 (fun sg => (sg_first sg, mkFile (content sg) [] true))). done. }
    rewrite decide_False.
    2:{ intros Heq. pose proof Hn as Hn'. destruct Hn as [Hs Hall]. rewrite closed_files_fst in Hs, Hall.
        apply Forall_app in Hall as [Ha Hb]. rewrite Forall_forall in Ha. apply Forall_cons in Hb as [Hb _].
        apply segment_name_inj in Heq; [|done|apply Ha; by apply list_elem_of_fmap_2].
        apply StronglySorted_app in Hs as (Hs & _ & _).
        assert (Hlt : sg_first x < sg_first sg) by (apply Hs; [by apply list_elem_of_fmap_2|by left]). lia. }
    unfold f_bytes. simpl. rewrite !app_nil_r. apply readable_full. rewrite Forall_forall in Hc. by apply Hc.
  - simpl. unfold l. rewrite files_of_last, decide_True by done. unfold f_bytes. simpl.
    rewrite <- app_assoc, Hd, readable_full by done. unfold all_recs. simpl. by rewrite !app_nil_r.
Qed.

(** The durable part of a healthy log is a prefix of what was appended. *)
Lemma healthy_durable closed sg w : healthy_as closed sg w -> durable_dir (wr_dir w) `prefix_of` appended w.
Proof.
  intros Hw. rewrite (healthy_appended _ _ _ Hw). pose proof (healthy_names _ _ _ Hw) as Hn.
  destruct (healthy_segs _ _ _ Hw) as [Hc Hsg].
  destruct (hw_file _ _ _ Hw) as (bw & Hf & He & (s & u & Hfs & _ & _ & Hd)). rewrite He in Hd.
  rewrite (durable_open closed _ _ _ Hc Hn Hfs), all_recs_app. apply prefix_app. simpl.
  unfold all_recs at 1. simpl. rewrite app_nil_r. apply readable_prefix; [done|].
  rewrite <- Hd. by apply prefix_app_r.
Qed.
End Laws.
