(* ===== verification/WalStep.v ===== *)
(** Each operation of the writer keeps its invariant: the instance of [WalLaws]. *)

From Stdlib Require Import ZArith Lia.
From stdpp Require Import base gmap list strings sorting.
From S2P Require Import Prelude Types Book WalRecord Bytes WalFormat WalRead SegNames Wal WalDir WalInv WalLaw.

Open Scope Z_scope.

#[local] Arguments bw_Write : simpl never.
#[local] Arguments content : simpl never.

(** * Operations on an open segment *)

Section Open.
Context (l : list (Z * File)) (n : Z) (Hn : names_ok (l.*1 ++ [n])).

(** The writer is streaming [data] into segment [n], its error being [e]. *)
Definition writing (s0 data : list Z) (e : option oms_error) (w : Writer) : Prop :=
  exists bw, wr_f w = Some (segment_name n, bw) /\ bw_err bw = e /\ streaming l n s0 data bw (wr_dir w).

(** Only the directory, the file and the buffer may differ. *)
Definition same_counts (w w' : Writer) : Prop :=
  MaxSegmentBytes w' = MaxSegmentBytes w /\ segBytes w' = segBytes w /\ lastSeq w' = lastSeq w.

Lemma wr_write_spec s0 data p w : writing s0 data None w ->
  exists w' e, wr_write p w = Ok (w', e) /\ writing s0 (data ++ p) e w' /\ same_counts w w'.
Proof.
  intros (bw & Hf & He & Hst). unfold wr_write. rewrite Hf. simpl.
  destruct (write_streaming l n Hn s0 data bw (wr_dir w) p Hst) as (bw' & d' & e & Heq & Hst' & He').
  cbv zeta in Heq. rewrite Heq.
  simpl. eexists _, e. split; [reflexivity|]. split; [|done]. by exists bw'.
Qed.

Lemma writing_failed s0 data p e w : writing s0 data (Some e) w -> writing s0 (data ++ p) (Some e) w.
Proof.
  intros (bw & Hf & He & Hst). exists bw. split_and!; try done. apply streaming_more; [by rewrite He|done].
Qed.

(** Writes in a row, each after the success of the one before. *)
Lemma and_then_write s0 data p w k : writing s0 data None w ->
  exists w' e, writing s0 (data ++ p) e w' /\ same_counts w w' /\
    and_then (wr_write p w) k = match e with Some e => Ok (w', Some e) | None => k w' end.
Proof.
  intros Hw. destruct (wr_write_spec s0 data p w Hw) as (w' & e & Heq & H1 & H2). exists w', e.
  split_and!; try done. unfold and_then. rewrite Heq. simpl. by destruct e.
Qed.

Lemma Sync_spec s0 data w : writing s0 data None w ->
  exists w' e, Sync w = Ok (w', e) /\ same_counts w w' /\
    match e with
    | None => writing s0 data None w' /\ wr_f w' = Some (segment_name n, mkBufio [] None) /\
              files (wr_dir w') = files_of (l ++ [(n, mkFile data [] true)])
    | Some _ => exists e', writing s0 data e' w'
    end.
Proof.
  intros (bw & Hf & He & Hst). unfold Sync, and_then, wr_flush. rewrite Hf. simpl.
  destruct (bw_Flush _ bw (wr_dir w)) as [[bw1 d1] e1] eqn:Hfl.
  destruct (flush_streaming l n Hn s0 data bw (wr_dir w) bw1 d1 e1 Hst Hfl) as (Hst1 & He1 & Hnil). simpl.
  destruct e1 as [e1|]; [eexists _, _; split_and!; try done; by exists (Some e1), bw1|].
  unfold wr_fsync. simpl. destruct (sys_fsync _ d1) as [d2 e2] eqn:Hfs.
  destruct (fsync_streaming l n Hn s0 data bw1 d1 d2 e2 Hst1 Hfs) as [Hst2 Hall]. simpl.
  eexists _, e2. split; [reflexivity|]. split; [done|]. destruct e2 as [e2|].
  - exists None, bw1. by split_and!.
  - specialize (Hnil eq_refl). split_and!; [by exists bw1| |by apply Hall].
    simpl. do 2 f_equal. destruct bw1. simpl in *. by subst.
Qed.

Lemma Close_spec s0 data w : writing s0 data None w ->
  exists w' e, Close w = Ok (w', e) /\ same_counts w w' /\ wr_f w' = None /\
    (exists bw, streaming l n s0 data bw (wr_dir w')) /\
    (e = None -> files (wr_dir w') = files_of (l ++ [(n, mkFile data [] true)])).
Proof.
  intros Hw. pose proof Hw as (bw & Hf & _). unfold Close. rewrite Hf.
  destruct (Sync_spec s0 data w Hw) as (w1 & e1 & -> & (Hc1 & Hc2 & Hc3) & H1). simpl.
  destruct (sys_touch (wr_dir w1)) as [d2 e2] eqn:Ht. apply sys_touch_files in Ht.
  assert (Hs : exists bw, streaming l n s0 data bw (wr_dir w1)).
  { destruct e1 as [e1|]; [destruct H1 as (e' & b & _ & _ & H1)|destruct H1 as ((b & _ & _ & H1) & _)]; by exists b. }
  eexists _, _. split; [reflexivity|]. split_and!; try done.
  - destruct Hs as (b & s & u & Hs & Hr). exists b, s, u. simpl. by rewrite Ht.
  - destruct e1 as [e1|]; [done|]. intros _. simpl. rewrite Ht. apply H1.
Qed.
End Open.

(** * Append *)

Section Append.
Context `{CodecLaws}.

Definition extend (sg : Seg) (r : WalRecord) (bs : list Z) : Seg :=
  mkSeg (sg_first sg) (sg_recs sg ++ [r]) (sg_chunks sg ++ [bs]).

Lemma extend_ok sg r bs : seg_ok sg -> loggable r -> enc r bs -> seg_ok (extend sg r bs).
Proof.
  intros [H1 H2] Hr Hb. split; simpl; [apply Forall_app; split; [done|by constructor]|].
  apply Forall2_app; [done|by constructor].
Qed.

Lemma extend_content sg r bs : content (extend sg r bs) = content sg ++ bs.
Proof. unfold content, extend. cbn [sg_chunks]. rewrite concat_app. cbn [concat]. by rewrite app_nil_r, app_assoc. Qed.

(** Adding a record past every position. *)
Lemma extend_marks closed sg r bs : all_marks (closed ++ [extend sg r bs]) = all_marks (closed ++ [sg]) ++ [2 * w_Seq r].
Proof.
  rewrite !all_marks_app, <- app_assoc. f_equal. unfold all_marks. simpl. rewrite !app_nil_r. simpl.
  unfold marks. simpl. by rewrite fmap_app.
Qed.

Lemma sorted_snoc l x : StronglySorted Z.lt l -> Forall (fun y => y < x) l -> StronglySorted Z.lt (l ++ [x]).
Proof.
  intros Hs Hx. apply StronglySorted_app. split_and!; [|done|by repeat constructor].
  intros y z Hy ->%list_elem_of_singleton. rewrite Forall_forall in Hx. by apply Hx.
Qed.

(** The counters after a record of [total] bytes. *)
Definition counted (r : WalRecord) (total : Z) (w : Writer) : Writer :=
  mkWriter (wr_dir w) (wr_f w) (MaxSegmentBytes w) (add64 (segBytes w) total)
    (if lastSeq w <? w_Seq r then w_Seq r else lastSeq w).

Lemma healthy_extend closed sg r bs w w' : healthy_as closed sg w -> loggable r -> enc r bs ->
  lastSeq w < w_Seq r -> same_counts w w' ->
  (add64 (segBytes w) (Z.of_nat (length bs)) <= MaxSegmentBytes w \/ segBytes w = Z.of_nat walHeaderSize) ->
  Z.of_nat (length bs) <= 2000000 ->
  writing (closed_files closed) (sg_first sg) seg_header (content sg ++ bs) None w' ->
  healthy_as closed (extend sg r bs) (counted r (Z.of_nat (length bs)) w').
Proof.
  intros Hw Hr Hb Hlt (Hc1 & Hc2 & Hc3) Hroom Hlen (bw & Hf & He & Hst).
  destruct (healthy_segs _ _ _ Hw) as [Hc Hsg]. pose proof (hw_seq _ _ _ Hw) as Hsq.
  pose proof (hw_bytes _ _ _ Hw) as Hby. pose proof (hw_room _ _ _ Hw) as [Hrm1 Hrm2].
  assert (Hadd : add64 (segBytes w) (Z.of_nat (length bs)) = segBytes w + Z.of_nat (length bs))
    by (apply wrap64_id; unfold64; lia).
  assert (Hls : (if lastSeq w' <? w_Seq r then w_Seq r else lastSeq w') = w_Seq r)
    by (rewrite Hc3; by rewrite (proj2 (Z.ltb_lt _ _) Hlt)).
  assert (Hmk : Forall (fun m => m <= 2 * w_Seq r - 1) (all_marks (closed ++ [sg])))
    by (eapply Forall_impl; [exact (hw_last _ _ _ Hw)|]; simpl; intros; lia).
  pose proof (lg_seq _ Hr) as Hi64.
  split; unfold counted; cbn [wr_dir wr_f MaxSegmentBytes segBytes lastSeq]; rewrite ?extend_marks, ?Hls.
  - apply Forall_app. split; [done|]. constructor; [by apply extend_ok|done].
  - pose proof (hw_names _ _ _ Hw) as Hnm. rewrite fmap_app in Hnm |- *. exact Hnm.
  - apply sorted_snoc; [apply Hw|]. eapply Forall_impl; [exact Hmk|]. simpl. intros; lia.
  - unfold seg_top, extend. simpl. by rewrite last_snoc.
  - unfold64. lia.
  - rewrite Hc2, Hadd, extend_content, length_app. lia.
  - rewrite Hc1, Hc2, Hadd. rewrite Hadd in Hroom. unfold walHeaderSize in Hroom. unfold64. lia.
  - exists bw. split_and!; try done. by rewrite extend_content.
Qed.

(** [encode] and the bytes it gives. *)
Lemma encode_enc r hdr payload crc : encode r = Good (hdr, payload, crc) ->
  enc r (hdr ++ payload ++ crc) /\
  (recHeaderSize + length payload + walCRCSize)%nat = length (hdr ++ payload ++ crc) /\
  Z.of_nat (length (hdr ++ payload ++ crc)) <= 2000000.
Proof.
  intros He. split; [by exists hdr, payload, crc|].
  destruct (encode_inv _ _ _ _ He) as (_ & Hlen & -> & -> & _).
  rewrite !length_app, rec_header_length, le_put_length. unfold maxRecordPayload, recHeaderSize, walCRCSize in *. lia.
Qed.

(** The three writes of a record into an open segment. *)
Lemma append_writes closed sg r w hdr payload crc s0 : healthy_as closed sg w -> loggable r ->
  lastSeq w < w_Seq r -> encode r = Good (hdr, payload, crc) ->
  let bs := hdr ++ payload ++ crc in
  let total := Z.of_nat (recHeaderSize + length payload + walCRCSize) in
  (add64 (segBytes w) total <= MaxSegmentBytes w \/ segBytes w = Z.of_nat walHeaderSize) ->
  seg_header `prefix_of` s0 ->
  writing (closed_files closed) (sg_first sg) s0 (content sg) None w ->
  exists w' e,
    and_then (wr_write hdr w) (fun w => and_then (wr_write payload w) (fun w =>
      and_then (wr_write crc w) (fun w => Ok (counted r total w, None)))) = Ok (w', e) /\
    (exists e', writing (closed_files closed) (sg_first sg) s0 (content (extend sg r bs)) e' w') /\
    (e = None -> healthy_as closed (extend sg r bs) w' /\ lastSeq w' = w_Seq r).
Proof.
  intros Hw Hr Hlt He bs total Hroom Hs0 Hst. pose proof (healthy_names _ _ _ Hw) as Hn.
  destruct (encode_enc _ _ _ _ He) as (Hb & Hlen & Hbig). fold bs in Hb, Hlen, Hbig.
  assert (Hc : content (extend sg r bs) = ((content sg ++ hdr) ++ payload) ++ crc)
    by (rewrite extend_content; unfold bs; by rewrite !app_assoc). rewrite Hc.
  destruct (and_then_write _ _ Hn s0 (content sg) hdr w (fun w => and_then (wr_write payload w) (fun w =>
      and_then (wr_write crc w) (fun w => Ok (counted r total w, None)))) Hst) as (w1 & e1 & Hw1 & Hs1 & ->).
  destruct e1 as [e1|]; [exists w1, (Some e1); split_and!; try done; exists (Some e1); by do 2 apply writing_failed|].
  destruct (and_then_write _ _ Hn s0 _ payload w1 (fun w =>
      and_then (wr_write crc w) (fun w => Ok (counted r total w, None))) Hw1) as (w2 & e2 & Hw2 & Hs2 & ->).
  destruct e2 as [e2|]; [exists w2, (Some e2); split_and!; try done; exists (Some e2); by apply writing_failed|].
  destruct (and_then_write _ _ Hn s0 _ crc w2 (fun w => Ok (counted r total w, None)) Hw2)
    as (w3 & e3 & Hw3 & Hs3 & ->).
  destruct e3 as [e3|]; [exists w3, (Some e3); split_and!; try done; by exists (Some e3)|].
  assert (Hs : same_counts w w3) by (unfold same_counts in *; destruct Hs1 as (? & ? & ?), Hs2 as (? & ? & ?), Hs3 as (? & ? & ?);
    split_and!; congruence).
  exists (counted r total w3), None. split; [done|]. split.
  - exists None. destruct Hw3 as (bw & ? & ? & ?). by exists bw.
  - intros _. split.
    + unfold total in *. rewrite Hlen in Hroom |- *. eapply healthy_extend; try done.
      rewrite extend_content in Hc. rewrite Hc. destruct Hw3 as (bw & H1 & H2 & (s & u & H3 & H4 & H5 & H6)).
      exists bw. split_and!; try done. exists s, u. split_and!; try done. by etransitivity.
    + unfold counted. simpl. destruct Hs as (_ & _ & ->). by rewrite (proj2 (Z.ltb_lt _ _) Hlt).
Qed.

(** ** Rotation *)

Lemma readable_header : readable seg_header = [].
Proof. done. Qed.

Lemma healthy_marks_below closed sg w q : healthy_as closed sg w -> sg_recs sg <> [] -> lastSeq w < q ->
  Forall (fun m => m < 2 * q - 1) (all_marks (closed ++ [sg])).
Proof.
  intros Hw Hne Hq. eapply Forall_impl; [exact (hw_some _ _ _ Hw Hne)|]. simpl. intros; lia.
Qed.

Lemma healthy_names_next closed sg w q : healthy_as closed sg w -> sg_recs sg <> [] -> q = lastSeq w + 1 -> in64 q ->
  StronglySorted Z.lt (all_marks ((closed ++ [sg]) ++ [mkSeg q [] []])) /\
    Forall name_ok (sg_first <$> (closed ++ [sg]) ++ [mkSeg q [] []]).
Proof.
  intros Hw Hne Hq Hi. pose proof (hw_seq _ _ _ Hw) as Hs. split.
  - rewrite all_marks_app. apply sorted_snoc; [apply Hw|]. eapply healthy_marks_below; [exact Hw|done|simpl; lia].
  - rewrite fmap_app. apply Forall_app. split; [apply Hw|]. constructor; [|constructor]. cbn [sg_first]. unfold name_ok. unfold64. lia.
Qed.

(** What a rotation leaves in the directory, whether or not it went through. *)
Lemma rotate_spec closed sg w q : healthy_as closed sg w -> sg_recs sg <> [] -> q = lastSeq w + 1 -> in64 q ->
  exists w' e, rotate q w = Ok (w', e) /\ durable_dir (wr_dir w) `prefix_of` durable_dir (wr_dir w') /\
    (e = None -> healthy_as (closed ++ [sg]) (mkSeg q [] []) w' /\ lastSeq w' = lastSeq w /\
    segBytes w' = Z.of_nat walHeaderSize).
Proof.
  intros Hw Hne Hq Hi. pose proof (healthy_names _ _ _ Hw) as Hn. destruct (healthy_segs _ _ _ Hw) as [Hc Hsg].
  pose proof (healthy_durable _ _ _ Hw) as Hdur. rewrite (healthy_appended _ _ _ Hw) in Hdur.
  destruct (healthy_names_next closed sg w q Hw Hne Hq Hi) as [Hord Hnm].
  destruct (hw_file _ _ _ Hw) as (bw & Hf & He & (s & u & Hfs & Hs0 & Hb & Hd)).
  assert (Hwr : writing (closed_files closed) (sg_first sg) s (content sg) None w)
    by (exists bw; split_and!; try done; exists s, u; by split_and!).
  destruct (Close_spec _ _ Hn s (content sg) w Hwr) as (w1 & e1 & Hcl & (Hc1 & Hc2 & Hc3) & _ & (bw1 & Hst1) & Hok1).
  unfold rotate, and_then. rewrite Hcl. simpl. destruct e1 as [e1|].
  { eexists _, _. split; [reflexivity|]. split; [|done]. by eapply streaming_durable. }
  specialize (Hok1 eq_refl). rewrite <- closed_files_snoc in Hok1.
  assert (Hn1 : names_ok ((closed_files (closed ++ [sg])).*1 ++ [q])).
  { rewrite closed_files_fst. rewrite fmap_app in Hnm. pose proof (marks_names _ Hord) as Hsn.
    rewrite fmap_app in Hsn. by split. }
  assert (Hlk : Forall (fun p => f_linked p.2 = true) (closed_files (closed ++ [sg])))
    by (unfold closed_files; apply Forall_fmap, Forall_forall; done).
  assert (Hall : Forall seg_ok (closed ++ [sg])) by apply Hw.
  destruct (openSegment q w1) as [w2 e2] eqn:Ho.
  pose proof (openSegment_spec _ q Hn1 w1 w2 e2 Hok1 Hlk Ho) as Hsp. eexists _, _. split; [reflexivity|].
  assert (Hgrow : forall f, files (wr_dir w2) = files_of (closed_files (closed ++ [sg]) ++ [(q, f)]) ->
    durable_dir (wr_dir w) `prefix_of` durable_dir (wr_dir w2)).
  { intros f Hf2. rewrite (durable_open _ _ _ _ Hall Hn1 Hf2). by apply prefix_app_r. }
  destruct e2 as [e2|]; (split; [|try done]).
  - destruct Hsp as [[Hf2|(s2 & u2 & Hf2)]|Hf2]; [|by eapply Hgrow..].
    apply names_ok_app in Hn1 as (Hn1 & _). by rewrite (durable_closed _ _ Hall Hn1 Hf2).
  - destruct Hsp as [_ Hf2]. by eapply Hgrow.
  - intros _. destruct Hsp as [Hw2 Hf2]. rewrite Hw2. simpl. split_and!; [|done..].
    pose proof (hw_room _ _ _ Hw) as [_ Hmx]. pose proof (hw_seq _ _ _ Hw) as Hsq.
    split; cbn [wr_dir wr_f MaxSegmentBytes segBytes lastSeq]; try done.
    + apply Forall_app. split; [done|]. repeat constructor.
    + rewrite Hc3. unfold seg_top. simpl. lia.
    + rewrite Hc3. exact Hsq.
    + rewrite Hc1. unfold64. unfold walHeaderSize. lia.
    + exists (mkBufio [] None). split_and!; try done. exists seg_header, []. split_and!; try done.
      simpl. unfold bufSize. lia.
Qed.

(** ** The two operations *)

(** Where a record goes: behind the others of the open segment, or into the next one. *)
Definition follows (closed : list Seg) (sg : Seg) (r : WalRecord) (closed' : list Seg) (sg' : Seg) : Prop :=
  exists bs, (closed' = closed /\ sg' = extend sg r bs) \/ (closed' = closed ++ [sg] /\ sg' = extend (mkSeg (w_Seq r) [] []) r bs).

Lemma follows_recs closed sg r closed' sg' : follows closed sg r closed' sg' ->
  all_recs (closed' ++ [sg']) = all_recs (closed ++ [sg]) ++ [r].
Proof.
  intros (bs & [[-> ->]|[-> ->]]); rewrite !all_recs_app; unfold all_recs; simpl; by rewrite !app_nil_r, ?app_assoc.
Qed.

Lemma Append_shape closed sg w r : healthy_as closed sg w -> loggable r -> w_Seq r = lastSeq w + 1 ->
  exists w' e, Append r w = Ok (w', e) /\ durable_dir (wr_dir w) `prefix_of` durable_dir (wr_dir w') /\
    (e = None -> exists closed' sg', healthy_as closed' sg' w' /\ lastSeq w' = w_Seq r /\ follows closed sg r closed' sg').
Proof.
  intros Hw Hr Hq. unfold Append. destruct (encode r) as [[[hdr payload] crc]|e] eqn:He; [|by eexists _, _].
  destruct (encode_enc _ _ _ _ He) as (Hb & Hlen & _).
  destruct (_ && _) eqn:Hrot.
  - apply andb_prop in Hrot as [_ H8%Z.ltb_lt]. rewrite (hw_bytes _ _ _ Hw) in H8.
    assert (Hne : sg_recs sg <> []).
    { intros Hnil. destruct (healthy_segs _ _ _ Hw) as [_ [_ H2]]. rewrite Hnil in H2.
      apply Forall2_nil_inv_l in H2. unfold content in H8. rewrite H2 in H8. simpl in H8. unfold walHeaderSize in H8. lia. }
    destruct (rotate_spec closed sg w (w_Seq r) Hw Hne ltac:(lia) (lg_seq _ Hr)) as (w1 & e1 & Hro & Hd1 & Hok).
    rewrite Hro. cbn [and_then mbind outcome_bind]. destruct e1 as [e1|]; [by eexists _, _|].
    destruct (Hok eq_refl) as (Hw1 & Hls & H81). destruct (hw_file _ _ _ Hw1) as (bw & Hf & Hbe & (s & u & Hfs & Hs0 & Hbl & Hd)).
    destruct (append_writes _ _ r w1 hdr payload crc s Hw1 Hr ltac:(lia) He) as (w' & e & Hap & (e' & bw' & _ & _ & Hst) & Hfin);
      [by right|done|exists bw; split_and!; try done; by exists s, u|].
    exists w', e. split; [exact Hap|]. split.
    + etransitivity; [exact Hd1|]. destruct (healthy_segs _ _ _ Hw1) as [Hc Hsg].
      eapply (streaming_durable _ (extend (mkSeg (w_Seq r) [] []) r (hdr ++ payload ++ crc))); try done;
        [by apply extend_ok|exact (healthy_names _ _ _ Hw1)].
    + intros Hn. destruct (Hfin Hn) as [Hw' Hls']. eexists _, _. split_and!; [exact Hw'|done|].
      exists (hdr ++ payload ++ crc). by right.
  - cbn [and_then mbind outcome_bind].
    destruct (hw_file _ _ _ Hw) as (bw & Hf & Hbe & (s & u & Hfs & Hs0 & Hbl & Hd)).
    destruct (append_writes _ _ r w hdr payload crc s Hw Hr ltac:(lia) He) as (w' & e & Hap & (e' & bw' & _ & _ & Hst) & Hfin);
      [|done|exists bw; split_and!; try done; by exists s, u|].
    { apply andb_false_iff in Hrot as [H1%Z.ltb_ge|H1%Z.ltb_ge]; [by left|right]. rewrite (hw_bytes _ _ _ Hw) in H1 |- *.
      unfold content, walHeaderSize in *. rewrite length_app in *. simpl length in *. lia. }
    exists w', e. split; [exact Hap|]. split.
    + destruct (healthy_segs _ _ _ Hw) as [Hc Hsg].
      eapply (streaming_durable _ (extend sg r (hdr ++ payload ++ crc))); try done;
        [by apply extend_ok|exact (healthy_names _ _ _ Hw)].
    + intros Hn. destruct (Hfin Hn) as [Hw' Hls']. eexists _, _. split_and!; [exact Hw'|done|].
      exists (hdr ++ payload ++ crc). by left.
Qed.

Lemma Append_spec closed sg w r : healthy_as closed sg w -> loggable r -> w_Seq r = lastSeq w + 1 ->
  exists w' e, Append r w = Ok (w', e) /\ durable_dir (wr_dir w) `prefix_of` durable_dir (wr_dir w') /\
    (e = None -> exists closed' sg', healthy_as closed' sg' w' /\ lastSeq w' = w_Seq r /\
       all_recs (closed' ++ [sg']) = all_recs (closed ++ [sg]) ++ [r]).
Proof.
  intros Hw Hr Hq. destruct (Append_shape closed sg w r Hw Hr Hq) as (w' & e & Ha & Hd & Hok). exists w', e.
  split_and!; [done..|]. intros He. destruct (Hok He) as (c & g & H1 & H2 & H3). exists c, g. split_and!; [done..|]. by apply follows_recs.
Qed.

Lemma Sync_healthy closed sg w : healthy_as closed sg w ->
  exists w' e, Sync w = Ok (w', e) /\ durable_dir (wr_dir w) `prefix_of` durable_dir (wr_dir w') /\
    (e = None -> healthy_as closed sg w' /\ lastSeq w' = lastSeq w /\
       durable_dir (wr_dir w') = all_recs (closed ++ [sg])).
Proof.
  intros Hw. pose proof (healthy_names _ _ _ Hw) as Hn. destruct (healthy_segs _ _ _ Hw) as [Hc Hsg].
  destruct (hw_file _ _ _ Hw) as (bw & Hf & He & (s & u & Hfs & Hs0 & Hb & Hd)).
  assert (Hwr : writing (closed_files closed) (sg_first sg) s (content sg) None w)
    by (exists bw; split_and!; try done; exists s, u; by split_and!).
  destruct (Sync_spec _ _ Hn s (content sg) w Hwr) as (w' & e & Hs & (Hc1 & Hc2 & Hc3) & Hres).
  exists w', e. split; [done|]. split.
  - destruct e as [e|]; [destruct Hres as (e' & b & _ & _ & Hst)|destruct Hres as ((b & _ & _ & Hst) & _)];
      by eapply streaming_durable.
  - intros ->. destruct Hres as ((b & Hb1 & Hb2 & Hst) & _ & Hf'). split_and!; [|done|].
    + destruct Hw. split; rewrite ?Hc1, ?Hc2, ?Hc3; try assumption. exists b. split_and!; try done.
      destruct Hst as (s' & u' & ? & ? & ? & ?). exists s', u'. split_and!; try done. by etransitivity.
    + rewrite (durable_open closed _ _ _ Hc Hn Hf'), all_recs_app. f_equal. unfold all_recs. simpl.
      unfold stable. simpl. by rewrite app_nil_r, readable_full.
Qed.

(** ** The laws *)

Definition buffered_recs (w : Writer) : list WalRecord := drop (length (durable_dir (wr_dir w))) (appended w).

Lemma durable_buffered closed sg w : healthy_as closed sg w ->
  durable_dir (wr_dir w) ++ buffered_recs w = all_recs (closed ++ [sg]).
Proof.
  intros Hw. rewrite <- (healthy_appended _ _ _ Hw). destruct (healthy_durable _ _ _ Hw) as [r Hr].
  unfold buffered_recs. by rewrite Hr, drop_app_length.
Qed.

#[global, refine] Instance Writer_laws : WalLaws Writer := {
  durable w := durable_dir (wr_dir w);
  buffered := buffered_recs;
  healthy w := exists closed sg, healthy_as closed sg w;
  carries := loggable
}.
Proof.
  - intros r w w' e (closed & sg & Hw) Hr Hq Ha. destruct (Append_spec closed sg w r Hw Hr Hq) as (w1 & e1 & Heq & Hd & _).
    simpl in Ha. rewrite Heq in Ha. by injection Ha as <- _.
  - intros r w w' (closed & sg & Hw) Hr Hq Ha.
    destruct (Append_spec closed sg w r Hw Hr Hq) as (w1 & e1 & Heq & _ & Hok).
    simpl in Ha. rewrite Heq in Ha. injection Ha as <- ->.
    destruct (Hok eq_refl) as (c' & sg' & Hw' & Hls & Hrec). split_and!; [by exists c', sg'|done|].
    rewrite app_assoc, (durable_buffered _ _ _ Hw), (durable_buffered _ _ _ Hw'). exact Hrec.
  - intros w w' e (closed & sg & Hw) Hs. destruct (Sync_healthy closed sg w Hw) as (w1 & e1 & Heq & Hd & _).
    simpl in Hs. rewrite Heq in Hs. by injection Hs as <- _.
  - intros w w' (closed & sg & Hw) Hs. destruct (Sync_healthy closed sg w Hw) as (w1 & e1 & Heq & _ & Hok).
    simpl in Hs. rewrite Heq in Hs. injection Hs as <- ->. destruct (Hok eq_refl) as (Hw' & Hls & Hd).
    split_and!; [by exists closed, sg|done| |].
    + by rewrite (durable_buffered _ _ _ Hw).
    + unfold buffered_recs. by rewrite (healthy_appended _ _ _ Hw'), Hd, drop_all.
Defined.
End Append.
