(* ===== verification/WalRecover.v ===== *)
(** Crashes, and what starts up after them: [Recover], [OpenWriter] and
    [LastPosition] on a directory some of whose last bytes are gone.

    [log_dir closed sg d] says that [d] holds the segments [closed] and the
    beginning of [sg], cut anywhere past its header. *)

From Stdlib Require Import ZArith Lia.
From stdpp Require Import base gmap list strings sorting.
From S2P Require Import Prelude Types Book WalRecord Bytes WalFormat WalRead SegNames.
From S2P Require Import Wal WalDir WalInv WalLaw WalStep.

Open Scope Z_scope.

#[local] Arguments content : simpl never.

(** * Crashes *)

(** What a file may be after a crash: what was durable stays, of the rest any part
    may be missing, from the end; a file whose name was not durable may be gone. *)
Inductive survives : option File -> option File -> Prop :=
| survive_absent : survives None None
| survive_kept f f' : f_synced f `prefix_of` f_synced f' -> f_bytes f' `prefix_of` f_bytes f ->
    (f_linked f = true -> f_linked f' = true) -> survives (Some f) (Some f')
| survive_lost f : f_linked f = false -> survives (Some f) None.

(** A power failure, or the death of the process: the same directory, then. *)
Definition crashed (d d' : Dir) : Prop := forall name, survives (files d !! name) (files d' !! name).

Section Recovery.
Context `{CodecLaws}.

Record log_dir (closed : list Seg) (sg : Seg) (s u : list Z) (d : Dir) : Prop := {
  ld_segs : Forall seg_ok (closed ++ [sg]);
  ld_names : Forall name_ok (sg_first <$> closed ++ [sg]);
  ld_order : StronglySorted Z.lt (all_marks (closed ++ [sg]));
  ld_files : files d = files_of (closed_files closed ++ [(sg_first sg, mkFile s u true)]);
  ld_header : seg_header `prefix_of` s;
  ld_bytes : s ++ u `prefix_of` content sg
}.

Lemma log_dir_names closed sg s u d : log_dir closed sg s u d -> names_ok ((closed_files closed).*1 ++ [sg_first sg]).
Proof.
  intros Hd. rewrite closed_files_fst. pose proof (marks_names _ (ld_order _ _ _ _ _ Hd)) as Hs.
  pose proof (ld_names _ _ _ _ _ Hd) as Hn. rewrite fmap_app in Hs, Hn. by split.
Qed.

Lemma files_of_inv l name f : names_ok l.*1 -> files_of l !! name = Some f -> exists n, (n, f) ∈ l /\ name = segment_name n.
Proof.
  intros Hl Hf. apply elem_of_list_to_map_2, list_elem_of_fmap in Hf as ([n g] & Heq & Hin). simpl in Heq.
  injection Heq as -> ->. by exists n.
Qed.

(** A healthy writer's directory after a crash. *)
Lemma healthy_crashed closed sg w d' : healthy_as closed sg w -> crashed (wr_dir w) d' ->
  exists s u s' u', files (wr_dir w) = files_of (closed_files closed ++ [(sg_first sg, mkFile s u true)]) /\
    s `prefix_of` s' /\ s' ++ u' `prefix_of` s ++ u /\ log_dir closed sg s' u' d'.
Proof.
  intros Hw Hcr. pose proof (healthy_names _ _ _ Hw) as Hn.
  destruct (hw_file _ _ _ Hw) as (bw & Hf & He & (s & u & Hfs & Hs0 & Hb & Hd)). rewrite He in Hd.
  exists s, u. rewrite files_of_snoc in Hfs by done. pose proof Hn as (Hn1 & _)%names_ok_app.
  assert (Hnone : files_of (closed_files closed) !! segment_name (sg_first sg) = None) by (by apply names_fresh).
  pose proof (Hcr (segment_name (sg_first sg))) as Hl. rewrite Hfs, lookup_insert_eq in Hl.
  inversion Hl as [|f f' Hsy Hby Hlk Hf1 Hf2|f Hlk Hf1]; subst; [|simpl in Hlk; done].
  destruct f' as [s' u' l']. simpl in *. specialize (Hlk eq_refl). subst l'. exists s', u'.
  rewrite files_of_snoc by done. split_and!; try done. split; try apply Hw.
  - rewrite files_of_snoc by done. apply map_eq. intros name. destruct (decide (name = segment_name (sg_first sg))) as [->|Hne].
    { by rewrite lookup_insert_eq, <- Hf2. }
    rewrite lookup_insert_ne by done. pose proof (Hcr name) as Hx. rewrite Hfs, lookup_insert_ne in Hx by done.
    destruct (files_of (closed_files closed) !! name) as [f|] eqn:Ef; [|by inversion Hx].
    pose proof Ef as (n & Hin & _)%files_of_inv; [|done].
    apply list_elem_of_fmap in Hin as (x & Hx1 & _). injection Hx1 as -> ->. set (c := content x) in *. clearbody c.
    inversion Hx as [|g g' Hgs Hgb Hgl Hg1 Hg2|g Hgl Hg1]; subst; [|simpl in Hgl; done].
    destruct g' as [gs gu gl]. unfold f_bytes in Hgb. simpl in *. rewrite (Hgl eq_refl), app_nil_r in *.
    f_equal. destruct Hgs as [x1 ->]. destruct Hgb as [x2 Hx2]. rewrite <- !app_assoc in Hx2.
    rewrite <- (app_nil_r c) in Hx2 at 1. apply app_inv_head in Hx2.
    symmetry in Hx2. apply app_eq_nil in Hx2 as [-> [-> _]%app_eq_nil]. by rewrite app_nil_r.
  - by etransitivity.
  - unfold f_bytes in Hby. simpl in Hby. etransitivity; [exact Hby|]. rewrite <- Hd, app_assoc. by apply prefix_app_r.
Qed.

(** ** Reading a directory *)

Definition cut (sg : Seg) (j : nat) : Seg := mkSeg (sg_first sg) (take j (sg_recs sg)) (take j (sg_chunks sg)).

Lemma cut_ok sg j : seg_ok sg -> seg_ok (cut sg j).
Proof. intros [H1 H2]. split; simpl; [by apply Forall_take|by apply Forall2_take]. Qed.

Lemma cut_content sg j : content (cut sg j) = take (8 + length (concat (take j (sg_chunks sg)))) (content sg).
Proof.
  unfold content, cut. cbn [sg_chunks]. rewrite take_app_ge by (rewrite seg_header_length; lia). f_equal.
  rewrite seg_header_length. replace (8 + _ - 8)%nat with (length (concat (take j (sg_chunks sg)))) by lia.
  rewrite <- (take_drop j (sg_chunks sg)) at 3. by rewrite concat_app, take_app_length.
Qed.

Lemma cut_marks closed sg j : all_marks (closed ++ [cut sg j]) `prefix_of` all_marks (closed ++ [sg]).
Proof.
  rewrite !all_marks_app. apply prefix_app. unfold all_marks, marks, cut. simpl. rewrite !app_nil_r.
  apply prefix_cons. exists ((fun r => 2 * w_Seq r) <$> drop j (sg_recs sg)). by rewrite <- fmap_app, take_drop.
Qed.

Lemma sorted_prefix l k : l `prefix_of` k -> StronglySorted Z.lt k -> StronglySorted Z.lt l.
Proof. intros [r ->] Hs. by apply StronglySorted_app in Hs as (_ & ? & _). Qed.

(** What the last file reads as. *)
Lemma log_dir_cut closed sg s u d : log_dir closed sg s u d ->
  exists j, whole sg (length (s ++ u)) j /\
    read_segment (s ++ u) = Good (take j (sg_recs sg), length (content (cut sg j)), None).
Proof.
  intros Hd. pose proof (ld_segs _ _ _ _ _ Hd) as Hs. apply Forall_app in Hs as [_ [Hsg _]%Forall_cons].
  pose proof (prefix_take _ _ (ld_bytes _ _ _ _ _ Hd)) as Ht.
  assert (H8 : (8 <= length (s ++ u))%nat).
  { rewrite length_app. pose proof (prefix_length _ _ (ld_header _ _ _ _ _ Hd)) as Hl. rewrite seg_header_length in Hl. lia. }
  destruct (read_cut sg (length (s ++ u)) Hsg H8) as (j & Hj & Hr). exists j. split; [done|].
  rewrite Ht, Hr. unfold content, cut. cbn [sg_chunks]. by rewrite length_app, seg_header_length.
Qed.

(** The log a reader finds. *)
Definition log_of (closed : list Seg) (sg : Seg) (j : nat) : list WalRecord := all_recs (closed ++ [cut sg j]).

Lemma replay_after_spec now after recs : forall m b,
  replay_after now after recs m b =
    b' ← replay now (filter (fun r => after < w_Seq r) recs) b;
    Ok (b', foldl (fun m r => Z.max m (w_Seq r)) m recs).
Proof.
  induction recs as [|r recs IH]; intros m b; cbn [replay_after]; [done|].
  assert (Hm : (if m <? w_Seq r then w_Seq r else m) = Z.max m (w_Seq r)) by (destruct (Z.ltb_spec m (w_Seq r)); lia).
  rewrite Hm, filter_cons. cbn [foldl]. destruct (Z.ltb_spec after (w_Seq r)); case_decide; try lia.
  - cbn [replay]. destruct (Apply now r b); [apply IH|done..].
  - cbn [mbind outcome_bind]. apply IH.
Qed.

Lemma recover_app now after segs segs' : forall m b,
  recover_segments now after (segs ++ segs') m b =
    '(b, m, e) ← recover_segments now after segs m b;
    match e with None => recover_segments now after segs' m b | Some e => Ok (b, m, Some e) end.
Proof.
  induction segs as [|seg segs IH]; intros m b; simpl; [done|].
  destruct (read_segment seg) as [[[recs off] e]|e]; [|done].
  destruct (replay_after now after recs m b) as [[b1 m1]| |]; simpl; [|done..]. destruct e; [done|]. apply IH.
Qed.

Lemma recover_closed now after segs : Forall seg_ok segs -> forall m b,
  recover_segments now after (content <$> segs) m b =
    b' ← replay now (filter (fun r => after < w_Seq r) (all_recs segs)) b;
    Ok (b', foldl (fun m r => Z.max m (w_Seq r)) m (all_recs segs), None).
Proof.
  induction 1 as [|sg segs Hsg _ IH]; intros m b; [done|].
  rewrite fmap_cons. cbn [recover_segments]. rewrite read_full by done. rewrite replay_after_spec.
  change (all_recs (sg :: segs)) with (sg_recs sg ++ all_recs segs). rewrite filter_app, replay_app, foldl_app.
  destruct (replay now _ b) as [b1| |]; simpl; [apply IH|done..].
Qed.

Lemma log_dir_segments closed sg s u d : log_dir closed sg s u d ->
  segments d = (content <$> closed) ++ [s ++ u].
Proof.
  intros Hd. pose proof (log_dir_names _ _ _ _ _ Hd) as Hn. pose proof (ld_files _ _ _ _ _ Hd) as Hf.
  unfold segments. destruct d as [fs sc]. simpl in Hf. subst fs.
  rewrite (map_segments (closed_files closed ++ [(sg_first sg, mkFile s u true)])) by (by rewrite fmap_app).
  rewrite !fmap_app. f_equal. unfold closed_files. rewrite <- !list_fmap_compose. apply list_fmap_ext.
  intros i x _. unfold f_bytes. simpl. by rewrite app_nil_r.
Qed.

Lemma log_dir_last closed sg s u d : log_dir closed sg s u d ->
  last (segmentPaths d) = Some (segment_name (sg_first sg)).
Proof.
  intros Hd. pose proof (log_dir_names _ _ _ _ _ Hd) as Hn. pose proof (ld_files _ _ _ _ _ Hd) as Hf.
  destruct d as [fs sc]. simpl in Hf. subst fs. rewrite segmentPaths_files by (by rewrite fmap_app).
  rewrite !fmap_app. simpl. by rewrite last_snoc.
Qed.

(** [Recover] replays the log that is there. *)
Lemma Recover_spec closed sg s u d j now b after : log_dir closed sg s u d ->
  read_segment (s ++ u) = Good (take j (sg_recs sg), length (content (cut sg j)), None) ->
  Recover now d b after =
    b' ← replay now (filter (fun r => after < w_Seq r) (log_of closed sg j)) b;
    Ok (b', max_seq (log_of closed sg j), None).
Proof.
  intros Hd Hr. pose proof (ld_segs _ _ _ _ _ Hd) as Hs. apply Forall_app in Hs as [Hc _].
  unfold Recover. rewrite (log_dir_segments _ _ _ _ _ Hd), recover_app, recover_closed by done.
  unfold log_of, max_seq. rewrite all_recs_app, filter_app, replay_app, foldl_app.
  destruct (replay now _ b) as [b1| |]; simpl; [|done..]. rewrite Hr, replay_after_spec.
  unfold all_recs at 3 4. simpl. rewrite !app_nil_r. by destruct (replay now _ b1).
Qed.

(** ** Positions *)

Lemma max_seq_top closed sg : StronglySorted Z.lt (all_marks (closed ++ [sg])) -> name_ok (sg_first sg) ->
  Z.max (max_seq (sg_recs sg)) (sg_first sg - 1) = seg_top sg.
Proof.
  intros Hs Hn. unfold name_ok in Hn. rewrite all_marks_app in Hs. apply StronglySorted_app in Hs as (_ & _ & Hs).
  unfold all_marks, marks in Hs. simpl in Hs. rewrite app_nil_r in Hs.
  apply StronglySorted_inv in Hs as [Hs Hlo]. unfold seg_top, max_seq.
  destruct (sg_recs sg) as [|r recs _] using rev_ind; [simpl; lia|].
  rewrite last_snoc, foldl_app. simpl. rewrite fmap_app in Hs, Hlo. apply StronglySorted_app in Hs as (Hs & _).
  apply Forall_app in Hlo as [_ [Hr _]%Forall_cons]. simpl in Hr.
  assert (Hle : forall l m, m <= w_Seq r -> (forall x, x ∈ l -> w_Seq x < w_Seq r) ->
    foldl (fun m r => Z.max m (w_Seq r)) m l <= w_Seq r).
  { induction l as [|x l IH]; intros m Hm Hx; simpl; [done|]. apply IH.
    - specialize (Hx x ltac:(by left)). lia.
    - intros y Hy. apply Hx. by right. }
  assert (Hb : foldl (fun m r => Z.max m (w_Seq r)) 0 recs <= w_Seq r).
  { apply Hle; [lia|]. intros x Hx. assert (2 * w_Seq x < 2 * w_Seq r); [|lia].
    apply Hs; [by apply (list_elem_of_fmap_2 (fun r => 2 * w_Seq r))|by left]. }
  lia.
Qed.

Lemma watermark_max n m : name_ok n -> watermark (segment_name n) m = Z.max m (n - 1).
Proof.
  intros Hn. unfold watermark. rewrite seqFromName_segment by by apply name_ok_range.
  unfold name_ok in Hn. unfold sub64. rewrite wrap64_id by (unfold64; lia). destruct (Z.ltb_spec m (n - 1)); lia.
Qed.

Lemma log_dir_scan closed sg s u d j : log_dir closed sg s u d ->
  read_segment (s ++ u) = Good (take j (sg_recs sg), length (content (cut sg j)), None) ->
  scanSegment (f_bytes (file_at (segment_name (sg_first sg)) d))
    = Good (max_seq (sg_recs (cut sg j)), length (content (cut sg j))) /\
  watermark (segment_name (sg_first sg)) (max_seq (sg_recs (cut sg j))) = seg_top (cut sg j).
Proof.
  intros Hd Hr. pose proof (log_dir_names _ _ _ _ _ Hd) as Hn. pose proof (ld_files _ _ _ _ _ Hd) as Hf.
  assert (Hnm : name_ok (sg_first sg)).
  { pose proof (ld_names _ _ _ _ _ Hd) as Hx. rewrite fmap_app in Hx. by apply Forall_app in Hx as [_ [? _]%Forall_cons]. }
  split.
  - destruct d as [fs sc]. simpl in Hf. subst fs. rewrite files_of_last by done. unfold f_bytes. simpl.
    unfold scanSegment. by rewrite Hr.
  - rewrite watermark_max by done. apply (max_seq_top closed (cut sg j)); [|done].
    eapply sorted_prefix; [apply cut_marks|apply Hd].
Qed.

Lemma LastPosition_spec closed sg s u d j : log_dir closed sg s u d ->
  read_segment (s ++ u) = Good (take j (sg_recs sg), length (content (cut sg j)), None) ->
  LastPosition d = Good (seg_top (cut sg j)).
Proof.
  intros Hd Hr. unfold LastPosition. rewrite (log_dir_last _ _ _ _ _ Hd).
  destruct (log_dir_scan _ _ _ _ _ _ Hd Hr) as [-> ->]. done.
Qed.
(** ** Opening for appending *)

(** A writer positioned at the end of what is there. *)
Lemma opened_healthy closed sg s u d j d' : log_dir closed sg s u d ->
  files d' = files_of (closed_files closed ++ [(sg_first sg, mkFile (content (cut sg j)) [] true)]) ->
  Z.of_nat (length (content (cut sg j))) <= MaxInt64 - 2097152 ->
  healthy_as closed (cut sg j)
    (mkWriter d' (Some (segment_name (sg_first sg), mkBufio [] None)) DefaultSegmentBytes
       (Z.of_nat (length (content (cut sg j)))) (seg_top (cut sg j))).
Proof.
  intros Hd Hf Hlen. pose proof (ld_segs _ _ _ _ _ Hd) as Hs. apply Forall_app in Hs as [Hc [Hsg _]%Forall_cons].
  pose proof (ld_names _ _ _ _ _ Hd) as Hnm. rewrite fmap_app in Hnm.
  pose proof Hnm as Hnm'. apply Forall_app in Hnm' as [_ [Hn1 _]%Forall_cons].
  assert (Hord : StronglySorted Z.lt (all_marks (closed ++ [cut sg j])))
    by (eapply sorted_prefix; [apply cut_marks|apply Hd]).
  split; cbn [wr_dir wr_f MaxSegmentBytes segBytes lastSeq]; try done.
  - apply Forall_app. split; [done|]. constructor; [by apply cut_ok|done].
  - by rewrite fmap_app.
  - rewrite <- (max_seq_top closed (cut sg j) Hord Hn1). unfold name_ok in Hn1.
    change (sg_first (cut sg j)) with (sg_first sg). split; [lia|].
    destruct (cut_ok sg j Hsg) as [Hlog _]. apply Z.max_lub; [|lia]. unfold max_seq.
    assert (Hle : forall l m, m <= MaxInt64 -> Forall loggable l -> foldl (fun m r => Z.max m (w_Seq r)) m l <= MaxInt64).
    { induction l as [|x l IH]; intros m Hm Hl; simpl; [done|]. apply Forall_cons in Hl as [Hx Hl]. apply IH; [|done].
      pose proof (lg_seq _ Hx). unfold in64 in *. lia. }
    apply Hle; [by vm_compute|done].
  - exists (mkBufio [] None). split_and!; try done. exists (content (cut sg j)), []. split_and!; try done.
    + unfold content. by apply prefix_app_r.
    + simpl. unfold bufSize. lia.
    + cbn [bw_err bw_buf]. by rewrite !app_nil_r.
Qed.

(** System calls that fail only when the script says so. *)
Lemma sys_touch_calm d d' e : sys_touch d = (d', e) ->
  files d' = files d /\ (script d = [] -> e = None /\ script d' = []).
Proof.
  destruct d as [fs sc]. unfold sys_touch, sys_next. simpl.
  destruct (default SysOk (head sc)) eqn:E; intros [= <- <-]; (split; [done|]); intros Hs; simpl in *; subst; done.
Qed.

Lemma sys_truncate_log closed sg s u d n d' e : log_dir closed sg s u d ->
  sys_truncate (segment_name (sg_first sg)) n d = (d', e) ->
  (e = None -> files d' = files_of (closed_files closed ++ [(sg_first sg, mkFile (take n s) (take (n - length s) u) true)])) /\
  (script d = [] -> e = None /\ script d' = []).
Proof.
  intros Hd. pose proof (log_dir_names _ _ _ _ _ Hd) as Hn. pose proof (ld_files _ _ _ _ _ Hd) as Hf.
  destruct d as [fs sc]. simpl in Hf. subst fs. unfold sys_truncate, sys_next. simpl.
  destruct (default SysOk (head sc)) eqn:E; intros [= <- <-]; (split; [|intros Hs; simpl in *; subst; done]); [|done].
  intros _. rewrite files_of_last by done. cbn [f_synced f_unsynced f_linked]. by rewrite files_of_set.
Qed.

Lemma sys_fsync_log l n s u d d' e : names_ok (l.*1 ++ [n]) -> files d = files_of (l ++ [(n, mkFile s u true)]) ->
  sys_fsync (segment_name n) d = (d', e) ->
  (e = None -> files d' = files_of (l ++ [(n, mkFile (s ++ u) [] true)])) /\
  (script d = [] -> e = None /\ script d' = []).
Proof.
  intros Hn Hf. destruct d as [fs sc]. simpl in Hf. subst fs. unfold sys_fsync, sys_next. simpl.
  rewrite files_of_last by done. cbn [f_synced f_unsynced f_linked].
  destruct (default SysOk (head sc)) eqn:E; intros [= <- <-]; (split; [|intros Hs; simpl in *; subst; done]); [|done].
  intros _. by rewrite files_of_set.
Qed.

(** Opening a segment fails only when the script says so. *)
Lemma openSegment_calm n w w' e : script (wr_dir w) = [] -> openSegment n w = (w', e) -> e = None.
Proof.
  intros Hs. unfold openSegment, sys_create, sys_write, sys_fsync, syncDir, sys_touch, sys_next.
  destruct w as [[fs sc] ff mx sb ls]. simpl in Hs. subst sc. simpl. by intros [= _ <-].
Qed.

(** Truncating the last file leaves its whole records. *)
Lemma truncated_bytes closed sg s u d j : log_dir closed sg s u d -> whole sg (length (s ++ u)) j ->
  let n := length (content (cut sg j)) in take n s ++ take (n - length s) u = content (cut sg j).
Proof.
  intros Hd (_ & Hle & _) n. rewrite <- take_app.
  assert (Hn : n = (8 + length (concat (take j (sg_chunks sg))))%nat)
    by (unfold n, content, cut; cbn [sg_chunks]; by rewrite length_app, seg_header_length).
  rewrite Hn, cut_content. destruct (ld_bytes _ _ _ _ _ Hd) as [r ->]. by rewrite (take_app_le (s ++ u)).
Qed.

(** [OpenWriter] keeps what can be read, cuts off what cannot, and resumes after it. *)
Lemma OpenWriter_spec closed sg s u d j : log_dir closed sg s u d -> whole sg (length (s ++ u)) j ->
  read_segment (s ++ u) = Good (take j (sg_recs sg), length (content (cut sg j)), None) ->
  Z.of_nat (length (s ++ u)) <= MaxInt64 - 2097152 ->
  let '(d', r) := OpenWriter d in
  match r with
  | Good w => healthy_as closed (cut sg j) w /\ durable_dir (wr_dir w) = log_of closed sg j
  | Fails e => script d <> []
  end.
Proof.
  intros Hd Hwh Hr Hlen.
  assert (Hfine : forall d', files d' = files d -> log_dir closed sg s u d') by (intros d' Hf; destruct Hd; split; congruence).
  unfold OpenWriter. destruct (sys_touch d) as [d1 e1] eqn:E1. apply sys_touch_calm in E1 as [Hf1 Hq1].
  destruct e1 as [e1|]; [intros Hs; by destruct (Hq1 Hs)|].
  pose proof (Hfine d1 Hf1) as Hd1. rewrite (log_dir_last _ _ _ _ _ Hd1).
  destruct (log_dir_scan _ _ _ _ _ _ Hd1 Hr) as [-> ->].
  destruct (sys_touch d1) as [d2 e2] eqn:E2. apply sys_touch_calm in E2 as [Hf2 Hq2].
  destruct e2 as [e2|]; [intros Hs; destruct (Hq1 Hs) as [_ Hs1]; by destruct (Hq2 Hs1)|].
  assert (Hf2' : files d2 = files d) by congruence. pose proof (Hfine d2 Hf2') as Hd2.
  pose proof (log_dir_names _ _ _ _ _ Hd) as Hn.
  assert (Hq2' : script d = [] -> script d2 = []) by (intros Hs; by apply Hq2, Hq1).
  destruct (sys_truncate _ _ d2) as [d3 e3] eqn:E3. apply (sys_truncate_log _ _ _ _ _ _ _ _ Hd2) in E3 as [Hf3 Hq3].
  destruct e3 as [e3|]; [intros Hs; by destruct (Hq3 (Hq2' Hs))|].
  destruct (sys_touch d3) as [d4 e4] eqn:E4. apply sys_touch_calm in E4 as [Hf4 Hq4].
  destruct e4 as [e4|]; [intros Hs; destruct (Hq3 (Hq2' Hs)) as [_ Hs3]; by destruct (Hq4 Hs3)|].
  destruct (sys_fsync _ d4) as [d5 e5] eqn:E5. rewrite Hf3 in Hf4 by done.
  apply (sys_fsync_log _ _ _ _ _ _ _ Hn Hf4) in E5 as [Hf5 Hq5].
  destruct e5 as [e5|]; [intros Hs; destruct (Hq3 (Hq2' Hs)) as [_ Hs3]; destruct (Hq4 Hs3) as [_ Hs4]; by destruct (Hq5 Hs4)|].
  specialize (Hf5 eq_refl). rewrite (truncated_bytes _ _ _ _ _ _ Hd Hwh) in Hf5.
  assert (Hl : Z.of_nat (length (content (cut sg j))) <= MaxInt64 - 2097152).
  { destruct Hwh as (_ & Hle & _). rewrite cut_content, length_take. lia. }
  pose proof (opened_healthy _ _ _ _ _ _ d5 Hd Hf5 Hl) as Hw. split; [exact Hw|].
  pose proof (ld_segs _ _ _ _ _ Hd) as Hs. apply Forall_app in Hs as [Hc [Hsg _]%Forall_cons].
  cbn [wr_dir]. rewrite (durable_open closed _ _ d5 Hc Hn Hf5). unfold log_of. rewrite all_recs_app. f_equal.
  unfold stable. cbn [f_linked f_synced]. rewrite readable_full by by apply cut_ok.
  unfold all_recs. simpl. by rewrite app_nil_r.
Qed.

(** A directory without a log starts one at position 1. *)
Lemma names_one : names_ok ([] ++ [1]).
Proof. split; [repeat constructor|]. constructor; [|done]. unfold name_ok. unfold64. lia. Qed.

Lemma fresh_writer w d : lastSeq w = 0 -> MaxSegmentBytes w = DefaultSegmentBytes ->
  files d = files_of [(1, mkFile seg_header [] true)] ->
  healthy_as [] (mkSeg 1 [] [])
    (mkWriter d (Some (segment_name 1, mkBufio [] None)) (MaxSegmentBytes w) (Z.of_nat walHeaderSize) (lastSeq w)).
Proof.
  intros Hl Hm Hf. rewrite Hl, Hm. split; cbn [wr_dir wr_f MaxSegmentBytes segBytes lastSeq app].
  - constructor; [by split|done].
  - destruct names_one as [_ Hn]. exact Hn.
  - unfold all_marks, marks. simpl. repeat constructor.
  - done.
  - unfold64. lia.
  - done.
  - unfold DefaultSegmentBytes, walHeaderSize. unfold64. lia.
  - exists (mkBufio [] None). split_and!; try done. exists seg_header, []. split_and!; try done.
    simpl. unfold bufSize. lia.
Qed.

Lemma OpenWriter_empty d : files d = ∅ ->
  let '(d', r) := OpenWriter d in
  match r with
  | Good w => healthy_as [] (mkSeg 1 [] []) w /\ lastSeq w = 0 /\ durable_dir (wr_dir w) = []
  | Fails e => script d <> []
  end.
Proof.
  intros Hf. unfold OpenWriter. destruct (sys_touch d) as [d1 e1] eqn:E1. apply sys_touch_calm in E1 as [Hf1 Hq1].
  destruct e1 as [e1|]; [intros Hs; by destruct (Hq1 Hs)|].
  assert (Hp : last (segmentPaths d1) = None).
  { destruct d1 as [fs sc]. simpl in Hf1. rewrite Hf1, Hf. by vm_compute. }
  rewrite Hp. destruct (openSegment 1 _) as [w e] eqn:Ho.
  pose proof (openSegment_spec [] 1 names_one (mkWriter d1 None DefaultSegmentBytes 0 0) w e) as Hsp.
  cbn [wr_dir MaxSegmentBytes lastSeq] in Hsp. rewrite Hf1, Hf in Hsp. specialize (Hsp eq_refl ltac:(constructor) Ho).
  destruct e as [e|].
  - intros Hs. destruct (Hq1 Hs) as [_ Hs1]. by pose proof (openSegment_calm 1 (mkWriter d1 None DefaultSegmentBytes 0 0) w (Some e) Hs1 Ho).
  - destruct Hsp as [Hw Hfw]. pose proof (fresh_writer (mkWriter d1 None DefaultSegmentBytes 0 0) (wr_dir w) eq_refl eq_refl Hfw) as Hh.
    cbn [MaxSegmentBytes lastSeq] in Hh, Hw. rewrite <- Hw in Hh. split_and!; [exact Hh|by rewrite Hw|].
    rewrite (durable_open [] 1 _ _ ltac:(constructor) names_one Hfw). done.
Qed.
End Recovery.
