(* ===== verification/WalProps.v ===== *)
(** The properties of the write-ahead log: its format, its writer, and restart
    after a crash.

    [StoreDemo] instantiates the payload codec with a concrete one, to run the
    theorems on a log on disk. *)

From Stdlib Require Import ZArith Lia Ascii String.
From stdpp Require Import base gmap list strings sorting.
From S2P Require Import Prelude Types Book BookInv BookSpec BookRefine BookProps Accounts.
From S2P Require Import WalRecord Sequencer SeqFacts SeqProps Bytes WalFormat WalRead SegNames.
From S2P Require Import Wal WalDir WalInv WalLaw WalStep WalRecover.

Open Scope Z_scope.

#[local] Arguments content : simpl never.

(** * Helpers *)

Section Facts.
Context `{CodecLaws}.

(** [bs] is a segment that holds exactly [recs]. *)
Definition segment_bytes (recs : list WalRecord) (bs : list Z) : Prop :=
  exists chunks, Forall2 enc recs chunks /\ bs = seg_header ++ concat chunks.

(** What a writer has been given, durable or not. *)
Definition log (w : Writer) : list WalRecord := durable w ++ buffered w.

Lemma reachable_max b : reachable b -> 0 <= MaxOrderID b.
Proof.
  induction 1 as [|now o b b' r Hb IH Hsub Hs|id by_ b b' r Hb IH Hs]; [done| |].
  - destruct (reachable_inv b Hb) as [Hwf _]. pose proof (submit_maxOrderID _ _ _ _ _ Hwf Hsub Hs) as Hm.
    unfold MaxOrderID in *. destruct (is_good r); lia.
  - destruct (reachable_inv b Hb) as [Hwf _].
    destruct (CancelOwned_correct b id by_ Hwf) as (b1 & r1 & Hs1 & _ & Habs & _).
    rewrite Hs in Hs1. injection Hs1 as <- <-.
    apply (f_equal (fun x => Spec.s_maxOrderID x.1)) in Habs. simpl in Habs. unfold MaxOrderID in *.
    rewrite Habs. unfold Spec.cancel. by repeat case_match.
Qed.

(** Every position in a log is positive. *)
Lemma positions_positive closed sg : StronglySorted Z.lt (all_marks (closed ++ [sg])) ->
  Forall name_ok (sg_first <$> closed ++ [sg]) -> Forall (fun r => 0 < w_Seq r) (all_recs (closed ++ [sg])).
Proof.
  intros Hs Hn. apply Forall_forall. intros r Hr. unfold all_recs in Hr.
  apply list_elem_of_In in Hr. apply in_concat in Hr as (recs & Hin & Hr).
  apply list_elem_of_In in Hin, Hr. apply list_elem_of_fmap in Hin as (x & -> & Hx).
  apply list_elem_of_split in Hx as (l1 & l2 & Heq). rewrite Heq in Hs, Hn.
  change (x :: l2) with ([x] ++ l2) in Hs. rewrite !all_marks_app in Hs.
  apply StronglySorted_app in Hs as (_ & _ & Hs). apply StronglySorted_app in Hs as (_ & Hs & _).
  unfold all_marks, marks in Hs. simpl in Hs. rewrite app_nil_r in Hs. apply StronglySorted_inv in Hs as [_ Hlo].
  rewrite fmap_app in Hn. apply Forall_app in Hn as [_ Hn]. rewrite fmap_cons in Hn.
  apply Forall_cons in Hn as [Hn _]. unfold name_ok in Hn. rewrite Forall_forall in Hlo.
  specialize (Hlo _ (list_elem_of_fmap_2 (fun r => 2 * w_Seq r) _ _ Hr)). simpl in Hlo. lia.
Qed.

(** The log a crash leaves lies between what was durable and what was appended. *)
Lemma crash_log closed sg w d' : healthy_as closed sg w -> crashed (wr_dir w) d' ->
  exists s u j, log_dir closed sg s u d' /\ whole sg (length (s ++ u)) j /\
    read_segment (s ++ u) = Good (take j (sg_recs sg), length (content (cut sg j)), None) /\
    Z.of_nat (length (s ++ u)) <= MaxInt64 - 2097152 /\
    durable_dir (wr_dir w) `prefix_of` log_of closed sg j /\ log_of closed sg j `prefix_of` all_recs (closed ++ [sg]).
Proof.
  intros Hw Hcr. destruct (healthy_crashed _ _ _ _ Hw Hcr) as (s & u & s' & u' & Hf & Hs & Hsu & Hd).
  destruct (log_dir_cut _ _ _ _ _ Hd) as (j & Hj & Hr). exists s', u', j. split_and!; try done.
  - pose proof (hw_bytes _ _ _ Hw). pose proof (hw_room _ _ _ Hw) as [? _].
    pose proof (prefix_length _ _ (ld_bytes _ _ _ _ _ Hd)). lia.
  - destruct (healthy_segs _ _ _ Hw) as [Hc Hsg]. pose proof (healthy_names _ _ _ Hw) as Hn.
    rewrite (durable_open closed _ _ _ Hc Hn Hf). unfold log_of. rewrite all_recs_app. apply prefix_app.
    cbn [stable f_linked f_synced].
    assert (Hread : all_recs [cut sg j] = readable (s' ++ u')).
    { unfold readable. rewrite Hr. unfold all_recs. simpl. by rewrite app_nil_r. }
    rewrite Hread. apply (readable_mono sg); [done| |apply Hd]. etransitivity; [exact Hs|by apply prefix_app_r].
  - unfold log_of. rewrite !all_recs_app. apply prefix_app. unfold all_recs. simpl. rewrite !app_nil_r.
    exists (drop j (sg_recs sg)). by rewrite take_drop.
Qed.
End Facts.

(** * A log to run the theorems on *)

Module StoreDemo.
(** A payload codec: numbers in eight bytes, text after its length. *)
Definition put_text (s : string) : list Z :=
  let bs := (fun c => Z.of_nat (nat_of_ascii c)) <$> list_ascii_of_string s in
  le_put 8 (Z.of_nat (length bs)) ++ bs.
Definition get_num (l : list Z) : Z * list Z := (wrap64 (le_get (take 8 l)), drop 8 l).
Definition get_text (l : list Z) : string * list Z :=
  let n := Z.to_nat (le_get (take 8 l)) in
  (string_of_list_ascii ((fun b => ascii_of_nat (Z.to_nat b)) <$> take n (drop 8 l)), drop n (drop 8 l)).

Definition type_code (t : OrderType) : Z := match t with UnknownType => 0 | Limit => 1 | Market => 2 end.
Definition code_type (n : Z) : OrderType := if n =? 1 then Limit else if n =? 2 then Market else UnknownType.
Definition side_code (s : OrderSide) : Z := match s with UnknownSide => 0 | Sell => 1 | Buy => 2 end.
Definition code_side (n : Z) : OrderSide := if n =? 1 then Sell else if n =? 2 then Buy else UnknownSide.
Definition kind_code (k : RecordKind) : Z := match k with RecordUnknown => 0 | RecordSubmit => 1 | RecordCancel => 2 end.
Definition code_kind (n : Z) : RecordKind := if n =? 1 then RecordSubmit else if n =? 2 then RecordCancel else RecordUnknown.

Definition put_order (o : Order) : list Z :=
  le_put 8 (o_SeqID o) ++ put_text (o_Symbol o) ++ put_text (o_Placer o) ++ le_put 8 (type_code (o_Type o)) ++
  le_put 8 (o_Price o) ++ le_put 8 (o_Quantity o) ++ le_put 8 (side_code (o_Side o)) ++ le_put 16 (o_TimeStamp o + 2 ^ 100).
Definition get_order (l : list Z) : Order * list Z :=
  let '(id, l) := get_num l in let '(sy, l) := get_text l in let '(pl, l) := get_text l in
  let '(ty, l) := get_num l in let '(pr, l) := get_num l in let '(q, l) := get_num l in let '(sd, l) := get_num l in
  (mkOrder id sy pl (code_type ty) pr q (code_side sd) (le_get (take 16 l) - 2 ^ 100), drop 16 l).

Definition put_payload (p : walPayload) : list Z :=
  le_put 8 (kind_code (pl_Kind p)) ++ match pl_Order p with None => [0] | Some o => 1 :: put_order o end ++
  le_put 8 (pl_CancelID p) ++ put_text (pl_CancelBy p).
Definition get_payload (l : list Z) : walPayload :=
  let '(k, l) := get_num l in
  let '(o, l) := match l with 1 :: l => let '(o, l) := get_order l in (Some o, l) | _ => (None, drop 1 l) end in
  let '(c, l) := get_num l in
  mkPayload (code_kind k) o c (get_text l).1.

Definition text_ok (s : string) : Prop := Z.of_nat (String.length s) <= MaxInt64.
Definition order_ok (o : Order) : Prop :=
  in64 (o_SeqID o) /\ text_ok (o_Symbol o) /\ text_ok (o_Placer o) /\ in64 (o_Price o) /\ in64 (o_Quantity o) /\
  - 2 ^ 100 <= o_TimeStamp o < 2 ^ 100.
Definition payload_ok (p : walPayload) : Prop :=
  in64 (pl_CancelID p) /\ text_ok (pl_CancelBy p) /\ match pl_Order p with None => True | Some o => order_ok o end.

Lemma get_put_num n l : in64 n -> get_num (le_put 8 n ++ l) = (n, l).
Proof.
  intros Hn. unfold get_num. rewrite take_app_length', drop_app_length' by (by rewrite le_put_length). by rewrite le_int64.
Qed.

Lemma get_put_text s l : text_ok s -> get_text (put_text s ++ l) = (s, l).
Proof.
  intros Hs. unfold get_text, put_text. rewrite <- app_assoc.
  rewrite take_app_length', drop_app_length' by (by rewrite le_put_length). rewrite le_get_put, Z.mod_small.
  - rewrite Nat2Z.id, take_app_length, drop_app_length, <- list_fmap_compose. f_equal.
    rewrite <- (string_of_list_ascii_of_string s) at 2. f_equal. rewrite <- (list_fmap_id (list_ascii_of_string s)) at 2.
    apply list_fmap_ext. intros i c _. simpl. by rewrite Nat2Z.id, ascii_nat_embedding.
  - rewrite length_fmap. assert (Hl : length (list_ascii_of_string s) = String.length s).
    { clear. induction s as [|c s IH]; simpl; by rewrite ?IH. }
    rewrite Hl. unfold text_ok, MaxInt64 in Hs. change (256 ^ Z.of_nat 8) with 18446744073709551616. lia.
Qed.

Lemma put_text_bytes s : bytes_ok (put_text s).
Proof.
  apply Forall_app. split; [apply le_put_bytes|]. apply Forall_fmap, Forall_forall. intros c _. simpl.
  unfold is_byte. pose proof (nat_ascii_bounded c). lia.
Qed.

Lemma get_put_order o l : order_ok o -> get_order (put_order o ++ l) = (o, l).
Proof.
  intros (H1 & H2 & H3 & H4 & H5 & H6). unfold get_order, put_order. rewrite <- !app_assoc.
  rewrite get_put_num, get_put_text, get_put_text, get_put_num, get_put_num, get_put_num, get_put_num by
    (try done; by destruct (o_Type o), (o_Side o)).
  rewrite take_app_length', drop_app_length' by (by rewrite le_put_length). rewrite le_get_put, Z.mod_small.
  - destruct o as [? ? ? [] ? ? [] ?]; simpl; do 2 f_equal; lia.
  - change (256 ^ Z.of_nat 16) with (2 ^ 128). lia.
Qed.

Lemma put_payload_bytes p : bytes_ok (put_payload p).
Proof.
  assert (Hc : forall a b, bytes_ok a -> bytes_ok b -> bytes_ok (a ++ b)) by (intros; by apply Forall_app).
  unfold put_payload, put_order.
  destruct (pl_Order p); repeat first [apply le_put_bytes|apply put_text_bytes|apply Hc].
  - constructor; [done|]. repeat first [apply le_put_bytes|apply put_text_bytes|apply Hc].
  - by repeat constructor.
Qed.

Lemma get_put_payload p : payload_ok p -> get_payload (put_payload p) = p.
Proof.
  intros (H1 & H2 & H3). unfold get_payload, put_payload. rewrite get_put_num by by destruct (pl_Kind p).
  assert (Ht : (get_text (put_text (pl_CancelBy p))).1 = pl_CancelBy p).
  { rewrite <- (app_nil_r (put_text _)). by rewrite get_put_text. }
  destruct p as [k [o|] c b]; cbn [app pl_Order pl_Kind pl_CancelID pl_CancelBy] in *.
  - rewrite get_put_order, get_put_num, Ht by done. by destruct k.
  - change (drop 1 (0 :: le_put 8 c ++ put_text b)) with (le_put 8 c ++ put_text b). rewrite get_put_num, Ht by done. by destruct k.
Qed.

#[global] Instance demo_codec : PayloadCodec := {
  json_Marshal p := Some (put_payload p);
  json_Unmarshal bs := Some (get_payload bs)
}.
#[global, refine] Instance demo_laws : CodecLaws := { representable := payload_ok }.
Proof.
  - intros p bs [= <-]. apply put_payload_bytes.
  - intros p bs Hp [= <-]. simpl. by rewrite get_put_payload.
Defined.

(** What [SeqDemo.batch] asks can be carried. *)
Lemma batch_carriable : Forall (carriable (W := Writer) 7 "NABIL") SeqDemo.batch.
Proof.
  repeat (apply Forall_cons; split); try done; intros id Hid n Hn;
    (split; [done|by vm_compute|split_and!; simpl; try done; split_and!; try done; by vm_compute|done]).
Qed.

(** A new directory, and the writer opened in it. *)
Definition disk : Dir := mkDir ∅ [].
Definition opened : Writer := match (OpenWriter disk).2 with Good w => w | Fails _ => mkWriter disk None 0 0 0 end.

Lemma opened_ok : OpenWriter disk = (wr_dir opened, Good opened).
Proof. vm_compute. reflexivity. Qed.

Lemma fresh_healthy : healthy_as [] (mkSeg 1 [] []) opened.
Proof. pose proof (OpenWriter_empty disk eq_refl) as H. rewrite opened_ok in H. apply H. Qed.

(** The sequencer of [SeqDemo] over a log on disk. *)
Definition start : Sequencer Writer :=
  attach "NABIL" false true (NewSequencerWithWAL NewBook (Some opened)).

Lemma venue_running : running start.
Proof.
  apply (running_start id).
  - vm_compute. reflexivity.
  - vm_compute. reflexivity.
  - apply reach_new.
  - by vm_compute.
  - exists [], (mkSeg 1 [] []). apply fresh_healthy.
  - by vm_compute.
Qed.

Lemma start_batch : batch_ok 7 SeqDemo.batch start.
Proof.
  destruct (SeqDemo.batch_ok_start 9) as [H1 H2 H3 _]. split; try done.
  exact batch_carriable.
Qed.

Definition run := commit id 7 SeqDemo.batch start NewAccounts.
Definition after : Sequencer Writer := match run with Ok (s, _, _) => s | _ => start end.
Definition log_after : Writer := default opened (sq_wal after).

Lemma after_running : running after /\ sq_wal after = Some log_after /\ sq_walErr after = None.
Proof.
  pose proof (commit_spec id 7 SeqDemo.batch start NewAccounts (running_ok _ venue_running) start_batch) as Hs.
  destruct (prepared _ _ _) as [[b1 a1] next]. destruct (log_phase _ _ _) as [[[b2 seq] wal] walErr].
  destruct Hs as (st & ps & s' & _ & Hc & _). fold run in Hc. split_and!.
  - apply (running_commit id 7 SeqDemo.batch start NewAccounts after st ps); [apply venue_running|apply start_batch|].
    assert (Ha : after = s') by (unfold after; rewrite Hc; reflexivity). rewrite Ha. exact Hc.
  - vm_compute. reflexivity.
  - vm_compute. reflexivity.
Qed.
End StoreDemo.

(** * The properties *)

Section Properties.
Context `{CodecLaws}.

(** Round trip of the log format: a segment that holds a list of records reads
    back as exactly those records, to its last byte and without an error. *)
Theorem segment_roundtrip recs bs : Forall loggable recs -> segment_bytes recs bs ->
  read_segment bs = Good (recs, length bs, None).
Proof.
  intros Hl (chunks & Henc & ->). rewrite read_segment_header, (records_from_chunks recs) by done.
  by rewrite length_app.
Qed.

(** A torn log is not an error: a segment cut at any byte past its header reads
    as the records that are wholly there, all of them, and the offset reported is
    where the last of them ends. *)
Theorem torn_segment recs bs k : Forall loggable recs -> segment_bytes recs bs -> (walHeaderSize <= k)%nat ->
  exists j whole, segment_bytes (take j recs) whole /\ whole `prefix_of` take k bs /\
    read_segment (take k bs) = Good (take j recs, length whole, None) /\
    (forall i bs', segment_bytes (take i recs) bs' -> bs' `prefix_of` take k bs -> take i recs `prefix_of` take j recs).
Proof.
  intros Hl (chunks & Henc & ->) Hk. set (sg := mkSeg 1 recs chunks). assert (Hok : seg_ok sg) by by split.
  change (seg_header ++ concat chunks) with (content sg).
  destruct (read_cut sg k Hok Hk) as (j & (Hj & Hlen & Hmax) & Hr).
  exists j, (content (cut sg j)). split_and!.
  - exists (take j chunks). split; [by apply Forall2_take|done].
  - rewrite cut_content. exists (drop (8 + length (concat (take j (sg_chunks sg)))) (take k (content sg))).
    rewrite <- (take_drop (8 + length (concat (take j (sg_chunks sg)))) (take k (content sg))) at 1.
    by rewrite take_take, Nat.min_l.
  - rewrite Hr. unfold content, cut. cbn [sg_chunks sg_recs sg]. by rewrite length_app, seg_header_length.
  - intros i bs' (ch & Hch & Hbs') Hpre. assert (Hrd : readable bs' = take i recs).
    { unfold readable. rewrite Hbs', read_segment_header, (records_from_chunks (take i recs)); [done|by apply Forall_take|done]. }
    assert (Hrk : readable (take k (content sg)) = take j recs) by (unfold readable; by rewrite Hr).
    rewrite <- Hrd, <- Hrk. apply (readable_mono sg); [done|done|]. exists (drop k (content sg)). by rewrite take_drop.
Qed.

(** C17: Damage is told apart from a torn tail: if one byte of a record has changed,
    past its length prefix, reading stops there with [ErrCorruptWAL], after
    exactly the records before it. *)
Theorem damage_detected recs bs rec l b b' r rest : Forall loggable recs -> segment_bytes recs bs ->
  enc rec (l ++ b :: r) -> (4 <= length l)%nat -> is_byte b' -> b <> b' ->
  read_segment (bs ++ l ++ b' :: r ++ rest) = Good (recs, length bs, Some ErrCorruptWAL).
Proof.
  intros Hl (chunks & Henc & ->) Hr Hlen Hb Hne. rewrite <- app_assoc, read_segment_header.
  pose proof (next_damaged rec l b b' r rest Hr Hlen Hb Hne) as Hn.
  rewrite (records_from_app recs) by (try done; intros; by rewrite Hn). by rewrite Hn, length_app.
Qed.

(** The writer keeps its promises: on a healthy log, [Append] and [Sync] of the
    next record return, whatever the system calls do; the durable log is never
    shortened; a successful append adds the record, and a successful sync makes
    all that was appended durable. *)
Theorem writer_promises r w : healthy w -> loggable r -> w_Seq r = lastSeq w + 1 ->
  exists w1 e1, Append r w = Ok (w1, e1) /\ durable w `prefix_of` durable w1 /\
    (e1 = None -> healthy w1 /\ lastSeq w1 = w_Seq r /\ log w1 = log w ++ [r] /\
       exists w2 e2, Sync w1 = Ok (w2, e2) /\ durable w1 `prefix_of` durable w2 /\
         (e2 = None -> healthy w2 /\ lastSeq w2 = w_Seq r /\ durable w2 = log w ++ [r])).
Proof.
  intros (closed & sg & Hw) Hr Hq. destruct (Append_spec closed sg w r Hw Hr Hq) as (w1 & e1 & Ha & Hd & Hok).
  exists w1, e1. split_and!; [done|exact Hd|]. intros Hn. destruct (Hok Hn) as (c1 & sg1 & Hw1 & Hls & Hrec).
  assert (Hlog : log w1 = log w ++ [r]).
  { unfold log. cbn [durable buffered Writer_laws]. by rewrite (durable_buffered _ _ _ Hw1), (durable_buffered _ _ _ Hw). }
  split_and!; [by exists c1, sg1|done|done|]. destruct (Sync_healthy c1 sg1 w1 Hw1) as (w2 & e2 & Hs & Hd2 & Hok2).
  exists w2, e2. split_and!; [done|exact Hd2|]. intros Hn2. destruct (Hok2 Hn2) as (Hw2 & Hls2 & Hdur).
  split_and!; [by exists c1, sg1|congruence|]. cbn [durable Writer_laws]. rewrite Hdur, <- Hlog. unfold log.
  cbn [durable buffered Writer_laws]. by rewrite (durable_buffered _ _ _ Hw1).
Qed.


(** What recovery and the writer make of a synced log, whatever a crash leaves. *)
Lemma reopen_log now w b d' : healthy w -> buffered w = [] -> replay id (durable w) NewBook = Ok b ->
  crashed (wr_dir w) d' ->
  Recover now d' NewBook 0 = Ok (b, max_seq (durable w), None) /\
  match (OpenWriter d').2 with
  | Good w' => lastSeq w' = lastSeq w /\ durable w' = durable w /\ buffered w' = [] /\ healthy w' /\ in64 (lastSeq w')
  | Fails _ => script d' <> []
  end.
Proof.
  intros (closed & sg & Hw) Hbuf Hrep Hcr.
  destruct (crash_log _ _ _ _ Hw Hcr) as (s' & u & j & Hd & Hwh & Hr & Hlen & H1 & H2).
  pose proof (durable_buffered _ _ _ Hw) as Hdb. cbn [buffered Writer_laws] in Hbuf. rewrite Hbuf, app_nil_r in Hdb.
  assert (Hrecs : log_of closed sg j = all_recs (closed ++ [sg])) by (apply (anti_symm prefix); [done|]; rewrite <- Hdb; exact H1).
  assert (Htop : seg_top (cut sg j) = seg_top sg).
  { unfold log_of in Hrecs. rewrite !all_recs_app in Hrecs. apply app_inv_head in Hrecs.
    unfold all_recs in Hrecs. simpl in Hrecs. rewrite !app_nil_r in Hrecs. unfold seg_top. simpl. by rewrite Hrecs. }
  split.
  - rewrite (Recover_spec closed sg s' u d' j) by done. cbn [durable Writer_laws] in Hrep |- *.
    rewrite filter_keep, Hrecs, <- Hdb, (replay_clock now id), Hrep; [done|].
    rewrite Hrecs. apply positions_positive; apply Hw.
  - pose proof (OpenWriter_spec _ _ _ _ _ _ Hd Hwh Hr Hlen) as Ho. destruct (OpenWriter d') as [d2 [w'|e]]; [|done].
    destruct Ho as [Hw' Hdur]. rewrite Hrecs in Hdur. cbn [snd durable buffered Writer_laws]. split_and!.
    + by rewrite (hw_top _ _ _ Hw'), Htop, <- (hw_top _ _ _ Hw).
    + by rewrite Hdur, Hdb.
    + unfold buffered_recs. rewrite Hdur, (healthy_appended _ _ _ Hw'). unfold log_of in Hrecs. by rewrite Hrecs, drop_all.
    + by exists closed, (cut sg j).
    + pose proof (hw_seq _ _ _ Hw'). unfold64. lia.
Qed.

(** The same of a sequencer that has had no write failure. *)
Lemma restart_log now (s : Sequencer Writer) w d' : running s -> sq_wal s = Some w ->
  sq_walErr s = None -> crashed (wr_dir w) d' ->
  exists last, Recover now d' NewBook 0 = Ok (sq_book s, last, None) /\
    reachable (sq_book s) /\ in64 (MaxOrderID (sq_book s)) /\
    match (OpenWriter d').2 with
    | Good w' => lastSeq w' = sq_seq s /\ durable w' = durable w /\ buffered w' = [] /\ healthy w' /\
        replay now (durable w') NewBook = Ok (sq_book s) /\ in64 (lastSeq w')
    | Fails _ => script d' <> []
    end.
Proof.
  intros Hrun Hwal Herr Hcr. pose proof (running_ok s Hrun) as Hok. pose proof (so_wal s Hok) as Hwo.
  unfold wal_ok in Hwo. rewrite Hwal in Hwo. destruct Hwo as (lg & Hrep & _ & Hall).
  destruct (Hall Herr) as (-> & Hbuf & Hh & Hls & Hin). clear Hall.
  destruct (reopen_log now w (sq_book s) d' Hh Hbuf Hrep Hcr) as [HR Ho]. eexists. split; [exact HR|]. split_and!.
  - apply Hok.
  - pose proof (so_next s Hok). pose proof (so_int s Hok). pose proof (reachable_max _ (so_book s Hok)). unfold64. lia.
  - destruct (OpenWriter d').2 as [w'|e]; [|done]. destruct Ho as (H1 & H2 & H3 & H4 & H5). split_and!; try done.
    + by rewrite H1.
    + by rewrite H2, (replay_clock now id).
Qed.

(** C2: Restart is exact: if a sequencer that has had no write failure dies between
    two commits, then whatever the crash leaves, [Recover] rebuilds its very book,
    [OpenWriter] resumes at its very position, and the sequencer built from them
    is running. *)
Theorem restart_exact now (s : Sequencer Writer) w d' symbol accounts onTrades : running s -> sq_wal s = Some w ->
  sq_walErr s = None -> crashed (wr_dir w) d' -> script d' = [] ->
  exists w' last, Recover now d' NewBook 0 = Ok (sq_book s, last, None) /\ (OpenWriter d').2 = Good w' /\
    lastSeq w' = sq_seq s /\ log w' = durable w /\
    running (attach symbol accounts onTrades (NewSequencerWithWAL (sq_book s) (Some w'))).
Proof.
  intros Hrun Hwal Herr Hcr Hsc.
  destruct (restart_log now s w d' Hrun Hwal Herr Hcr) as (last & H1 & H8 & H9 & Hw).
  destruct (OpenWriter d').2 as [w'|]; [|done]. destruct Hw as (H3 & H4 & H5 & H6 & H7 & H10).
  exists w', last. split_and!; try done.
  - unfold log. by rewrite H5, app_nil_r.
  - by apply (running_start now).
Qed.
End Properties.

(** * Witnesses *)

Module WalDemo.
Import StoreDemo.

Definition rec1 : WalRecord := mkRecord 1 RecordCancel 7 zeroOrder 5 "bob".
Definition bytes_of (r : WalRecord) : list Z :=
  match encode r with Good (h, p, c) => (h ++ p ++ c)%list | Fails _ => [] end.

Lemma rec1_loggable : loggable rec1.
Proof. split; [done|done|split_and!; by vm_compute|done]. Qed.

Lemma rec1_enc : enc rec1 (bytes_of rec1).
Proof. eexists _, _, _. split; [reflexivity|]. reflexivity. Qed.

Definition seg1 : list Z := seg_header ++ bytes_of rec1.
Lemma seg1_bytes : segment_bytes [rec1] seg1.
Proof. exists [bytes_of rec1]. split; [repeat constructor; apply rec1_enc|]. unfold seg1. cbn [concat]. by rewrite app_nil_r. Qed.

(** A crash may leave everything as it was. *)
Lemma crashed_refl d : crashed d d.
Proof. intros name. destruct (files d !! name); by constructor. Qed.
End WalDemo.

Lemma segment_roundtrip_witness : read_segment WalDemo.seg1 = Good ([WalDemo.rec1], length WalDemo.seg1, None).
Proof.
  exact (segment_roundtrip [WalDemo.rec1] WalDemo.seg1
    (Forall_cons_2 _ _ _ WalDemo.rec1_loggable (Forall_nil_2 _)) WalDemo.seg1_bytes).
Defined.

Lemma torn_segment_witness :
  exists j whole, segment_bytes (take j [WalDemo.rec1]) whole /\ whole `prefix_of` take 30 WalDemo.seg1.
Proof.
  destruct (torn_segment [WalDemo.rec1] WalDemo.seg1 30 (Forall_cons_2 _ _ _ WalDemo.rec1_loggable (Forall_nil_2 _))
    WalDemo.seg1_bytes ltac:(unfold walHeaderSize; lia)) as (j & whole & H1 & H2 & _).
  exists j, whole. exact (conj H1 H2).
Defined.

Lemma damage_detected_witness :
  read_segment (WalDemo.seg1 ++ take 10 (WalDemo.bytes_of WalDemo.rec1) ++ 99 :: drop 11 (WalDemo.bytes_of WalDemo.rec1) ++ [])
    = Good ([WalDemo.rec1], length WalDemo.seg1, Some ErrCorruptWAL).
Proof.
  apply (damage_detected [WalDemo.rec1] WalDemo.seg1 WalDemo.rec1 (take 10 (WalDemo.bytes_of WalDemo.rec1))
    0 99 (drop 11 (WalDemo.bytes_of WalDemo.rec1)) [] (Forall_cons_2 _ _ _ WalDemo.rec1_loggable (Forall_nil_2 _)) WalDemo.seg1_bytes).
  - replace (take 10 (WalDemo.bytes_of WalDemo.rec1) ++ 0 :: drop 11 (WalDemo.bytes_of WalDemo.rec1))
      with (WalDemo.bytes_of WalDemo.rec1) by (vm_compute; reflexivity). apply WalDemo.rec1_enc.
  - vm_compute. lia.
  - vm_compute. split; [discriminate|reflexivity].
  - discriminate.
Defined.

Lemma writer_promises_witness :
  exists w1 e1, Append WalDemo.rec1 StoreDemo.opened = Ok (w1, e1) /\ durable StoreDemo.opened `prefix_of` durable w1.
Proof.
  destruct (writer_promises WalDemo.rec1 StoreDemo.opened
    (ex_intro _ [] (ex_intro _ (mkSeg 1 [] []) StoreDemo.fresh_healthy)) WalDemo.rec1_loggable
    ltac:(vm_compute; reflexivity)) as (w1 & e1 & H1 & H2 & _).
  exists w1, e1. exact (conj H1 H2).
Defined.


Lemma restart_exact_witness :
  exists w' last, Recover id (wr_dir StoreDemo.log_after) NewBook 0 = Ok (sq_book StoreDemo.after, last, None) /\
    (OpenWriter (wr_dir StoreDemo.log_after)).2 = Good w' /\ lastSeq w' = sq_seq StoreDemo.after.
Proof.
  destruct (restart_exact id StoreDemo.after StoreDemo.log_after (wr_dir StoreDemo.log_after) "NABIL" false true
    (proj1 StoreDemo.after_running) (proj1 (proj2 StoreDemo.after_running)) (proj2 (proj2 StoreDemo.after_running))
    (WalDemo.crashed_refl _) ltac:(vm_compute; reflexivity)) as (w' & last & H1 & H2 & H3 & _).
  exists w', last. exact (conj H1 (conj H2 H3)).
Defined.
