(* ===== verification/WalClose.v ===== *)
(** Closing a log: what [Close] leaves of one with nothing buffered. *)

From Stdlib Require Import ZArith Lia.
From stdpp Require Import base gmap list strings.
From S2P Require Import Prelude Types Book WalRecord Bytes WalFormat WalRead SegNames Wal WalDir WalInv WalLaw WalStep WalRecover.

Open Scope Z_scope.

Section Closing.
Context `{CodecLaws}.

(** [Close] returns, whatever state the writer is in. *)
Lemma Close_total (w : Writer) : exists w' e, Close w = Ok (w', e).
Proof.
  unfold Close. destruct (wr_f w) as [[name bw]|] eqn:Hf; [|by eexists _, _].
  unfold Sync, and_then, wr_flush. rewrite Hf. cbn [deref mbind outcome_bind].
  destruct (bw_Flush name bw (wr_dir w)) as [[bw1 d1] [e1|]]; cbn [mbind outcome_bind].
  - destruct (sys_touch _). by eexists _, _.
  - unfold wr_fsync. cbn [set_bw wr_f deref mbind outcome_bind]. destruct (sys_fsync _ _) as [d2 e2]. cbn [mbind outcome_bind].
    destruct (sys_touch _). by eexists _, _.
Qed.

(** The bytes of a segment all of whose records are durable are all synced. *)
Lemma all_synced closed sg w : healthy_as closed sg w -> buffered w = [] ->
  files (wr_dir w) = files_of (closed_files closed ++ [(sg_first sg, mkFile (content sg) [] true)]).
Proof.
  intros Hw Hbuf. destruct (hw_file _ _ _ Hw) as (bw & Hf & He & (s & u & Hfs & Hs0 & Hb & Hd)). rewrite He in Hd.
  destruct (healthy_segs _ _ _ Hw) as [Hc Hsg]. pose proof (healthy_names _ _ _ Hw) as Hn.
  pose proof (durable_buffered _ _ _ Hw) as Hdb. cbn [buffered Writer_laws] in Hbuf. rewrite Hbuf, app_nil_r in Hdb.
  rewrite (durable_open closed _ _ _ Hc Hn Hfs), all_recs_app in Hdb. apply app_inv_head in Hdb. cbn [stable f_linked f_synced] in Hdb.
  assert (Hp : s `prefix_of` content sg) by (rewrite <- Hd; by apply prefix_app_r).
  assert (H8 : (8 <= length s)%nat) by (rewrite <- seg_header_length; by apply prefix_length).
  destruct (read_cut sg (length s) Hsg H8) as (j & (Hj & Hlen & _) & Hr). rewrite <- (prefix_take _ _ Hp) in Hr.
  unfold readable, all_recs in Hdb. rewrite Hr in Hdb. simpl in Hdb. rewrite app_nil_r in Hdb.
  assert (Hall : (length (content sg) <= length s)%nat).
  { apply (f_equal length) in Hdb. rewrite length_take in Hdb. destruct Hsg as [_ Henc]. pose proof (Forall2_length _ _ _ Henc).
    unfold content. rewrite length_app, seg_header_length. rewrite take_ge in Hlen by lia. exact Hlen. }
  assert (s = content sg) as -> by (apply (prefix_length_eq _ _ Hp); lia).
  rewrite <- (app_nil_r (content sg)) in Hd at 2. apply app_inv_head in Hd. by apply app_eq_nil in Hd as [-> _].
Qed.

(** Closing a log with nothing buffered leaves its files as they were, whatever the
    system calls say. *)
Lemma Close_keeps (w : Writer) : healthy w -> buffered w = [] ->
  exists w' e, Close w = Ok (w', e) /\ files (wr_dir w') = files (wr_dir w) /\ lastSeq w' = lastSeq w.
Proof.
  intros (closed & sg & Hw) Hbuf. pose proof (all_synced closed sg w Hw Hbuf) as Hfiles. pose proof (healthy_names _ _ _ Hw) as Hn.
  destruct (hw_file _ _ _ Hw) as (bw & Hf & He & (s & u & Hfs & Hs0 & Hb & Hd)).
  assert (Hwr : writing (closed_files closed) (sg_first sg) (content sg) (content sg) None w).
  { exists bw. split_and!; try done. rewrite He in Hd. exists (content sg), []. split_and!; try done. rewrite He.
    rewrite Hfs in Hfiles. rewrite !files_of_snoc in Hfiles by done. apply (f_equal (lookup (segment_name (sg_first sg)))) in Hfiles.
    rewrite !lookup_insert_eq in Hfiles. injection Hfiles as -> ->. exact Hd. }
  destruct (Close_spec _ _ Hn (content sg) (content sg) w Hwr) as (w' & e & Hcl & (_ & _ & Hls) & _ & (bw' & s' & u' & Hfs' & Hs' & _ & Hd') & _).
  exists w', e. split_and!; [done| |done]. rewrite Hfs', Hfiles. do 3 f_equal.
  assert (Hsu : s' ++ u' `prefix_of` content sg) by (destruct (bw_err bw'); [exact Hd'|rewrite <- Hd', app_assoc; by apply prefix_app_r]).
  assert (E : s' = content sg).
  { apply (anti_symm prefix); [|done]. etransitivity; [|exact Hsu]. by apply prefix_app_r. }
  subst s'. destruct Hsu as [x Hx]. rewrite <- app_assoc in Hx. rewrite <- (app_nil_r (content sg)) in Hx at 1.
  apply app_inv_head in Hx. symmetry in Hx. by apply app_eq_nil in Hx as [-> _].
Qed.

Lemma crashed_files d1 d2 d : files d1 = files d2 -> crashed d1 d -> crashed d2 d.
Proof. intros Hf Hc name. rewrite <- Hf. apply Hc. Qed.

End Closing.
