(* ===== verification/Tail.v ===== *)
(** Tailing a log, from [src/internal/oms/tail.go]: a [Tailer] reads the segment
    files of a directory that is still being written.

    Each call of [poll] sees the directory as it is then. [Next] is given the
    directories its successive polls see; running out of them is the end of its
    context. *)

From Stdlib Require Import ZArith Lia.
From stdpp Require Import base gmap list strings sorting.
From S2P Require Import Prelude Types Book WalRecord Bytes WalFormat WalRead SegNames Wal WalDir WalInv WalLaw WalStep WalRecover.

Open Scope Z_scope.

(** [Tailer], without its directory; an empty [segment] is [None]. *)
Record Tailer := mkTailer { afterSeq : Z; segment : option string; offset : nat }.

Definition NewTailer (afterSeq : Z) : Tailer := mkTailer afterSeq None 0.
Definition AfterSeq (t : Tailer) : Z := afterSeq t.

Section Tailing.
Context `{PayloadCodec}.

(** The loop of [locateSegment]. *)
Fixpoint locate_loop (want : Z) (paths : list string) (chosen : string) : result oms_error string :=
  match paths with
  | [] => Good chosen
  | path :: paths =>
      match seqFromName path with
      | None => Fails ErrWalIO
      | Some first => if want <? first then Good chosen else locate_loop want paths path
      end
  end.

Definition locateSegment (d : Dir) (t : Tailer) : Tailer * option oms_error :=
  match segmentPaths d with
  | [] => (t, None)
  | (p :: _) as segs =>
      match locate_loop (add64 (afterSeq t) 1) segs p with
      | Fails e => (t, Some e)
      | Good chosen => (mkTailer (afterSeq t) (Some chosen) walHeaderSize, None)
      end
  end.

(** The loop of [readSegment] over the bytes from the reader's offset on. *)
Fixpoint read_loop (fuel : nat) (bs : list Z) (off : nat) (after : Z) (max : nat)
    : list WalRecord * nat * Z * option oms_error :=
  match fuel with
  | O => ([], off, after, None)
  | S fuel =>
      match next bs with
      | ReadEOF => ([], off, after, None)
      | ReadErr e => ([], off, after, Some e)
      | ReadRec rec size =>
          let off := (off + size)%nat in
          if w_Seq rec <=? after then read_loop fuel (drop size bs) off after max
          else
            let after := w_Seq rec in
            match max with
            | O | S O => ([rec], off, after, None)
            | S max =>
                let '(recs, off, after, e) := read_loop fuel (drop size bs) off after max in
                (rec :: recs, off, after, e)
            end
      end
  end.

(** [readSegment]; every record takes at least one byte, so the bytes are fuel enough. *)
Definition readSegment (d : Dir) (t : Tailer) (max : nat) : Tailer * list WalRecord * option oms_error :=
  match segment t with
  | None => (t, [], Some ErrWalIO)
  | Some name =>
      match files d !! name with
      | None => (t, [], Some ErrWalIO)
      | Some f =>
          if (offset t <? walHeaderSize)%nat then (t, [], Some ErrWalIO) else
          match check_header (f_bytes f) with
          | Some e => (t, [], Some e)
          | None =>
              let bs := drop (offset t) (f_bytes f) in
              let '(recs, off, after, e) := read_loop (S (length bs)) bs (offset t) (afterSeq t) max in
              (mkTailer after (segment t) off, recs, e)
          end
      end
  end.

(** [nextSegment]: the path after the current one. *)
Fixpoint path_after (name : string) (paths : list string) : option string :=
  match paths with
  | [] => None
  | p :: paths =>
      match (if String.eqb p name then head paths else None) with
      | Some q => Some q
      | None => path_after name paths
      end
  end.
Definition nextSegment (d : Dir) (t : Tailer) : option string :=
  match segment t with Some name => path_after name (segmentPaths d) | None => None end.

(** [poll]: [max] is what the batch may still take. *)
Fixpoint poll (fuel : nat) (d : Dir) (t : Tailer) (max : nat)
    : outcome (Tailer * list WalRecord * option oms_error) :=
  match max with
  | O => Ok (t, [], None)
  | S _ =>
      match fuel with
      | O => OutOfFuel
      | S fuel =>
          let '(t, e) := match segment t with None => locateSegment d t | Some _ => (t, None) end in
          match e, segment t with
          | Some e, _ => Ok (t, [], Some e)
          | None, None => Ok (t, [], None)
          | None, Some _ =>
              match readSegment d t max with
              | (t, _, Some e) => Ok (t, [], Some e)
              | (t, [], None) =>
                  match nextSegment d t with
                  | None => Ok (t, [], None)
                  | Some next => poll fuel d (mkTailer (afterSeq t) (Some next) walHeaderSize) max
                  end
              | (t, recs, None) =>
                  '(t, more, e) ← poll fuel d t (max - length recs);
                  Ok (t, recs ++ more, e)
              end
          end
      end
  end.

(** One iteration per record taken, one per segment, and one to stop. *)
Definition poll_fuel (d : Dir) (max : nat) : nat := max + length (segmentPaths d) + 2.

(** [Next]: on an error the batch is dropped. What is left of [seen] is what later
    calls see; [ctxErr] is the error of a context that has ended. *)
Fixpoint Next (ctxErr : oms_error) (seen : list Dir) (t : Tailer) (max : nat)
    : outcome (Tailer * list Dir * result oms_error (list WalRecord)) :=
  match seen with
  | [] => Ok (t, [], Fails ctxErr)
  | d :: seen =>
      '(t, batch, e) ← poll (poll_fuel d max) d t max;
      match e, batch with
      | Some e, _ => Ok (t, seen, Fails e)
      | None, [] => Next ctxErr seen t max
      | None, _ => Ok (t, seen, Good batch)
      end
  end.
End Tailing.
