(* ===== verification/TailFacts.v ===== *)
(** What a tailer sees of a directory, and what one [poll] takes from it.

    [shows d segs] says that the whole records in the files of [d] are those of
    [segs]; [at_pos t segs] that the tailer stands between two of them, everything
    before it at or below its position. *)

From Stdlib Require Import ZArith Lia.
From stdpp Require Import base gmap list strings sorting.
From S2P Require Import Prelude Types Book WalRecord Bytes WalFormat WalRead SegNames Wal WalDir WalInv WalLaw WalStep WalRecover Tail.

Open Scope Z_scope.

#[local] Arguments content : simpl never.

(** The records above a position. *)
Definition above (a : Z) (l : list WalRecord) : list WalRecord := filter (fun r => a < w_Seq r) l.
Definition latest (a : Z) (l : list WalRecord) : Z := default a (w_Seq <$> last l).

Lemma above_app a l k : above a (l ++ k) = above a l ++ above a k.
Proof. apply filter_app. Qed.

Lemma above_all a l : Forall (fun r => a < w_Seq r) l -> above a l = l.
Proof. apply filter_keep. Qed.

Lemma above_none a l : Forall (fun r => w_Seq r <= a) l -> above a l = [].
Proof. intros Hl. apply filter_drop. eapply Forall_impl; [exact Hl|]. simpl. intros; lia. Qed.

Lemma above_ge a l : Forall (fun r => a < w_Seq r) (above a l).
Proof. apply Forall_forall. intros r Hr. by apply list_elem_of_filter in Hr as [? _]. Qed.

Lemma latest_ge a l : a <= latest a (above a l).
Proof.
  unfold latest. destruct (last (above a l)) as [r|] eqn:E; [|done]. simpl.
  pose proof (above_ge a l) as H. rewrite Forall_forall in H. apply last_Some_elem_of, H in E. lia.
Qed.

Lemma latest_app a l k : latest a (l ++ k) = latest (latest a l) k.
Proof. unfold latest. rewrite last_app. by destruct (last k). Qed.

Lemma above_above a b l : a <= b -> above b (above a l) = above b l.
Proof.
  intros Hab. induction l as [|r l IH]; [done|]. unfold above in *. rewrite (filter_cons _ r l), (filter_cons _ r l).
  case_decide; rewrite ?filter_cons; repeat case_decide; try lia; by rewrite ?IH.
Qed.

(** In an increasing log, all that was taken is at or below the latest of it. *)
Definition increasing (l : list WalRecord) : Prop := StronglySorted Z.lt (w_Seq <$> l).

Lemma increasing_app l k : increasing (l ++ k) ->
  increasing l /\ increasing k /\ (forall x y, x ∈ l -> y ∈ k -> w_Seq x < w_Seq y).
Proof.
  unfold increasing. rewrite fmap_app. intros (H1 & H2 & H3)%StronglySorted_app. split_and!; try done.
  intros x y Hx Hy. by apply H1; apply list_elem_of_fmap_2.
Qed.

Lemma latest_bounds a l : increasing l -> Forall (fun r => w_Seq r <= latest a (above a l)) l.
Proof.
  induction l as [|r l _] using rev_ind; [done|]. intros Hi. apply increasing_app in Hi as (H1 & _ & H2).
  apply Forall_forall. intros x Hx. rewrite above_app. unfold above at 2. rewrite filter_cons, filter_nil.
  assert (Hxr : w_Seq x <= w_Seq r).
  { apply elem_of_app in Hx as [Hx|Hx]; [|apply list_elem_of_singleton in Hx; by subst].
    assert (w_Seq x < w_Seq r) by (apply H2; [done|by left]). lia. }
  case_decide as Hr.
  - unfold latest. rewrite last_snoc. simpl. lia.
  - rewrite app_nil_r. pose proof (latest_ge a l). lia.
Qed.

(** Past the latest taken, nothing is skipped. *)
Lemma above_latest a l k : increasing (l ++ k) -> above (latest a (above a l)) k = above a k.
Proof.
  intros Hi. apply increasing_app in Hi as (_ & _ & H2). unfold latest.
  destruct (last (above a l)) as [r|] eqn:E; simpl; [|done].
  apply last_Some_elem_of, list_elem_of_filter in E as [Hr Hin].
  assert (Hk : Forall (fun x => w_Seq r < w_Seq x) k) by (apply Forall_forall; intros; by apply H2).
  rewrite !above_all; [done| |done]. eapply Forall_impl; [exact Hk|]. simpl. intros; lia.
Qed.

(** After taking a prefix of what is above, the rest is what is above. *)
Lemma above_rest a l o x : increasing l -> above a l = o ++ x -> above (latest a o) l = x.
Proof.
  intros Hi Hl. assert (Hio : increasing (above a l)).
  { clear -Hi. unfold increasing, above in *. induction l as [|r l IH]; [constructor|]. rewrite filter_cons.
    rewrite fmap_cons in Hi. apply StronglySorted_inv in Hi as [Hs Hf]. case_decide; [|by apply IH].
    rewrite fmap_cons. constructor; [by apply IH|]. apply Forall_fmap, Forall_forall. intros y Hy.
    apply list_elem_of_filter in Hy as [_ Hy]. rewrite Forall_fmap, Forall_forall in Hf. by apply Hf. }
  pose proof (above_ge a l) as Hge. rewrite Hl in Hio, Hge. apply Forall_app in Hge as [Hgo Hgx].
  assert (Ho : above a o = o) by by apply above_all.
  assert (Hle : a <= latest a o) by (rewrite <- Ho; apply latest_ge).
  rewrite <- (above_above a (latest a o) l Hle), Hl, above_app.
  pose proof Hio as (Hio1 & _ & _)%increasing_app.
  pose proof (latest_bounds a o Hio1) as Hbd. rewrite Ho in Hbd. rewrite (above_none (latest a o) o) by done. cbn [app].
  rewrite <- Ho at 1. rewrite (above_latest a o x) by done. by apply above_all.
Qed.

Section Facts.
Context `{CodecLaws}.

Record shows (d : Dir) (segs : list Seg) : Prop := {
  sh_segs : Forall seg_ok segs;
  sh_names : Forall name_ok (sg_first <$> segs);
  sh_order : StronglySorted Z.lt (all_marks segs);
  sh_paths : segmentPaths d = segment_name <$> (sg_first <$> segs);
  sh_files : forall sg, sg ∈ segs -> exists f tl, files d !! segment_name (sg_first sg) = Some f /\
    f_bytes f = content sg ++ tl /\ next tl = ReadEOF
}.

Lemma rec_in_marks segs r : r ∈ all_recs segs -> 2 * w_Seq r ∈ all_marks segs.
Proof.
  intros Hr. unfold all_recs in Hr. apply list_elem_of_In, in_concat in Hr as (recs & Hin & Hr).
  apply list_elem_of_In, list_elem_of_fmap in Hin as (x & -> & Hx).
  unfold all_marks. apply list_elem_of_In, in_concat. exists (marks x).
  split; apply list_elem_of_In; [by apply list_elem_of_fmap_2|]. right.
  apply list_elem_of_In in Hr. by apply (list_elem_of_fmap_2 (fun r => 2 * w_Seq r)).
Qed.

(** What precedes a segment is below its first position. *)
Lemma marks_before l1 sg l2 : StronglySorted Z.lt (all_marks (l1 ++ sg :: l2)) ->
  Forall (fun r => w_Seq r < sg_first sg) (all_recs l1).
Proof.
  rewrite all_marks_app. intros (Hlt & _)%StronglySorted_app. apply Forall_forall. intros r Hr.
  assert (2 * w_Seq r < 2 * sg_first sg - 1); [|lia].
  apply Hlt; [by apply rec_in_marks|]. apply first_in_marks. by left.
Qed.

Lemma marks_seqs segs : StronglySorted Z.lt (all_marks segs) -> increasing (all_recs segs).
Proof.
  induction segs as [|sg segs IH]; [constructor|]. intros Hs.
  change (sg :: segs) with ([sg] ++ segs) in *. rewrite all_marks_app in Hs. rewrite all_recs_app.
  apply StronglySorted_app in Hs as (Hlt & Hs & Hss). specialize (IH Hss).
  assert (H1 : all_marks [sg] = marks sg) by (unfold all_marks; simpl; by rewrite app_nil_r).
  assert (H2 : all_recs [sg] = sg_recs sg) by (unfold all_recs; simpl; by rewrite app_nil_r).
  rewrite H1 in *. rewrite H2. unfold increasing. rewrite fmap_app. apply StronglySorted_app. split_and!; [| |done].
  - intros x y Hx Hy. apply list_elem_of_fmap in Hx as (r & -> & Hr).
    apply list_elem_of_fmap in Hy as (r' & -> & Hr').
    pose proof (rec_in_marks segs r' Hr') as Hr2.
    assert (2 * w_Seq r < 2 * w_Seq r'); [|lia]. apply Hlt; [|done]. right.
    by apply (list_elem_of_fmap_2 (fun r => 2 * w_Seq r)).
  - apply StronglySorted_inv in Hs as [Hs _]. clear -Hs. induction (sg_recs sg) as [|r l IH]; [constructor|].
    rewrite fmap_cons in *. apply StronglySorted_inv in Hs as [Hs Hf]. constructor; [by apply IH|].
    apply Forall_fmap, Forall_forall. intros x Hx. simpl. rewrite Forall_forall in Hf.
    specialize (Hf _ (list_elem_of_fmap_2 (fun r => 2 * w_Seq r) _ _ Hx)). simpl in Hf. lia.
Qed.

(** The records at the front of a segment's bytes. *)
Lemma read_loop_spec recs chunks tl : Forall loggable recs -> Forall2 enc recs chunks -> increasing recs ->
  next tl = ReadEOF -> forall fuel off after max, (length recs < fuel)%nat -> (0 < max)%nat ->
  exists i, (i <= length recs)%nat /\
    read_loop fuel (concat chunks ++ tl) off after max =
      (above after (take i recs), (off + length (concat (take i chunks)))%nat,
       latest after (above after (take i recs)), None) /\
    (length (above after (take i recs)) <= max)%nat /\
    (length (above after (take i recs)) = max \/ i = length recs).
Proof.
  intros Hlog Henc Hinc Htl. induction Henc as [|rec bs recs chunks Hb Henc IH]; intros fuel off after max Hf Hm.
  { destruct fuel as [|fuel]; [simpl in Hf; lia|]. exists O. simpl. rewrite Htl, Nat.add_0_r. split_and!; auto; lia. }
  apply Forall_cons in Hlog as [Hr Hlog]. destruct fuel as [|fuel]; [simpl in Hf; lia|].
  change (rec :: recs) with ([rec] ++ recs) in Hinc. pose proof Hinc as (_ & Hinc' & _)%increasing_app.
  cbn [read_loop concat]. rewrite <- app_assoc, (next_enc rec bs _ Hr Hb), drop_app_length.
  simpl in Hf. destruct (Z.leb_spec (w_Seq rec) after) as [Hle|Hgt].
  - destruct (IH Hlog Hinc' fuel (off + length bs)%nat after max ltac:(lia) Hm) as (i & Hi & -> & Hl & Hor).
    exists (S i). assert (Ha : above after (take (S i) (rec :: recs)) = above after (take i recs)).
    { simpl. unfold above. rewrite filter_cons. by rewrite decide_False by lia. }
    rewrite Ha. simpl. rewrite length_app, Nat.add_assoc. split_and!; [lia|done|done|]. destruct Hor; [by left|right; lia].
  - assert (Ha : forall i, above after (take (S i) (rec :: recs)) = rec :: above (w_Seq rec) (take i recs)).
    { intros i. simpl. unfold above at 1. rewrite filter_cons, decide_True by lia. f_equal.
      assert (Hl : latest after (above after [rec]) = w_Seq rec).
      { unfold above. rewrite filter_cons, filter_nil, decide_True by lia. done. }
      rewrite <- Hl. symmetry. apply (above_latest after [rec]).
      rewrite <- (take_drop i recs), app_assoc in Hinc. by apply increasing_app in Hinc as (? & _). }
    destruct max as [|[|max]]; [lia| |].
    + exists 1%nat. rewrite (Ha O). simpl. rewrite app_nil_r. unfold latest. simpl. split_and!; auto; lia.
    + destruct (IH Hlog Hinc' fuel (off + length bs)%nat (w_Seq rec) (S max) ltac:(lia) ltac:(lia)) as (i & Hi & -> & Hl & Hor).
      exists (S i). rewrite Ha. simpl. rewrite length_app, Nat.add_assoc.
      assert (Hla : latest after (rec :: above (w_Seq rec) (take i recs)) = latest (w_Seq rec) (above (w_Seq rec) (take i recs))).
      { exact (latest_app after [rec] _). }
      rewrite Hla. split_and!; [lia|done|lia|]. destruct Hor as [Hor|Hor]; [left|right]; lia.
Qed.

(** ** Positions *)

Definition place (sg : Seg) (i : nat) : nat := 8 + length (concat (take i (sg_chunks sg))).

Definition at_pos (t : Tailer) (segs : list Seg) : Prop :=
  match segment t with
  | None => True
  | Some name => exists l1 sg l2 i, segs = l1 ++ sg :: l2 /\ name = segment_name (sg_first sg) /\
      offset t = place sg i /\ (i <= length (sg_recs sg))%nat /\
      Forall (fun r => w_Seq r <= afterSeq t) (all_recs l1 ++ take i (sg_recs sg))
  end.

Lemma place_drop sg i tl : drop (place sg i) (content sg ++ tl) = concat (drop i (sg_chunks sg)) ++ tl.
Proof.
  unfold place, content. rewrite <- app_assoc, drop_app_ge by (rewrite seg_header_length; lia).
  rewrite seg_header_length. replace (8 + _ - 8)%nat with (length (concat (take i (sg_chunks sg)))) by lia.
  rewrite <- (take_drop i (sg_chunks sg)) at 2. rewrite concat_app, <- app_assoc. by rewrite drop_app_length.
Qed.

Lemma place_next sg i k : (place sg i + length (concat (take k (drop i (sg_chunks sg)))))%nat = place sg (i + k).
Proof.
  unfold place. rewrite <- Nat.add_assoc, <- length_app, <- concat_app. do 3 f_equal.
  by rewrite <- (take_take_drop (sg_chunks sg) i k).
Qed.

Lemma path_after_names l1 x l2 : names_ok (l1 ++ x :: l2) ->
  path_after (segment_name x) (segment_name <$> (l1 ++ x :: l2)) = head (segment_name <$> l2).
Proof.
  intros Hn%names_NoDup. induction l1 as [|y l1 IH].
  - cbn [app]. rewrite fmap_cons. cbn [path_after]. rewrite String.eqb_refl. by destruct l2 as [|z l2].
  - cbn [app] in *. rewrite fmap_cons in *. cbn [path_after]. apply NoDup_cons in Hn as [Hy Hn]. destruct (String.eqb_spec (segment_name y) (segment_name x)) as [E|]; [|by apply IH].
    exfalso. apply Hy. rewrite E. apply (list_elem_of_fmap_2 segment_name). apply elem_of_app. right. by left.
Qed.

(** ** What a writer's directory shows *)

(** The bytes past the whole records of a cut segment are no record. *)
Lemma cut_tail sg k : seg_ok sg -> (8 <= k)%nat ->
  exists j tl, take k (content sg) = content (cut sg j) ++ tl /\ next tl = ReadEOF.
Proof.
  intros [Hlog Henc] Hk. unfold content. rewrite take_app_ge by done. rewrite seg_header_length.
  destruct (Nat.le_gt_cases (k - 8) (length (concat (sg_chunks sg)))) as [Hle|Hgt].
  - destruct (cut_chunks (sg_recs sg) (sg_chunks sg) (k - 8) Henc Hle) as (j & part & Hj & Htk & Hpart & _).
    exists j, part. unfold cut. cbn [sg_chunks]. rewrite Htk, app_assoc. split; [done|].
    destruct Hpart as [->|(rec & bs & i & _ & Hb & -> & Hi)]; [done|]. by apply (next_torn rec).
  - exists (length (sg_recs sg)), []. unfold cut. cbn [sg_chunks]. rewrite app_nil_r, (take_ge (concat _)) by lia.
    rewrite (take_ge (sg_chunks sg)); [done|]. by rewrite (Forall2_length _ _ _ Henc).
Qed.

Lemma log_dir_shows closed sg s u d : log_dir closed sg s u d ->
  exists j tl, s ++ u = content (cut sg j) ++ tl /\ next tl = ReadEOF /\ shows d (closed ++ [cut sg j]).
Proof.
  intros Hd. pose proof (ld_segs _ _ _ _ _ Hd) as Hok. pose proof Hok as Hok'.
  apply Forall_app in Hok' as [Hc [Hsg _]%Forall_cons].
  pose proof (log_dir_names _ _ _ _ _ Hd) as Hn. pose proof (ld_files _ _ _ _ _ Hd) as Hf.
  assert (H8 : (8 <= length (s ++ u))%nat).
  { rewrite length_app. pose proof (prefix_length _ _ (ld_header _ _ _ _ _ Hd)) as Hl. rewrite seg_header_length in Hl. lia. }
  destruct (cut_tail sg (length (s ++ u)) Hsg H8) as (j & tl & Htk & Htl).
  rewrite <- (prefix_take _ _ (ld_bytes _ _ _ _ _ Hd)) in Htk. exists j, tl. split; [done|]. split; [done|].
  set (l := closed_files closed ++ [(sg_first sg, mkFile s u true)]) in *.
  assert (Hl : names_ok l.*1) by (unfold l; by rewrite fmap_app).
  assert (Hfst : l.*1 = sg_first <$> closed ++ [cut sg j]) by (unfold l; rewrite !fmap_app, closed_files_fst; done).
  split.
  - apply Forall_app. split; [done|]. constructor; [by apply cut_ok|done].
  - rewrite <- Hfst. apply Hl.
  - eapply sorted_prefix; [apply cut_marks|apply Hd].
  - destruct d as [fs sc]. simpl in Hf. subst fs. rewrite segmentPaths_files by done. by rewrite Hfst.
  - intros x Hx. rewrite Hf. apply elem_of_app in Hx as [Hx| ->%list_elem_of_singleton].
    + exists (mkFile (content x) [] true), []. split_and!; try done. apply files_of_lookup; [done|].
      unfold l. apply elem_of_app. left.
      by apply (list_elem_of_fmap_2 (fun sg => (sg_first sg, mkFile (content sg) [] true))).
    + exists (mkFile s u true), tl. split_and!; try done. apply files_of_lookup; [done|].
      unfold l. apply elem_of_app. right. by left.
Qed.

(** A healthy log with nothing in the buffers shows all of it. *)
Lemma synced_shows closed sg w : healthy_as closed sg w -> buffered_recs w = [] ->
  exists segs, shows (wr_dir w) segs /\ all_recs segs = durable_dir (wr_dir w).
Proof.
  intros Hw Hbuf. assert (Hcr : crashed (wr_dir w) (wr_dir w)) by (intros name; destruct (files (wr_dir w) !! name); by constructor).
  destruct (healthy_crashed _ _ _ _ Hw Hcr) as (s & u & s' & u' & Hf & Hs & _ & Hd).
  destruct (log_dir_shows _ _ _ _ _ Hd) as (j & tl & Hb & Htl & Hsh). exists (closed ++ [cut sg j]). split; [done|].
  destruct (healthy_segs _ _ _ Hw) as [Hc Hsg]. pose proof (healthy_names _ _ _ Hw) as Hn.
  pose proof (durable_buffered _ _ _ Hw) as Hdb. rewrite Hbuf, app_nil_r in Hdb.
  pose proof (durable_open closed _ _ _ Hc Hn (ld_files _ _ _ _ _ Hd)) as Hdo. unfold stable in Hdo. cbn [f_linked f_synced] in Hdo.
  rewrite Hdo in Hdb. rewrite Hdo, !all_recs_app in *. f_equal. apply app_inv_head in Hdb.
  assert (Hcut : readable s' `prefix_of` all_recs [cut sg j]).
  { unfold all_recs. simpl. rewrite app_nil_r. change (take j (sg_recs sg)) with (sg_recs (cut sg j)).
    destruct (log_dir_cut _ _ _ _ _ Hd) as (j' & _ & Hr').
    assert (Hrd : readable (s' ++ u') = sg_recs (cut sg j)).
    { unfold readable. rewrite Hb. unfold content at 1. rewrite <- app_assoc, read_segment_header.
      destruct (cut_ok sg j Hsg) as [Hlog Henc].
      rewrite (records_from_app (sg_recs (cut sg j))) by (try done; intros; by rewrite Htl). done. }
    rewrite <- Hrd. apply (readable_mono sg); [done|by apply prefix_app_r|apply Hd]. }
  apply (anti_symm prefix); [|done]. rewrite Hdb. unfold all_recs. simpl. rewrite !app_nil_r.
  exists (drop j (sg_recs sg)). by rewrite take_drop.
Qed.
End Facts.
