(* ===== verification/TailProps.v ===== *)
(** A tailer loses nothing and repeats nothing. *)

From Stdlib Require Import ZArith Lia.
From stdpp Require Import base gmap list strings sorting.
From S2P Require Import Prelude Types Book WalRecord Bytes WalFormat WalRead SegNames Wal WalDir WalInv WalLaw WalStep WalRecover Tail TailFacts.
From S2P Require Import BookProps Accounts Sequencer SeqFacts SeqProps WalProps.

Open Scope Z_scope.

#[local] Arguments content : simpl never.

Section Polling.
Context `{CodecLaws} (d : Dir) (segs : list Seg) (Hsh : shows d segs).

Lemma shows_names : names_ok (sg_first <$> segs).
Proof. split; [by apply marks_names, Hsh|apply Hsh]. Qed.

(** Reading on in a segment. *)
Lemma readSegment_spec l1 sg l2 i after max : segs = l1 ++ sg :: l2 -> (i <= length (sg_recs sg))%nat -> (0 < max)%nat ->
  exists k, (k <= length (drop i (sg_recs sg)))%nat /\
    let out := above after (take k (drop i (sg_recs sg))) in
    readSegment d (mkTailer after (Some (segment_name (sg_first sg))) (place sg i)) max =
      (mkTailer (latest after out) (Some (segment_name (sg_first sg))) (place sg (i + k)), out, None) /\
    (length out <= max)%nat /\ (length out = max \/ k = length (drop i (sg_recs sg))).
Proof.
  intros Hsegs Hi Hm. assert (Hin : sg ∈ segs) by (rewrite Hsegs; apply elem_of_app; right; by left).
  destruct (sh_files _ _ Hsh sg Hin) as (f & tl & Hf & Hb & Htl).
  pose proof (sh_segs _ _ Hsh) as Hok. rewrite Forall_forall in Hok. destruct (Hok sg Hin) as [Hlog Henc].
  pose proof (marks_seqs _ (sh_order _ _ Hsh)) as Hinc. rewrite Hsegs in Hinc.
  rewrite all_recs_app in Hinc. apply increasing_app in Hinc as (_ & Hinc & _).
  change (all_recs (sg :: l2)) with (sg_recs sg ++ all_recs l2) in Hinc. apply increasing_app in Hinc as (Hinc & _).
  assert (Hincd : increasing (drop i (sg_recs sg)))
    by (rewrite <- (take_drop i (sg_recs sg)) in Hinc; by apply increasing_app in Hinc as (_ & ? & _)).
  unfold readSegment. cbn [segment offset afterSeq]. rewrite Hf.
  rewrite (proj2 (Nat.ltb_ge _ _)) by (unfold place, walHeaderSize; lia).
  assert (Hck : check_header (f_bytes f) = None) by (rewrite Hb; unfold content; done).
  rewrite Hck, Hb, place_drop.
  destruct (read_loop_spec (drop i (sg_recs sg)) (drop i (sg_chunks sg)) tl
    ltac:(by apply Forall_drop) ltac:(by apply Forall2_drop) Hincd Htl
    (S (length (concat (drop i (sg_chunks sg)) ++ tl))) (place sg i) after max) as (k & Hk & Hr & Hl & Hor).
  - rewrite length_app. pose proof (chunks_fuel (drop i (sg_recs sg)) (drop i (sg_chunks sg)) ltac:(by apply Forall2_drop)). lia.
  - done.
  - exists k. split; [done|]. rewrite Hr, place_next. done.
Qed.

(** One poll from a known position. *)
Lemma poll_located : forall fuel max after l1 sg l2 i, segs = l1 ++ sg :: l2 -> (i <= length (sg_recs sg))%nat ->
  Forall (fun r => w_Seq r <= after) (all_recs l1 ++ take i (sg_recs sg)) ->
  (max + length l2 < fuel)%nat ->
  let out := take max (above after (drop i (sg_recs sg) ++ all_recs l2)) in
  exists t', poll fuel d (mkTailer after (Some (segment_name (sg_first sg))) (place sg i)) max = Ok (t', out, None) /\
    at_pos t' segs /\ afterSeq t' = latest after out /\ is_Some (segment t').
Proof.
  induction fuel as [|fuel IH]; intros max after l1 sg l2 i Hsegs Hi Hle Hfuel; [lia|].
  assert (Hat : forall k a, (k <= length (sg_recs sg))%nat -> Forall (fun r => w_Seq r <= a) (all_recs l1 ++ take k (sg_recs sg)) ->
    at_pos (mkTailer a (Some (segment_name (sg_first sg))) (place sg k)) segs) by (intros k a ? ?; by exists l1, sg, l2, k).
  destruct max as [|max]; [eexists; split; [reflexivity|]; split_and!; [by apply Hat|done|done]|].
  cbn [poll segment]. destruct (readSegment_spec l1 sg l2 i after (S max) Hsegs Hi ltac:(lia)) as (k & Hk & Hr & Hl & Hor).
  rewrite Hr. rewrite length_drop in Hk, Hor. set (out := above after (take k (drop i (sg_recs sg)))) in *.
  pose proof (marks_seqs _ (sh_order _ _ Hsh)) as Hinc. rewrite Hsegs, all_recs_app in Hinc.
  change (all_recs (sg :: l2)) with (sg_recs sg ++ all_recs l2) in Hinc.
  rewrite <- (take_drop i (sg_recs sg)), <- app_assoc in Hinc.
  rewrite <- (take_drop k (drop i (sg_recs sg))), <- app_assoc, drop_drop in Hinc.
  apply increasing_app in Hinc as (_ & Hinc & _). apply increasing_app in Hinc as (_ & Hinc & _).
  assert (Hsplit : above after (drop i (sg_recs sg) ++ all_recs l2) =
    out ++ above (latest after out) (drop (i + k) (sg_recs sg) ++ all_recs l2)).
  { unfold out at 2. rewrite (above_latest after _ _ Hinc), <- (take_drop k (drop i (sg_recs sg))) at 1.
    by rewrite drop_drop, <- app_assoc, above_app. }
  assert (Hle' : Forall (fun r => w_Seq r <= latest after out) (all_recs l1 ++ take (i + k) (sg_recs sg))).
  { rewrite <- take_take_drop, app_assoc. apply Forall_app. split.
    - eapply Forall_impl; [exact Hle|]. simpl. intros r Hr'. unfold out. pose proof (latest_ge after (take k (drop i (sg_recs sg)))). lia.
    - apply latest_bounds. by apply increasing_app in Hinc as (? & _). }
  destruct out as [|r0 out0] eqn:Eout.
  - assert (Hk' : (i + k)%nat = length (sg_recs sg)) by (destruct Hor; simpl in *; lia).
    pose proof (sh_paths _ _ Hsh) as Hpath. rewrite Hsegs, fmap_app, fmap_cons in Hpath.
    unfold nextSegment. cbn [segment]. rewrite Hpath.
    pose proof shows_names as Hn. rewrite Hsegs, fmap_app, fmap_cons in Hn. rewrite path_after_names by done.
    change (latest after []) with after in *. rewrite Hsplit, Hk', drop_all. cbn [app].
    destruct l2 as [|sg2 l2]; cbn [fmap list_fmap head].
    + eexists. split; [reflexivity|]. split_and!; [|done|done]. apply Hat; [lia|]. by rewrite Hk' in Hle'.
    + destruct (IH (S max) after (l1 ++ [sg]) sg2 l2 O) as (t' & Ht & Hp & Ha & Hs).
      * by rewrite <- app_assoc.
      * lia.
      * rewrite all_recs_app. cbn [take]. rewrite app_nil_r.
        replace (all_recs [sg]) with (sg_recs sg) by (unfold all_recs; simpl; by rewrite app_nil_r).
        rewrite Hk', take_ge in Hle' by done. exact Hle'.
      * simpl in Hfuel. lia.
      * exists t'. split_and!; try done.
  - rewrite <- Eout in *. assert (Hpos : (0 < length out)%nat) by (rewrite Eout; simpl; lia).
    destruct (IH (S max - length out)%nat (latest after out) l1 sg l2 (i + k)%nat Hsegs ltac:(lia) Hle' ltac:(lia))
      as (t' & Ht & Hp & Ha & Hs).
    exists t'. rewrite Ht. cbn [mbind outcome_bind]. split_and!; try done.
    + by rewrite Hsplit, (take_app_ge out) by lia.
    + rewrite Ha, Hsplit, (take_app_ge out) by lia. by rewrite latest_app.
Qed.
End Polling.

Section Fresh.
Context `{CodecLaws}.

(** [locateSegment] starts where nothing wanted lies before. *)
Lemma locate_spec want l2 : forall l1 sg, names_ok (sg_first <$> l1 ++ sg :: l2) ->
  (l1 = [] \/ sg_first sg <= want) ->
  exists l1' sg' l2', l1 ++ sg :: l2 = l1' ++ sg' :: l2' /\
    locate_loop want (segment_name <$> (sg_first <$> l2)) (segment_name (sg_first sg)) = Good (segment_name (sg_first sg')) /\
    (l1' = [] \/ sg_first sg' <= want).
Proof.
  induction l2 as [|x l2 IH]; intros l1 sg Hn Hor; [by exists l1, sg, []|].
  rewrite fmap_cons, fmap_cons. cbn [locate_loop].
  assert (Hx : name_ok (sg_first x)).
  { destruct Hn as [_ Hn]. rewrite fmap_app, !fmap_cons in Hn. by apply Forall_app in Hn as [_ [_ [? _]%Forall_cons]%Forall_cons]. }
  rewrite seqFromName_segment by by apply name_ok_range. destruct (Z.ltb_spec want (sg_first x)) as [|Hle].
  - by exists l1, sg, (x :: l2).
  - destruct (IH (l1 ++ [sg]) x) as (l1' & sg' & l2' & Heq & Hl & Ho).
    + by rewrite <- app_assoc.
    + by right.
    + exists l1', sg', l2'. split_and!; [|done|done]. by rewrite <- Heq, <- app_assoc.
Qed.

Lemma locateSegment_spec d segs t sg0 rest : shows d segs -> segs = sg0 :: rest -> in64 (afterSeq t) -> afterSeq t < MaxInt64 ->
  exists l1 sg l2, segs = l1 ++ sg :: l2 /\
    locateSegment d t = (mkTailer (afterSeq t) (Some (segment_name (sg_first sg))) (place sg 0), None) /\
    Forall (fun r => w_Seq r <= afterSeq t) (all_recs l1).
Proof.
  intros Hsh Hsegs Hi Hlt. unfold locateSegment. rewrite (sh_paths _ _ Hsh).
  pose proof (shows_names d segs Hsh) as Hn. rewrite Hsegs in *. rewrite fmap_cons, fmap_cons.
  assert (Hadd : add64 (afterSeq t) 1 = afterSeq t + 1) by (apply wrap64_id; unfold64; lia). rewrite Hadd.
  assert (Hn0 : name_ok (sg_first sg0)) by (destruct Hn as [_ [? _]%Forall_cons]; done).
  assert (Hres : exists l1 sg l2, sg0 :: rest = l1 ++ sg :: l2 /\
    locate_loop (afterSeq t + 1) (segment_name (sg_first sg0) :: (segment_name <$> (sg_first <$> rest))) (segment_name (sg_first sg0))
      = Good (segment_name (sg_first sg)) /\ (l1 = [] \/ sg_first sg <= afterSeq t + 1)).
  { cbn [locate_loop]. rewrite seqFromName_segment by by apply name_ok_range.
    destruct (Z.ltb_spec (afterSeq t + 1) (sg_first sg0)); [exists [], sg0, rest; split_and!; auto|].
    destruct (locate_spec (afterSeq t + 1) rest [] sg0 Hn ltac:(by left)) as (l1 & sg & l2 & Heq & Hl & Ho).
    by exists l1, sg, l2. }
  destruct Hres as (l1 & sg & l2 & Heq & Hl & Ho). exists l1, sg, l2. split; [done|]. split; [by rewrite Hl|].
  destruct Ho as [->|Hle]; [constructor|]. pose proof (sh_order _ _ Hsh) as Hs. rewrite Heq in Hs.
  eapply Forall_impl; [exact (marks_before _ _ _ Hs)|]. simpl. intros; lia.
Qed.

(** One poll: the next [max] records above the tailer's position. *)
Lemma poll_spec d segs t max : shows d segs -> at_pos t segs ->
  (segment t = None -> in64 (afterSeq t) /\ afterSeq t < MaxInt64) ->
  let out := take max (above (afterSeq t) (all_recs segs)) in
  exists t', poll (poll_fuel d max) d t max = Ok (t', out, None) /\
    at_pos t' segs /\ afterSeq t' = latest (afterSeq t) out /\ (segment t' = None -> t' = t).
Proof.
  intros Hsh Hat Hrange. assert (Hlen : length (segmentPaths d) = length segs) by (by rewrite (sh_paths _ _ Hsh), !length_fmap).
  assert (Hgo : forall l1 sg l2 i fuel, segs = l1 ++ sg :: l2 -> (i <= length (sg_recs sg))%nat ->
    Forall (fun r => w_Seq r <= afterSeq t) (all_recs l1 ++ take i (sg_recs sg)) -> (max + length segs < fuel)%nat ->
    exists t', poll fuel d (mkTailer (afterSeq t) (Some (segment_name (sg_first sg))) (place sg i)) max =
        Ok (t', take max (above (afterSeq t) (all_recs segs)), None) /\
      at_pos t' segs /\ afterSeq t' = latest (afterSeq t) (take max (above (afterSeq t) (all_recs segs))) /\ is_Some (segment t')).
  { intros l1 sg l2 i fuel Hsegs Hi Hle Hf.
    assert (Hab : above (afterSeq t) (all_recs segs) = above (afterSeq t) (drop i (sg_recs sg) ++ all_recs l2)).
    { rewrite Hsegs, all_recs_app. change (all_recs (sg :: l2)) with (sg_recs sg ++ all_recs l2).
      rewrite <- (take_drop i (sg_recs sg)) at 1. rewrite <- app_assoc, app_assoc, above_app. by rewrite above_none. }
    rewrite Hab. apply (poll_located d segs Hsh fuel max (afterSeq t) l1 sg l2 i); try done.
    rewrite Hsegs, length_app in Hf. simpl in Hf. lia. }
  destruct max as [|max].
  { exists t. split_and!; try done. by destruct (poll_fuel d 0). }
  unfold poll_fuel. destruct t as [a [name|] off]; cbn [segment afterSeq] in *.
  - destruct Hat as (l1 & sg & l2 & i & Hsegs & -> & Hoff & Hi & Hle). cbn [offset afterSeq] in *. subst off.
    destruct (Hgo l1 sg l2 i (S max + length (segmentPaths d) + 2)%nat Hsegs Hi Hle ltac:(lia)) as (t' & Hp & H1 & H2 & [x H3]).
    exists t'. split_and!; try done. congruence.
  - destruct (Hrange eq_refl) as [Hi Hlt]. destruct segs as [|sg0 rest] eqn:Es.
    + exists (mkTailer a None off). replace (S max + length (segmentPaths d) + 2)%nat with (S (S max + length (segmentPaths d) + 1)) by lia.
      cbn [poll segment]. unfold locateSegment. rewrite (sh_paths _ _ Hsh). done.
    + rewrite <- Es in *. destruct (locateSegment_spec d segs (mkTailer a None off) sg0 rest Hsh Es Hi Hlt) as (l1 & sg & l2 & Hsegs & Hloc & Hle).
      cbn [afterSeq] in *.
      destruct (Hgo l1 sg l2 O (S max + length (segmentPaths d) + 2)%nat Hsegs ltac:(lia)) as (t' & Hp & H1 & H2 & [x H3]);
        [cbn [take]; by rewrite app_nil_r|lia|].
      exists t'. split_and!; try done; [|congruence].
      replace (S max + length (segmentPaths d) + 2)%nat with (S (S max + length (segmentPaths d) + 1)) in * by lia.
      cbn [poll segment] in Hp |- *. rewrite Hloc. cbn [segment]. exact Hp.
Qed.
End Fresh.

(** * A log that grows under the tailer *)

Section Growth.
Context `{CodecLaws}.

(** Segments are only added, and only the last one is added to. *)
Definition grown (segs segs' : list Seg) : Prop :=
  segs = [] \/ exists l sg sg' l2, segs = l ++ [sg] /\ segs' = l ++ sg' :: l2 /\ sg_first sg' = sg_first sg /\
    sg_recs sg `prefix_of` sg_recs sg' /\ sg_chunks sg `prefix_of` sg_chunks sg'.

Lemma grown_recs segs segs' : grown segs segs' -> all_recs segs `prefix_of` all_recs segs'.
Proof.
  intros [->|(l & sg & sg' & l2 & -> & -> & _ & Hr & _)]; [apply prefix_nil|].
  rewrite !all_recs_app. apply prefix_app. change (all_recs (sg' :: l2)) with (sg_recs sg' ++ all_recs l2).
  unfold all_recs at 1. simpl. rewrite app_nil_r. by apply prefix_app_r.
Qed.

Lemma take_prefix {A} (l k : list A) i : l `prefix_of` k -> (i <= length l)%nat -> take i k = take i l.
Proof. intros [r ->] Hi. by rewrite take_app_le. Qed.

Lemma at_pos_grown t segs segs' : Forall seg_ok segs -> grown segs segs' -> at_pos t segs -> at_pos t segs'.
Proof.
  intros Hok Hg. unfold at_pos. destruct (segment t) as [name|]; [|done].
  intros (l1 & x & l2 & i & Hsegs & Hname & Hoff & Hi & Hle).
  destruct Hg as [->|(l & sg & sg' & k2 & Hs & -> & Hf & Hr & Hc)]; [by destruct l1|].
  destruct l2 as [|y l2 _] using rev_ind.
  - rewrite Hs in Hsegs. apply app_inj_tail in Hsegs as [<- <-]. exists l, sg', k2, i.
    assert (Hlen : length (sg_recs sg) = length (sg_chunks sg)).
    { rewrite Hs in Hok. apply Forall_app in Hok as [_ [[_ H2] _]%Forall_cons]. by eapply Forall2_length. }
    assert (Hc' : take i (sg_chunks sg') = take i (sg_chunks sg)) by (apply take_prefix; [done|lia]).
    assert (Hr' : take i (sg_recs sg') = take i (sg_recs sg)) by by apply take_prefix.
    apply prefix_length in Hr. split_and!; try done; [congruence| |lia|by rewrite Hr'].
    rewrite Hoff. unfold place. by rewrite Hc'.
  - rewrite Hs, app_comm_cons, app_assoc in Hsegs. apply app_inj_tail in Hsegs as [-> <-].
    exists l1, x, (l2 ++ sg' :: k2), i. split_and!; try done. by rewrite <- app_assoc.
Qed.

(** The directories successive polls see, and what they show. *)
Inductive watched : list Seg -> list (Dir * nat) -> list Seg -> Prop :=
| watched_done segs : watched segs [] segs
| watched_poll segs segs1 segs' d max obs : grown segs segs1 -> shows d segs1 -> watched segs1 obs segs' ->
    watched segs ((d, max) :: obs) segs'.

Lemma watched_prefix segs obs segs' : watched segs obs segs' -> all_recs segs `prefix_of` all_recs segs'.
Proof. induction 1 as [|? ? ? ? ? ? Hg _ _ IH]; [done|]. etransitivity; [by apply grown_recs|done]. Qed.

(** Polling each of them in turn. *)
Fixpoint tail_polls (obs : list (Dir * nat)) (t : Tailer) : outcome (Tailer * list WalRecord * option oms_error) :=
  match obs with
  | [] => Ok (t, [], None)
  | (d, max) :: obs =>
      '(t, recs, e) ← poll (poll_fuel d max) d t max;
      match e with
      | Some e => Ok (t, recs, Some e)
      | None => '(t, more, e) ← tail_polls obs t; Ok (t, recs ++ more, e)
      end
  end.

(** What has been delivered so far, and where that leaves the tailer. *)
Record delivered (a : Z) (segs : list Seg) (t : Tailer) (out : list WalRecord) : Prop := {
  de_pos : at_pos t segs;
  de_prefix : out `prefix_of` above a (all_recs segs);
  de_after : afterSeq t = latest a out;
  de_fresh : segment t = None -> afterSeq t = a
}.

Lemma delivered_poll a segs segs1 d max t out : in64 a -> a < MaxInt64 -> Forall seg_ok segs ->
  delivered a segs t out -> grown segs segs1 -> shows d segs1 ->
  let recs := take max (drop (length out) (above a (all_recs segs1))) in
  exists t', poll (poll_fuel d max) d t max = Ok (t', recs, None) /\ delivered a segs1 t' (out ++ recs).
Proof.
  intros Hi Hlt Hok [Hpos Hpre Haf Hfr] Hg Hsh.
  destruct (poll_spec d segs1 t max Hsh (at_pos_grown _ _ _ Hok Hg Hpos)) as (t' & Hp & Hat & Haf' & Hn).
  { intros Hs. rewrite (Hfr Hs). done. }
  pose proof (grown_recs _ _ Hg) as [r Hr]. pose proof (marks_seqs _ (sh_order _ _ Hsh)) as Hinc.
  destruct Hpre as [x Hx]. assert (Hall : above a (all_recs segs1) = out ++ (x ++ above a r))
    by (rewrite Hr, above_app, Hx; by rewrite <- app_assoc).
  pose proof (above_rest a (all_recs segs1) out _ Hinc Hall) as Hrest. rewrite <- Haf in Hrest. rewrite Hrest in *.
  cbv zeta. rewrite Hall, drop_app_length. exists t'. split; [exact Hp|]. split; [done| | |].
  - rewrite Hall. apply prefix_app. exists (drop max (x ++ above a r)). by rewrite take_drop.
  - rewrite Haf', Haf. by rewrite latest_app.
  - intros Hs. specialize (Hn Hs). subst t'. by apply Hfr.
Qed.

(** A poll with room for everything delivers everything. *)
Lemma delivered_all a l out max : out `prefix_of` above a l -> (length l <= max)%nat ->
  out ++ take max (drop (length out) (above a l)) = above a l.
Proof.
  intros [x Hx] Hm. rewrite Hx at 1. rewrite drop_app_length, take_ge; [done|].
  assert (Hl : (length (above a l) <= length l)%nat) by apply length_filter.
  rewrite Hx, length_app in Hl. lia.
Qed.

(** Looking again at the same log. *)
Lemma grown_refl segs : grown segs segs.
Proof.
  destruct segs as [|sg l _] using rev_ind; [by left|]. right. by exists l, sg, sg, [].
Qed.
End Growth.

Section Properties.
Context `{CodecLaws}.

End Properties.

(** * Witness *)

(** What a sequencer without a write failure shows a tailer: its whole log. *)
Lemma running_shows `{CodecLaws} (s : Sequencer Writer) w : running s -> sq_wal s = Some w -> sq_walErr s = None ->
  exists segs, shows (wr_dir w) segs /\ all_recs segs = durable w.
Proof.
  intros Hrun Hwal Herr. pose proof (so_wal _ (running_ok _ Hrun)) as Hw.
  unfold wal_ok in Hw. rewrite Hwal in Hw. destruct Hw as (lg & _ & _ & Hall).
  destruct (Hall Herr) as (_ & Hbuf & (closed & sg & Hh) & _). by apply (synced_shows closed sg).
Qed.

Lemma log_after_shows : exists segs, shows (wr_dir StoreDemo.log_after) segs /\
  all_recs segs = durable_dir (wr_dir StoreDemo.log_after).
Proof. destruct StoreDemo.after_running as (H1 & H2 & H3). exact (running_shows _ _ H1 H2 H3). Qed.

