(* ===== verification/Registry.v ===== *)
(** The registry of sequencers, from [src/internal/oms/registry.go]: one sequencer
    per symbol, created on first use from the symbol's own log directory, all of
    them settling into one account store.

    [State] is what the registry's methods read and write: the registry, the
    account store it shares and the directories under its log root. Each method
    takes the registry's lock, so it is one step; [Get] is written as the two
    steps it takes. *)

From Stdlib Require Import ZArith Lia Ascii String.
From stdpp Require Import base gmap list strings.
From S2P Require Import Prelude Types Book Accounts WalRecord Sequencer Bytes WalFormat SegNames Wal.

Open Scope Z_scope.

Definition maxSymbolLen : nat := 12.
Definition MaxSymbols : nat := 512.

(** One byte of a symbol: [A-Z0-9]. *)
Definition symbol_char (c : ascii) : bool :=
  let n := nat_of_ascii c in
  ((65 <=? n) && (n <=? 90) || (48 <=? n) && (n <=? 57))%nat.

Definition validSymbol (s : string) : bool :=
  negb (String.length s =? 0)%nat && (String.length s <=? maxSymbolLen)%nat &&
  forallb symbol_char (list_ascii_of_string s).

(** [Registry], without its context and lock; [rg_OnTrades] and [rg_accounts] say
    whether the callback and the store are there. *)
Record Registry := mkRegistry {
  rg_OnTrades : bool;
  rg_walDir : string;
  rg_accounts : bool;
  seqs : gmap string (Sequencer Writer)
}.

Record State := mkState {
  registry : Registry;
  accounts : Accounts;
  disk : gmap string Dir
}.

Definition NewRegistry (walDir : string) (has_accounts : bool) : Registry :=
  mkRegistry false walDir has_accounts ∅.

Definition set_seqs (m : gmap string (Sequencer Writer)) (r : Registry) : Registry :=
  mkRegistry (rg_OnTrades r) (rg_walDir r) (rg_accounts r) m.

(** A directory nobody has made yet is empty, and no call on it fails. *)
Definition dir_at (symbol : string) (st : State) : Dir := default (mkDir ∅ []) (disk st !! symbol).

(** The loop of [attach] over the recovered orders. *)
Definition restore_holds (symbol : string) (orders : list Order) (a : Accounts) : Accounts :=
  foldl (fun a o => RestoreHold symbol o a) a orders.

(** [attach]: the sequencer with its collaborators, and the store with its holds. *)
Definition registry_attach (r : Registry) (symbol : string) (s : Sequencer Writer) (a : Accounts)
    : Sequencer Writer * Accounts :=
  let s := attach symbol (rg_accounts r) (rg_OnTrades r) s in
  (s, if rg_accounts r then restore_holds symbol (RestingOrders (sq_book s)) a else a).

Section Registry.
Context `{PayloadCodec}.
Context (now : Z -> Z).

(** [newSequencer]: the directory afterwards, and the sequencer and store, or the error. *)
Definition newSequencer (r : Registry) (symbol : string) (d : Dir) (a : Accounts)
    : outcome (Dir * result oms_error (Sequencer Writer * Accounts)) :=
  if bool_decide (rg_walDir r = "") then
    Ok (d, Good (registry_attach r symbol (NewSequencer NewBook) a))
  else
    '(book, _, e) ← Recover now d NewBook 0;
    match e with
    | Some e => Ok (d, Fails e)
    | None =>
        match OpenWriter d with
        | (d, Fails e) => Ok (d, Fails e)
        | (d, Good w) => Ok (d, Good (registry_attach r symbol (NewSequencerWithWAL book (Some w)) a))
        end
    end.

(** What [Get] does under the write lock. *)
Definition create (symbol : string) (st : State) : outcome (State * result oms_error (Sequencer Writer)) :=
  let r := registry st in
  match seqs r !! symbol with
  | Some s => Ok (st, Good s)
  | None =>
      if (MaxSymbols <=? size (seqs r))%nat then Ok (st, Fails ErrTooManySymbols) else
      '(d, res) ← newSequencer r symbol (dir_at symbol st) (accounts st);
      match res with
      | Fails e => Ok (mkState r (accounts st) (<[symbol := d]> (disk st)), Fails e)
      | Good (s, a) =>
          Ok (mkState (set_seqs (<[symbol := s]> (seqs r)) r) a (<[symbol := d]> (disk st)), Good s)
      end
  end.

(** [Get]: [between] is what other callers do after the read lock is dropped and
    before the write lock is held. *)
Definition Get_with (between : State -> State) (symbol : string) (st : State)
    : outcome (State * result oms_error (Sequencer Writer)) :=
  if negb (validSymbol symbol) then Ok (st, Fails ErrInvalidSymbol) else
  match seqs (registry st) !! symbol with
  | Some s => Ok (st, Good s)
  | None => create symbol (between st)
  end.
Definition Get : string -> State -> outcome (State * result oms_error (Sequencer Writer)) := Get_with id.
End Registry.

Definition Symbols (st : State) : list string := (map_to_list (seqs (registry st))).*1.

(** The sequencer's [closeWAL] and [Close]: the log is synced and closed. *)
Definition Sequencer_Close (s : Sequencer Writer) : outcome (Sequencer Writer * option oms_error) :=
  match sq_wal s with
  | None => Ok (s, None)
  | Some w =>
      '(w, e) ← Close w;
      Ok (mkSequencer (sq_book s) (Some w) (sq_symbol s) (sq_accounts s) (sq_onTrades s) (sq_seq s)
            (sq_nextOrderID s) (sq_walErr s) (sq_commits s) (sq_batched s) (sq_resting s) (sq_lastPos s), e)
  end.

(** [Close]'s loop: every sequencer is closed, and every failure kept. *)
Fixpoint close_all (open : list (string * Sequencer Writer)) (dk : gmap string Dir)
    : outcome (gmap string Dir * list (string * oms_error)) :=
  match open with
  | [] => Ok (dk, [])
  | (symbol, s) :: open =>
      '(s, e) ← Sequencer_Close s;
      let dk := match sq_wal s with Some w => <[symbol := wr_dir w]> dk | None => dk end in
      '(dk, errs) ← close_all open dk;
      Ok (dk, match e with Some e => (symbol, e) :: errs | None => errs end)
  end.
Definition Registry_Close (st : State) : outcome (State * list (string * oms_error)) :=
  '(dk, errs) ← close_all (map_to_list (seqs (registry st))) (disk st);
  Ok (mkState (set_seqs ∅ (registry st)) (accounts st) dk, errs).

(** One batch of one symbol: the sequencer commits into the shared store. What
    [OnTrades] is called with is the symbol and each published list. *)
Definition venue_commit `{PayloadCodec} (now : Z -> Z) (ts : Z) (symbol : string) (batch : list request) (st : State)
    : outcome (State * list reply * list (string * list Trade)) :=
  s ← deref (seqs (registry st) !! symbol);
  '(s, res, replies) ← commit now ts batch s (accounts st);
  Ok (mkState (set_seqs (<[symbol := s]> (seqs (registry st))) (registry st)) (ap_accounts res) (disk st),
      replies, (fun ts => (symbol, ts)) <$> ap_published res).
