(* ===== verification/RegistryFacts.v ===== *)
(** Opening symbols and committing into several of them: the facts behind the
    registry's properties.

    [consistent] is the invariant of the whole venue, across its symbols. *)

From Stdlib Require Import ZArith Lia Ascii String.
From stdpp Require Import base gmap list strings sorting.
From S2P Require Import Prelude Types Book BookInv BookSpec BookRefine BookProps.
From S2P Require Import Accounts AccountsInv AccountsProps WalRecord Sequencer SeqFacts SeqProps.
From S2P Require Import VenueFacts Venue VenueProps Bytes WalFormat SegNames Wal WalDir WalLaw WalStep WalRecover WalProps Registry.

Open Scope Z_scope.

(** * Restoring reservations *)

(** An order as it rests in a recovered book. *)
Definition resting_order (o : Order) : Prop :=
  o_Type o = Limit /\ 0 < o_Quantity o <= MaxInt64 /\ valued o.

Lemma resting_orders_rest b : reachable b -> Forall valued (RestingOrders b) -> Forall resting_order (RestingOrders b).
Proof.
  intros Hr Hv. destruct (reachable_inv b Hr) as [Hwf _]. rewrite Forall_forall in Hv |- *. intros o Ho.
  assert (Hrest : exists s, side_ok s /\ o ∈ resting s b).
  { rewrite (RestingOrders_perm b Hwf), elem_of_app in Ho. destruct Ho; [exists Buy|exists Sell]; (split; [first [by left|by right]|done]). }
  destruct Hrest as (s & Hs & Hin). apply list_elem_of_fmap in Hin as (x & -> & Hx).
  destruct (elems_rest_ok b Hwf s x Hs Hx) as (p & _ & _ & _ & H3 & H4). split_and!; try apply H4; try done. by apply Hv.
Qed.

Lemma restore_one symbol L o a : acc_wf a -> holds_live a -> resting_order o -> holds_are symbol L a ->
  o_SeqID o ∉ o_SeqID <$> L ->
  let a' := RestoreHold symbol o a in
  acc_wf a' /\ holds_live a' /\ holds_are symbol (o :: L) a' /\ cash a' = cash a /\ positions a' = positions a /\
  (forall k, k.1 <> symbol -> holds a' !! k = holds a !! k).
Proof.
  intros Hwf Hl (Ht & Hq & Hp & Hv) HL Hni a'.
  assert (Hn : is_good (notional (o_Price o) (o_Quantity o)) = true).
  { by rewrite (proj2 (notional_Good _ _ (o_Price o * o_Quantity o))) by (split_and!; try done; lia). }
  destruct (RestoreHold_spec symbol o a Hwf Hq (fun _ => Hn)) as (W & Hc & Hpos & Hh). fold a' in W, Hc, Hpos, Hh.
  assert (Hnone : holds a !! (symbol, o_SeqID o) = None).
  { apply eq_None_not_Some. intros [h (x & Hx & Hid & _)%HL]. apply Hni. rewrite <- Hid. by apply list_elem_of_fmap_2. }
  rewrite decide_False in Hh by (rewrite Hnone; by intros [? ?]).
  assert (Hord : mkHold (o_Placer o) symbol (if decide (o_Side o = Sell) then Sell else Buy) (o_Price o) (o_Quantity o)
    = order_hold symbol o) by (unfold order_hold; rewrite Ht; by case_decide).
  rewrite Hord in Hh. split_and!; try done.
  - intros k h. rewrite Hh. intros [[_ <-]|[_ Hx]]%lookup_insert_Some; [unfold order_hold; case_decide; simpl; lia|by eapply Hl].
  - intros id h. rewrite Hh. setoid_rewrite elem_of_cons. destruct (decide (id = o_SeqID o)) as [->|Hne].
    + rewrite lookup_insert_eq. split; [intros [= <-]; exists o; auto|].
      intros (x & [->|Hx] & Hid & ->); [done|]. destruct Hni. rewrite <- Hid. by apply list_elem_of_fmap_2.
    + rewrite lookup_insert_ne by congruence. rewrite (HL id h). split; intros (x & Hx & Hid & Heq); exists x; split_and!; auto.
      destruct Hx as [->|]; done.
  - intros k Hk. rewrite Hh, lookup_insert_ne; [done|]. intros <-. done.
Qed.

Lemma restore_holds_spec symbol orders : forall L a, acc_wf a -> holds_live a -> Forall resting_order orders ->
  holds_are symbol L a -> NoDup (o_SeqID <$> orders ++ L) ->
  let a' := restore_holds symbol orders a in
  acc_wf a' /\ holds_live a' /\ holds_are symbol (orders ++ L) a' /\ cash a' = cash a /\ positions a' = positions a /\
  (forall k, k.1 <> symbol -> holds a' !! k = holds a !! k).
Proof.
  induction orders as [|o orders IH]; intros L a Hwf Hl Hr HL Hnd a'; [done|].
  apply Forall_cons in Hr as [Ho Hr]. simpl in Hnd. apply NoDup_cons in Hnd as [Hni Hnd].
  destruct (restore_one symbol L o a Hwf Hl Ho HL) as (W & V & HL1 & Hc & Hp & Hoth).
  { intros Hin. apply Hni. rewrite fmap_app, elem_of_app. by right. }
  destruct (IH (o :: L) (RestoreHold symbol o a) W V Hr HL1) as (W2 & V2 & HL2 & Hc2 & Hp2 & Hoth2).
  { rewrite <- Permutation_middle. simpl. by apply NoDup_cons. }
  unfold a', restore_holds. simpl. unfold restore_holds in *. split_and!; try done; try congruence.
  - by rewrite Permutation_middle.
  - intros k Hk. by rewrite Hoth2, Hoth.
Qed.

(** The invariant of one symbol only reads its own holds. *)
Lemma venue_ok_other symbol b pend a a' : acc_wf a' -> holds_live a' ->
  (forall id, holds a' !! (symbol, id) = holds a !! (symbol, id)) -> venue_ok symbol b pend a -> venue_ok symbol b pend a'.
Proof. intros Hwf Hl Hh [H1 _ _ H4 H5]. split; try done. by eapply holds_are_other. Qed.

(** * Opening *)

Section Opening.
Context `{CodecLaws}.

(** What a directory holds when its symbol is opened: nothing yet, or what a crash
    left of the log of a sequencer that had no write failure. *)
Definition left_by (symbol : string) (s : Sequencer Writer) (d : Dir) : Prop :=
  exists w a, attached s a /\ sq_symbol s = symbol /\ sq_wal s = Some w /\ sq_walErr s = None /\ crashed (wr_dir w) d.
Definition recoverable (symbol : string) (d : Dir) : Prop := files d = ∅ \/ exists s, left_by symbol s d.

Lemma segmentPaths_empty d : files d = ∅ -> segmentPaths d = [].
Proof. intros Hf. unfold segmentPaths. by rewrite Hf, dom_empty_L, elements_empty. Qed.

(** Opening a symbol: the recovered book, position and log. *)
Definition reopened (s s' : Sequencer Writer) : Prop := sq_book s' = sq_book s /\ sq_seq s' = sq_seq s /\
  exists w w', sq_wal s = Some w /\ sq_wal s' = Some w' /\ durable w' = durable w.

Lemma attach_spec r symbol b w a : rg_accounts r = true -> symbol <> ""%string ->
  acc_wf a -> holds_live a -> (forall id, holds a !! (symbol, id) = None) ->
  running (attach symbol true (rg_OnTrades r) (NewSequencerWithWAL b (Some w))) ->
  reachable b -> Forall valued (RestingOrders b) ->
  let '(s, a') := registry_attach r symbol (NewSequencerWithWAL b (Some w)) a in
  attached s a' /\ sq_symbol s = symbol /\ sq_book s = b /\ sq_seq s = lastSeq w /\ sq_walErr s = None /\
  cash a' = cash a /\ positions a' = positions a /\ (forall k, k.1 <> symbol -> holds a' !! k = holds a !! k) /\
  sq_wal s = Some w.
Proof.
  intros Hacc Hsym Hwf Hl Hfree Hrun Hr Hv. unfold registry_attach. rewrite Hacc.
  assert (Hnil : holds_are symbol [] a).
  { intros id h. rewrite Hfree. split; [done|]. intros (o & Ho & _). by apply elem_of_nil in Ho. }
  destruct (reachable_inv b Hr) as [Hb _].
  destruct (restore_holds_spec symbol (RestingOrders b) [] a Hwf Hl (resting_orders_rest b Hr Hv) Hnil) as (W & V & HL & Hc & Hp & Hoth).
  { rewrite app_nil_r, (RestingOrders_perm b Hb). by apply resting_ids_nodup. }
  cbn [sq_book attach NewSequencerWithWAL]. split_and!; try done.
Qed.

Lemma reachable_new_book : reachable NewBook. Proof. apply reach_new. Qed.

(** [newSequencer] on a recoverable directory. *)
Lemma newSequencer_spec now r symbol d a : rg_accounts r = true -> rg_walDir r <> ""%string -> symbol <> ""%string ->
  acc_wf a -> holds_live a -> (forall id, holds a !! (symbol, id) = None) -> recoverable symbol d ->
  exists d' res, newSequencer now r symbol d a = Ok (d', res) /\
  match res with
  | Good (s, a') => attached s a' /\ sq_symbol s = symbol /\ sq_walErr s = None /\
      cash a' = cash a /\ positions a' = positions a /\ (forall k, k.1 <> symbol -> holds a' !! k = holds a !! k) /\
      (files d = ∅ -> sq_book s = NewBook /\ sq_seq s = 0 /\ exists w, sq_wal s = Some w /\ durable w = []) /\
      (forall s0, left_by symbol s0 d -> reopened s0 s)
  | Fails e => script d <> []
  end.
Proof.
  intros Hacc Hdir Hsym Hwf Hl Hfree Hrec. unfold newSequencer. rewrite bool_decide_false by done.
  assert (Hempty : forall s0, files d = ∅ -> left_by symbol s0 d -> False).
  { intros s0 Hf (w & a0 & Hat & _ & Hw & He & Hcr). pose proof (so_wal _ (running_ok _ (at_running _ _ Hat))) as Hwo.
    unfold wal_ok in Hwo. rewrite Hw in Hwo. destruct Hwo as (lg & _ & _ & Hall).
    destruct (Hall He) as (_ & _ & (closed & sg & Hh) & _). clear Hall.
    destruct (healthy_crashed _ _ _ _ Hh Hcr) as (s & u & s' & u' & _ & _ & _ & Hd).
    pose proof (log_dir_last _ _ _ _ _ Hd) as Hlast. by rewrite segmentPaths_empty in Hlast. }
  destruct (decide (files d = ∅)) as [Hf|Hf].
  - unfold Recover, segments. rewrite (segmentPaths_empty d Hf). cbn [fmap list_fmap recover_segments mbind outcome_bind].
    pose proof (OpenWriter_empty d Hf) as Ho. destruct (OpenWriter d) as [d' [w|e]]; [|by eexists _, _].
    destruct Ho as (Hw & Hls & Hdur).
    assert (Hrun : running (attach symbol true (rg_OnTrades r) (NewSequencerWithWAL NewBook (Some w)))).
    { apply (running_start now).
      - cbn [durable Writer_laws]. by rewrite Hdur.
      - cbn [buffered Writer_laws]. unfold buffered_recs. rewrite Hdur, (healthy_appended _ _ _ Hw). done.
      - apply reach_new.
      - by vm_compute.
      - by exists [], (mkSeg 1 [] []).
      - cbn [wal_LastSeq Writer_ops]. rewrite Hls. by vm_compute. }
    pose proof (attach_spec r symbol NewBook w a Hacc Hsym Hwf Hl Hfree Hrun reachable_new_book ltac:(constructor)) as Hat.
    destruct (registry_attach r symbol _ a) as [s a'] eqn:E. destruct Hat as (H1 & H2 & H3 & H4 & H5 & H6 & H7 & H8 & H9).
    eexists _, _. split; [reflexivity|]. split_and!; try done.
    + intros _. split_and!; [done|congruence|]. by exists w.
    + intros s0 Hs0. destruct (Hempty s0 Hf Hs0).
  - destruct Hrec as [|[s0 Hs0]]; [done|]. pose proof Hs0 as (w & a0 & Hat0 & Hsy & Hw & He & Hcr).
    pose proof (restart_log now s0 w d (at_running _ _ Hat0) Hw He Hcr) as (last & HR & Hrb & Hmax & Hres). rewrite HR.
    cbn [mbind outcome_bind]. destruct (OpenWriter d) as [d' [w'|e]] eqn:Eo; [|by eexists _, _].
    destruct Hres as (Hls & Hdd & Hbuf & Hh & Hrep & Hi).
    assert (Hrun : running (attach symbol true (rg_OnTrades r) (NewSequencerWithWAL (sq_book s0) (Some w'))))
      by (by apply (running_start now)).
    pose proof (attach_spec r symbol (sq_book s0) w' a Hacc Hsym Hwf Hl Hfree Hrun Hrb
      (vo_valued _ _ _ _ (at_venue _ _ Hat0))) as Hat.
    destruct (registry_attach r symbol _ a) as [s a'] eqn:E. destruct Hat as (H1 & H2 & H3 & H4 & H5 & H6 & H7 & H8 & H9).
    eexists _, _. split; [reflexivity|]. split_and!; try done.
    intros s1 (w1 & a1 & Hat1 & _ & Hw1 & He1 & Hcr1).
    pose proof (restart_log now s1 w1 d (at_running _ _ Hat1) Hw1 He1 Hcr1) as (last1 & HR1 & _ & _ & Hres1).
    rewrite HR in HR1. injection HR1 as Hb _. rewrite Eo in Hres1. destruct Hres1 as (Hls1 & Hdd1 & _).
    split_and!; [congruence|congruence|]. by exists w1, w'.
Qed.
End Opening.
