(* ===== verification/RegistryProps.v ===== *)
(** The properties of the registry: the whole venue, across its symbols. *)

From Stdlib Require Import ZArith Lia Ascii String.
From stdpp Require Import base gmap list strings sorting.
From S2P Require Import Prelude Types Book BookInv BookSpec BookRefine BookProps.
From S2P Require Import Accounts AccountsInv AccountsSolv AccountsProps WalRecord Sequencer SeqFacts SeqProps.
From S2P Require Import VenueFacts Venue VenueProps Bytes WalFormat SegNames Wal WalDir WalLaw WalStep WalRecover WalProps Registry RegistryFacts.

Open Scope Z_scope.

(** * Symbols *)

(** A name that, joined to a directory, stays in it. *)
Definition safe_name (s : string) : Prop :=
  (1 <= String.length s <= maxSymbolLen)%nat /\
  Forall (fun c => c <> "/"%char /\ c <> ascii_of_nat 92 /\ c <> "."%char /\ c <> Ascii.zero) (list_ascii_of_string s).

Lemma symbol_char_safe c : symbol_char c = true -> c <> "/"%char /\ c <> ascii_of_nat 92 /\ c <> "."%char /\ c <> Ascii.zero.
Proof. intros Hc. split_and!; intros ->; by vm_compute in Hc. Qed.

Lemma validSymbol_safe s : validSymbol s = true -> safe_name s.
Proof.
  unfold validSymbol. intros [[Hne Hlen]%andb_prop Hc]%andb_prop.
  apply negb_true_iff, Nat.eqb_neq in Hne. apply Nat.leb_le in Hlen. split; [lia|].
  apply Forall_forall. intros c Hin. apply symbol_char_safe. rewrite forallb_forall in Hc. apply Hc. by apply list_elem_of_In.
Qed.

(** * The venue's invariant *)

Section Venue.
Context `{CodecLaws}.

Record consistent (st : State) : Prop := {
  co_wf : acc_wf (accounts st);
  co_live : holds_live (accounts st);
  co_accounts : rg_accounts (registry st) = true;
  co_dir : rg_walDir (registry st) <> ""%string;
  co_open : forall symbol s, seqs (registry st) !! symbol = Some s ->
    validSymbol symbol = true /\ sq_symbol s = symbol /\ attached s (accounts st);
  co_foreign : forall k h, holds (accounts st) !! k = Some h -> is_Some (seqs (registry st) !! k.1);
  co_cap : (size (seqs (registry st)) <= MaxSymbols)%nat
}.

(** Other symbols do not notice what one symbol does to the store. *)
Lemma attached_other (s : Sequencer Writer) a a' : acc_wf a' -> holds_live a' ->
  (forall k, k.1 = sq_symbol s -> holds a' !! k = holds a !! k) -> attached s a -> attached s a'.
Proof.
  intros Hwf Hl Hh [H1 H2 H3 H4]. split; try done. eapply venue_ok_other; [done|done| |exact H4].
  intros id. by apply Hh.
Qed.

(** Replacing one symbol's sequencer, and the store, by what it settled. *)
Lemma consistent_insert st symbol s a dk : consistent st -> validSymbol symbol = true ->
  sq_symbol s = symbol -> attached s a -> (forall k, k.1 <> symbol -> holds a !! k = holds (accounts st) !! k) ->
  (size (<[symbol := s]> (seqs (registry st))) <= MaxSymbols)%nat ->
  consistent (mkState (set_seqs (<[symbol := s]> (seqs (registry st))) (registry st)) a dk).
Proof.
  intros Hc Hv Hsy Hat Hoth Hcap. split; cbn [accounts registry set_seqs seqs rg_accounts rg_walDir disk]; try apply Hc; try done.
  - apply Hat.
  - apply Hat.
  - intros sym s' [[<- <-]|[Hne Hs]]%lookup_insert_Some; [done|].
    destruct (co_open _ Hc sym s' Hs) as (H1 & H2 & H3). split_and!; try done.
    apply (attached_other s' (accounts st)); [apply Hat|apply Hat| |done].
    intros k Hk. apply Hoth. congruence.
  - intros k h Hk. destruct (decide (k.1 = symbol)) as [->|Hne]; [by rewrite lookup_insert_eq|].
    rewrite lookup_insert_ne by done. rewrite Hoth in Hk by done. by apply (co_foreign _ Hc k h).
Qed.

Lemma valid_nonempty symbol : validSymbol symbol = true -> symbol <> ""%string.
Proof. by intros Hv ->. Qed.

(** [Get] on a recoverable directory. *)
Lemma Get_consistent now symbol st : consistent st ->
  (seqs (registry st) !! symbol = None -> recoverable symbol (dir_at symbol st)) ->
  exists st' r, Get now symbol st = Ok (st', r) /\ consistent st' /\
    cash (accounts st') = cash (accounts st) /\ positions (accounts st') = positions (accounts st) /\
    match r with
    | Good s => seqs (registry st') = <[symbol := s]> (seqs (registry st)) /\ attached s (accounts st') /\
        (seqs (registry st) !! symbol = None -> sq_walErr s = None /\
           (forall s0, left_by symbol s0 (dir_at symbol st) -> reopened s0 s) /\
           (files (dir_at symbol st) = ∅ -> sq_book s = NewBook /\ sq_seq s = 0 /\
              exists w, sq_wal s = Some w /\ durable w = []))
    | Fails e => registry st' = registry st /\ accounts st' = accounts st /\
        (validSymbol symbol = false \/ (MaxSymbols <= size (seqs (registry st)))%nat \/ script (dir_at symbol st) <> [])
    end.
Proof.
  intros Hc Hrec. unfold Get, Get_with. destruct (validSymbol symbol) eqn:Hv; cbn [negb];
    [|exists st, (Fails ErrInvalidSymbol); split_and!; auto].
  destruct (seqs (registry st) !! symbol) as [s|] eqn:Es.
  { eexists st, (Good s). split_and!; try done; [by rewrite insert_id|].
    destruct (co_open _ Hc symbol s Es) as (_ & _ & ?); done. }
  unfold create, id. rewrite Es. destruct (Nat.leb_spec MaxSymbols (size (seqs (registry st)))) as [|Hcap];
    [exists st, (Fails ErrTooManySymbols); split_and!; auto|].
  destruct (newSequencer_spec now (registry st) symbol (dir_at symbol st) (accounts st))
    as (d' & res & -> & Hres); try apply Hc; [by apply valid_nonempty| |by apply Hrec|].
  { intros i. apply eq_None_not_Some. intros [h Hh]. apply (co_foreign _ Hc) in Hh as [? Hh]. simpl in Hh. by rewrite Es in Hh. }
  cbn [mbind outcome_bind]. destruct res as [[s a']|e].
  - destruct Hres as (Hat & Hsy & Hwe & Hca & Hpo & Hoth & Hemp & Hre). eexists _, (Good s). split; [reflexivity|].
    split_and!; try done. apply consistent_insert; try done. rewrite map_size_insert_None by done. lia.
  - eexists _, (Fails e). split; [reflexivity|]. split_and!; try done; [|by auto].
    destruct Hc as [H1 H2 H3 H4 H5 H6 H7]. by split.
Qed.

(** A commit into one symbol. *)
Lemma venue_commit_consistent now ts symbol batch st s : consistent st -> seqs (registry st) !! symbol = Some s ->
  batch_ok ts batch s -> Forall arrives batch ->
  exists s' res ps, commit now ts batch s (accounts st) = Ok (s', res, ps) /\
    venue_commit now ts symbol batch st =
      Ok (mkState (set_seqs (<[symbol := s']> (seqs (registry st))) (registry st)) (ap_accounts res) (disk st),
          ps, (fun ts => (symbol, ts)) <$> ap_published res) /\
    consistent (mkState (set_seqs (<[symbol := s']> (seqs (registry st))) (registry st)) (ap_accounts res) (disk st)) /\
    (solvent (accounts st) -> Forall pays batch -> solvent (ap_accounts res)).
Proof.
  intros Hc Hs Hb Harr. destruct (co_open _ Hc symbol s Hs) as (Hv & Hsy & Hat).
  pose proof (commit_spec now ts batch s (accounts st) (running_ok _ (at_running _ _ Hat)) Hb) as Hspec.
  destruct (prepared _ _ _) as [[b1 a1] next]. destruct (log_phase _ _ _) as [[[b2 seq] wal] walErr].
  destruct Hspec as (res & ps & s' & _ & Hcm & _).
  destruct (commit_venue now ts batch s _ s' res ps Hat Hb Harr Hcm) as (Hat' & Hsy' & Hsolv & Hoth).
  exists s', res, ps. unfold venue_commit. rewrite Hs. cbn [deref mbind outcome_bind]. rewrite Hcm. split_and!; try done.
  apply consistent_insert; try done; [congruence|intros k Hk; apply Hoth; congruence|].
  rewrite map_size_insert_Some by done. apply Hc.
Qed.

(** * Histories of the venue *)

(** A registry that has opened nothing, over a store without reservations. *)
Definition fresh_state (st : State) : Prop :=
  seqs (registry st) = ∅ /\ rg_accounts (registry st) = true /\ rg_walDir (registry st) <> ""%string /\
  acc_wf (accounts st) /\ holds (accounts st) = ∅.

Definition with_accounts (f : Accounts -> Accounts) (st : State) : State := mkState (registry st) (f (accounts st)) (disk st).

Inductive venue_reachable : State -> Prop :=
| venue_fresh st : fresh_state st -> venue_reachable st
| venue_get now symbol st st' r : venue_reachable st -> recoverable symbol (dir_at symbol st) ->
    Get now symbol st = Ok (st', r) -> venue_reachable st'
| venue_commits now ts symbol batch s st st' ps pub : venue_reachable st ->
    seqs (registry st) !! symbol = Some s -> batch_ok ts batch s -> Forall arrives batch ->
    venue_commit now ts symbol batch st = Ok (st', ps, pub) -> venue_reachable st'
| venue_deposit account amount st : venue_reachable st -> venue_reachable (with_accounts (Deposit account amount) st)
| venue_position account symbol qty st : venue_reachable st ->
    venue_reachable (with_accounts (SetPosition account symbol qty) st).

Lemma fresh_consistent st : fresh_state st -> consistent st.
Proof.
  intros (Hs & Ha & Hd & Hwf & Hh). split; try done.
  - intros k h. by rewrite Hh, lookup_empty.
  - intros symbol s. by rewrite Hs, lookup_empty.
  - intros k h. by rewrite Hh, lookup_empty.
  - rewrite Hs, map_size_empty. unfold MaxSymbols. lia.
Qed.

(** Balances are read neither by reservations nor by books. *)
Lemma consistent_balances st f : (forall a, holds (f a) = holds a /\ (acc_wf a -> acc_wf (f a))) ->
  consistent st -> consistent (with_accounts f st).
Proof.
  intros Hf [H1 H2 H3 H4 H5 H6 H7]. destruct (Hf (accounts st)) as [Hh Hwf]. specialize (Hwf H1).
  assert (Hl : holds_live (f (accounts st))) by (unfold holds_live; by rewrite Hh).
  split; cbn [accounts registry with_accounts]; try done.
  - intros symbol s Hs. destruct (H5 symbol s Hs) as (Hv & Hsy & Hat). split_and!; try done.
    apply (attached_other s (accounts st)); try done. intros k _. by rewrite Hh.
  - by rewrite Hh.
Qed.

Lemma venue_reachable_consistent st : venue_reachable st -> consistent st.
Proof.
  induction 1 as [st Hf|now symbol st st' r _ IH Hrec Hg|now ts symbol batch s st st' ps pub _ IH Hs Hb Harr Hc|account amount st _ IH|account symbol qty st _ IH].
  - by apply fresh_consistent.
  - destruct (Get_consistent now symbol st IH ltac:(auto)) as (st2 & r2 & Hg2 & Hc2 & _).
    rewrite Hg in Hg2. by injection Hg2 as -> ->.
  - destruct (venue_commit_consistent now ts symbol batch st s IH Hs Hb Harr) as (s' & res & ps' & _ & Hv & Hc' & _).
    rewrite Hc in Hv. by injection Hv as -> _ _.
  - apply consistent_balances; [|done]. intros a. split; [done|]. intros [W1 W2 W3]. by split.
  - apply consistent_balances; [|done]. intros a. split; [done|]. intros [W1 W2 W3]. by split.
Qed.

(** Every key of the hold table, by symbol. *)
Definition hold_keys (open : list (string * Sequencer Writer)) : list holdKey :=
  open ≫= fun p => (fun o => (p.1, o_SeqID o)) <$> RestingOrders (sq_book p.2).

Lemma holds_by_symbol st : consistent st ->
  (map_to_list (holds (accounts st))).*1 ≡ₚ hold_keys (map_to_list (seqs (registry st))).
Proof.
  intros Hc. apply NoDup_Permutation.
  - apply NoDup_fst_map_to_list.
  - apply NoDup_bind.
    + intros [s1 q1] [s2 q2] k H1 H2 (o1 & -> & _)%list_elem_of_fmap (o2 & Heq & _)%list_elem_of_fmap. simpl in Heq.
      injection Heq as -> _. apply elem_of_map_to_list in H1, H2. simpl in *. rewrite H1 in H2. by injection H2 as ->.
    + intros [s q] Hq. apply elem_of_map_to_list in Hq. destruct (co_open _ Hc s q Hq) as (_ & _ & Hat).
      pose proof (vo_book _ _ _ _ (at_venue _ _ Hat)) as Hr. destruct (reachable_inv _ Hr) as [Hwf _].
      change (NoDup ((fun o => pair s (o_SeqID o)) <$> RestingOrders (sq_book q))).
      rewrite (list_fmap_compose o_SeqID (pair s)). apply NoDup_fmap; [by intros ?? [= ]|].
      rewrite (RestingOrders_perm _ Hwf). by apply resting_ids_nodup.
    + apply NoDup_map_to_list.
  - intros [s i]. rewrite list_elem_of_fmap. unfold hold_keys. rewrite list_elem_of_bind. split.
    + intros ([k h] & Heq & Hk). simpl in Heq. subst k. apply elem_of_map_to_list in Hk.
      destruct (co_foreign _ Hc _ _ Hk) as [q Hq]. simpl in Hq. destruct (co_open _ Hc _ _ Hq) as (_ & Hsy & Hat).
      pose proof (vo_holds _ _ _ _ (at_venue _ _ Hat)) as HL. rewrite Hsy, app_nil_r in HL.
      destruct (proj1 (HL i h) Hk) as (o & Ho & Hi & _). subst i. exists (s, q).
      split; [by apply (list_elem_of_fmap_2 (fun o => (s, o_SeqID o)))|by apply elem_of_map_to_list].
    + intros ([s' q] & Hin & Hq). apply elem_of_map_to_list in Hq. apply list_elem_of_fmap in Hin as (o & Heq & Ho).
      simpl in Heq, Hq, Ho. injection Heq as Hs' Hi. subst s i.
      destruct (co_open _ Hc _ _ Hq) as (_ & Hsy & Hat).
      pose proof (vo_holds _ _ _ _ (at_venue _ _ Hat)) as HL. rewrite Hsy, app_nil_r in HL.
      exists ((s', o_SeqID o), order_hold s' o). split; [done|]. apply elem_of_map_to_list, HL. by exists o.
Qed.

(** How many orders rest in the whole venue. *)
Definition total_resting (st : State) : nat :=
  sum_list_with (fun p => RestingCount (sq_book p.2)) (map_to_list (seqs (registry st))).

Lemma hold_keys_length open : length (hold_keys open) = sum_list_with (fun p => RestingCount (sq_book p.2)) open.
Proof.
  induction open as [|[s q] open IH]; [done|].
  change (hold_keys ((s, q) :: open)) with (((fun o => (s, o_SeqID o)) <$> RestingOrders (sq_book q)) ++ hold_keys open).
  rewrite length_app, length_fmap, IH. unfold RestingOrders. by rewrite length_fmap, length_map_to_list.
Qed.

(** Opening a symbol again after a crash. *)
Lemma reopen_symbol now st symbol s w st0 : consistent st ->
  seqs (registry st) !! symbol = Some s -> sq_wal s = Some w -> sq_walErr s = None ->
  fresh_state st0 -> crashed (wr_dir w) (dir_at symbol st0) -> script (dir_at symbol st0) = [] ->
  exists st1 s1, Get now symbol st0 = Ok (st1, Good s1) /\ running s1 /\
    sq_book s1 = sq_book s /\ sq_seq s1 = sq_seq s /\
    (forall id, holds (accounts st1) !! (symbol, id) = holds (accounts st) !! (symbol, id)) /\
    cash (accounts st1) = cash (accounts st0) /\ positions (accounts st1) = positions (accounts st0).
Proof.
  intros Hc Hs Hw He Hf Hcr Hsc.
  destruct (co_open _ Hc symbol s Hs) as (Hv & Hsy & Hat).
  assert (Hleft : left_by symbol s (dir_at symbol st0)) by (by exists w, (accounts st)).
  assert (Hnew : seqs (registry st0) !! symbol = None) by (destruct Hf as (-> & _); apply lookup_empty).
  destruct (Get_consistent now symbol st0 (fresh_consistent st0 Hf)) as (st1 & r & Hg & Hc1 & Hca & Hpo & Hres).
  { intros _. right. by exists s. }
  destruct r as [s1|e].
  - destruct Hres as (Hss & Hat1 & Hre). destruct (Hre Hnew) as (_ & Hre' & _). destruct (Hre' s Hleft) as (Hb & Hq & _).
    exists st1, s1. split_and!; try done; [apply Hat1|]. intros id. apply option_eq. intros h.
    destruct (co_open _ Hc1 symbol s1) as (_ & Hsy1 & _); [by rewrite Hss, lookup_insert_eq|].
    pose proof (vo_holds _ _ _ _ (at_venue _ _ Hat1)) as H1. pose proof (vo_holds _ _ _ _ (at_venue _ _ Hat)) as H2.
    rewrite Hsy1, Hb in H1. rewrite Hsy in H2. by rewrite (H1 id h), (H2 id h).
  - exfalso. destruct Hres as (_ & _ & [Hx|[Hx|Hx]]); [congruence| |done].
    destruct Hf as (Hnil & _). rewrite Hnil, map_size_empty in Hx. unfold MaxSymbols in Hx. lia.
Qed.

(** * The properties *)


(** A restart gives every reservation back: if the venue dies between two
    commits, then opening a symbol that had no write failure, in a new registry
    over a store rebuilt without reservations, succeeds while there is room; the
    symbol has the same book, the same log position and the very same holds, and
    no balance has moved. *)
Theorem restart_restores_holds now st symbol s w st0 : venue_reachable st ->
  seqs (registry st) !! symbol = Some s -> sq_wal s = Some w -> sq_walErr s = None ->
  fresh_state st0 -> crashed (wr_dir w) (dir_at symbol st0) -> script (dir_at symbol st0) = [] ->
  exists st1 s1, Get now symbol st0 = Ok (st1, Good s1) /\ running s1 /\
    sq_book s1 = sq_book s /\ sq_seq s1 = sq_seq s /\
    (forall id, holds (accounts st1) !! (symbol, id) = holds (accounts st) !! (symbol, id)) /\
    cash (accounts st1) = cash (accounts st0) /\ positions (accounts st1) = positions (accounts st0).
Proof. intros Hr. by apply reopen_symbol, venue_reachable_consistent. Qed.

(** A symbol from the network never leaves the log root: whatever [Get] is asked
    for, if it touches a directory it is the one named by the symbol, and that
    name is 1 to 12 characters with no separator and no dot; anything else is
    [ErrInvalidSymbol] and changes nothing. *)
Theorem symbols_stay_in_root now between symbol st st' r : Get_with now between symbol st = Ok (st', r) ->
  (validSymbol symbol = false -> st' = st /\ r = Fails ErrInvalidSymbol) /\
  (validSymbol symbol = true -> safe_name symbol /\
     (st' = st \/ st' = between st \/ exists d, disk st' = <[symbol := d]> (disk (between st))) /\
     (forall s, seqs (registry st) !! symbol = Some s -> st' = st /\ r = Good s)).
Proof.
  unfold Get_with. destruct (validSymbol symbol) eqn:Hv; cbn [negb]; [|by intros [= <- <-]]. intros Hg.
  split; [done|]. intros _. split; [by apply validSymbol_safe|].
  destruct (seqs (registry st) !! symbol) as [s|]; [injection Hg as <- <-; split; [by left|by intros ? [= <-]]|].
  split; [|done]. right. unfold create in Hg. destruct (seqs (registry (between st)) !! symbol); [injection Hg as <- _; by left|].
  destruct (_ <=? _)%nat; [injection Hg as <- _; by left|]. right.
  destruct (newSequencer _ _ _ _ _) as [[d [[s a]|e]]| |]; simpl in Hg; try done; injection Hg as <- _; by exists d.
Qed.
End Venue.

(** * Witnesses *)

Module RegistryDemo.
Import StoreDemo.

Definition empty_venue (a : Accounts) (dk : gmap string Dir) : State := mkState (mkRegistry true "wal" true ∅) a dk.
Definition fallback (st : State) (r : outcome (State * Prelude.result oms_error (Sequencer Writer))) : State :=
  match r with Ok (st', _) => st' | _ => st end.

(** A sale of 5 and a purchase of 3 of them. *)
Definition orders : list request := take 2 SeqDemo.batch.

(** The store of [VenueDemo], one symbol opened, one batch committed. *)
Definition st0 : State := empty_venue VenueDemo.store ∅.
Definition st1 : State := fallback st0 (Get id "NABIL" st0).
Definition q1 : Sequencer Writer := default start (seqs (registry st1) !! "NABIL"%string).
Definition traded := venue_commit id 7 "NABIL" orders st1.
Definition st2 : State := match traded with Ok (st, _, _) => st | _ => st1 end.
Definition q2 : Sequencer Writer := default start (seqs (registry st2) !! "NABIL"%string).
Definition w2 : Writer := default opened (sq_wal q2).
(** A new process over what the first one left. *)
Definition st3 : State := empty_venue VenueDemo.store {["NABIL"%string := wr_dir w2]}.

Lemma fresh_venue dk : fresh_state (empty_venue VenueDemo.store dk).
Proof. split_and!; try done; destruct NewAccounts_wf; by split. Qed.

Lemma st1_reachable : venue_reachable st1 /\ seqs (registry st1) !! "NABIL"%string = Some q1.
Proof.
  assert (Hrec : recoverable "NABIL" (dir_at "NABIL" st0)) by by left.
  destruct (Get_consistent id "NABIL" st0 (fresh_consistent _ (fresh_venue ∅)) (fun _ => Hrec)) as (st & r & Hg & _).
  split; [|by vm_compute]. assert (E : st1 = st) by (unfold st1; by rewrite Hg). rewrite E.
  eapply venue_get; [by apply venue_fresh, fresh_venue|exact Hrec|exact Hg].
Qed.

Lemma orders_arrive : Forall arrives orders.
Proof. apply Forall_take, VenueDemo.batch_arrives. Qed.

Lemma q1_batch : batch_ok 7 orders q1.
Proof.
  destruct start_batch as [H1 _ _ H4]. split; [by apply Forall_take|vm_compute; discriminate..|by apply Forall_take].
Qed.

Lemma st2_reachable : venue_reachable st2 /\ seqs (registry st2) !! "NABIL"%string = Some q2 /\
  sq_wal q2 = Some w2 /\ sq_walErr q2 = None /\ HoldCount (accounts st2) = 1%nat.
Proof.
  destruct st1_reachable as [Hr Hq]. pose proof (venue_reachable_consistent _ Hr) as Hc.
  destruct (venue_commit_consistent id 7 "NABIL" orders st1 q1 Hc Hq q1_batch orders_arrive)
    as (s' & res & ps & _ & Hv & _).
  assert (E : st2 = mkState (set_seqs (<["NABIL"%string := s']> (seqs (registry st1))) (registry st1)) (ap_accounts res) (Registry.disk st1)).
  { unfold st2, traded. by rewrite Hv. }
  split_and!; [|by vm_compute..]. rewrite E.
  eapply venue_commits; [exact Hr|exact Hq|exact q1_batch|exact orders_arrive|exact Hv].
Qed.
End RegistryDemo.


Lemma restart_restores_holds_witness :
  exists st s, Get id "NABIL" RegistryDemo.st3 = Ok (st, Good s) /\ sq_book s = sq_book RegistryDemo.q2 /\
    forall id, holds (accounts st) !! ("NABIL"%string, id) = holds (accounts RegistryDemo.st2) !! ("NABIL"%string, id).
Proof.
  destruct RegistryDemo.st2_reachable as (H1 & H2 & H3 & H4 & _).
  destruct (restart_restores_holds id RegistryDemo.st2 "NABIL" RegistryDemo.q2 RegistryDemo.w2 RegistryDemo.st3
    H1 H2 H3 H4 (RegistryDemo.fresh_venue _) (WalDemo.crashed_refl _) ltac:(vm_compute; reflexivity)) as (st & s & Hg & _ & Hb & _ & Hh & _).
  exists st, s. exact (conj Hg (conj Hb Hh)).
Defined.

Lemma symbols_stay_in_root_witness : Get id "../etc" RegistryDemo.st0 = Ok (RegistryDemo.st0, Fails ErrInvalidSymbol) /\
  RegistryDemo.st0 = RegistryDemo.st0 /\ @Fails oms_error (Sequencer Writer) ErrInvalidSymbol = Fails ErrInvalidSymbol.
Proof.
  assert (E : Get id "../etc" RegistryDemo.st0 = Ok (RegistryDemo.st0, Fails ErrInvalidSymbol)) by (vm_compute; reflexivity).
  exact (conj E (proj1 (symbols_stay_in_root id id "../etc" _ _ _ E) ltac:(vm_compute; reflexivity))).
Defined.
