(* ===== verification/VenueFlow.v ===== *)
(** What commits do to balances: an account's cash and shares move by the trades
    replied, and by nothing else. *)

From Stdlib Require Import ZArith Lia.
From stdpp Require Import base gmap list strings sorting.
From S2P Require Import Prelude Types Book BookInv BookSpec BookRefine BookProps.
From S2P Require Import Accounts AccountsInv AccountsSolv AccountsProps WalRecord Sequencer SeqFacts SeqProps.
From S2P Require Import VenueFacts Venue VenueProps Bytes WalFormat SegNames Wal WalDir WalLaw WalStep WalRecover WalProps.
From S2P Require Import Registry RegistryFacts RegistryProps.

Open Scope Z_scope.

(** From [a] to [a'] the balances moved by the trades of [T]. *)
Definition moved_by (T : list Trade) (a a' : Accounts) : Prop :=
  (forall ac, eq64 (Cash ac a') (Cash ac a + sumZ (cash_flow ac) T)) /\
  (forall ac sy, eq64 (Position ac sy a') (Position ac sy a + sumZ (share_flow ac sy) T)).

Lemma moved_same a a' : cash a' = cash a -> positions a' = positions a -> moved_by [] a a'.
Proof. intros Hc Hp. unfold moved_by, Cash, Position. rewrite Hc, Hp. split; intros; simpl; apply eq64_of_eq; lia. Qed.

Lemma moved_trans T T' a a' a'' : moved_by T a a' -> moved_by T' a' a'' -> moved_by (T ++ T') a a''.
Proof.
  intros [H1 H2] [H3 H4]. split; intros; autorewrite with sums.
  - rewrite H3, H1. apply eq64_of_eq. lia.
  - rewrite H4, H2. apply eq64_of_eq. lia.
Qed.

Lemma moved_perm T T' a a' : T ≡ₚ T' -> moved_by T a a' -> moved_by T' a a'.
Proof. intros HT [H1 H2]. split; intros; rewrite <- HT; auto. Qed.

(** A store whose invariant holds. *)
Definition sane (a : Accounts) : Prop := acc_wf a /\ holds_live a.

Lemma release_moves key a : sane a -> sane (releaseLocked key a) /\ moved_by [] a (releaseLocked key a).
Proof.
  intros [Hwf Hl]. destruct (release_spec a key Hwf) as (Hwf' & _ & Hc & Hp).
  split; [split; [done|by apply release_live]|by apply moved_same].
Qed.

Lemma Complete_moves symbol id trades resting prevented a : sane a ->
  sane (Complete symbol id trades resting prevented a) /\ moved_by trades a (Complete symbol id trades resting prevented a).
Proof.
  intros [Hwf Hl]. by destruct (Complete_spec symbol id trades resting prevented a Hwf Hl) as (H1 & H2 & _ & _ & H3 & H4 & _).
Qed.

Lemma moved_refl a : moved_by [] a a.
Proof. by apply moved_same. Qed.

Lemma Reserve_sane o a : sane a -> o_Quantity o <= MaxInt64 -> sane (Reserve o a).1 /\ moved_by [] a (Reserve o a).1.
Proof.
  intros [Hwf Hl] Hq. destruct (Reserve_spec o a Hwf Hq) as (Hwf' & Hc & Hp & Hr). split; [|by apply moved_same].
  split; [done|]. destruct (Reserve o a).2; [|by rewrite Hr]. destruct Hr as (_ & Hpos & Hh).
  intros k h. rewrite Hh. intros [[_ <-]|[_ Hk]]%lookup_insert_Some; [|by eapply Hl]. unfold order_hold. by case_decide.
Qed.

Lemma reserve_batch_moves batch : forall a, sane a ->
  Forall (fun r => r_kind r = reqSubmit -> o_Quantity (r_order r) <= MaxInt64) batch ->
  sane (reserve_batch batch a).2 /\ moved_by [] a (reserve_batch batch a).2.
Proof.
  induction batch as [|r batch IH]; intros a Ha Hq; cbn [reserve_batch]; [split; [done|apply moved_refl]|].
  apply Forall_cons in Hq as [Hr Hq]. unfold reserve_one.
  assert (Hgo : forall r' a1, sane a1 -> moved_by [] a a1 ->
    let '(b, a2) := (let '(b0, a0) := reserve_batch batch a1 in (r' :: b0, a0)) in sane a2 /\ moved_by [] a a2).
  { intros r' a1 Hs Hm. destruct (IH a1 Hs Hq) as [H1 H2]. destruct (reserve_batch batch a1). split; [done|].
    by apply (moved_trans [] [] a a1). }
  destruct (r_kind r) eqn:Hk;
    try (pose proof (Hgo r a Ha (moved_refl a)) as H; by destruct (reserve_batch batch a)).
  destruct (Reserve_sane (r_order r) a Ha (Hr eq_refl)) as [Hs Hm].
  destruct (Reserve (r_order r) a) as [a1 [u|e]].
  - pose proof (Hgo r a1 Hs Hm) as H. by destruct (reserve_batch batch a1).
  - pose proof (Hgo (set_preErr e r) a1 Hs Hm) as H. by destruct (reserve_batch batch a1).
Qed.

Section Flow.
Context (now : Z -> Z) (symbol : string) (onT : bool) (seq : Z) (we : option oms_error).

Lemma apply_one_moves r b a pub st p : sane a ->
  apply_one now symbol true onT seq we r (mkApplied b a pub) = Ok (st, p) ->
  sane (ap_accounts st) /\ moved_by (p_trades p) a (ap_accounts st).
Proof.
  intros Ha H. assert (Hsame : sane a /\ moved_by [] a a) by (split; [done|apply moved_refl]).
  assert (Hrel : sane (release symbol true r a) /\ moved_by [] a (release symbol true r a)).
  { unfold release. cbn [andb]. case_bool_decide; [by apply release_moves|done]. }
  unfold apply_one in H.
  destruct (r_kind r).
  - destruct (r_preErr r); [by injection H as <- <-|]. destruct we; [by injection H as <- <-|].
    destruct (SubmitOrder now (r_order r) b) as [[b' [mr|e]]| |]; simpl in H; try done; injection H as <- <-; [|done].
    by apply Complete_moves.
  - destruct (r_preErr r); [by injection H as <- <-|]. destruct we; [by injection H as <- <-|].
    destruct (CancelOwned (r_cancelID r) (r_cancelBy r) b) as [[b' [u|e]]| |]; simpl in H; try done; injection H as <- <-; [|done].
    by apply release_moves.
  - destruct (Snapshot b); simpl in H; try done. by injection H as <- <-.
Qed.

Lemma apply_batch_moves batch : forall b a pub st ps, sane a ->
  apply_batch now symbol true onT seq we batch (mkApplied b a pub) = Ok (st, ps) ->
  sane (ap_accounts st) /\ moved_by (concat (p_trades <$> ps)) a (ap_accounts st).
Proof.
  induction batch as [|r batch IH]; intros b a pub st ps Ha H; cbn [apply_batch] in H.
  { injection H as <- <-. split; [done|apply moved_refl]. }
  destruct (apply_one _ _ _ _ _ _ r (mkApplied b a pub)) as [[[b1 a1 pub1] p1]| |] eqn:E1; simpl in H; try done.
  destruct (apply_batch _ _ _ _ _ _ batch _) as [[s2 ps2]| |] eqn:E2; simpl in H; try done. injection H as <- <-.
  destruct (apply_one_moves r b a pub _ p1 Ha E1) as [Ha1 Hm1]. destruct (IH _ _ _ _ _ Ha1 E2) as [Ha2 Hm2].
  split; [done|]. rewrite fmap_cons. by apply (moved_trans _ _ _ a1).
Qed.
End Flow.

Lemma commit_moves `{!WalOps W, !WalLaws W} now ts batch (s : Sequencer W) a s' st ps : attached s a -> batch_ok ts batch s ->
  Forall arrives batch -> commit now ts batch s a = Ok (s', st, ps) ->
  moved_by (concat (p_trades <$> ps)) a (ap_accounts st).
Proof.
  intros [Hrun Hacc Hsym Hven] Hb Harr Hc. pose proof (running_ok s Hrun) as Hok.
  pose proof (commit_spec now ts batch s a Hok Hb) as Hs. unfold prepared in Hs.
  pose proof (arrives_orderly (sq_symbol s) (sq_nextOrderID s) batch Hsym Harr) as Hord.
  destruct (assign_ids _ _ batch) as [b0 next]. simpl in Hord. rewrite Hacc in Hs.
  destruct (reserve_batch_moves b0 a) as [Hs1 Hm1].
  - split; [apply Hven|apply Hven].
  - eapply Forall_impl; [exact Hord|]. intros r [_ Hr] Hk. by apply Hr.
  - destruct (reserve_batch b0 a) as [b1 a1]. simpl in *.
    destruct (log_phase ts s b1) as [[[b2 seq] wal] we]. destruct Hs as (st1 & ps1 & s1 & Ha & Hc1 & _).
    rewrite Hc in Hc1. injection Hc1 as <- <- <-.
    destruct (apply_batch_moves _ _ _ _ _ _ _ _ _ _ _ Hs1 Ha) as [_ Hm2].
    by apply (moved_trans [] _ a a1).
Qed.

(** * A venue's life *)

Section Life.
Context `{CodecLaws}.

(** [lives st0 T st]: from [st0] the venue came to [st], executing the trades of [T];
    nobody deposited anything. *)
Inductive lives (st0 : State) : list Trade -> State -> Prop :=
| lives_start : lives st0 [] st0
| lives_get now symbol T st st' r : lives st0 T st -> recoverable symbol (dir_at symbol st) ->
    Get now symbol st = Ok (st', r) -> lives st0 T st'
| lives_commit now ts symbol batch s T st st' ps pub : lives st0 T st ->
    seqs (registry st) !! symbol = Some s -> batch_ok ts batch s -> Forall arrives batch ->
    venue_commit now ts symbol batch st = Ok (st', ps, pub) -> lives st0 (T ++ concat (p_trades <$> ps)) st'.

Lemma lives_spec st0 T st : venue_reachable st0 -> lives st0 T st ->
  venue_reachable st /\ moved_by T (accounts st0) (accounts st).
Proof.
  intros Hst0. induction 1 as [|now symbol T st st' r _ [IH1 IH2] Hrec Hg
    |now ts symbol batch s T st st' ps pub _ [IH1 IH2] Hs Hb Harr Hc].
  - split; [done|apply moved_refl].
  - split; [by eapply venue_get|]. pose proof (venue_reachable_consistent _ IH1) as Hcon.
    destruct (Get_consistent now symbol st Hcon ltac:(auto)) as (st2 & r2 & Hg2 & _ & Hca & Hpo & _).
    rewrite Hg in Hg2. injection Hg2 as -> ->. rewrite <- (app_nil_r T).
    apply (moved_trans _ _ _ _ _ IH2). by apply moved_same.
  - split; [by eapply venue_commits|]. pose proof (venue_reachable_consistent _ IH1) as Hcon.
    destruct (venue_commit_consistent now ts symbol batch st s Hcon Hs Hb Harr) as (s' & res & ps' & Hcm & Hv & _).
    rewrite Hc in Hv. injection Hv as -> <- _. cbn [accounts]. apply (moved_trans _ _ _ _ _ IH2).
    destruct (co_open _ Hcon symbol s Hs) as (_ & _ & Hat). exact (commit_moves (W := Writer) now ts batch s _ s' res ps Hat Hb Harr Hcm).
Qed.
End Life.
