(* ===== verification/Status.v ===== *)
(** How errors reach a client, from [src/internal/api/server.go]: the gRPC status
    codes of the API and the closed set of outcome labels. *)

From stdpp Require Import base strings.
From S2P Require Import Prelude Types.

Inductive grpc_code :=
| InvalidArgument
| NotFound
| PermissionDenied
| ResourceExhausted
| FailedPrecondition
| Unavailable
| Internal
| DataLoss
| Canceled
| DeadlineExceeded.

#[global] Instance grpc_code_eq_dec : EqDecision grpc_code.
Proof. solve_decision. Defined.

Definition registryError (e : oms_error) : grpc_code :=
  match e with
  | ErrInvalidSymbol => InvalidArgument
  | ErrTooManySymbols => ResourceExhausted
  | _ => Internal
  end.

Definition submitError (e : oms_error) : grpc_code :=
  match e with
  | ErrUnknownAccount => NotFound
  | ErrInsufficientFunds | ErrInsufficientShares => FailedPrecondition
  | ErrSequencerClosed => Unavailable
  | ErrCanceled => Canceled
  | ErrDeadlineExceeded => DeadlineExceeded
  | _ => Internal
  end.

Definition cancelError (e : oms_error) : grpc_code :=
  match e with
  | ErrNotOrderOwner _ => PermissionDenied
  | ErrSequencerClosed => Unavailable
  | ErrCanceled => Canceled
  | ErrDeadlineExceeded => DeadlineExceeded
  | _ => NotFound
  end.

Definition submitOutcome (e : oms_error) : string :=
  match e with
  | ErrInsufficientFunds => "insufficient_funds"
  | ErrInsufficientShares => "insufficient_shares"
  | ErrUnknownAccount => "unknown_account"
  | ErrSequencerClosed => "shutting_down"
  | ErrCanceled | ErrDeadlineExceeded => "client_gone"
  | _ => "error"
  end.

Definition cancelOutcome (e : oms_error) : string :=
  match e with
  | ErrNotOrderOwner _ => "not_owner"
  | ErrSequencerClosed => "shutting_down"
  | ErrCanceled | ErrDeadlineExceeded => "client_gone"
  | _ => "not_found"
  end.
