(* ===== verification/Messages.v ===== *)
(** Records on the wire, from the conversions of [src/internal/api/replication.go].

    A protobuf enumeration is open: its Go type is an [int32], any value of which
    may arrive, so the enumerations are [Z] with named values. A nested message is
    a pointer that may be nil, hence an [option]. *)

From Stdlib Require Import ZArith Lia.
From stdpp Require Import base gmap list strings.
From S2P Require Import Prelude Types Book WalRecord.

Open Scope Z_scope.

Definition Side_SIDE_UNSPECIFIED : Z := 0.
Definition Side_SIDE_BUY : Z := 1.
Definition Side_SIDE_SELL : Z := 2.
Definition OrderType_ORDER_TYPE_UNSPECIFIED : Z := 0.
Definition OrderType_ORDER_TYPE_LIMIT : Z := 1.
Definition OrderType_ORDER_TYPE_MARKET : Z := 2.
Definition WALRecordKind_UNSPECIFIED : Z := 0.
Definition WALRecordKind_SUBMIT : Z := 1.
Definition WALRecordKind_CANCEL : Z := 2.

(** [pb.Order] and [pb.WALRecord]. *)
Record OrderPB := mkOrderPB {
  pb_OrderId : Z;
  pb_Symbol : string;
  pb_AccountId : string;
  pb_Type : Z;
  pb_Price : Z;
  pb_Quantity : Z;
  pb_Side : Z;
  pb_PlacedAtUnixNano : Z
}.

Record WALRecordPB := mkWALRecordPB {
  pb_Position : Z;
  pb_LoggedAtUnixNano : Z;
  pb_Kind : Z;
  pb_Order : option OrderPB;
  pb_CancelOrderId : Z;
  pb_CancelRequestedBy : string
}.

#[global] Instance OrderPB_eq_dec : EqDecision OrderPB.
Proof. solve_decision. Defined.
#[global] Instance WALRecordPB_eq_dec : EqDecision WALRecordPB.
Proof. solve_decision. Defined.

(** Go's [Time.UnixNano]: the nanoseconds since the epoch, in 64 bits whatever
    the date; [time.Unix(0, n)] is the instant [n] nanoseconds after it. *)
Definition UnixNano (t : Z) : Z := wrap64 t.
Definition Unix (n : Z) : Z := n.

Definition sideToPB (side : OrderSide) : Z :=
  match side with
  | Buy => Side_SIDE_BUY
  | Sell => Side_SIDE_SELL
  | UnknownSide => Side_SIDE_UNSPECIFIED
  end.

(** The errors of package [api]. *)
Inductive wire_error := NoOrder | NoSide | NoType | NoKind.

#[global] Instance wire_error_eq_dec : EqDecision wire_error.
Proof. solve_decision. Defined.

Definition sideFromPB (side : Z) : result wire_error OrderSide :=
  if side =? Side_SIDE_BUY then Good Buy
  else if side =? Side_SIDE_SELL then Good Sell
  else Fails NoSide.

Definition orderTypeToPB (t : OrderType) : Z :=
  match t with
  | Limit => OrderType_ORDER_TYPE_LIMIT
  | Market => OrderType_ORDER_TYPE_MARKET
  | UnknownType => OrderType_ORDER_TYPE_UNSPECIFIED
  end.

Definition orderTypeFromPB (t : Z) : result wire_error OrderType :=
  if t =? OrderType_ORDER_TYPE_LIMIT then Good Limit
  else if t =? OrderType_ORDER_TYPE_MARKET then Good Market
  else Fails NoType.

Definition recordToPB (rec : WalRecord) : WALRecordPB :=
  let out := mkWALRecordPB (w_Seq rec) (UnixNano (w_TS rec)) WALRecordKind_UNSPECIFIED None 0 "" in
  match w_Kind rec with
  | RecordSubmit =>
      let o := w_Order rec in
      mkWALRecordPB (pb_Position out) (pb_LoggedAtUnixNano out) WALRecordKind_SUBMIT
        (Some (mkOrderPB (o_SeqID o) (o_Symbol o) (o_Placer o) (orderTypeToPB (o_Type o)) (o_Price o)
                 (o_Quantity o) (sideToPB (o_Side o)) (UnixNano (o_TimeStamp o)))) 0 ""
  | RecordCancel =>
      mkWALRecordPB (pb_Position out) (pb_LoggedAtUnixNano out) WALRecordKind_CANCEL None
        (w_CancelID rec) (w_CancelBy rec)
  | RecordUnknown => out
  end.

Definition RecordFromPB (m : WALRecordPB) : result wire_error WalRecord :=
  let seq := pb_Position m in
  let ts := Unix (pb_LoggedAtUnixNano m) in
  if pb_Kind m =? WALRecordKind_SUBMIT then
    match pb_Order m with
    | None => Fails NoOrder
    | Some o =>
        side ← sideFromPB (pb_Side o);
        orderType ← orderTypeFromPB (pb_Type o);
        Good (mkRecord seq RecordSubmit ts
                (mkOrder (pb_OrderId o) (pb_Symbol o) (pb_AccountId o) orderType (pb_Price o) (pb_Quantity o)
                   side (Unix (pb_PlacedAtUnixNano o))) 0 "")
    end
  else if pb_Kind m =? WALRecordKind_CANCEL then
    Good (mkRecord seq RecordCancel ts zeroOrder (pb_CancelOrderId m) (pb_CancelRequestedBy m))
  else Fails NoKind.

(** * What the wire keeps *)

Definition set_time (t : Z) (o : Order) : Order :=
  mkOrder (o_SeqID o) (o_Symbol o) (o_Placer o) (o_Type o) (o_Price o) (o_Quantity o) (o_Side o) t.

(** A record as the other side reads it. *)
Definition on_wire (rec : WalRecord) : WalRecord :=
  match w_Kind rec with
  | RecordSubmit =>
      mkRecord (w_Seq rec) RecordSubmit (wrap64 (w_TS rec))
        (set_time (wrap64 (o_TimeStamp (w_Order rec))) (w_Order rec)) 0 ""
  | RecordCancel =>
      mkRecord (w_Seq rec) RecordCancel (wrap64 (w_TS rec)) zeroOrder (w_CancelID rec) (w_CancelBy rec)
  | RecordUnknown => rec
  end.

(** Records that have a wire form: not of an unknown kind, side or type. *)
Definition sendable (rec : WalRecord) : Prop :=
  w_Kind rec <> RecordUnknown /\
  (w_Kind rec = RecordSubmit -> o_Side (w_Order rec) <> UnknownSide /\ o_Type (w_Order rec) <> UnknownType).

#[global] Instance sendable_dec rec : Decision (sendable rec).
Proof. unfold sendable. apply _. Defined.

Lemma wire_read rec : RecordFromPB (recordToPB rec) = if decide (sendable rec) then Good (on_wire rec)
  else match w_Kind rec with
       | RecordUnknown => Fails NoKind
       | _ => if decide (o_Side (w_Order rec) = UnknownSide) then Fails NoSide else Fails NoType
       end.
Proof.
  destruct (decide (sendable rec)) as [[Hk Hs]|Hn].
  - unfold RecordFromPB, recordToPB, on_wire. destruct (w_Kind rec); [done| |done].
    destruct (Hs eq_refl) as [H1 H2]. simpl. unfold Unix, UnixNano, set_time.
    by destruct (o_Side (w_Order rec)), (o_Type (w_Order rec)).
  - unfold sendable in Hn. unfold RecordFromPB, recordToPB. destruct (w_Kind rec); [done| |destruct Hn; by split].
    simpl. destruct (o_Side (w_Order rec)), (o_Type (w_Order rec)); try done; destruct Hn; done.
Qed.

(** Records the wire carries unchanged: times that fit in 64 bits of nanoseconds,
    and nothing in the fields of the other kind. *)
Definition wire_exact (rec : WalRecord) : Prop :=
  match w_Kind rec with
  | RecordSubmit => in64 (w_TS rec) /\ in64 (o_TimeStamp (w_Order rec)) /\ w_CancelID rec = 0 /\ w_CancelBy rec = ""%string
  | RecordCancel => in64 (w_TS rec) /\ w_Order rec = zeroOrder
  | RecordUnknown => True
  end.

Lemma wrap64_fixed z : wrap64 z = z <-> in64 z.
Proof. split; [intros <-; auto with int64|apply wrap64_id]. Qed.

Lemma on_wire_exact rec : on_wire rec = rec <-> wire_exact rec.
Proof.
  unfold on_wire, wire_exact. destruct rec as [seq k ts o c b]. cbn [w_Kind w_TS w_Order w_CancelID w_CancelBy w_Seq]. destruct k; [done| |].
  - split.
    + intros [= H1 H2 H3 H4]. apply (f_equal o_TimeStamp) in H2. cbn [set_time o_TimeStamp] in H2.
      split_and!; try done; by apply wrap64_fixed.
    + intros (H1 & H2 & -> & ->). rewrite !wrap64_id by done. by destruct o.
  - split; [intros [= H1 <-]; split; [by apply wrap64_fixed|done]|].
    intros [H ->]. by rewrite wrap64_id by done.
Qed.

(** C26: What a follower reads: a record of a known kind, side and type arrives as
    [on_wire] of itself and every other record is an error, so the two conversions
    are inverse exactly on the records whose times fit the wire. A submit whose
    order has no time stamp is not one of them. *)
Theorem wire_roundtrip rec :
  (sendable rec -> RecordFromPB (recordToPB rec) = Good (on_wire rec)) /\
  (~ sendable rec -> exists e, RecordFromPB (recordToPB rec) = Fails e) /\
  (RecordFromPB (recordToPB rec) = Good rec <-> sendable rec /\ wire_exact rec) /\
  (w_Kind rec = RecordSubmit -> o_TimeStamp (w_Order rec) = zeroTime -> RecordFromPB (recordToPB rec) <> Good rec).
Proof.
  assert (Hiff : RecordFromPB (recordToPB rec) = Good rec <-> sendable rec /\ wire_exact rec).
  { rewrite wire_read, <- on_wire_exact. case_decide as Hs; [split; [intros [= H]; tauto|intros [_ H]; by rewrite H]|].
    split; [|tauto]. destruct (w_Kind rec); try case_decide; done. }
  split_and!; [| |done|].
  - intros Hs. by rewrite wire_read, decide_True.
  - intros Hs. rewrite wire_read, decide_False by done. destruct (w_Kind rec); try case_decide; eauto.
  - intros Hk Ht [_ Hx]%Hiff. unfold wire_exact in Hx. rewrite Hk, Ht in Hx. destruct Hx as (_ & Hx & _).
    unfold zeroTime in Hx. unfold64. lia.
Qed.

Module WireDemo.
Definition dated : WalRecord := mkRecord 3 RecordSubmit 7 (mkOrder 1 "NABIL" "ann" Limit 100 5 Buy 9) 0 "".
End WireDemo.

Lemma wire_roundtrip_witness : RecordFromPB (recordToPB WireDemo.dated) = Good WireDemo.dated.
Proof.
  destruct (wire_roundtrip WireDemo.dated) as (_ & _ & [_ H] & _). apply H.
  split; [by split|vm_compute; by repeat split].
Defined.
