(* ===== verification/BookTime.v ===== *)
(** Time stamps do not matter to the book.

    [untime_book] erases the time stamp of every resting order. Every operation
    commutes with it, panics included, so two books that differ only in time
    stamps stay so, and show the same depth. Replication needs this: the wire
    does not carry every time stamp. *)

From Stdlib Require Import ZArith Lia.
From stdpp Require Import base gmap list strings.
From S2P Require Import Prelude Types Book WalRecord Messages.

Open Scope Z_scope.

Definition outcome_map {A B} (f : A -> B) (r : outcome A) : outcome B :=
  match r with Ok a => Ok (f a) | Panic => Panic | OutOfFuel => OutOfFuel end.

Lemma outcome_map_bind {A B C} (f : B -> C) (r : outcome A) (k : A -> outcome B) :
  outcome_map f (a ← r; k a) = a ← r; outcome_map f (k a).
Proof. by destruct r. Qed.

Lemma bind_outcome_map {A B C} (f : A -> B) (r : outcome A) (k : B -> outcome C) :
  (b ← outcome_map f r; k b) = a ← r; k (f a).
Proof. by destruct r. Qed.

Lemma outcome_bind_ext {A B} (r : outcome A) (k k' : A -> outcome B) :
  (forall a, k a = k' a) -> (a ← r; k a) = a ← r; k' a.
Proof. intros H. destruct r; simpl; auto. Qed.

Definition untime (o : Order) : Order := set_time zeroTime o.
Definition untime_el (e : element) : element := mkElement (el_id e) (untime (el_value e)).
Definition untime_level (lvl : priceLevel) : priceLevel :=
  mkLevel (lv_price lvl) (lv_side lvl) (untime_el <$> lv_orders lvl).
Definition untime_ref (r : OrderRef) : OrderRef := mkRef (ref_level r) (untime_el (ref_element r)).
Definition untime_book (b : Book) : Book :=
  mkBook (bids b) (asks b) (untime_ref <$> index b) (levels b) (nextTradeID b) (maxOrderID b)
    (untime_level <$> heap b) (next_loc b).

Lemma untime_idemp o : untime (untime o) = untime o. Proof. done. Qed.
Lemma untime_quantity q o : set_quantity q (untime o) = untime (set_quantity q o). Proof. done. Qed.

(** ** Levels *)

Lemma ut_deref {A B} (f : A -> B) (x : option A) : deref (f <$> x) = outcome_map f (deref x).
Proof. by destruct x. Qed.

Lemma ut_heap b l : deref (heap (untime_book b) !! l) = outcome_map untime_level (deref (heap b !! l)).
Proof. simpl. by rewrite lookup_fmap, ut_deref. Qed.

Lemma ut_set_orders b l lvl es :
  set_orders l (untime_level lvl) (untime_el <$> es) (untime_book b) = untime_book (set_orders l lvl es b).
Proof. unfold set_orders, set_heap, untime_book. simpl. by rewrite fmap_insert. Qed.

Lemma ut_set_index_insert b id r :
  set_index (<[id := untime_ref r]> (index (untime_book b))) (untime_book b) = untime_book (set_index (<[id := r]> (index b)) b).
Proof. unfold set_index, untime_book. simpl. by rewrite fmap_insert. Qed.

Lemma ut_set_index_delete b id :
  set_index (delete id (index (untime_book b))) (untime_book b) = untime_book (set_index (delete id (index b)) b).
Proof. unfold set_index, untime_book. simpl. by rewrite fmap_delete. Qed.

(** Both sides compute to records of erased fields. *)
Ltac erase_level :=
  unfold untime_book, set_next_loc, set_orders, set_heap; simpl; rewrite ?lookup_fmap;
  match goal with |- context [@fmap option option_fmap _ _ untime_level ?x] => destruct x as [lvl|]; simpl; [|done] end;
  unfold prod_map; simpl; rewrite ?fmap_insert; simpl.

Lemma ut_push l o b : push l (untime o) (untime_book b) = outcome_map (prod_map untime_book untime_el) (push l o b).
Proof. unfold push. erase_level. unfold untime_level. simpl. by rewrite fmap_app. Qed.

Lemma ut_pushFront l o b :
  pushFront l (untime o) (untime_book b) = outcome_map (prod_map untime_book untime_el) (pushFront l o b).
Proof. unfold pushFront. by erase_level. Qed.

Lemma ut_popFront l b : popFront l (untime_book b) =
  outcome_map (fun r : Book * Order * bool => (untime_book r.1.1, untime r.1.2, r.2)) (popFront l b).
Proof.
  unfold popFront. unfold untime_book at 1. simpl. rewrite lookup_fmap. destruct (heap b !! l) as [lvl|]; simpl; [|done].
  destruct (lv_orders lvl) as [|e es]; simpl; [done|]. do 3 f_equal.
  unfold untime_book, set_orders, set_heap. simpl. by rewrite fmap_insert.
Qed.

Lemma ut_remove l e b : remove_element l (untime_el e) (untime_book b) = outcome_map untime_book (remove_element l e b).
Proof.
  unfold remove_element. erase_level. unfold untime_level. simpl. do 5 f_equal.
  induction (lv_orders lvl) as [|x es IH]; [done|].
  rewrite fmap_cons, !filter_cons. simpl. case_decide; [|done]. by rewrite fmap_cons, <- IH.
Qed.

Lemma ut_level_len l b : level_len l (untime_book b) = level_len l b.
Proof.
  unfold level_len. rewrite ut_heap, bind_outcome_map. apply outcome_bind_ext. intros lvl. simpl. by rewrite length_fmap.
Qed.

(** ** Ladders *)

Lemma ut_ladder s b : ladder s (untime_book b) = ladder s b. Proof. done. Qed.
Lemma ut_set_ladder s l b : set_ladder s l (untime_book b) = untime_book (set_ladder s l b).
Proof. unfold set_ladder. by case_decide. Qed.

Lemma ut_getOrCreate s p b : getOrCreateLevel s p (untime_book b) = prod_map untime_book id (getOrCreateLevel s p b).
Proof.
  unfold getOrCreateLevel. simpl. destruct (levels b !! p); [done|]. unfold prod_map. simpl.
  rewrite !ut_ladder. set (b1 := set_next_loc _ (set_heap _ b)).
  assert (E : set_next_loc (Pos.succ (next_loc b))
      (set_heap (<[next_loc b := mkLevel p s []]> (untime_level <$> heap b)) (untime_book b)) = untime_book b1).
  { unfold b1, untime_book, set_next_loc, set_heap. simpl. by rewrite fmap_insert. }
  rewrite E, ut_set_ladder, ut_ladder. f_equal.
Qed.

Lemma ut_removeLevel s p b : removeLevel s p (untime_book b) = outcome_map (prod_map untime_book id) (removeLevel s p b).
Proof.
  unfold removeLevel. simpl. destruct (levels b !! p); [|done]. rewrite ut_ladder.
  destruct (_ <? _)%nat; [|done]. simpl. unfold prod_map. simpl. rewrite ut_set_ladder. done.
Qed.

Lemma ut_drop s p l b : drop_if_empty s p l (untime_book b) = outcome_map untime_book (drop_if_empty s p l b).
Proof.
  unfold drop_if_empty. rewrite ut_level_len, outcome_map_bind. apply outcome_bind_ext. intros n.
  destruct (n =? 0)%nat; [|done]. rewrite ut_removeLevel, bind_outcome_map, outcome_map_bind. by apply outcome_bind_ext.
Qed.

(** ** Matching *)

Lemma ut_best s b : best s (untime_book b) = best s b. Proof. by destruct s. Qed.
Lemma ut_beyond s o p : beyond_limit s (untime o) p = beyond_limit s o p. Proof. done. Qed.
Lemma ut_selfMatch o m : selfMatch (untime o) (untime m) = selfMatch o m. Proof. done. Qed.

(** What a loop returns, erased. *)
Definition untime_out (r : Book * list Trade * list Z * Order) : Book * list Trade * list Z * Order :=
  let '(b, tr, pv, o) := r in (untime_book b, tr, pv, untime o).

(** One iteration, on the order popped. *)
Lemma ut_iteration now s p l b o m tr pv k k' :
  (forall b o tr pv, k (untime_book b) (untime o) tr pv = outcome_map untime_out (k' b o tr pv)) ->
  let body o m b (k : Book -> Order -> list Trade -> list Z -> outcome (Book * list Trade * list Z * Order)) :=
    let b := set_index (delete (o_SeqID m) (index b)) b in
    if selfMatch o m then
      b ← drop_if_empty s p l b; k b o tr (pv ++ [o_SeqID m])
    else
      let fill := Z.min (o_Quantity o) (o_Quantity m) in
      let b := set_nextTradeID (add64 (nextTradeID b) 1) b in
      let trades := tr ++ [mk_trade now s (nextTradeID b) p fill o m] in
      let taker := set_quantity (sub64 (o_Quantity o) fill) o in
      let maker := set_quantity (sub64 (o_Quantity m) fill) m in
      b ← (if 0 <? o_Quantity maker then
             '(b, e) ← pushFront l maker b;
             Ok (set_index (<[o_SeqID maker := mkRef l e]> (index b)) b)
           else Ok b);
      b ← drop_if_empty s p l b; k b taker trades pv in
  body (untime o) (untime m) (untime_book b) k = outcome_map untime_out (body o m b k').
Proof.
  intros Hk body. unfold body. cbv zeta. change (o_SeqID (untime m)) with (o_SeqID m). rewrite ut_set_index_delete, ut_selfMatch.
  set (b1 := set_index _ b). destruct (selfMatch o m).
  - rewrite ut_drop, bind_outcome_map, outcome_map_bind. apply outcome_bind_ext. intros b2. apply Hk.
  - rewrite outcome_map_bind. change (set_nextTradeID ?n (untime_book b1)) with (untime_book (set_nextTradeID n b1)).
    set (b2 := set_nextTradeID _ b1). rewrite !untime_quantity.
    change (o_Quantity (untime ?x)) with (o_Quantity x).
    set (m' := set_quantity _ m). set (o' := set_quantity _ o).
    assert (Hstep : (if 0 <? o_Quantity m' then
        '(b, e) ← pushFront l (untime m') (untime_book b2); Ok (set_index (<[o_SeqID (untime m') := mkRef l e]> (index b)) b)
      else Ok (untime_book b2)) = outcome_map untime_book (if 0 <? o_Quantity m' then
        '(b, e) ← pushFront l m' b2; Ok (set_index (<[o_SeqID m' := mkRef l e]> (index b)) b) else Ok b2)).
    { destruct (0 <? o_Quantity m'); [|done]. rewrite ut_pushFront, bind_outcome_map, outcome_map_bind.
      apply outcome_bind_ext. intros [b3 e]. cbn [prod_map fst snd outcome_map]. unfold prod_map. simpl. f_equal.
      apply (ut_set_index_insert b3 (o_SeqID m') (mkRef l e)). }
    rewrite Hstep, bind_outcome_map. apply outcome_bind_ext. intros b3.
    rewrite ut_drop, bind_outcome_map, outcome_map_bind. apply outcome_bind_ext. intros b4. apply Hk.
Qed.

Lemma ut_match_loop now fuel s : forall b o tr pv,
  match_loop now fuel s (untime_book b) (untime o) tr pv = outcome_map untime_out (match_loop now fuel s b o tr pv).
Proof.
  induction fuel as [|fuel IH]; intros b o tr pv; cbn [match_loop]; change (o_Quantity (untime o)) with (o_Quantity o);
    (destruct (negb _); [done|]); rewrite ut_best; (destruct (best s b) as [p []]; [|done]); rewrite ut_beyond;
    (destruct (beyond_limit s o p); [done|]); [done|].
  rewrite outcome_map_bind. apply outcome_bind_ext. intros l.
  rewrite ut_popFront, bind_outcome_map, outcome_map_bind. apply outcome_bind_ext. intros [[b1 m] ok].
  apply (ut_iteration now s p l b1 o m tr pv _ _ IH).
Qed.

Lemma ut_matching now o b side : match_loop now (match_fuel (untime_book b)) side (untime_book b) (untime o) [] []
  = outcome_map untime_out (match_loop now (match_fuel b) side b o [] []).
Proof.
  assert (E : match_fuel (untime_book b) = match_fuel b) by (unfold match_fuel, RestingCount; simpl; by rewrite map_size_fmap).
  rewrite E. apply ut_match_loop.
Qed.

(** ** Submitting and cancelling *)

Lemma ut_finish trades pv o b : finish trades pv (untime o) (untime_book b) =
  outcome_map (prod_map untime_book id) (finish trades pv o b).
Proof.
  unfold finish. change (o_Quantity (untime o)) with (o_Quantity o). change (o_Type (untime o)) with (o_Type o).
  destruct (_ && _); [|done]. rewrite ut_getOrCreate. destruct (getOrCreateLevel (o_Side o) (o_Price o) b) as [b1 l] eqn:E.
  change (o_Side (untime o)) with (o_Side o). change (o_Price (untime o)) with (o_Price o). rewrite E.
  unfold prod_map at 1. cbn [fst snd]. rewrite ut_push, bind_outcome_map, outcome_map_bind.
  apply outcome_bind_ext. intros [b2 e]. unfold prod_map. cbn [outcome_map fst snd]. do 2 f_equal.
  apply (ut_set_index_insert b2 (o_SeqID o) (mkRef l e)).
Qed.

Lemma SubmitOrder_finish now o b : SubmitOrder now o b =
  if decide (o_Side o = UnknownSide \/ o_Type o = UnknownType) then Ok (b, Fails ErrUnknownSideOrType) else
  let b := if maxOrderID b <? o_SeqID o then set_maxOrderID (o_SeqID o) b else b in
  '(b, trades, prevented, o) ←
    match o_Side o with
    | Buy => matchAgainstAsks now o b
    | Sell => matchAgainstBids now o b
    | UnknownSide => Ok (b, [], [], o)
    end;
  finish trades prevented o b.
Proof. done. Qed.

Lemma ut_SubmitOrder now o b : SubmitOrder now (untime o) (untime_book b) =
  outcome_map (prod_map untime_book id) (SubmitOrder now o b).
Proof.
  rewrite !SubmitOrder_finish. change (o_Side (untime o)) with (o_Side o). change (o_Type (untime o)) with (o_Type o).
  destruct (decide (o_Side o = UnknownSide \/ o_Type o = UnknownType)); [done|]. cbv zeta.
  set (b0 := if maxOrderID b <? o_SeqID o then _ else b).
  assert (E : (if maxOrderID (untime_book b) <? o_SeqID (untime o) then set_maxOrderID (o_SeqID (untime o)) (untime_book b)
    else untime_book b) = untime_book b0) by (unfold b0; simpl; by destruct (maxOrderID b <? o_SeqID o)).
  rewrite E, outcome_map_bind.
  assert (Hm : match o_Side o with
      | Buy => matchAgainstAsks now (untime o) (untime_book b0)
      | Sell => matchAgainstBids now (untime o) (untime_book b0)
      | UnknownSide => Ok (untime_book b0, [], [], untime o)
      end = outcome_map untime_out match o_Side o with
      | Buy => matchAgainstAsks now o b0 | Sell => matchAgainstBids now o b0 | UnknownSide => Ok (b0, [], [], o) end)
    by (destruct (o_Side o); [done|apply ut_matching..]).
  rewrite Hm, bind_outcome_map. apply outcome_bind_ext. intros [[[b1 tr] pv] o1]. apply ut_finish.
Qed.

Lemma ut_CancelOwned id_ by_ b : CancelOwned id_ by_ (untime_book b) =
  outcome_map (prod_map untime_book id) (CancelOwned id_ by_ b).
Proof.
  unfold CancelOwned. unfold untime_book at 1. cbn [index]. rewrite lookup_fmap.
  destruct (index b !! id_) as [r|]; cbn [fmap option_fmap option_map]; [|done].
  change (o_Placer (el_value (ref_element (untime_ref r)))) with (o_Placer (el_value (ref_element r))).
  case_decide; [done|]. change (ref_element (untime_ref r)) with (untime_el (ref_element r)).
  change (ref_level (untime_ref r)) with (ref_level r). rewrite ut_remove, bind_outcome_map, outcome_map_bind.
  apply outcome_bind_ext. intros b1. rewrite ut_set_index_delete, ut_heap, bind_outcome_map, outcome_map_bind.
  apply outcome_bind_ext. intros lvl. change (lv_side (untime_level lvl)) with (lv_side lvl).
  change (lv_price (untime_level lvl)) with (lv_price lvl). rewrite ut_drop, bind_outcome_map, outcome_map_bind. done.
Qed.

(** ** Depth *)

Lemma ut_levelQuantity lvl : levelQuantity (untime_level lvl) = levelQuantity lvl.
Proof.
  unfold levelQuantity. simpl. generalize 0. induction (lv_orders lvl) as [|e es IH]; intros t; simpl; [done|]. apply IH.
Qed.

Lemma ut_depth_rows ps b : depth_rows ps (untime_book b) = depth_rows ps b.
Proof.
  induction ps as [|p ps IH]; [done|]. cbn [depth_rows]. apply outcome_bind_ext. intros l.
  rewrite ut_heap, bind_outcome_map. apply outcome_bind_ext. intros lvl. by rewrite IH, ut_levelQuantity.
Qed.

Lemma ut_Snapshot b : Snapshot (untime_book b) = Snapshot b.
Proof. unfold Snapshot. by rewrite !ut_depth_rows. Qed.

(** * Books equal up to time stamps *)

Definition same_book (b b' : Book) : Prop := untime_book b = untime_book b'.

#[global] Instance same_book_equivalence : Equivalence same_book.
Proof. split; unfold same_book; [intros ?|intros ???|intros ?????]; congruence. Qed.

#[global] Instance Snapshot_same_book : Proper (same_book ==> eq) Snapshot.
Proof. intros b b' H. by rewrite <- (ut_Snapshot b), <- (ut_Snapshot b'), H. Qed.

Lemma same_book_count b b' : same_book b b' -> RestingCount b = RestingCount b'.
Proof.
  intros H. assert (E : forall x, RestingCount (untime_book x) = RestingCount x)
    by (intros x; unfold RestingCount; simpl; by rewrite map_size_fmap).
  by rewrite <- (E b), <- (E b'), H.
Qed.

Lemma ut_RestingOrders b : RestingOrders (untime_book b) ≡ₚ untime <$> RestingOrders b.
Proof. unfold RestingOrders. cbn [untime_book index]. by rewrite map_to_list_fmap, <- !list_fmap_compose. Qed.

Lemma same_book_orders b b' : same_book b b' -> untime <$> RestingOrders b ≡ₚ untime <$> RestingOrders b'.
Proof. intros H. by rewrite <- !ut_RestingOrders, H. Qed.

(** Records equal up to the time stamps of their orders do the same to a book. *)
Definition same_record (r r' : WalRecord) : Prop :=
  w_Seq r = w_Seq r' /\ w_Kind r = w_Kind r' /\ (w_Kind r = RecordSubmit -> untime (w_Order r) = untime (w_Order r')) /\
  (w_Kind r = RecordCancel -> w_CancelID r = w_CancelID r' /\ w_CancelBy r = w_CancelBy r').

Lemma on_wire_same r : same_record (on_wire r) r.
Proof. unfold same_record, on_wire. destruct (w_Kind r) eqn:Hk; (split; [done|]); (split; [done|]); by split. Qed.

Lemma same_record_sym r r' : same_record r r' -> same_record r' r.
Proof.
  intros (H1 & H2 & H3 & H4). split_and!; try done.
  - intros Hk. symmetry. apply H3. congruence.
  - intros Hk. destruct H4 as [H5 H6]; [congruence|done].
Qed.

Lemma on_wire_same_list recs : Forall2 same_record recs (on_wire <$> recs).
Proof. induction recs; constructor; [apply same_record_sym, on_wire_same|done]. Qed.

Lemma ut_submit_book now o b : outcome_map untime_book ('(b, _) ← Submit now o b; Ok b) =
  ('(b, _) ← Submit now (untime o) (untime_book b); Ok b).
Proof.
  unfold Submit. rewrite ut_SubmitOrder, bind_outcome_map. destruct (SubmitOrder now o b) as [[b1 r]| |]; done.
Qed.

Lemma ut_cancel_book id_ by_ b : outcome_map untime_book ('(b, _) ← CancelOwned id_ by_ b; Ok b) =
  ('(b, _) ← CancelOwned id_ by_ (untime_book b); Ok b).
Proof. rewrite ut_CancelOwned. by destruct (CancelOwned id_ by_ b) as [[b1 r]| |]. Qed.

Lemma Apply_same now r r' b b' : same_record r r' -> same_book b b' ->
  outcome_map untime_book (Apply now r b) = outcome_map untime_book (Apply now r' b').
Proof.
  intros (_ & Hk & Ho & Hc) Hb. unfold Apply. rewrite <- Hk. destruct (w_Kind r).
  - simpl. by rewrite Hb.
  - rewrite !ut_submit_book. by rewrite Ho, Hb.
  - destruct (Hc eq_refl) as [-> ->]. rewrite !ut_cancel_book. by rewrite Hb.
Qed.

Lemma replay_same now recs recs' : Forall2 same_record recs recs' -> forall b b' b1, same_book b b' ->
  replay now recs b = Ok b1 -> exists b1', replay now recs' b' = Ok b1' /\ same_book b1 b1'.
Proof.
  induction 1 as [|r r' recs recs' Hr _ IH]; intros b b' b1 Hb; simpl; [intros [= <-]; by exists b'|].
  pose proof (Apply_same now r r' b b' Hr Hb) as Ha.
  destruct (Apply now r b) as [b2| |], (Apply now r' b') as [b2'| |]; try done.
  intros Hrep. cbn [mbind outcome_bind] in Hrep |- *. apply (IH b2 b2' b1); [|done].
  unfold same_book. cbn [outcome_map] in Ha. congruence.
Qed.
