(* ===== verification/Replication.v ===== *)
(** Serving the log to followers, from [src/internal/api/replication.go].

    A stream reads the symbol's directory as it is at each poll; [seen] lists
    what its successive polls see, and ends where its context does. *)

From Stdlib Require Import ZArith Lia.
From stdpp Require Import base gmap list strings sorting.
From S2P Require Import Prelude Types Book Accounts WalRecord Sequencer Bytes WalFormat SegNames Wal Tail Registry Status Messages.

Open Scope Z_scope.

Definition walBatchCap : nat := 512.

(** [pb.WALBatch] and [pb.SymbolLag]. *)
Record WALBatchPB := mkBatchPB { wb_Records : list WALRecordPB; wb_PrimaryLastPosition : Z }.

Record SymbolLagPB := mkLag {
  lg_Symbol : string;
  lg_PrimaryPosition : Z;
  lg_FollowerPosition : Z;
  lg_RecordsBehind : Z;
  lg_MillisBehind : Z;
  lg_FollowerSeen : bool
}.

(** [metrics.FollowerLag]. *)
Record FollowerLag := mkFollowerLag {
  fl_PrimaryPosition : Z;
  fl_FollowerPosition : Z;
  fl_FollowerSeen : bool;
  fl_MillisBehind : Z
}.

(** [followerProgress], and the server: the registry's state and what followers said. *)
Record followerProgress := mkProgress { fp_position : Z; fp_recordedAt : Z; fp_reportedAt : Z }.

Record ReplicationServer := mkReplicationServer {
  rs_state : State;
  rs_progress : gmap string followerProgress
}.

Definition NewReplicationServer (st : State) : ReplicationServer := mkReplicationServer st ∅.

(** The directory of a symbol: its writer's once there is one. *)
Definition log_at (symbol : string) (st : State) : Dir :=
  match seqs (registry st) !! symbol with
  | Some s => match sq_wal s with Some w => wr_dir w | None => dir_at symbol st end
  | None => dir_at symbol st
  end.

(** Go's [Time.Sub] saturates; [Milliseconds] truncates. *)
Definition Time_Sub (t u : Z) : Z := Z.max MinInt64 (Z.min MaxInt64 (t - u)).
Definition Milliseconds (d : Z) : Z := Z.quot d 1000000.
Definition IsZero (t : Z) : bool := t =? zeroTime.

(** How a stream stopped: it is still running, it ended with a status, or a send failed. *)
Inductive stream_end := Streaming | Ended (status : option grpc_code) | SendFailed.

Section Replication.
Context `{PayloadCodec}.
Context (now : Z -> Z).

(** The loop of [ListSymbols] over the entries of the log root. *)
Fixpoint list_loop (entries : list string) (st : State) : outcome (State * list string) :=
  match entries with
  | [] => Ok (st, [])
  | symbol :: entries =>
      '(st, r) ← Get now symbol st;
      '(st, symbols) ← list_loop entries st;
      Ok (st, match r with Good _ => symbol :: symbols | Fails _ => symbols end)
  end.

(** [filepath.Glob]: the entries, in name order. *)
Definition entries (st : State) : list string := merge_sort name_le (elements (dom (disk st))).

Definition ListSymbols (st : State) : outcome (State * result grpc_code (list string)) :=
  if bool_decide (rg_walDir (registry st) = "") then Ok (st, Fails FailedPrecondition) else
  '(st, symbols) ← list_loop (entries st) st;
  Ok (st, Good symbols).

(** The loop of [StreamWAL]; [sends] says which of its sends succeed. *)
Fixpoint stream_loop (ctxErr : oms_error) (sends : list bool) (seen : list Dir) (t : Tailer)
    : outcome (Tailer * list WALBatchPB * stream_end) :=
  match sends with
  | [] => Ok (t, [], Streaming)
  | ok :: sends =>
      '(t, seen, r) ← Next ctxErr seen t walBatchCap;
      match r with
      | Fails ErrCanceled | Fails ErrDeadlineExceeded => Ok (t, [], Ended None)
      | Fails ErrCorruptWAL => Ok (t, [], Ended (Some DataLoss))
      | Fails _ => Ok (t, [], Ended (Some Internal))
      | Good records =>
          let batch := mkBatchPB (recordToPB <$> records) (AfterSeq t) in
          if ok : bool then
            '(t, batches, e) ← stream_loop ctxErr sends seen t;
            Ok (t, batch :: batches, e)
          else Ok (t, [], SendFailed)
      end
  end.

(** [StreamWAL]: what is sent, and how it stops. *)
Definition StreamWAL (ctxErr : oms_error) (symbol : string) (after : Z) (sends : list bool) (seen : list Dir)
    (st : State) : outcome (State * list WALBatchPB * stream_end) :=
  if bool_decide (rg_walDir (registry st) = "") then Ok (st, [], Ended (Some FailedPrecondition)) else
  '(st, r) ← Get now symbol st;
  match r with
  | Fails e => Ok (st, [], Ended (Some (registryError e)))
  | Good _ =>
      if after <? 0 then Ok (st, [], Ended (Some InvalidArgument)) else
      '(_, batches, e) ← stream_loop ctxErr sends seen (NewTailer after);
      Ok (st, batches, e)
  end.

Definition ReportProgress (symbol : string) (position loggedAt clock : Z) (rs : ReplicationServer)
    : outcome (ReplicationServer * result grpc_code unit) :=
  '(st, r) ← Get now symbol (rs_state rs);
  match r with
  | Fails e => Ok (mkReplicationServer st (rs_progress rs), Fails (registryError e))
  | Good _ =>
      Ok (mkReplicationServer st (<[symbol := mkProgress position (Unix loggedAt) clock]> (rs_progress rs)), Good tt)
  end.

Definition primaryPosition (symbol : string) (st : State) : result oms_error Z := LastPosition (log_at symbol st).

(** One symbol's lag, at time [clock]. *)
Definition lag_of (clock : Z) (symbol : string) (primaryPos : Z) (prog : option followerProgress) : SymbolLagPB :=
  match prog with
  | None => mkLag symbol primaryPos 0 0 0 false
  | Some prog =>
      let behind := sub64 primaryPos (fp_position prog) in
      mkLag symbol primaryPos (fp_position prog) behind
        (if (0 <? behind) && negb (IsZero (fp_recordedAt prog)) then Milliseconds (Time_Sub clock (fp_recordedAt prog)) else 0)
        true
  end.

(** The loop of [ReplicationStatus], which stops at the first log it cannot read. *)
Fixpoint status_loop (clock : Z) (symbols : list string) (rs : ReplicationServer) : result grpc_code (list SymbolLagPB) :=
  match symbols with
  | [] => Good []
  | symbol :: symbols =>
      match primaryPosition symbol (rs_state rs) with
      | Fails _ => Fails Internal
      | Good pos =>
          lags ← status_loop clock symbols rs;
          Good (lag_of clock symbol pos (rs_progress rs !! symbol) :: lags)
      end
  end.

Definition ReplicationStatus (clock : Z) (rs : ReplicationServer)
    : outcome (ReplicationServer * result grpc_code (list SymbolLagPB)) :=
  '(st, r) ← ListSymbols (rs_state rs);
  let rs := mkReplicationServer st (rs_progress rs) in
  match r with
  | Fails c => Ok (rs, Fails c)
  | Good symbols => Ok (rs, status_loop clock symbols rs)
  end.

(** [SymbolLag], in the shape the metrics collector takes; nil on an error. *)
Definition follower_lag (lag : SymbolLagPB) : FollowerLag :=
  mkFollowerLag (lg_PrimaryPosition lag) (lg_FollowerPosition lag) (lg_FollowerSeen lag) (lg_MillisBehind lag).
Definition SymbolLag (clock : Z) (rs : ReplicationServer) : outcome (ReplicationServer * option (gmap string FollowerLag)) :=
  '(rs, r) ← ReplicationStatus clock rs;
  Ok (rs, match r with
          | Fails _ => None
          | Good lags => Some (foldl (fun m lag => <[lg_Symbol lag := follower_lag lag]> m) ∅ lags)
          end).
End Replication.
