(* ===== verification/ReplicationProps.v ===== *)
(** The properties of a replication stream: what a follower is sent, and the lag
    the primary reports. *)

From Stdlib Require Import ZArith Lia.
From stdpp Require Import base gmap list strings sorting.
From S2P Require Import Prelude Types Book BookProps Accounts AccountsSolv WalRecord Sequencer SeqFacts SeqProps Bytes WalFormat WalRead SegNames Wal WalDir WalInv WalLaw WalStep WalRecover WalProps.
From S2P Require Import Tail TailFacts TailProps VenueProps Registry RegistryFacts RegistryProps Status Messages Replication.

Open Scope Z_scope.

Section Streams.
Context `{CodecLaws}.
Context (after : Z) (Hi : in64 after) (Hlt : after < MaxInt64).

(** The directories later polls see, and what the last of them shows. *)
Definition looks (seen : list Dir) : list (Dir * nat) := (fun d => (d, walBatchCap)) <$> seen.

Lemma watched_out a segs0 obs segs t out : watched segs0 obs segs -> delivered a segs0 t out ->
  out `prefix_of` above a (all_recs segs).
Proof.
  intros Hw Hd. destruct (watched_prefix _ _ _ Hw) as [x Hx]. rewrite Hx, above_app. by apply prefix_app_r, Hd.
Qed.

(** One [Next]: a batch of records and what is left to see, or the end. *)
Lemma Next_delivered ctxErr segs : forall seen segs0 t out, watched segs0 (looks seen) segs -> Forall seg_ok segs0 ->
  delivered after segs0 t out ->
  exists t' seen' r segs1, Next ctxErr seen t walBatchCap = Ok (t', seen', r) /\
    watched segs1 (looks seen') segs /\ Forall seg_ok segs1 /\
    match r with
    | Good recs => recs <> [] /\ (length recs <= walBatchCap)%nat /\ delivered after segs1 t' (out ++ recs)
    | Fails e => e = ctxErr /\ delivered after segs1 t' out
    end.
Proof.
  induction seen as [|d seen IH]; intros segs0 t out Hw Hok Hd; cbn [Next].
  { inversion Hw; subst. eexists _, _, (Fails ctxErr), _. by split_and!. }
  inversion Hw as [|? segs1 ? ? ? ? Hg Hsh Hw1]; subst.
  pose proof (delivered_poll after segs0 segs1 d walBatchCap t out Hi Hlt Hok Hd Hg Hsh) as Hp. cbv zeta in Hp.
  set (recs := take walBatchCap _) in Hp. destruct Hp as (t1 & Hp & Hd1). rewrite Hp. cbn [mbind outcome_bind].
  assert (Hlen : (length recs <= walBatchCap)%nat) by (unfold recs; rewrite length_take; lia).
  destruct recs as [|r recs'] eqn:Er.
  - rewrite app_nil_r in Hd1. apply (IH segs1 t1 out Hw1 (sh_segs _ _ Hsh) Hd1).
  - eexists _, _, (Good _), segs1. split_and!; try done. apply (sh_segs _ _ Hsh).
Qed.

(** What a list of batches carries. *)
Definition sent (batches : list WALBatchPB) : list WALRecordPB := concat (wb_Records <$> batches).

Definition batch_well_formed (b : WALBatchPB) : Prop :=
  (0 < length (wb_Records b) <= walBatchCap)%nat /\ pb_Position <$> last (wb_Records b) = Some (wb_PrimaryLastPosition b).

Lemma recordToPB_position r : pb_Position (recordToPB r) = w_Seq r.
Proof. unfold recordToPB. by destruct (w_Kind r). Qed.

(** A batch of records sent. *)
Lemma batch_ok_wf t out recs segs : recs <> [] -> (length recs <= walBatchCap)%nat -> delivered after segs t (out ++ recs) ->
  batch_well_formed (mkBatchPB (recordToPB <$> recs) (AfterSeq t)).
Proof.
  intros Hne Hlen Hd. split; cbn [wb_Records wb_PrimaryLastPosition].
  - rewrite length_fmap. destruct recs; simpl in *; [done|lia].
  - unfold AfterSeq. rewrite (de_after _ _ _ _ Hd), latest_app. unfold latest at 1.
    rewrite fmap_last, <- option_fmap_compose. destruct (last recs) as [x|] eqn:El; [|by apply last_None in El].
    simpl. by rewrite recordToPB_position.
Qed.

Lemma sent_cons recs p batches more : sent batches = recordToPB <$> more ->
  sent (mkBatchPB (recordToPB <$> recs) p :: batches) = recordToPB <$> (recs ++ more).
Proof. unfold sent. intros Hs. rewrite fmap_cons. cbn [concat wb_Records]. by rewrite Hs, fmap_app. Qed.

Definition context_error (e : oms_error) : Prop := e = ErrCanceled \/ e = ErrDeadlineExceeded.

(** Whatever the log does meanwhile, and whatever sends fail. *)
Lemma stream_loop_spec ctxErr segs : context_error ctxErr -> forall sends seen segs0 t out,
  watched segs0 (looks seen) segs -> Forall seg_ok segs0 -> delivered after segs0 t out ->
  exists t' batches e more, stream_loop ctxErr sends seen t = Ok (t', batches, e) /\
    sent batches = recordToPB <$> more /\ (out ++ more) `prefix_of` above after (all_recs segs) /\
    Forall batch_well_formed batches /\
    (e = Streaming \/ e = Ended None \/ (e = SendFailed /\ false ∈ sends)).
Proof.
  intros Hctx. induction sends as [|ok sends IH]; intros seen segs0 t out Hw Hok Hd; cbn [stream_loop].
  { exists t, [], Streaming, []. rewrite app_nil_r. split_and!; try done; [by eapply watched_out|by left]. }
  destruct (Next_delivered ctxErr segs seen segs0 t out Hw Hok Hd) as (t1 & seen1 & r & segs1 & Hn & Hw1 & Hok1 & Hr).
  rewrite Hn. cbn [mbind outcome_bind]. destruct r as [recs|e].
  - destruct Hr as (Hne & Hlen & Hd1). destruct ok.
    + destruct (IH seen1 segs1 t1 (out ++ recs) Hw1 Hok1 Hd1) as (t' & batches & e & more & Hl & Hsent & Hp & Hwf & He).
      exists t', (mkBatchPB (recordToPB <$> recs) (AfterSeq t1) :: batches), e, (recs ++ more). rewrite Hl.
      split_and!; try done.
      * by apply sent_cons.
      * by rewrite app_assoc.
      * constructor; [by eapply batch_ok_wf|done].
      * destruct He as [->|[->|[-> ?]]]; auto. right. right. split; [done|by right].
    + exists t1, [], SendFailed, []. rewrite app_nil_r. split_and!; try done; [|right; right; split; [done|by left]].
      etransitivity; [|by eapply watched_out]. by exists recs.
  - destruct Hr as [-> Hd1]. exists t1, [], (Ended None), []. rewrite app_nil_r.
    destruct Hctx as [-> | ->]; (split_and!; try done; [by eapply watched_out|by auto]).
Qed.

(** Once everything is delivered, looking again finds nothing. *)
Lemma Next_quiet ctxErr d segs : shows d segs -> forall k t, delivered after segs t (above after (all_recs segs)) ->
  exists t', Next ctxErr (replicate k d) t walBatchCap = Ok (t', [], Fails ctxErr).
Proof.
  intros Hsh. induction k as [|k IH]; intros t Hd; [by eexists|]. cbn [replicate Next].
  pose proof (delivered_poll after segs segs d walBatchCap t _ Hi Hlt (sh_segs _ _ Hsh) Hd (grown_refl segs) Hsh) as Hp.
  cbv zeta in Hp. rewrite drop_all, take_nil, app_nil_r in Hp. destruct Hp as (t1 & -> & Hd1). by apply IH.
Qed.

Lemma taken_rest {A} c (l : list A) : take c l ++ drop (length (take c l)) l = l.
Proof.
  rewrite length_take. destruct (Nat.le_ge_cases c (length l)).
  - by rewrite Nat.min_l, take_drop.
  - by rewrite Nat.min_r, drop_all, app_nil_r, take_ge.
Qed.

(** Over a log nobody appends to any more. *)
Lemma stream_loop_quiet ctxErr d segs : context_error ctxErr -> shows d segs -> forall k m t out,
  (length (above after (all_recs segs)) < length out + k)%nat -> (k <= m)%nat -> delivered after segs t out ->
  exists t' batches, stream_loop ctxErr (replicate m true) (replicate k d) t = Ok (t', batches, Ended None) /\
    sent batches = recordToPB <$> drop (length out) (above after (all_recs segs)).
Proof.
  intros Hctx Hsh. induction k as [|k IH]; intros m t out Hk Hm Hd.
  { destruct (de_prefix _ _ _ _ Hd) as [x Hx]. rewrite Hx, length_app in Hk. lia. }
  destruct m as [|m]; [lia|]. cbn [replicate stream_loop].
  pose proof (delivered_poll after segs segs d walBatchCap t out Hi Hlt (sh_segs _ _ Hsh) Hd (grown_refl segs) Hsh) as Hp.
  cbv zeta in Hp. set (recs := take walBatchCap _) in Hp. destruct Hp as (t1 & Hp & Hd1). cbn [Next]. rewrite Hp.
  cbn [mbind outcome_bind]. destruct recs as [|r recs'] eqn:Er.
  - assert (Hrest : drop (length out) (above after (all_recs segs)) = []).
    { unfold recs in Er. destruct (drop _ _); [done|]. unfold walBatchCap in Er. done. }
    rewrite app_nil_r in Hd1. assert (Hout : out = above after (all_recs segs)).
    { destruct (de_prefix _ _ _ _ Hd) as [x Hx]. rewrite Hx, drop_app_length in Hrest. by rewrite Hx, Hrest, app_nil_r. }
    rewrite Hrest. rewrite Hout in Hd1. destruct (Next_quiet ctxErr d segs Hsh k t1 Hd1) as (t' & ->).
    exists t', []. cbn [mbind outcome_bind]. by destruct Hctx as [-> | ->].
  - cbn [mbind outcome_bind]. assert (Hpos : (0 < length recs)%nat) by (rewrite Er; simpl; lia). cbn [mbind outcome_bind]. rewrite <- Er in Hd1 |- *.
    destruct (IH m t1 (out ++ recs)) as (t' & batches & Hl & Hs).
    + rewrite length_app. lia.
    + lia.
    + done.
    + rewrite Hl. eexists _, _. split; [reflexivity|]. rewrite (sent_cons recs _ _ _ Hs), length_app, <- drop_drop.
      f_equal. apply taken_rest.
Qed.
End Streams.

Section Properties.
Context `{CodecLaws}.

Lemma fresh_delivered after : delivered after [] (NewTailer after) [].
Proof. by split; try done; apply prefix_nil. Qed.

(** A follower is sent the log and nothing else: for a symbol the registry opens,
    however the log grows while it is streamed and whichever send fails, the
    records sent are the ones above the position asked for, in log order, none
    twice and none left out; a batch is never empty nor over 512 records, names
    the position of its last record, and the stream ends only with the follower. *)
Theorem stream_exact now ctxErr symbol after sends seen segs st st' s : context_error ctxErr ->
  0 <= after < MaxInt64 -> watched [] (looks seen) segs ->
  rg_walDir (registry st) <> ""%string -> Get now symbol st = Ok (st', Good s) ->
  exists batches e, StreamWAL now ctxErr symbol after sends seen st = Ok (st', batches, e) /\
    sent batches `prefix_of` recordToPB <$> above after (all_recs segs) /\
    Forall batch_well_formed batches /\
    (e = Streaming \/ e = Ended None \/ (e = SendFailed /\ false ∈ sends)).
Proof.
  intros Hctx Ha Hw Hdir Hg. assert (Hi : in64 after) by (unfold64; lia).
  destruct (stream_loop_spec after Hi ltac:(lia) ctxErr segs Hctx sends seen [] (NewTailer after) [] Hw
    ltac:(constructor) (fresh_delivered after)) as (t & batches & e & more & Hl & Hs & Hp & Hwf & He).
  exists batches, e. unfold StreamWAL. rewrite bool_decide_false by done. rewrite Hg. cbn [mbind outcome_bind].
  rewrite (proj2 (Z.ltb_ge _ _)) by lia. rewrite Hl. split_and!; try done. rewrite Hs.
  destruct Hp as [x Hx]. exists (recordToPB <$> x). by rewrite Hx, fmap_app.
Qed.

(** C30: A follower catches up: over a log that nobody appends to any more, a stream
    from any position whose sends succeed and that looks at the directory more
    often than it holds records sends every record above that position. *)
Theorem stream_catches_up now ctxErr symbol after d segs k m st st' s : context_error ctxErr ->
  0 <= after < MaxInt64 -> shows d segs -> (length (above after (all_recs segs)) < k)%nat -> (k <= m)%nat ->
  rg_walDir (registry st) <> ""%string -> Get now symbol st = Ok (st', Good s) ->
  exists batches, StreamWAL now ctxErr symbol after (replicate m true) (replicate k d) st = Ok (st', batches, Ended None) /\
    sent batches = recordToPB <$> above after (all_recs segs).
Proof.
  intros Hctx Ha Hsh Hk Hm Hdir Hg. assert (Hi : in64 after) by (unfold64; lia).
  assert (Hd : delivered after segs (NewTailer after) []) by (by split; try done; apply prefix_nil).
  destruct (stream_loop_quiet after Hi ltac:(lia) ctxErr d segs Hctx Hsh k m (NewTailer after) []
    ltac:(done) Hm Hd) as (t & batches & Hl & Hs).
  exists batches. unfold StreamWAL. rewrite bool_decide_false by done. rewrite Hg. cbn [mbind outcome_bind].
  rewrite (proj2 (Z.ltb_ge _ _)) by lia. by rewrite Hl.
Qed.
End Properties.

(** The clock of a follower that has just restarted: Go's zero time. *)
Definition restarted_TS : Z := UnixNano zeroTime.

(** The lag the primary reports is the distance between the two positions, and,
    while there is one, the age of the last record the follower said it applied.
    The test for a zero time never holds, so a follower that has restarted and
    applied nothing since, which reports Go's zero time, shows as centuries late. *)
Theorem lag_reported clock symbol primaryPos position loggedAt reportedAt :
  in64 loggedAt -> in64 (primaryPos - position) ->
  let lag := lag_of clock symbol primaryPos (Some (mkProgress position (Unix loggedAt) reportedAt)) in
  IsZero (Unix loggedAt) = false /\
  lg_RecordsBehind lag = primaryPos - position /\
  lg_MillisBehind lag = (if 0 <? primaryPos - position then Milliseconds (Time_Sub clock loggedAt) else 0) /\
  (loggedAt = restarted_TS -> 0 <= clock <= 2400000000000000000 -> position < primaryPos ->
     200 * 365 * 86400 * 1000 <= lg_MillisBehind lag).
Proof.
  intros Hl Hp lag. assert (Hz : IsZero (Unix loggedAt) = false).
  { unfold IsZero, Unix. apply Z.eqb_neq. unfold zeroTime. unfold64. lia. }
  assert (Hb : sub64 primaryPos position = primaryPos - position) by by apply wrap64_id.
  assert (Hm : lg_MillisBehind lag = (if 0 <? primaryPos - position then Milliseconds (Time_Sub clock loggedAt) else 0)).
  { unfold lag, lag_of. cbn [fp_position fp_recordedAt lg_MillisBehind]. rewrite Hz, Hb. by rewrite andb_true_r. }
  split_and!; try done. intros -> Hc Hlt. rewrite Hm, (proj2 (Z.ltb_lt _ _)) by lia.
  assert (E : restarted_TS = -6795364578871345152) by (vm_compute; reflexivity). rewrite E.
  unfold Time_Sub, Milliseconds, MaxInt64, MinInt64.
  rewrite Z.max_r by lia. rewrite Z.min_r by lia. rewrite Z.quot_div_nonneg by lia.
  apply Z.div_le_lower_bound; lia.
Qed.

(** * Witnesses *)

Module ReplicationDemo.
Import RegistryDemo.

Definition log_dir2 : Dir := wr_dir w2.

Lemma q2_running : running q2.
Proof.
  destruct st2_reachable as (Hr & Hs & _). destruct (co_open _ (venue_reachable_consistent _ Hr) _ _ Hs) as (_ & _ & Hat).
  apply Hat.
Qed.

Lemma log_shows : exists segs, shows log_dir2 segs /\ all_recs segs = durable w2.
Proof. destruct st2_reachable as (_ & _ & H1 & H2 & _). exact (running_shows q2 w2 q2_running H1 H2). Qed.

Lemma get_open : Get id "NABIL" st2 = Ok (st2, Good q2).
Proof.
  destruct st2_reachable as (_ & Hs & _). unfold Get, Get_with. cbn [validSymbol]. rewrite Hs. by vm_compute (validSymbol _).
Qed.
End ReplicationDemo.
Import ReplicationDemo RegistryDemo.

Lemma stream_exact_witness : exists segs batches e, shows log_dir2 segs /\
  StreamWAL id ErrCanceled "NABIL" 0 [true; true] [log_dir2; log_dir2] st2 = Ok (st2, batches, e) /\
  sent batches `prefix_of` recordToPB <$> above 0 (all_recs segs).
Proof.
  destruct log_shows as (segs & Hsh & _).
  destruct (stream_exact id ErrCanceled "NABIL" 0 [true; true] [log_dir2; log_dir2] segs st2 st2 q2 (or_introl eq_refl)
    ltac:(vm_compute; split; [discriminate|reflexivity])
    (watched_poll _ segs segs _ _ _ (or_introl eq_refl) Hsh (watched_poll _ segs segs _ _ _ (grown_refl segs) Hsh (watched_done segs)))
    ltac:(vm_compute; discriminate) get_open) as (batches & e & H1 & H2 & _).
  exists segs, batches, e. exact (conj Hsh (conj H1 H2)).
Defined.

Lemma stream_catches_up_witness : exists segs batches, shows log_dir2 segs /\
  StreamWAL id ErrCanceled "NABIL" 0 (replicate (S (length (above 0 (all_recs segs)))) true)
    (replicate (S (length (above 0 (all_recs segs)))) log_dir2) st2 = Ok (st2, batches, Ended None) /\
  sent batches = recordToPB <$> above 0 (all_recs segs).
Proof.
  destruct log_shows as (segs & Hsh & _).
  destruct (stream_catches_up id ErrCanceled "NABIL" 0 log_dir2 segs (S (length (above 0 (all_recs segs))))
    (S (length (above 0 (all_recs segs)))) st2 st2 q2 (or_introl eq_refl)
    ltac:(vm_compute; split; [discriminate|reflexivity]) Hsh (Nat.lt_succ_diag_r _) (Nat.le_refl _)
    ltac:(vm_compute; discriminate) get_open) as (batches & H1 & H2).
  exists segs, batches. exact (conj Hsh (conj H1 H2)).
Defined.

Lemma lag_reported_witness :
  lg_MillisBehind (lag_of 1700000000000000000 "NABIL" 9 (Some (mkProgress 4 (Unix 1699999999000000000) 0))) = 1000.
Proof.
  destruct (lag_reported 1700000000000000000 "NABIL" 9 4 1699999999000000000 0
    ltac:(split; vm_compute; discriminate) ltac:(split; vm_compute; discriminate)) as (_ & _ & H & _).
  rewrite H. reflexivity.
Defined.
