(* ===== verification/Replica.v ===== *)
(** The follower, from [src/internal/replica/replica.go]: it streams a primary's
    log into its own log and its own books, under the primary's positions.

    [apply] and what surrounds it need only a log writer, so they are written
    against [WalOps]; [openSymbol] recovers a directory and opens its writer. Each
    symbol has one goroutine feeding it, under its own lock, so a call of [apply]
    is one step. *)

From Stdlib Require Import ZArith Lia.
From stdpp Require Import base gmap list strings.
From S2P Require Import Prelude Types Book WalRecord Bytes WalFormat SegNames Wal Status Messages.

Open Scope Z_scope.

(** [symbolState], without its lock. *)
Record symbolState (W : Type) := mkSymbolState {
  st_book : Book;
  st_wal : W;
  st_position : Z;
  st_positionTS : Z
}.
Arguments mkSymbolState {W}.
Arguments st_book {W}.
Arguments st_wal {W}.
Arguments st_position {W}.
Arguments st_positionTS {W}.

Section Apply.
Context {W : Type} `{!WalOps W}.
Context (now : Z -> Z).

Definition set_wal (w : W) (st : symbolState W) : symbolState W :=
  mkSymbolState (st_book st) w (st_position st) (st_positionTS st).

(** The append loop, which returns at the first failure. *)
Fixpoint append_all (recs : list WalRecord) (w : W) : W * option oms_error :=
  match recs with
  | [] => (w, None)
  | rec :: recs =>
      match wal_Append rec w with
      | (w, Some e) => (w, Some e)
      | (w, None) => append_all recs w
      end
  end.

(** The loop over the book, once the batch is durable. *)
Fixpoint apply_all (recs : list WalRecord) (st : symbolState W) : outcome (symbolState W) :=
  match recs with
  | [] => Ok st
  | rec :: recs =>
      b ← Apply now rec (st_book st);
      apply_all recs (mkSymbolState b (st_wal st) (w_Seq rec) (w_TS rec))
  end.

Definition fresh_records (position : Z) (records : list WalRecord) : list WalRecord :=
  filter (fun rec => position < w_Seq rec) records.

(** [symbolState.apply]. *)
Definition apply (records : list WalRecord) (st : symbolState W) : outcome (symbolState W * option oms_error) :=
  let fresh := fresh_records (st_position st) records in
  match fresh with
  | [] => Ok (st, None)
  | _ =>
      match append_all fresh (st_wal st) with
      | (w, Some e) => Ok (set_wal w st, Some e)
      | (w, None) =>
          match wal_Sync w with
          | (w, Some e) => Ok (set_wal w st, Some e)
          | (w, None) => st ← apply_all fresh (set_wal w st); Ok (st, None)
          end
      end
  end.

(** Decoding one message's records. *)
Fixpoint decode_all (msgs : list WALRecordPB) : Prelude.result wire_error (list WalRecord) :=
  match msgs with
  | [] => Good []
  | m :: msgs => rec ← RecordFromPB m; recs ← decode_all msgs; Good (rec :: recs)
  end.

(** Why a session ended: a record that does not decode, a log that does not take
    the batch, or the stream's own status. *)
Inductive session_end := DecodeError (e : wire_error) | ApplyError (e : oms_error) | StreamError (status : option grpc_code).

(** [streamOnce]: the batches received until the stream ends with [last]. *)
Fixpoint streamOnce (batches : list (list WALRecordPB)) (last : option grpc_code) (st : symbolState W)
    : outcome (symbolState W * session_end) :=
  match batches with
  | [] => Ok (st, StreamError last)
  | batch :: batches =>
      match decode_all batch with
      | Fails e => Ok (st, DecodeError e)
      | Good records =>
          '(st, e) ← apply records st;
          match e with
          | Some e => Ok (st, ApplyError e)
          | None => streamOnce batches last st
          end
      end
  end.

(** [currentPosition] is what a session asks the primary for. *)
Definition currentPosition (st : symbolState W) : Z := st_position st.

(** [followSymbol]'s loop: sessions follow one another, each of them what the
    primary sends for the position asked, until a damaged log or the context
    stops it. *)
Fixpoint followSymbol (sessions : list (Z -> list (list WALRecordPB) * option grpc_code)) (st : symbolState W)
    : outcome (symbolState W) :=
  match sessions with
  | [] => Ok st
  | session :: sessions =>
      let '(batches, last) := session (currentPosition st) in
      '(st, e) ← streamOnce batches last st;
      match e with
      | StreamError (Some DataLoss) => Ok st
      | _ => followSymbol sessions st
      end
  end.

(** [currentProgress], as [reportProgress] sends it. *)
Definition currentProgress (st : symbolState W) : Z * Z := (st_position st, UnixNano (st_positionTS st)).
End Apply.

(** [Replica]: the symbols it follows, and the directories under its own root. *)
Record Replica := mkReplica {
  rp_symbols : gmap string (symbolState Writer);
  rp_disk : gmap string Dir
}.

Definition New (disk : gmap string Dir) : Replica := mkReplica ∅ disk.
Definition replica_dir (symbol : string) (r : Replica) : Dir := default (mkDir ∅ []) (rp_disk r !! symbol).

(** [openSymbol]; Go's zero time is the position's time until a record is applied. *)
Definition openSymbol `{PayloadCodec} (now : Z -> Z) (symbol : string) (r : Replica)
    : outcome (Replica * Prelude.result oms_error (symbolState Writer)) :=
  match rp_symbols r !! symbol with
  | Some st => Ok (r, Good st)
  | None =>
      '(book, position, e) ← Recover now (replica_dir symbol r) NewBook 0;
      match e with
      | Some e => Ok (r, Fails e)
      | None =>
          match OpenWriter (replica_dir symbol r) with
          | (d, Fails e) => Ok (mkReplica (rp_symbols r) (<[symbol := d]> (rp_disk r)), Fails e)
          | (d, Good w) =>
              let st := mkSymbolState book w position zeroTime in
              Ok (mkReplica (<[symbol := st]> (rp_symbols r)) (<[symbol := d]> (rp_disk r)), Good st)
          end
      end
  end.

(** [Snapshot], [Position], [RestingCount] and [Symbols]. *)
Definition replica_Snapshot (symbol : string) (r : Replica)
    : outcome (option (list depthLevel * list depthLevel)) :=
  match rp_symbols r !! symbol with
  | None => Ok None
  | Some st => s ← Snapshot (st_book st); Ok (Some s)
  end.
Definition replica_Position (symbol : string) (r : Replica) : Z :=
  match rp_symbols r !! symbol with Some st => st_position st | None => 0 end.
Definition replica_RestingCount (symbol : string) (r : Replica) : nat :=
  match rp_symbols r !! symbol with Some st => RestingCount (st_book st) | None => 0%nat end.
Definition replica_Symbols (r : Replica) : list string := (map_to_list (rp_symbols r)).*1.

(** [Close]: every log is synced and closed, and every failure kept. *)
Fixpoint close_logs (open : list (string * symbolState Writer)) (dk : gmap string Dir)
    : outcome (gmap string Dir * list (string * oms_error)) :=
  match open with
  | [] => Ok (dk, [])
  | (symbol, st) :: open =>
      '(w, e) ← Close (st_wal st);
      '(dk, errs) ← close_logs open (<[symbol := wr_dir w]> dk);
      Ok (dk, match e with Some e => (symbol, e) :: errs | None => errs end)
  end.
Definition replica_Close (r : Replica) : outcome (Replica * list (string * oms_error)) :=
  '(dk, errs) ← close_logs (map_to_list (rp_symbols r)) (rp_disk r);
  Ok (mkReplica ∅ dk, errs).

(** * Discovery *)

(** The loop of [Run] over one answer of [discover]: what runs, and what is started. *)
Fixpoint start_streams (listed : list string) (running : gset string) : gset string * list string :=
  match listed with
  | [] => (running, [])
  | symbol :: listed =>
      if decide (symbol ∈ running) then start_streams listed running
      else let '(running, started) := start_streams listed ({[symbol]} ∪ running) in
           (running, symbol :: started)
  end.

(** [Run]: one answer per refresh, [None] when the primary could not be asked. *)
Fixpoint replica_Run (answers : list (option (list string))) (running : gset string) : gset string * list string :=
  match answers with
  | [] => (running, [])
  | answer :: answers =>
      let '(running, started) := start_streams (default [] answer) running in
      let '(running, later) := replica_Run answers running in
      (running, started ++ later)
  end.
