(* ===== verification/ReplicaFacts.v ===== *)
(** What one batch does to a follower.

    [mirrors P st]: the follower holds the wire image of the first records of the
    primary's log [P], all of them durable, and its book is what they replay to. *)

From Stdlib Require Import ZArith Lia.
From stdpp Require Import base gmap list strings.
From S2P Require Import Prelude Types Book WalRecord Status Messages BookTime Replica.

Open Scope Z_scope.

(** A log whose positions count from 1. *)
Definition numbered (P : list WalRecord) : Prop := forall i r, P !! i = Some r -> w_Seq r = Z.of_nat i + 1.

Lemma on_wire_seq r : w_Seq (on_wire r) = w_Seq r.
Proof. unfold on_wire. by destruct (w_Kind r). Qed.

(** The part of a resent piece of the log that is new to the follower. *)
Lemma fresh_piece P j k n : numbered P -> (j <= n)%nat ->
  fresh_records (Z.of_nat n) (on_wire <$> take k (drop j P)) = on_wire <$> take (j + k - n) (drop n P).
Proof.
  intros HP Hj. unfold fresh_records.
  assert (Hlow : forall m, (j + m <= n)%nat -> filter (fun r => Z.of_nat n < w_Seq r) (on_wire <$> take m (drop j P)) = []).
  { intros m Hm. apply filter_drop, Forall_fmap, Forall_forall. intros r Hr. simpl. rewrite on_wire_seq.
    apply list_elem_of_lookup in Hr as [i Hi]. apply lookup_take_Some in Hi as [Hi Him]. rewrite lookup_drop in Hi.
    apply HP in Hi. lia. }
  destruct (Nat.le_gt_cases (j + k) n) as [Hle|Hgt].
  - rewrite Hlow by done. replace (j + k - n)%nat with O by lia. done.
  - rewrite <- (take_drop (n - j) (take k (drop j P))), take_take, Nat.min_l by lia.
    rewrite fmap_app, filter_app, Hlow by lia. cbn [app].
    rewrite skipn_firstn_comm, drop_drop. replace (j + (n - j))%nat with n by lia.
    replace (k - (n - j))%nat with (j + k - n)%nat by lia. apply filter_keep, Forall_fmap, Forall_forall.
    intros r Hr. simpl. rewrite on_wire_seq. apply list_elem_of_lookup in Hr as [i Hi].
    apply lookup_take_Some in Hi as [Hi _]. rewrite lookup_drop in Hi. apply HP in Hi. lia.
Qed.

Lemma decode_sent recs : Forall sendable recs -> decode_all (recordToPB <$> recs) = Good (on_wire <$> recs).
Proof.
  induction 1 as [|r recs Hr _ IH]; [done|]. rewrite !fmap_cons. cbn [decode_all].
  by rewrite wire_read, decide_True, IH by done.
Qed.

Lemma replay_prefix now l k b b1 : replay now (l ++ k) b = Ok b1 -> exists b0, replay now l b = Ok b0 /\ replay now k b0 = Ok b1.
Proof. rewrite replay_app. destruct (replay now l b) as [b0| |]; try done. by exists b0. Qed.

Section Follower.
Context {W : Type} `{WalLaws W}.

Lemma append_all_spec recs : forall w w' e, healthy w -> Forall carries recs ->
  (forall i r, recs !! i = Some r -> w_Seq r = wal_LastSeq w + Z.of_nat i + 1) -> append_all recs w = (w', e) ->
  durable w `prefix_of` durable w' /\
  (e = None -> healthy w' /\ wal_LastSeq w' = wal_LastSeq w + Z.of_nat (length recs) /\
     durable w' ++ buffered w' = durable w ++ buffered w ++ recs).
Proof.
  induction recs as [|r recs IH]; intros w w' e Hh Hc Hq; simpl.
  { intros [= <- <-]. split; [done|]. intros _. rewrite app_nil_r, Z.add_0_r. done. }
  apply Forall_cons in Hc as [Hr Hc]. assert (Hs : w_Seq r = wal_LastSeq w + 1) by (rewrite (Hq O r eq_refl); lia).
  destruct (wal_Append r w) as [w1 [e1|]] eqn:Ea.
  - intros [= <- <-]. split; [by eapply Append_grows|done].
  - intros Hrest. destruct (Append_adds r w w1 Hh Hr Hs Ea) as (Hh1 & Hl1 & Hd1).
    pose proof (Append_grows r w w1 None Hh Hr Hs Ea) as Hg1.
    destruct (IH w1 w' e Hh1 Hc) as [Hg Hok]; [|done|].
    { intros i x Hi. rewrite (Hq (S i) x Hi), Hl1, Hs. lia. }
    split; [by etransitivity|]. intros He. destruct (Hok He) as (Hh' & Hl' & Hd').
    split_and!; [done|rewrite Hl', Hl1, Hs; lia|]. rewrite Hd', app_assoc, Hd1. by rewrite <- !app_assoc.
Qed.

(** Applying a batch to the book is replaying it. *)
Lemma apply_all_replay now recs : forall (st : symbolState W) b, replay now recs (st_book st) = Ok b ->
  apply_all now recs st = Ok (mkSymbolState b (st_wal st)
    (default (st_position st) (w_Seq <$> last recs)) (default (st_positionTS st) (w_TS <$> last recs))).
Proof.
  induction recs as [|r recs IH]; intros st b; simpl; [intros [= <-]; by destruct st|].
  destruct (Apply now r (st_book st)) as [b1| |]; simpl; try done. intros Hb. rewrite (IH _ b) by done.
  rewrite last_cons. cbn [st_wal st_position st_positionTS]. by destruct (last recs).
Qed.

Record mirrors (P : list WalRecord) (st : symbolState W) : Prop := {
  mi_count : exists n, st_position st = Z.of_nat n /\ (n <= length P)%nat /\ durable (st_wal st) = on_wire <$> take n P;
  mi_buffered : buffered (st_wal st) = [];
  mi_healthy : healthy (st_wal st);
  mi_last : wal_LastSeq (st_wal st) = st_position st;
  mi_book : replay id (durable (st_wal st)) NewBook = Ok (st_book st)
}.

(** A log that can be shipped: numbered, every record with a wire form the
    follower's log can carry, and replayable. *)
Record shippable (P : list WalRecord) : Prop := {
  sp_numbered : numbered P;
  sp_sendable : Forall sendable P;
  sp_carried : Forall (fun r => carries (on_wire r)) P;
  sp_replays : exists b, replay id P NewBook = Ok b
}.

(** What any piece of a shippable log, new or resent, does to a follower. *)
Lemma apply_spec now P st n j k : shippable P -> mirrors P st -> st_position st = Z.of_nat n -> (j <= n)%nat ->
  (j + k <= length P)%nat ->
  exists st' e, apply now (on_wire <$> take k (drop j P)) st = Ok (st', e) /\
    durable (st_wal st) `prefix_of` durable (st_wal st') /\
    match e with
    | None => mirrors P st' /\ st_position st' = Z.max (Z.of_nat n) (Z.of_nat (j + k)) /\
        ((j + k <= n)%nat -> st' = st)
    | Some _ => st_book st' = st_book st /\ st_position st' = st_position st /\ st_positionTS st' = st_positionTS st
    end.
Proof.
  intros [HP Hsend Hcar [bP HbP]] Hm Hn Hj Hk. pose proof Hm as [(n' & Hn' & Hle & Hdur) Hbuf Hh Hls Hbook].
  assert (n' = n) as -> by lia. unfold apply. rewrite Hn, (fresh_piece P j k n HP Hj).
  set (new := take (j + k - n) (drop n P)). destruct (Nat.le_gt_cases (j + k) n) as [Hold|Hgt].
  { unfold new. replace (j + k - n)%nat with O by lia. cbn [take fmap list_fmap]. exists st, None.
    split_and!; try done. lia. }
  assert (Hlen : length new = (j + k - n)%nat) by (unfold new; rewrite length_take, length_drop; lia).
  assert (Htake : take (j + k) P = take n P ++ new).
  { unfold new. rewrite <- (take_drop n P) at 1. rewrite take_app, length_take, Nat.min_l by lia.
    f_equal. apply take_ge. rewrite length_take. lia. }
  assert (Hseq : forall i r, (on_wire <$> new) !! i = Some r -> w_Seq r = wal_LastSeq (st_wal st) + Z.of_nat i + 1).
  { intros i r Hi. rewrite list_lookup_fmap in Hi. destruct (new !! i) as [x|] eqn:Ex; [|done]. injection Hi as <-.
    unfold new in Ex. apply lookup_take_Some in Ex as [Ex _]. rewrite lookup_drop in Ex. apply HP in Ex.
    rewrite on_wire_seq, Ex, Hls, Hn. lia. }
  assert (Hca : Forall carries (on_wire <$> new)) by (apply Forall_fmap; unfold new; by apply Forall_take, Forall_drop).
  destruct (on_wire <$> new) as [|x0 rest0] eqn:Efresh; [apply (f_equal length) in Efresh; rewrite length_fmap, Hlen in Efresh; simpl in Efresh; lia|].
  rewrite <- Efresh in *. clear x0 rest0 Efresh.
  destruct (append_all (on_wire <$> new) (st_wal st)) as [w1 e1] eqn:Ea.
  destruct (append_all_spec _ _ _ _ Hh Hca Hseq Ea) as [Hg1 Hok1].
  destruct e1 as [e1|]; [exists (set_wal w1 st), (Some e1); by split_and!|].
  destruct (Hok1 eq_refl) as (Hh1 & Hl1 & Hd1). rewrite Hbuf in Hd1. cbn [app] in Hd1.
  destruct (wal_Sync w1) as [w2 e2] eqn:Es. pose proof (Sync_grows w1 w2 e2 Hh1 Es) as Hg2.
  destruct e2 as [e2|]; [exists (set_wal w2 st), (Some e2); split_and!; try done; simpl; by etransitivity|].
  destruct (Sync_flushes w1 w2 Hh1 Es) as (Hh2 & Hl2 & Hd2 & Hb2).
  assert (Hdur2 : durable w2 = on_wire <$> take (j + k) P) by (rewrite Hd2, Hd1, Hdur, Htake, fmap_app; done).
  assert (Hrep : exists b, replay id (durable w2) NewBook = Ok b).
  { rewrite <- (take_drop (j + k) P) in HbP. apply replay_prefix in HbP as (b0 & Hb0 & _).
    destruct (replay_same id (take (j + k) P) (on_wire <$> take (j + k) P)) with (b := NewBook) (b' := NewBook) (b1 := b0)
      as (b1 & Hb1 & _); try done; [apply on_wire_same_list|by exists b1; rewrite Hdur2]. }
  destruct Hrep as [b Hb]. pose proof Hb as Hb'. rewrite Hdur2, Htake, fmap_app, <- Hdur, replay_app, Hbook in Hb'.
  cbn [mbind outcome_bind] in Hb'. rewrite (replay_clock id now) in Hb'.
  rewrite (apply_all_replay now _ (set_wal w2 st) b Hb'). cbn [mbind outcome_bind].
  assert (Hlast : default (st_position (set_wal w2 st)) (w_Seq <$> last (on_wire <$> new)) = Z.of_nat (j + k)).
  { destruct (last (on_wire <$> new)) as [x|] eqn:El.
    - rewrite last_lookup in El. apply Hseq in El. rewrite length_fmap, Hlen in El. simpl. rewrite El, Hls, Hn. lia.
    - apply last_None in El. apply (f_equal length) in El. rewrite length_fmap, Hlen in El. simpl in El. lia. }
  rewrite Hlast. eexists _, None. split; [reflexivity|]. cbn [st_wal st_position set_wal]. split_and!.
  - by etransitivity.
  - split; cbn [st_wal st_position st_book]; try done; [by exists (j + k)%nat|].
    rewrite Hl2, Hl1, length_fmap, Hlen, Hls, Hn. lia.
  - lia.
  - lia.
Qed.
End Follower.

(** * One stream per symbol *)

Definition newly_started (before after : gset string) (started : list string) (listed : gset string) : Prop :=
  NoDup started /\ after = before ∪ listed /\ forall s, s ∈ started <-> s ∈ listed /\ s ∉ before.

Lemma newly_started_trans a b c l1 l2 s1 s2 : newly_started a b s1 l1 -> newly_started b c s2 l2 ->
  newly_started a c (s1 ++ s2) (l1 ∪ l2).
Proof.
  intros (Hn1 & -> & H1) (Hn2 & -> & H2). split_and!; [|set_solver|].
  - apply NoDup_app. split_and!; [done| |done]. intros s Hs1 Hs2. apply H1 in Hs1. apply H2 in Hs2. set_solver.
  - intros s. rewrite elem_of_app, H1, H2. destruct (decide (s ∈ a)), (decide (s ∈ l1)); set_solver.
Qed.

Lemma start_streams_spec listed : forall running,
  newly_started running (start_streams listed running).1 (start_streams listed running).2 (list_to_set listed).
Proof.
  induction listed as [|s listed IH]; intros running; cbn [start_streams].
  { split_and!; [apply NoDup_nil_2|set_solver|]. intros s. simpl. rewrite elem_of_nil. set_solver. }
  case_decide as Hin.
  - destruct (IH running) as (H1 & H2 & H3). split_and!; [done|rewrite H2; set_solver|]. intros s'. rewrite H3. set_solver.
  - specialize (IH ({[s]} ∪ running)). destruct (start_streams listed _) as [r st]. cbn [fst snd] in *.
    change (s :: st) with ([s] ++ st). change (list_to_set (s :: listed) : gset string) with ({[s]} ∪ list_to_set listed : gset string).
    refine (newly_started_trans _ _ _ _ _ [s] st _ IH). split_and!; [apply NoDup_singleton|set_solver|].
    intros s'. rewrite list_elem_of_singleton. set_solver.
Qed.

(** Over any number of refreshes, a stream is started exactly once for each symbol
    that was ever listed. *)
Lemma replica_Run_once answers : forall running,
  newly_started running (replica_Run answers running).1 (replica_Run answers running).2
    (list_to_set (concat (default [] <$> answers))).
Proof.
  induction answers as [|a answers IH]; intros running; cbn [replica_Run].
  { split_and!; [apply NoDup_nil_2|set_solver|]. intros s. simpl. rewrite elem_of_nil. set_solver. }
  pose proof (start_streams_spec (default [] a) running) as H1. destruct (start_streams _ _) as [r1 s1]. cbn [fst snd] in *.
  specialize (IH r1). destruct (replica_Run answers r1) as [r2 s2]. cbn [fst snd] in *.
  rewrite fmap_cons. cbn [concat]. rewrite list_to_set_app_L. by apply (newly_started_trans _ r1).
Qed.
