(* ===== verification/ReplicaProps.v ===== *)
(** The properties of the follower: it mirrors the primary's log, its book shows
    what the primary's does, and a restart resumes where it was. *)

From Stdlib Require Import ZArith Lia.
From stdpp Require Import base gmap list strings sorting.
From S2P Require Import Prelude Types Book BookProps Accounts WalRecord Sequencer SeqFacts SeqProps.
From S2P Require Import Bytes WalFormat WalRead SegNames Wal WalDir WalInv WalLaw WalStep WalRecover WalProps.
From S2P Require Import Tail TailFacts TailProps VenueProps Registry RegistryFacts RegistryProps Status Messages BookTime.
From S2P Require Import Replication ReplicationProps Replica ReplicaFacts.

Open Scope Z_scope.

Section Sessions.
Context {W : Type} `{WalLaws W}.

(** What holds of a follower even when its own log has failed: nothing is in the
    book that is not in its durable log. *)
Definition write_ahead (P : list WalRecord) (st : symbolState W) : Prop :=
  exists m, st_position st = Z.of_nat m /\ (m <= length P)%nat /\
    (on_wire <$> take m P) `prefix_of` durable (st_wal st) /\
    replay id (on_wire <$> take m P) NewBook = Ok (st_book st).

Lemma mirrors_write_ahead P st : mirrors P st -> write_ahead P st.
Proof.
  intros [(n & Hn & Hle & Hd) _ _ _ Hb]. exists n. rewrite Hd in Hb. split_and!; try done. by rewrite Hd.
Qed.

(** A message is the wire image of the next records. *)
Lemma message_piece (P : list WalRecord) n msgs rest : (msgs ++ rest) `prefix_of` recordToPB <$> drop n P ->
  msgs = recordToPB <$> take (length msgs) (drop n P) /\
  rest `prefix_of` recordToPB <$> drop (n + length msgs) P /\ (length msgs <= length (drop n P))%nat.
Proof.
  intros [x Hx]. rewrite <- app_assoc in Hx.
  assert (Hlen : (length msgs <= length (drop n P))%nat)
    by (apply (f_equal length) in Hx; rewrite length_fmap, length_app in Hx; lia).
  assert (Hm : msgs = take (length msgs) (recordToPB <$> drop n P)) by (by rewrite Hx, take_app_length).
  split_and!; [by rewrite fmap_take|exists x|done].
  rewrite <- drop_drop. assert (Hd : rest ++ x = drop (length msgs) (recordToPB <$> drop n P)) by (by rewrite Hx, drop_app_length).
  by rewrite Hd, fmap_drop.
Qed.

(** A whole session: the records above the follower's position, batch by batch. *)
Lemma session_spec now P last batches : shippable P -> forall n st, mirrors P st -> st_position st = Z.of_nat n ->
  concat batches `prefix_of` recordToPB <$> drop n P ->
  exists st' e, streamOnce now batches last st = Ok (st', e) /\
    durable (st_wal st) `prefix_of` durable (st_wal st') /\
    match e with
    | StreamError l => l = last /\ mirrors P st' /\ st_position st' = Z.of_nat (n + length (concat batches))
    | ApplyError _ => write_ahead P st' /\ st_position st <= st_position st'
    | DecodeError _ => False
    end.
Proof.
  intros HP. induction batches as [|msgs batches IH]; intros n st Hm Hn Hpre; cbn [streamOnce].
  { exists st, (StreamError last). simpl. rewrite Nat.add_0_r. by split_and!. }
  cbn [concat] in Hpre |- *. apply message_piece in Hpre as (Hmsgs & Hrest & Hlen). rewrite length_drop in Hlen.
  assert (Hns : (n <= length P)%nat) by (destruct (mi_count _ _ Hm) as (n' & Hn' & ? & _); lia).
  assert (Hdec : decode_all msgs = Good (on_wire <$> take (length msgs) (drop n P))).
  { rewrite Hmsgs at 1. by rewrite decode_sent by (apply Forall_take, Forall_drop, HP). }
  rewrite Hdec.
  destruct (apply_spec now P st n n (length msgs) HP Hm Hn ltac:(lia) ltac:(lia)) as (st1 & e & -> & Hd1 & He).
  cbn [mbind outcome_bind]. destruct e as [e|].
  - destruct He as (Hb & Hp & _). exists st1, (ApplyError e). split_and!; try done; [|lia].
    destruct (mirrors_write_ahead P st Hm) as (m & H1 & H2 & H3 & H4). exists m.
    split_and!; [by rewrite Hp|done|by etransitivity|by rewrite Hb].
  - destruct He as (Hm1 & Hp1 & _).
    destruct (IH (n + length msgs)%nat st1 Hm1 ltac:(lia) Hrest) as (st2 & e2 & Hs & Hd2 & He2).
    exists st2, e2. rewrite Hs. split_and!; [done|by etransitivity|]. destruct e2 as [| |l]; try done.
    + destruct He2 as [? ?]. split; [done|]. rewrite Hn. lia.
    + destruct He2 as (-> & Hm2 & Hp2). split_and!; try done. rewrite Hp2, length_app. lia.
Qed.

(** A follower that has everything shows what the primary shows. *)
Lemma mirrors_all P st b : mirrors P st -> st_position st = Z.of_nat (length P) -> replay id P NewBook = Ok b ->
  same_book (st_book st) b.
Proof.
  intros [(n & Hn & Hle & Hd) _ _ _ Hb] Hp Hr. assert (n = length P) as -> by lia. rewrite firstn_all in Hd. rewrite Hd in Hb.
  destruct (replay_same id P (on_wire <$> P) (on_wire_same_list P) NewBook NewBook b ltac:(done) Hr) as (b' & Hb' & Hs).
  rewrite Hb in Hb'. injection Hb' as <-. by symmetry.
Qed.

(** Everything above a position of a numbered log is what comes after it. *)
Lemma above_numbered P n : numbered P -> above (Z.of_nat n) P = drop n P.
Proof.
  intros HP. rewrite <- (take_drop n P) at 1. rewrite above_app, above_none, above_all; [done| |].
  - apply Forall_forall. intros r Hr. apply list_elem_of_lookup in Hr as [i Hi]. rewrite lookup_drop in Hi. apply HP in Hi. lia.
  - apply Forall_forall. intros r Hr. apply list_elem_of_lookup in Hr as [i Hi].
    apply lookup_take_Some in Hi as [Hi Hlt]. apply HP in Hi. lia.
Qed.

Lemma max_seq_numbered (l : list WalRecord) : numbered l -> max_seq l = Z.of_nat (length l).
Proof.
  induction l as [|r l IH] using rev_ind; intros Hl; [done|].
  assert (Hl' : numbered l) by (intros i x Hi; apply Hl; by apply lookup_app_l_Some).
  unfold max_seq in *. rewrite foldl_app, (IH Hl'). cbn [foldl].
  rewrite (Hl (length l) r) by (by rewrite lookup_app_r, Nat.sub_diag). rewrite length_app. simpl. lia.
Qed.

Lemma numbered_wire P n : numbered P -> numbered (on_wire <$> take n P).
Proof.
  intros HP i r Hi. rewrite list_lookup_fmap in Hi. destruct (take n P !! i) as [x|] eqn:Ex; [|done]. injection Hi as <-.
  apply lookup_take_Some in Ex as [Ex _]. rewrite on_wire_seq. by apply HP.
Qed.

(** A follower is write-ahead and idempotent: given any piece of the primary's
    log that overlaps or continues what it has, new or resent, it returns; it
    never loses a durable record; if its log takes the batch it mirrors the primary
    up to the last position received, and what it already had changes nothing;
    if not, its book and its position are as they were. *)
Theorem apply_idempotent now P st n j k : shippable P -> mirrors P st -> st_position st = Z.of_nat n ->
  (j <= n)%nat -> (j + k <= length P)%nat ->
  exists st' e, apply now (on_wire <$> take k (drop j P)) st = Ok (st', e) /\ write_ahead P st' /\
    durable (st_wal st) `prefix_of` durable (st_wal st') /\
    match e with
    | None => mirrors P st' /\ st_position st' = Z.max (Z.of_nat n) (Z.of_nat (j + k)) /\ ((j + k <= n)%nat -> st' = st)
    | Some _ => st_book st' = st_book st /\ st_position st' = st_position st
    end.
Proof.
  intros HP Hm Hn Hj Hk. destruct (apply_spec now P st n j k HP Hm Hn Hj Hk) as (st' & e & Ha & Hd & He).
  exists st', e. split; [done|]. split; [|split; [done|destruct e; [by destruct He as (? & ? & _)|done]]].
  destruct e as [e|]; [|apply mirrors_write_ahead, He].
  destruct He as (Hb & Hp & _), (mirrors_write_ahead P st Hm) as (m & H1 & H2 & H3 & H4). exists m.
  split_and!; [by rewrite Hp|done|by etransitivity|by rewrite Hb].
Qed.
End Sessions.

Section Convergence.
Context `{CodecLaws} {W : Type} {ops : WalOps W} {laws : WalLaws W}.

(** C10: Replication converges: once the primary's log is quiet, one session of a
    follower at any position, over whatever log writer it has, either ends with
    its own log refusing a batch, or brings it to the primary's last position with
    a book that differs from the primary's in no more than time stamps and shows
    the very same depth. *)
Theorem follower_converges now (s : Sequencer Writer) w (f : symbolState W) ctxErr symbol st st' q k m last :
  running s -> sq_wal s = Some w -> sq_walErr s = None -> shippable (W := W) (durable w) -> mirrors (durable w) f ->
  Z.of_nat (length (durable w)) < MaxInt64 -> context_error ctxErr ->
  rg_walDir (registry st) <> ""%string -> Get now symbol st = Ok (st', Good q) ->
  (length (durable w) < k)%nat -> (k <= m)%nat ->
  exists batches, StreamWAL now ctxErr symbol (currentPosition f) (replicate m true) (replicate k (wr_dir w)) st
      = Ok (st', batches, Ended None) /\
    exists f' e, streamOnce now (wb_Records <$> batches) last f = Ok (f', e) /\
      match e with
      | StreamError l => l = last /\ mirrors (durable w) f' /\ st_position f' = Z.of_nat (length (durable w)) /\
          same_book (st_book f') (sq_book s) /\ Snapshot (st_book f') = Snapshot (sq_book s)
      | ApplyError _ => write_ahead (durable w) f'
      | DecodeError _ => False
      end.
Proof.
  intros Hrun Hwal Herr HP Hf Hmax Hctx Hdir Hg Hk Hm.
  destruct (running_shows s w Hrun Hwal Herr) as (segs & Hsh & Hrecs).
  destruct (mi_count _ _ Hf) as (n & Hn & Hle & _).
  assert (Hab : above (Z.of_nat n) (all_recs segs) = drop n (durable w)) by (rewrite Hrecs; apply above_numbered, HP).
  assert (Hlen : (length (above (currentPosition f) (all_recs segs)) < k)%nat)
    by (unfold currentPosition; rewrite Hn, Hab, length_drop; lia).
  assert (Hi : 0 <= currentPosition f < MaxInt64) by (unfold currentPosition; lia).
  assert (Hi64 : in64 (currentPosition f)) by (unfold64; lia).
  destruct (stream_loop_quiet (currentPosition f) Hi64 ltac:(lia) ctxErr (wr_dir w) segs Hctx Hsh k m
    (NewTailer (currentPosition f)) [] ltac:(done) Hm) as (t & batches & Hl & Hs).
  { split; try done. apply prefix_nil. }
  exists batches. split.
  { unfold StreamWAL. rewrite bool_decide_false by done. rewrite Hg. cbn [mbind outcome_bind].
    rewrite (proj2 (Z.ltb_ge _ _)) by lia. by rewrite Hl. }
  unfold currentPosition, sent in Hs. rewrite Hn, Hab in Hs. cbn [length] in Hs. rewrite drop_0 in Hs.
  destruct (session_spec now (durable w) last (wb_Records <$> batches) HP n f Hf Hn ltac:(by rewrite Hs)) as (f' & e & He & _ & Hr).
  exists f', e. split; [done|]. destruct e as [e|e|l]; [done|by destruct Hr|]. destruct Hr as (-> & Hm' & Hp).
  assert (Hpos : st_position f' = Z.of_nat (length (durable w))) by (rewrite Hp, Hs, length_fmap, length_drop; lia).
  pose proof (so_wal _ (running_ok _ Hrun)) as Hwo. unfold wal_ok in Hwo. rewrite Hwal in Hwo.
  destruct Hwo as (lg & Hrep & _ & Hall). destruct (Hall Herr) as (-> & _).
  pose proof (mirrors_all _ _ _ Hm' Hpos Hrep) as Hsame. split_and!; try done. by rewrite Hsame.
Qed.
End Convergence.

Section Restart.
Context `{CodecLaws}.

(** A follower restarts where it was: whatever a crash leaves of its log,
    [openSymbol] recovers its very book and the position it had reached, so that it
    asks the primary for exactly what it does not have; only the time of its last
    record is forgotten. *)
Theorem follower_restart now P (f : symbolState Writer) r symbol : shippable (W := Writer) P -> mirrors P f ->
  rp_symbols r !! symbol = None -> crashed (wr_dir (st_wal f)) (replica_dir symbol r) ->
  script (replica_dir symbol r) = [] ->
  exists r' f', openSymbol now symbol r = Ok (r', Good f') /\ rp_symbols r' !! symbol = Some f' /\
    mirrors P f' /\ st_book f' = st_book f /\ st_position f' = st_position f /\ st_positionTS f' = zeroTime /\
    write_ahead P f'.
Proof.
  intros HP Hm Hnew Hcr Hsc. pose proof Hm as [(n & Hn & Hle & Hd) Hb Hh Hl Hrep].
  destruct (reopen_log now (st_wal f) (st_book f) _ Hh Hb Hrep Hcr) as [HR Ho].
  assert (Hmax : max_seq (durable (st_wal f)) = st_position f).
  { rewrite Hd, (max_seq_numbered _ (numbered_wire P n (sp_numbered _ HP))), length_fmap, length_take, Nat.min_l by done. by rewrite Hn. }
  unfold openSymbol. rewrite Hnew, HR. cbn [mbind outcome_bind].
  destruct (OpenWriter (replica_dir symbol r)) as [d [w'|e]]; [|by rewrite Hsc in Ho].
  destruct Ho as (H1 & H2 & H3 & H4 & H5). eexists _, _. split; [reflexivity|]. cbn [rp_symbols]. rewrite lookup_insert_eq.
  match goal with |- _ /\ mirrors P ?g /\ _ => assert (Hg : mirrors P g) end;
    [|split_and!; try done; by apply mirrors_write_ahead].
  split; cbn [st_wal st_position st_book]; try done.
  - exists n. rewrite Hmax, H2. by split_and!.
  - cbn [wal_LastSeq Writer_ops]. rewrite H1, Hmax. exact Hl.
  - by rewrite H2.
Qed.
End Restart.

(** What a restart would make of a follower's log as it is now. *)
Definition reopened_book `{PayloadCodec} (f : symbolState Writer) : outcome (Book * Z * option oms_error) :=
  Recover id (wr_dir (st_wal f)) NewBook 0.

(** * Witnesses *)

Module ReplicaDemo.
Import RegistryDemo StoreDemo.

(** The two records [RegistryDemo] logs: a sale and the purchase of a part of it. *)
Definition shipped : list WalRecord := durable w2.

Lemma submit_loggable seq ts o : in64 seq -> in64 ts -> order_ok o -> loggable (mkRecord seq RecordSubmit ts o 0 "").
Proof. intros H1 H2 H3. by split. Qed.

#[local] Instance order_ok_dec o : Decision (order_ok o).
Proof. unfold order_ok, text_ok. apply _. Defined.

Lemma shipped_loggable : Forall (fun r => loggable (on_wire r)) shipped.
Proof.
  assert (E : shipped = [mkRecord 1 RecordSubmit 7 (set_symbol "NABIL" (set_seqid 1 SeqDemo.ask)) 0 "";
                         mkRecord 2 RecordSubmit 7 (set_symbol "NABIL" (set_seqid 2 SeqDemo.bid)) 0 ""]) by (vm_compute; reflexivity).
  rewrite E. repeat apply Forall_cons_2; [| |apply Forall_nil_2];
    (apply submit_loggable; apply (bool_decide_unpack _); vm_compute; exact I).
Qed.

Lemma shipped_ok : shippable (W := Writer) shipped.
Proof.
  split.
  - intros [|[|i]] r Hi; vm_compute in Hi; [by injection Hi as <-..|done].
  - apply (bool_decide_unpack _). by vm_compute.
  - exact shipped_loggable.
  - eexists. vm_compute. reflexivity.
Qed.

(** A follower that has nothing yet, over a directory with that future. *)
Definition follower (calls : list SysRes) : symbolState Writer :=
  mkSymbolState NewBook (match (OpenWriter (mkDir ∅ calls)).2 with Good w => w | Fails _ => opened end) 0 zeroTime.

Lemma follower_mirrors P calls : is_good (OpenWriter (mkDir ∅ calls)).2 = true -> mirrors P (follower calls).
Proof.
  intros Hg. pose proof (OpenWriter_empty (mkDir ∅ calls) eq_refl) as Ho. unfold follower.
  destruct (OpenWriter (mkDir ∅ calls)) as [d [w|e]]; [|done]. destruct Ho as (Hw & Hls & Hdur). cbn [snd].
  split; cbn [st_position st_wal st_book].
  - exists O. split_and!; [done|lia|exact Hdur].
  - cbn [buffered Writer_laws]. unfold buffered_recs. rewrite Hdur, (healthy_appended _ _ _ Hw). done.
  - by exists [], (mkSeg 1 [] []).
  - exact Hls.
  - cbn [durable Writer_laws]. by rewrite Hdur.
Qed.
End ReplicaDemo.
Import ReplicaDemo.

(** C40: A follower that retries over a log that failed can store a batch twice: if
    the fsync of a batch fails after its bytes are written, the position stays
    behind, the primary resends the batch, and the same positions are appended
    again; the running book is right, but a restart replays both copies into a
    book that shows another depth. *)
Theorem retry_duplicates_log : exists (f f1 f2 : symbolState Writer) recs b pos,
  mirrors shipped f /\ recs = on_wire <$> shipped /\
  apply id recs f = Ok (f1, Some ErrWalIO) /\ st_position f1 = 0 /\
  apply id recs f1 = Ok (f2, None) /\ durable (st_wal f2) = recs ++ recs /\
  reopened_book f2 = Ok (b, pos, None) /\ Snapshot b <> Snapshot (st_book f2).
Proof.
  set (calls := replicate 7 SysOk ++ [SysErr 0]). set (f := follower calls). set (recs := on_wire <$> shipped).
  set (f1 := match apply id recs f with Ok (f1, _) => f1 | _ => f end).
  set (f2 := match apply id recs f1 with Ok (f2, _) => f2 | _ => f end).
  set (b := match reopened_book f2 with Ok (b, _, _) => b | _ => NewBook end).
  exists f, f1, f2, recs, b, 2. split; [by apply follower_mirrors; vm_compute|]. split; [done|].
  split; [vm_compute; reflexivity|]. split; [vm_compute; reflexivity|]. split; [vm_compute; reflexivity|].
  split; [vm_compute; reflexivity|]. split; [vm_compute; reflexivity|]. vm_compute. discriminate.
Qed.

Lemma apply_idempotent_witness : exists f', apply (W := Writer) id (on_wire <$> take 2 (drop 0 shipped)) (follower []) = Ok (f', None) /\
  mirrors shipped f' /\ st_position f' = 2.
Proof.
  destruct (@apply_idempotent Writer _ Writer_laws id shipped (follower []) 0 0 2 shipped_ok (follower_mirrors _ [] ltac:(by vm_compute))
    eq_refl (Nat.le_refl 0) ltac:(vm_compute; lia)) as (f' & e & Ha & _ & _ & He).
  assert (E : e = None) by (revert Ha; vm_compute; by intros [= _ <-]). subst e.
  exists f'. exact (conj Ha (conj (proj1 He) (proj1 (proj2 He)))).
Defined.

Lemma follower_converges_witness : exists batches f' e,
  StreamWAL id ErrCanceled "NABIL" 0 (replicate 3 true) (replicate 3 (wr_dir RegistryDemo.w2)) RegistryDemo.st2
    = Ok (RegistryDemo.st2, batches, Ended None) /\
  streamOnce id (wb_Records <$> batches) None (follower []) = Ok (f', e).
Proof.
  destruct RegistryDemo.st2_reachable as (_ & _ & H1 & H2 & _).
  destruct (follower_converges (W := Writer) (laws := Writer_laws) id RegistryDemo.q2 RegistryDemo.w2 (follower []) ErrCanceled "NABIL" RegistryDemo.st2
    RegistryDemo.st2 RegistryDemo.q2 3 3 None ReplicationDemo.q2_running H1 H2 shipped_ok
    (follower_mirrors _ [] ltac:(by vm_compute)) ltac:(by vm_compute) (or_introl eq_refl) ltac:(vm_compute; discriminate)
    ReplicationDemo.get_open ltac:(vm_compute; lia) (Nat.le_refl 3)) as (batches & Hb & f' & e & Hs & _).
  exists batches, f', e. exact (conj Hb Hs).
Defined.

Lemma follower_restart_witness : exists r' f',
  openSymbol id "NABIL" (New {["NABIL"%string := wr_dir (st_wal (follower []))]}) = Ok (r', Good f') /\
  mirrors shipped f' /\ st_position f' = 0.
Proof.
  destruct (follower_restart id shipped (follower []) (New {["NABIL"%string := wr_dir (st_wal (follower []))]}) "NABIL"
    shipped_ok (follower_mirrors _ [] ltac:(by vm_compute)) eq_refl (WalDemo.crashed_refl _) ltac:(by vm_compute))
    as (r' & f' & H1 & _ & H2 & _ & H3 & _).
  exists r', f'. exact (conj H1 (conj H2 H3)).
Defined.
