(* ===== verification/LogGrow.v ===== *)
(** A log as others see it while it is being written.

    [bytes_grow] is what every system call of the writer does to the files a reader may
    have open: none disappears and none loses a byte. From it, what the directory of a
    healthy writer shows after an operation has [grown] out of what it showed before,
    buffered and unsynced bytes included. *)

From Stdlib Require Import ZArith Lia.
From stdpp Require Import base gmap list strings sorting.
From S2P Require Import Prelude Types Book WalRecord Bytes WalFormat WalRead SegNames Wal WalDir WalInv WalLaw WalStep WalRecover.
From S2P Require Import BookProps Accounts Sequencer SeqFacts SeqProps WalProps Tail TailFacts TailProps.
From S2P Require Import Messages BookTime Replica ReplicaFacts ReplicaProps.

Open Scope Z_scope.

#[local] Arguments content : simpl never.

(** * Bytes only grow *)

Definition bytes_grow (d d' : Dir) : Prop := forall name f, files d !! name = Some f ->
  exists f', files d' !! name = Some f' /\ f_bytes f `prefix_of` f_bytes f'.

#[global] Instance bytes_grow_preorder : PreOrder bytes_grow.
Proof.
  split; [by intros d name f Hf; exists f|]. intros d1 d2 d3 H12 H23 name f Hf.
  destruct (H12 name f Hf) as (f2 & Hf2 & Hp). destruct (H23 name f2 Hf2) as (f3 & Hf3 & Hp'). exists f3. split; [done|by etransitivity].
Qed.

Lemma grow_files d d' : files d' = files d -> bytes_grow d d'.
Proof. intros E name f Hf. exists f. by rewrite E. Qed.

Lemma grow_set name f d d' : f_bytes (file_at name d) `prefix_of` f_bytes f -> files d' = <[name := f]> (files d) -> bytes_grow d d'.
Proof.
  intros Hp E n g Hg. rewrite E. destruct (decide (n = name)) as [->|Hne].
  - exists f. rewrite lookup_insert_eq. split; [done|]. unfold file_at in Hp. by rewrite Hg in Hp.
  - exists g. by rewrite lookup_insert_ne by done.
Qed.

(** System calls on an open file, and on none. *)
Lemma grow_write name p d d' n e : sys_write name p d = (d', n, e) -> bytes_grow d d'.
Proof.
  unfold sys_write, sys_next. destruct (default SysOk _); intros [= <- _ _];
    (eapply grow_set; [|reflexivity]); unfold f_bytes, file_at; cbn; rewrite app_assoc; by apply prefix_app_r.
Qed.

Lemma grow_fsync name d d' e : sys_fsync name d = (d', e) -> bytes_grow d d'.
Proof.
  unfold sys_fsync, sys_next. destruct (default SysOk _) as [|n]; intros [= <- _]; (eapply grow_set; [|reflexivity]);
    unfold f_bytes, file_at; cbn; [by rewrite app_nil_r|]. by rewrite <- app_assoc, take_drop.
Qed.

Lemma grow_touch d d' e : sys_touch d = (d', e) -> bytes_grow d d'.
Proof. intros Ht. apply grow_files. by eapply sys_touch_files. Qed.

Lemma grow_syncDir d d' e : syncDir d = (d', e) -> bytes_grow d d'.
Proof.
  unfold syncDir. destruct (sys_touch d) as [d1 e1] eqn:Ht. pose proof (grow_touch _ _ _ Ht) as H1.
  destruct e1 as [e1|]; [by intros [= <- _]|]. unfold sys_next. destruct (default SysOk _); intros [= <- _]; [|done].
  etransitivity; [exact H1|]. intros name f Hf. exists (mkFile (f_synced f) (f_unsynced f) true). cbn. by rewrite lookup_fmap, Hf.
Qed.

(** The buffered writer. *)
Lemma grow_Flush name bw d bw' d' e : bw_Flush name bw d = (bw', d', e) -> bytes_grow d d'.
Proof.
  unfold bw_Flush. destruct (bw_err bw); [by intros [=]; subst|]. case_bool_decide; [by intros [=]; subst|].
  destruct (sys_write name (bw_buf bw) d) as [[d1 n] [e1|]] eqn:Hw; intros [= _ <- _]; by eapply grow_write.
Qed.

Lemma grow_Write fuel name : forall p bw d bw' d' e, bw_Write fuel name p bw d = Ok (bw', d', e) -> bytes_grow d d'.
Proof.
  induction fuel as [|fuel IH]; intros p bw d bw' d' e; cbn [bw_Write];
    (destruct (bw_err bw); [by intros [=]; subst|]); (destruct (_ <=? _)%nat; [by intros [=]; subst|]); [done|].
  case_bool_decide.
  - destruct (sys_write name p d) as [[d1 n] e1] eqn:Hw. intros Hr. etransitivity; [by eapply grow_write|by eapply IH].
  - destruct (bw_Flush name _ d) as [[bw1 d1] e1] eqn:Hf. intros Hr. etransitivity; [by eapply grow_Flush|by eapply IH].
Qed.

Lemma grow_wr_write p w w' e : wr_write p w = Ok (w', e) -> bytes_grow (wr_dir w) (wr_dir w').
Proof.
  unfold wr_write. destruct (wr_f w) as [[name bw]|]; [|done]. cbn [deref mbind outcome_bind].
  destruct (bw_Write _ _ _ _ _) as [[[bw1 d1] e1]| |] eqn:Hw; [|done..]. intros [= <- _]. by eapply grow_Write.
Qed.

Lemma grow_wr_flush w w' e : wr_flush w = Ok (w', e) -> bytes_grow (wr_dir w) (wr_dir w').
Proof.
  unfold wr_flush. destruct (wr_f w) as [[name bw]|]; [|done]. cbn [deref mbind outcome_bind].
  destruct (bw_Flush _ _ _) as [[bw1 d1] e1] eqn:Hw. intros [= <- _]. by eapply grow_Flush.
Qed.

Lemma grow_wr_fsync w w' e : wr_fsync w = Ok (w', e) -> bytes_grow (wr_dir w) (wr_dir w').
Proof.
  unfold wr_fsync. destruct (wr_f w) as [[name bw]|]; [|done]. cbn [deref mbind outcome_bind].
  destruct (sys_fsync _ _) as [d1 e1] eqn:Hw. intros [= <- _]. by eapply grow_fsync.
Qed.

(** Statements that return early. *)
Lemma grow_and_then (m : outcome (Writer * option oms_error)) k (w w' : Writer) e : and_then m k = Ok (w', e) ->
  (forall w1 e1, m = Ok (w1, e1) -> bytes_grow (wr_dir w) (wr_dir w1)) ->
  (forall w1, m = Ok (w1, None) -> k w1 = Ok (w', e) -> bytes_grow (wr_dir w1) (wr_dir w')) -> bytes_grow (wr_dir w) (wr_dir w').
Proof.
  unfold and_then. destruct m as [[w1 e1]| |]; cbn [mbind outcome_bind]; [|done..]. intros Hr H1 H2. specialize (H1 w1 e1 eq_refl).
  destruct e1 as [e1|]; [by injection Hr as <- _|]. etransitivity; [exact H1|by apply H2].
Qed.

Lemma grow_Sync w w' e : Sync w = Ok (w', e) -> bytes_grow (wr_dir w) (wr_dir w').
Proof.
  intros Hs. eapply grow_and_then; [exact Hs|intros; by eapply grow_wr_flush|intros; by eapply grow_wr_fsync].
Qed.

Lemma grow_Close w w' e : Close w = Ok (w', e) -> bytes_grow (wr_dir w) (wr_dir w').
Proof.
  unfold Close. destruct (wr_f w); [|by intros [= <- _]]. destruct (Sync w) as [[w1 e1]| |] eqn:Hs; cbn [mbind outcome_bind]; [|done..].
  destruct (sys_touch (wr_dir w1)) as [d2 e2] eqn:Ht. intros [= <- _]. etransitivity; [by eapply grow_Sync|by eapply grow_touch].
Qed.

(** A new segment has a name of its own. *)
Lemma grow_openSegment n w w' e : files (wr_dir w) !! segment_name n = None -> openSegment n w = (w', e) ->
  bytes_grow (wr_dir w) (wr_dir w').
Proof.
  intros Hn. unfold openSegment. destruct (sys_create _ _) as [d1 e1] eqn:Hc.
  assert (H1 : bytes_grow (wr_dir w) d1).
  { unfold sys_create, sys_next in Hc. destruct (default SysOk _); injection Hc as <- _; [|by apply grow_files].
    eapply grow_set; [|reflexivity]. unfold file_at. by rewrite Hn. }
  destruct e1 as [e1|]; [by intros [= <- _]|].
  destruct (sys_write _ _ d1) as [[d2 k] e2] eqn:Hw. pose proof (grow_write _ _ _ _ _ _ Hw) as H2.
  assert (Hfail : forall d, bytes_grow (wr_dir w) d -> bytes_grow (wr_dir w) (sys_touch d).1).
  { intros d Hd. etransitivity; [exact Hd|]. destruct (sys_touch d) eqn:Ht. by eapply grow_touch. }
  destruct e2 as [e2|]; [intros [= <- _]; apply Hfail; by etransitivity|].
  destruct (sys_fsync _ d2) as [d3 e3] eqn:Hf. pose proof (grow_fsync _ _ _ _ Hf) as H3.
  destruct e3 as [e3|]; [intros [= <- _]; apply Hfail; by do 2 (etransitivity; [|done])|].
  destruct (syncDir d3) as [d4 e4] eqn:Hs. pose proof (grow_syncDir _ _ _ Hs) as H4.
  destruct e4 as [e4|]; intros [= <- _]; [apply Hfail|cbn [wr_dir]]; by do 3 (etransitivity; [|done]).
Qed.

Section Writing.
Context `{CodecLaws}.

Lemma grow_rotate closed sg w q w' e : healthy_as closed sg w -> sg_recs sg <> [] -> q = lastSeq w + 1 -> in64 q ->
  rotate q w = Ok (w', e) -> bytes_grow (wr_dir w) (wr_dir w').
Proof.
  intros Hw Hne Hq Hi Hr. pose proof (healthy_names _ _ _ Hw) as Hn.
  destruct (healthy_names_next closed sg w q Hw Hne Hq Hi) as [Hord Hnm].
  destruct (hw_file _ _ _ Hw) as (bw & Hf & He & (s & u & Hfs & Hs0 & Hb & Hd)).
  assert (Hwr : writing (closed_files closed) (sg_first sg) s (content sg) None w)
    by (exists bw; split_and!; try done; exists s, u; by split_and!).
  destruct (Close_spec _ _ Hn s (content sg) w Hwr) as (w1 & e1 & Hcl & _ & _ & _ & Hok1).
  eapply grow_and_then; [exact Hr|intros; by eapply grow_Close|]. cbv beta. intros w2 Hc2 Ho. rewrite Hcl in Hc2. injection Hc2 as <- ->.
  destruct (openSegment q w1) as [w3 e3] eqn:Eo. injection Ho as <- <-. eapply grow_openSegment; [|exact Eo].
  rewrite (Hok1 eq_refl), <- closed_files_snoc. apply names_fresh. rewrite closed_files_fst. rewrite fmap_app in Hnm.
  pose proof (marks_names _ Hord) as Hsn. rewrite fmap_app in Hsn. by split.
Qed.

Lemma grow_Append closed sg w r w' e : healthy_as closed sg w -> loggable r -> w_Seq r = lastSeq w + 1 ->
  Append r w = Ok (w', e) -> bytes_grow (wr_dir w) (wr_dir w').
Proof.
  intros Hw Hr Hq. unfold Append. destruct (encode r) as [[[hdr payload] crc]|e0]; [|by intros [= <- _]]. intros Ha.
  eapply grow_and_then; [exact Ha| |].
  - intros w1 e1. destruct (_ && _) eqn:Hrot; [|by intros [= <- _]]. apply andb_prop in Hrot as [_ H8%Z.ltb_lt].
    rewrite (hw_bytes _ _ _ Hw) in H8. eapply grow_rotate; [done| |lia|exact (lg_seq _ Hr)]. intros Hnil.
    destruct (healthy_segs _ _ _ Hw) as [_ [_ H2]]. rewrite Hnil in H2. apply Forall2_nil_inv_l in H2.
    unfold content in H8. rewrite H2 in H8. simpl in H8. unfold walHeaderSize in H8. lia.
  - intros w1 _ Hk. eapply grow_and_then; [exact Hk|intros; by eapply grow_wr_write|]. intros w2 _ Hk2.
    eapply grow_and_then; [exact Hk2|intros; by eapply grow_wr_write|]. intros w3 _ Hk3.
    eapply grow_and_then; [exact Hk3|intros; by eapply grow_wr_write|]. intros w4 _ [= <- _]. done.
Qed.

(** * What a directory shows *)

(** [segs] is what the files of a healthy writer show: the closed segments, and of the
    open one the whole records among the bytes that have reached the file. *)
Definition on_disk (closed : list Seg) (sg : Seg) (w : Writer) (segs : list Seg) : Prop :=
  healthy_as closed sg w /\ exists s u j,
    files (wr_dir w) = files_of (closed_files closed ++ [(sg_first sg, mkFile s u true)]) /\
    whole sg (length (s ++ u)) j /\ segs = closed ++ [cut sg j] /\ shows (wr_dir w) segs.

Lemma whole_unique sg k i j : whole sg k i -> whole sg k j -> i = j.
Proof. intros (H1 & H2 & H3) (H4 & H5 & H6). pose proof (H3 j H5 H4). pose proof (H6 i H2 H1). lia. Qed.

Lemma shown_whole sg k j tl : seg_ok sg -> (8 <= k)%nat -> (j <= length (sg_recs sg))%nat ->
  take k (content sg) = content (cut sg j) ++ tl -> next tl = ReadEOF -> whole sg k j.
Proof.
  intros Hsg Hk Hj Htk Htl. destruct (read_cut sg k Hsg Hk) as (i & Hw & Hr). enough (i = j) as <- by done.
  destruct (cut_ok sg j Hsg) as [Hlog Henc]. rewrite Htk in Hr. unfold content at 1 in Hr.
  rewrite <- app_assoc, read_segment_header, (records_from_app (sg_recs (cut sg j))) in Hr by (try done; intros; by rewrite Htl).
  injection Hr as Hr _. apply (f_equal length) in Hr. destruct Hw as (Hi & _). cbn [cut sg_recs] in Hr. rewrite !length_take in Hr. lia.
Qed.

Lemma healthy_on_disk closed sg w : healthy_as closed sg w -> exists segs, on_disk closed sg w segs.
Proof.
  intros Hw. assert (Hcr : crashed (wr_dir w) (wr_dir w)) by (intros name; destruct (files (wr_dir w) !! name); by constructor).
  destruct (healthy_crashed _ _ _ _ Hw Hcr) as (_ & _ & s & u & _ & _ & _ & Hd).
  destruct (healthy_segs _ _ _ Hw) as [_ Hsg]. destruct (log_dir_shows _ _ _ _ _ Hd) as (j & tl & Hb & Htl & Hsh).
  set (i := Nat.min j (length (sg_recs sg))).
  assert (Hcut : cut sg j = cut sg i).
  { unfold cut, i. pose proof (Forall2_length _ _ _ (proj2 Hsg)) as Hl. f_equal.
    - destruct (Nat.le_ge_cases j (length (sg_recs sg))); [by rewrite Nat.min_l by done|]. rewrite Nat.min_r by done. by rewrite !take_ge.
    - destruct (Nat.le_ge_cases j (length (sg_recs sg))); [by rewrite Nat.min_l by done|]. rewrite Nat.min_r by done. rewrite !take_ge by lia. done. }
  rewrite Hcut in Hb, Hsh. exists (closed ++ [cut sg i]). split; [done|]. exists s, u, i. split_and!; [apply Hd| |done|done].
  apply (shown_whole sg _ i tl); [done| |lia| |done].
  - rewrite length_app. pose proof (prefix_length _ _ (ld_header _ _ _ _ _ Hd)) as Hl. rewrite seg_header_length in Hl. lia.
  - rewrite <- (prefix_take _ _ (ld_bytes _ _ _ _ _ Hd)). exact Hb.
Qed.

(** Everything durable shows, and nothing that was not appended. *)
Lemma on_disk_between closed sg w segs : on_disk closed sg w segs ->
  durable w `prefix_of` all_recs segs /\ all_recs segs `prefix_of` all_recs (closed ++ [sg]).
Proof.
  intros (Hw & s & u & j & Hf & Hwh & -> & Hsh). destruct (healthy_segs _ _ _ Hw) as [Hc Hsg]. pose proof (healthy_names _ _ _ Hw) as Hn.
  destruct (hw_file _ _ _ Hw) as (bw & _ & Hbe & (s0 & u0 & Hf0 & Hs0 & Hb0 & Hd0)). rewrite Hbe in Hd0.
  assert (E : mkFile s u true = mkFile s0 u0 true).
  { rewrite Hf, !files_of_snoc in Hf0 by done. apply (f_equal (.!! segment_name (sg_first sg))) in Hf0.
    rewrite !lookup_insert_eq in Hf0. by injection Hf0 as -> ->. }
  injection E as -> ->. assert (Hp : s0 ++ u0 `prefix_of` content sg) by (rewrite <- Hd0, app_assoc; by apply prefix_app_r).
  assert (H8 : (8 <= length (s0 ++ u0))%nat).
  { rewrite length_app. pose proof (prefix_length _ _ Hs0) as Hl. rewrite seg_header_length in Hl. lia. }
  destruct (read_cut sg (length (s0 ++ u0)) Hsg H8) as (i & Hi & Hr). rewrite <- (prefix_take _ _ Hp) in Hr.
  pose proof (whole_unique _ _ _ _ Hwh Hi) as <-. cbn [durable Writer_laws]. rewrite (durable_open closed _ _ _ Hc Hn Hf), !all_recs_app. split.
  - apply prefix_app. unfold all_recs. simpl. rewrite app_nil_r.
    assert (Hrd : readable (s0 ++ u0) = take j (sg_recs sg)) by (unfold readable; by rewrite Hr).
    rewrite <- Hrd. unfold stable. cbn [f_linked f_synced]. apply (readable_mono sg); [done|by apply prefix_app_r|done].
  - apply prefix_app. unfold all_recs. simpl. rewrite !app_nil_r. exists (drop j (sg_recs sg)). by rewrite take_drop.
Qed.

(** One operation: the same segment, or a record behind it. *)
Lemma on_disk_grows closed sg w segs closed' sg' w' segs' : on_disk closed sg w segs -> on_disk closed' sg' w' segs' ->
  bytes_grow (wr_dir w) (wr_dir w') -> ((closed' = closed /\ sg' = sg) \/ exists r, follows closed sg r closed' sg') ->
  grown segs segs'.
Proof.
  intros (Hw & s & u & j & Hf & Hwh & -> & Hsh) (Hw' & s' & u' & j' & Hf' & Hwh' & -> & Hsh') Hg Hcase. right.
  assert (Hin : (closed' = closed /\ sg_first sg' = sg_first sg /\ sg_recs sg `prefix_of` sg_recs sg' /\ sg_chunks sg `prefix_of` sg_chunks sg') \/
    closed' = closed ++ [sg]).
  { destruct Hcase as [[-> ->]|(r & bs & [[-> ->]|[-> ->]])]; [by left| |by right]. left. split_and!; try done; cbn [extend sg_recs sg_chunks]; by apply prefix_app_r. }
  destruct Hin as [(-> & Hfst & Hr & Hc)| ->].
  - assert (Hlen : (length (s ++ u) <= length (s' ++ u'))%nat).
    { pose proof (healthy_names _ _ _ Hw) as Hn. pose proof (healthy_names _ _ _ Hw') as Hn'.
      rewrite files_of_snoc in Hf by done. rewrite files_of_snoc in Hf' by done.
      destruct (Hg (segment_name (sg_first sg)) (mkFile s u true)) as (f' & Hl & Hp); [by rewrite Hf, lookup_insert_eq|].
      rewrite Hf', Hfst, lookup_insert_eq in Hl. injection Hl as <-. exact (prefix_length _ _ Hp). }
    destruct (healthy_segs _ _ _ Hw) as [_ [_ Henc]]. pose proof (Forall2_length _ _ _ Henc) as Hl.
    destruct Hwh as (H1 & H2 & _), Hwh' as (H1' & _ & H3').
    assert (Ht : take j (sg_chunks sg') = take j (sg_chunks sg)) by (apply take_prefix; [done|lia]).
    assert (Hrl := prefix_length _ _ Hr). assert (Hjj : (j <= j')%nat) by (apply H3'; [rewrite Ht|]; lia).
    assert (Hcut : forall A (l k : list A), l `prefix_of` k -> take j l `prefix_of` take j' k).
    { intros A l k [x ->]. trans (take j' l); [|rewrite take_app; by apply prefix_app_r].
      exists (drop j (take j' l)). rewrite <- (take_drop j (take j' l)) at 1. by rewrite take_take, Nat.min_l by lia. }
    exists closed, (cut sg j), (cut sg' j'), []. split_and!; [done..| |]; cbn [cut sg_recs sg_chunks]; by apply Hcut.
  - exists closed, (cut sg j), sg, [cut sg' j']. split_and!; try done.
    + by rewrite <- app_assoc.
    + cbn [cut sg_recs]. exists (drop j (sg_recs sg)). by rewrite take_drop.
    + cbn [cut sg_chunks]. exists (drop j (sg_chunks sg)). by rewrite take_drop.
Qed.

(** ** The operations of a writer that succeed *)

(** A log whose positions count from 1, each segment named for the next one. *)
Definition from_one (closed : list Seg) (sg : Seg) : Prop :=
  sg_first sg = Z.of_nat (length (all_recs closed)) + 1 /\ numbered (all_recs (closed ++ [sg])).

Lemma all_recs_one sg : all_recs [sg] = sg_recs sg.
Proof. unfold all_recs. simpl. apply app_nil_r. Qed.

Lemma from_one_top closed sg : from_one closed sg -> seg_top sg = Z.of_nat (length (all_recs (closed ++ [sg]))).
Proof.
  intros [Hf Hn]. rewrite all_recs_app, all_recs_one in *. rewrite length_app. unfold seg_top.
  destruct (sg_recs sg) as [|r recs _] using rev_ind; [simpl; lia|]. rewrite last_snoc.
  rewrite app_assoc in Hn. rewrite (Hn (length (all_recs closed ++ recs)) r) by (by rewrite lookup_app_r, Nat.sub_diag).
  rewrite !length_app. simpl. lia.
Qed.

Lemma from_one_follows closed sg r closed' sg' : from_one closed sg -> w_Seq r = seg_top sg + 1 ->
  follows closed sg r closed' sg' -> from_one closed' sg'.
Proof.
  intros Hf Hq Hfo. pose proof (from_one_top _ _ Hf) as Ht. split.
  - destruct Hfo as (bs & [[-> ->]|[-> ->]]); [apply Hf|]. cbn [extend sg_first]. lia.
  - rewrite (follows_recs _ _ _ _ _ Hfo). intros i x [Hi|[Hi Hx]]%lookup_app_Some; [by apply Hf|].
    destruct (i - _)%nat as [|n] eqn:E; [|done]. injection Hx as <-. lia.
Qed.

Lemma from_one_cut closed sg j : from_one closed sg -> from_one closed (cut sg j).
Proof.
  intros [Hf Hn]. split; [exact Hf|]. rewrite all_recs_app, all_recs_one in *. cbn [cut sg_recs].
  intros i x Hi. apply Hn. rewrite <- (take_drop j (sg_recs sg)), app_assoc. by apply lookup_app_l_Some.
Qed.

(** A healthy writer over such a log, and what its directory shows. *)
Definition tidy (w : Writer) : Prop := exists closed sg, healthy_as closed sg w /\ from_one closed sg.
Definition showing (w : Writer) (segs : list Seg) : Prop := exists closed sg, on_disk closed sg w segs /\ from_one closed sg.

Lemma tidy_showing w : tidy w -> exists segs, showing w segs.
Proof. intros (closed & sg & Hw & Hf). destruct (healthy_on_disk _ _ _ Hw) as [segs Hs]. by exists segs, closed, sg. Qed.

Lemma showing_tidy w segs : showing w segs -> tidy w.
Proof. intros (closed & sg & [Hw _] & Hf). by exists closed, sg. Qed.

Lemma tidy_log w : tidy w -> healthy w /\ numbered (log w) /\ lastSeq w = Z.of_nat (length (log w)) /\ 0 <= lastSeq w <= MaxInt64.
Proof.
  intros (closed & sg & Hw & Hf). assert (E : log w = all_recs (closed ++ [sg])) by exact (durable_buffered _ _ _ Hw). rewrite E.
  split; [by exists closed, sg|]. split; [apply Hf|]. split; [|exact (hw_seq _ _ _ Hw)].
  rewrite (hw_top _ _ _ Hw). by apply from_one_top.
Qed.

Lemma showing_log w segs : showing w segs -> shows (wr_dir w) segs /\
  durable w `prefix_of` all_recs segs /\ all_recs segs `prefix_of` log w.
Proof.
  intros (closed & sg & Ho & _). pose proof Ho as (Hw & _ & _ & _ & _ & _ & _ & Hsh). destruct (on_disk_between _ _ _ _ Ho) as [H1 H2].
  split; [exact Hsh|]. split; [exact H1|]. unfold log. cbn [durable buffered Writer_laws]. by rewrite (durable_buffered _ _ _ Hw).
Qed.

(** An empty directory, and what a crash leaves of any other. *)
Lemma opened_tidy d d' w : files d = ∅ -> OpenWriter d = (d', Good w) -> tidy w /\ log w = [].
Proof.
  intros Hf Ho. pose proof (OpenWriter_empty d Hf) as Hs. rewrite Ho in Hs. destruct Hs as (Hw & _ & _).
  split; [|exact (durable_buffered _ _ _ Hw)]. exists [], (mkSeg 1 [] []). split; [exact Hw|]. split; [done|]. by intros i r.
Qed.

Lemma restart_tidy w d d' w' : tidy w -> crashed (wr_dir w) d -> OpenWriter d = (d', Good w') ->
  tidy w' /\ durable w `prefix_of` log w' /\ log w' `prefix_of` log w /\ durable w' = log w'.
Proof.
  intros (closed & sg & Hw & Hf) Hcr Ho. destruct (crash_log _ _ _ _ Hw Hcr) as (s & u & j & Hd & Hwh & Hr & Hlen & H1 & H2).
  pose proof (OpenWriter_spec _ _ _ _ _ _ Hd Hwh Hr Hlen) as Hsp. rewrite Ho in Hsp. destruct Hsp as [Hw' Hdur].
  assert (E : log w' = log_of closed sg j) by exact (durable_buffered _ _ _ Hw'). rewrite E.
  assert (El : log w = all_recs (closed ++ [sg])) by exact (durable_buffered _ _ _ Hw). rewrite El.
  split; [exists closed, (cut sg j); split; [done|by apply from_one_cut]|]. by split.
Qed.

Lemma Append_shows w segs r w' : showing w segs -> loggable r -> w_Seq r = lastSeq w + 1 -> wal_Append r w = (w', None) ->
  exists segs', showing w' segs' /\ grown segs segs' /\ log w' = log w ++ [r] /\ durable w `prefix_of` durable w'.
Proof.
  intros (closed & sg & Ho & Hone) Hr Hq Ha. pose proof Ho as [Hw _].
  destruct (Append_shape closed sg w r Hw Hr Hq) as (w1 & e1 & Heq & Hd & Hok). cbn in Ha. rewrite Heq in Ha. injection Ha as -> ->.
  destruct (Hok eq_refl) as (c & g & Hw' & Hl & Hf). destruct (healthy_on_disk _ _ _ Hw') as [segs' Ho']. exists segs'.
  split; [exists c, g; split; [exact Ho'|]; eapply from_one_follows; [exact Hone| |exact Hf]; by rewrite <- (hw_top _ _ _ Hw)|].
  split; [eapply on_disk_grows; [exact Ho|exact Ho'|by eapply grow_Append|right; by exists r]|]. split; [|exact Hd].
  unfold log. cbn [durable buffered Writer_laws]. rewrite (durable_buffered _ _ _ Hw), (durable_buffered _ _ _ Hw'). by apply follows_recs.
Qed.

(** What the first half of [Sync] leaves when it succeeds: the same log, all of it in the
    files. *)
Lemma flush_healthy closed sg w w' : healthy_as closed sg w -> wr_flush w = Ok (w', None) ->
  healthy_as closed sg w' /\ durable w `prefix_of` durable w' /\
  exists s u, files (wr_dir w') = files_of (closed_files closed ++ [(sg_first sg, mkFile s u true)]) /\ s ++ u = content sg.
Proof.
  intros Hw Ha. pose proof (healthy_names _ _ _ Hw) as Hn. pose proof Hw as [h1 h2 h3 h4 h5 h6 h7 (bw & Hf & He & Hst)].
  unfold wr_flush in Ha. rewrite Hf in Ha. cbn [deref mbind outcome_bind] in Ha.
  destruct (bw_Flush _ bw (wr_dir w)) as [[bw1 d1] e1] eqn:Hfl. injection Ha as <- ->.
  destruct (flush_streaming _ _ Hn _ _ _ _ _ _ _ Hst Hfl) as (Hst1 & He1 & Hnil). specialize (Hnil eq_refl).
  split; [|split].
  - split; [exact h1|exact h2|exact h3|exact h4|exact h5|exact h6|exact h7|]. exists bw1.
    split; [reflexivity|]. split; [exact He1|exact Hst1].
  - destruct (healthy_segs _ _ _ Hw) as [Hc Hsg]. destruct Hst as (s & u & Hfs & Hs0 & Hb & Hd).
    assert (Hst0 : streaming (closed_files closed) (sg_first sg) s (content sg) bw (wr_dir w)) by (exists s, u; split_and!; done).
    destruct (flush_streaming _ _ Hn _ _ _ _ _ _ _ Hst0 Hfl) as (Hst2 & _).
    exact (streaming_durable closed sg s u _ bw1 _ Hc Hsg Hn Hfs Hst2).
  - destruct Hst1 as (s1 & u1 & Hf1 & _ & _ & Hd1). rewrite He1, Hnil, app_nil_r in Hd1. exists s1, u1. split; [exact Hf1|exact Hd1].
Qed.

(** Files that hold everything show everything. *)
Lemma on_disk_all closed sg w segs s u : on_disk closed sg w segs ->
  files (wr_dir w) = files_of (closed_files closed ++ [(sg_first sg, mkFile s u true)]) -> s ++ u = content sg ->
  all_recs segs = all_recs (closed ++ [sg]).
Proof.
  intros (Hw & s0 & u0 & j & Hf & Hwh & -> & _) Hf1 Hd. pose proof (healthy_names _ _ _ Hw) as Hn.
  assert (E : mkFile s0 u0 true = mkFile s u true).
  { rewrite Hf, !files_of_snoc in Hf1 by exact Hn. apply (f_equal (.!! segment_name (sg_first sg))) in Hf1.
    rewrite !lookup_insert_eq in Hf1. by injection Hf1 as -> ->. }
  injection E as -> ->. destruct (healthy_segs _ _ _ Hw) as [_ Hsg]. pose proof (Forall2_length _ _ _ (proj2 Hsg)) as Hlen.
  assert (Hj : j = length (sg_recs sg)).
  { apply (whole_unique _ _ _ _ Hwh). rewrite Hd. unfold content. rewrite length_app, seg_header_length.
    split; [lia|]. split; [|lia]. by rewrite Hlen, take_ge by done. }
  subst j. rewrite !all_recs_app. f_equal. unfold all_recs, cut. simpl. by rewrite take_ge by done.
Qed.

Lemma flush_shows w segs w' : showing w segs -> wr_flush w = Ok (w', None) ->
  exists segs', showing w' segs' /\ grown segs segs' /\ log w' = log w /\ durable w `prefix_of` durable w' /\ all_recs segs' = log w.
Proof.
  intros (closed & sg & Ho & Hone) Ha. pose proof Ho as [Hw _].
  destruct (flush_healthy closed sg w w' Hw Ha) as (Hw' & Hl & s & u & Hf & Hd).
  destruct (healthy_on_disk _ _ _ Hw') as [segs' Ho']. exists segs'.
  assert (E : log w = all_recs (closed ++ [sg])) by exact (durable_buffered _ _ _ Hw).
  assert (E' : log w' = all_recs (closed ++ [sg])) by exact (durable_buffered _ _ _ Hw').
  split; [by exists closed, sg|]. split; [eapply on_disk_grows; [exact Ho|exact Ho'|by eapply grow_wr_flush|by left]|].
  split; [by rewrite E'|]. split; [exact Hl|]. rewrite E. by eapply on_disk_all.
Qed.

Lemma Sync_shows w segs w' : showing w segs -> wal_Sync w = (w', None) ->
  exists segs', showing w' segs' /\ grown segs segs' /\ log w' = log w /\ durable w' = log w.
Proof.
  intros (closed & sg & Ho & Hone) Ha. pose proof Ho as [Hw _]. assert (Hh : healthy w) by (by exists closed, sg).
  destruct (Sync_healthy closed sg w Hw) as (w1 & e1 & Hs & _ & Hok).
  destruct (Sync_flushes w w' Hh Ha) as (_ & _ & Hd & Hb).
  cbn in Ha. rewrite Hs in Ha. injection Ha as -> ->. destruct (Hok eq_refl) as (Hw' & _ & _).
  destruct (healthy_on_disk _ _ _ Hw') as [segs' Ho']. exists segs'.
  split; [by exists closed, sg|]. split; [eapply on_disk_grows; [exact Ho|exact Ho'|by eapply grow_Sync|by left]|].
  split; [unfold log; by rewrite Hb, app_nil_r|exact Hd].
Qed.
End Writing.
