(* ===== verification/Ledger.v ===== *)
(** The settlement ledger, from [src/internal/ledger/ledger.go] and its migration.

    The journal is the table [journal_entries]: the unique index over a leg makes
    it a map from legs to amounts, [ON CONFLICT DO NOTHING] an insertion that keeps
    what is there, and the CHECK refuses an amount that is not positive. A
    transaction takes effect at its commit or not at all; each database call
    answers as the list [calls] says, and an unanswered commit may or may not have
    taken effect. SUM over BIGINT is exact (NUMERIC), and reading one into an
    [int64] fails if it does not fit. *)

From Stdlib Require Import ZArith Lia.
From stdpp Require Import base gmap list strings.
From S2P Require Import Prelude Types Accounts.

Open Scope Z_scope.

(** The columns [asset] and [direction]. *)
Inductive asset := AssetCash | AssetPosition.
Inductive direction := DirectionDebit | DirectionCredit.

#[global] Instance asset_eq_dec : EqDecision asset.
Proof. solve_decision. Defined.
#[global] Instance direction_eq_dec : EqDecision direction.
Proof. solve_decision. Defined.
#[global, refine] Instance asset_countable : Countable asset := {
  encode a := match a with AssetCash => 1 | AssetPosition => 2 end%positive;
  decode p := match p with 1 => Some AssetCash | _ => Some AssetPosition end%positive
}.
Proof. by intros []. Defined.
#[global, refine] Instance direction_countable : Countable direction := {
  encode d := match d with DirectionDebit => 1 | DirectionCredit => 2 end%positive;
  decode p := match p with 1 => Some DirectionDebit | _ => Some DirectionCredit end%positive
}.
Proof. by intros []. Defined.

(** The unique key of a row: symbol, trade, account, asset, direction. *)
Definition leg : Type := string * Z * string * asset * direction.
Definition leg_symbol (l : leg) : string := l.1.1.1.1.
Definition leg_trade (l : leg) : Z := l.1.1.1.2.
Definition leg_account (l : leg) : string := l.1.1.2.
Definition leg_asset (l : leg) : asset := l.1.2.
Definition leg_direction (l : leg) : direction := l.2.

Abbreviation Journal := (gmap leg Z).

Inductive ledger_error := ErrDatabase | ErrNegativeTrade | ErrValueOverflow | ErrNoParty | ErrCheck | ErrScan.

#[global] Instance ledger_error_eq_dec : EqDecision ledger_error.
Proof. solve_decision. Defined.

(** What a database call answers; an error may hide that it took effect. *)
Inductive DbRes := DbOk | DbErr (took_effect : bool).
Definition db_next (calls : list DbRes) : DbRes * list DbRes := (default DbOk (head calls), tail calls).

(** [tradeValue]; Go's division truncates. *)
Definition tradeValue (t : Trade) : result ledger_error Z :=
  if (t_Price t <? 0) || (t_Quantity t <? 0) then Fails ErrNegativeTrade else
  let value := mul64 (t_Price t) (t_Quantity t) in
  if negb (t_Quantity t =? 0) && negb (Z.quot value (t_Quantity t) =? t_Price t) then Fails ErrValueOverflow
  else Good value.

(** [queueEntry]: one row of the batch; the trade's id goes in as an [int64]. *)
Definition queueEntry (t : Trade) (account : string) (a : asset) (d : direction) (amount : Z) : leg * Z :=
  ((t_Symbol t, wrap64 (t_SeqID t), account, a, d), amount).

(** The loop that queues the four legs of each trade. *)
Fixpoint queue_entries (trades : list Trade) : result ledger_error (list (leg * Z)) :=
  match trades with
  | [] => Good []
  | t :: trades =>
      value ← tradeValue t;
      let buyer := Buyer t in
      let seller := Seller t in
      if bool_decide (buyer = "") || bool_decide (seller = "") then Fails ErrNoParty else
      rest ← queue_entries trades;
      Good (queueEntry t buyer AssetPosition DirectionDebit (t_Quantity t)
            :: queueEntry t buyer AssetCash DirectionCredit value
            :: queueEntry t seller AssetCash DirectionDebit value
            :: queueEntry t seller AssetPosition DirectionCredit (t_Quantity t) :: rest)
  end.

(** [insertEntry]: the CHECK is on the row, the conflict on the key. *)
Definition insertEntry (row : leg * Z) (j : Journal) : result ledger_error Journal :=
  if row.2 <=? 0 then Fails ErrCheck
  else match j !! row.1 with
       | Some _ => Good j
       | None => Good (<[row.1 := row.2]> j)
       end.

(** The loop over the batch's results, within the transaction. *)
Fixpoint exec_batch (rows : list (leg * Z)) (calls : list DbRes) (j : Journal)
    : list DbRes * result ledger_error Journal :=
  match rows with
  | [] => (calls, Good j)
  | row :: rows =>
      match db_next calls with
      | (DbErr _, calls) => (calls, Fails ErrDatabase)
      | (DbOk, calls) =>
          match insertEntry row j with
          | Fails e => (calls, Fails e)
          | Good j => exec_batch rows calls j
          end
      end
  end.

(** [Settle]: the journal afterwards, and the error if any. *)
Definition Settle (calls : list DbRes) (trades : list Trade) (j : Journal) : Journal * option ledger_error :=
  match trades with
  | [] => (j, None)
  | _ =>
      match db_next calls with
      | (DbErr _, _) => (j, Some ErrDatabase)
      | (DbOk, calls) =>
          match queue_entries trades with
          | Fails e => (j, Some e)
          | Good rows =>
              match exec_batch rows calls j with
              | (_, Fails e) => (j, Some e)
              | (calls, Good j') =>
                  match db_next calls with
                  | (DbErr _, _) => (j, Some ErrDatabase)
                  | (DbOk, calls) =>
                      match db_next calls with
                      | (DbErr false, _) => (j, Some ErrDatabase)
                      | (DbErr true, _) => (j', Some ErrDatabase)
                      | (DbOk, _) => (j', None)
                      end
                  end
              end
          end
      end
  end.

(** * Reading the journal *)

(** [SUM(amount) FILTER (WHERE direction = d)] over the rows of [P]. *)
Definition sum_rows (d : direction) (P : leg -> bool) (j : Journal) : Z :=
  map_sum (fun l amount => if P l && bool_decide (leg_direction l = d) then amount else 0) j.

Definition net (P : leg -> bool) (j : Journal) : Z := sum_rows DirectionDebit P j - sum_rows DirectionCredit P j.

(** [Scan] into an [int64]. *)
Definition scan (v : Z) : result ledger_error Z := if decide (in64 v) then Good v else Fails ErrScan.

Definition cash_rows (account : string) (l : leg) : bool :=
  bool_decide (leg_account l = account) && bool_decide (leg_asset l = AssetCash).
Definition position_rows (account symbol : string) (l : leg) : bool :=
  bool_decide (leg_account l = account) && bool_decide (leg_asset l = AssetPosition) && bool_decide (leg_symbol l = symbol).

Definition ledger_Balance (account : string) (j : Journal) : result ledger_error Z := scan (net (cash_rows account) j).
Definition ledger_Position (account symbol : string) (j : Journal) : result ledger_error Z :=
  scan (net (position_rows account symbol) j).

(** [GROUP BY account_id, asset, symbol]: the groups, in the table's order. *)
Definition group : Type := string * asset * string.
Definition group_of (l : leg) : group := (leg_account l, leg_asset l, leg_symbol l).
Definition groups (j : Journal) : list group := remove_dups (group_of <$> (map_to_list j).*1).
Definition in_group (g : group) (l : leg) : bool := bool_decide (group_of l = g).

(** One row of [Balances]. *)
Definition balance_row (g : group) (v : Z) (acc : gmap string Z * gmap string (gmap string Z))
    : gmap string Z * gmap string (gmap string Z) :=
  let '(cash, positions) := acc in
  let '(account, a, symbol) := g in
  match a with
  | AssetCash => (zadd account v cash, positions)
  | AssetPosition => (cash, <[account := zadd symbol v (inner positions account)]> positions)
  end.

Fixpoint balance_rows (gs : list group) (j : Journal) (acc : gmap string Z * gmap string (gmap string Z))
    : result ledger_error (gmap string Z * gmap string (gmap string Z)) :=
  match gs with
  | [] => Good acc
  | g :: gs => v ← scan (net (in_group g) j); balance_rows gs j (balance_row g v acc)
  end.
Definition Balances (j : Journal) : result ledger_error (gmap string Z * gmap string (gmap string Z)) :=
  balance_rows (groups j) j (∅, ∅).

Definition EntryCount (symbol : string) (tradeID : Z) (j : Journal) : nat :=
  length (filter (fun l => leg_symbol l = symbol /\ leg_trade l = wrap64 tradeID) (map_to_list j).*1).

(** [Imbalance]: the groups by symbol, trade and asset whose debits are not their credits. *)
Definition movement : Type := string * Z * asset.
Definition movement_of (l : leg) : movement := (leg_symbol l, leg_trade l, leg_asset l).
Definition in_movement (m : movement) (l : leg) : bool := bool_decide (movement_of l = m).
Definition Imbalance (j : Journal) : nat :=
  length (filter (fun m => sum_rows DirectionDebit (in_movement m) j <> sum_rows DirectionCredit (in_movement m) j)
            (remove_dups (movement_of <$> (map_to_list j).*1))).
