(* ===== verification/LedgerFacts.v ===== *)
(** The journal as a set of legs.

    Whatever [Settle] is called with and however the database answers, the journal
    is the legs of trades with distinct identities, each once: inserting the legs
    of a trade that is there changes nothing, and those of a new one all go in. *)

From Stdlib Require Import ZArith Lia.
From stdpp Require Import base gmap list strings.
From S2P Require Import Prelude Types Accounts AccountsInv Ledger.

Open Scope Z_scope.

(** * The two overflow checks *)

(** Dividing the wrapped product back gives the price only if nothing wrapped. *)
Lemma division_check p q : 0 <= p <= MaxInt64 -> 0 < q <= MaxInt64 ->
  Z.quot (mul64 p q) q = p <-> p * q <= MaxInt64.
Proof.
  intros Hp Hq. pose proof (wrap64_range (p * q)) as Hr. unfold mul64. split; intros H.
  - destruct (Z.le_gt_cases (p * q) MaxInt64) as [|Hover]; [done|]. exfalso.
    pose proof (Z.quot_rem' (wrap64 (p * q)) q) as Hqr. rewrite H in Hqr.
    pose proof (Z.rem_bound_abs (wrap64 (p * q)) q ltac:(lia)) as Hb.
    assert (Hmod : exists k, wrap64 (p * q) = p * q - 18446744073709551616 * k).
    { exists ((p * q + 9223372036854775808) / 18446744073709551616). unfold wrap64.
      rewrite Z.mod_eq by lia. lia. }
    destruct Hmod as [k Hk]. unfold64. assert (1 <= k) by lia. lia.
  - rewrite wrap64_id by (unfold64; nia). by rewrite Z.quot_mul by lia.
Qed.

Lemma tradeValue_Good t v : in64 (t_Price t) -> in64 (t_Quantity t) ->
  tradeValue t = Good v <-> notional (t_Price t) (t_Quantity t) = Good v.
Proof.
  intros Hp Hq. rewrite notional_Good. unfold tradeValue.
  destruct (Z.ltb_spec (t_Price t) 0) as [|H1]; [split; [done|lia]|].
  destruct (Z.ltb_spec (t_Quantity t) 0) as [|H2]; [split; [done|lia]|]. cbn [orb].
  destruct (Z.eqb_spec (t_Quantity t) 0) as [Hz|Hz]; cbn [negb andb].
  - rewrite Hz. unfold mul64. rewrite !Z.mul_0_r. change (wrap64 0) with 0. unfold MaxInt64.
    split; [intros [= <-]; lia|intros (_ & _ & _ & ->); done].
  - pose proof (division_check (t_Price t) (t_Quantity t)) as Hd. unfold in64 in *.
    specialize (Hd ltac:(lia) ltac:(lia)).
    destruct (Z.eqb_spec (Z.quot (mul64 (t_Price t) (t_Quantity t)) (t_Quantity t)) (t_Price t)) as [He|He]; cbn [negb].
    + apply Hd in He. unfold mul64. rewrite wrap64_id by (unfold64; nia).
      split; [intros [= <-]; split_and!; lia|intros (_ & _ & _ & ->); done].
    + split; [done|]. intros (_ & _ & Hfit & _). tauto.
Qed.

(** * The legs of a trade *)

Definition legs (t : Trade) : list (leg * Z) :=
  [queueEntry t (Buyer t) AssetPosition DirectionDebit (t_Quantity t);
   queueEntry t (Buyer t) AssetCash DirectionCredit (value t);
   queueEntry t (Seller t) AssetCash DirectionDebit (value t);
   queueEntry t (Seller t) AssetPosition DirectionCredit (t_Quantity t)].

(** A trade the ledger takes: of two named parties, with a positive value that fits. *)
Record settleable (t : Trade) : Prop := {
  se_price : 0 < t_Price t;
  se_quantity : 0 < t_Quantity t;
  se_value : value t <= MaxInt64;
  se_buyer : Buyer t <> ""%string;
  se_seller : Seller t <> ""%string
}.

Lemma settleable_value t : settleable t -> tradeValue t = Good (value t) /\ moves t = true /\ 0 < value t.
Proof.
  intros [H1 H2 H3 _ _]. assert (Hn : notional (t_Price t) (t_Quantity t) = Good (value t))
    by (apply notional_Good; unfold value in *; split_and!; try lia; done).
  unfold moves. rewrite Hn. split_and!; [|done|unfold value; nia].
  apply tradeValue_Good; [..|done]; unfold value in *; unfold64; nia.
Qed.

Lemma queue_entries_Good trades : Forall settleable trades -> queue_entries trades = Good (trades ≫= legs).
Proof.
  induction 1 as [|t trades Ht _ IH]; [done|]. cbn [queue_entries].
  destruct (settleable_value t Ht) as (-> & _ & _). cbn [mbind result_bind].
  rewrite !bool_decide_false by apply Ht. cbn [orb]. by rewrite IH.
Qed.

Lemma legs_positive t : settleable t -> Forall (fun row => 0 < row.2) (legs t).
Proof. intros Ht. destruct (settleable_value t Ht) as (_ & _ & Hv). pose proof (se_quantity t Ht). by repeat constructor. Qed.

(** What a row's key says of its trade, and that it decides the amount within it. *)
Lemma leg_identity t row : row ∈ legs t -> leg_symbol row.1 = t_Symbol t /\ leg_trade row.1 = wrap64 (t_SeqID t).
Proof. unfold legs. rewrite list_elem_of_In. intros [<-|[<-|[<-|[<-|[]]]]]; done. Qed.

Lemma legs_functional t l a b : (l, a) ∈ legs t -> (l, b) ∈ legs t -> a = b.
Proof.
  unfold legs, queueEntry. rewrite !list_elem_of_In.
  intros [[= <- <-]|[[= <- <-]|[[= <- <-]|[[= <- <-]|[]]]]];
    intros [[= <-]|[[= <-]|[[= <-]|[[= <-]|[]]]]]; congruence.
Qed.

Lemma legs_nodup t : NoDup (legs t).*1.
Proof.
  unfold legs, queueEntry. rewrite !fmap_cons. cbn [fst fmap list_fmap].
  apply NoDup_ListNoDup. repeat constructor; cbn [In]; intuition congruence.
Qed.

(** * Inserting rows *)

Definition ins (j : Journal) (row : leg * Z) : Journal :=
  match j !! row.1 with Some _ => j | None => <[row.1 := row.2]> j end.
Definition post (rows : list (leg * Z)) (j : Journal) : Journal := foldl ins j rows.

Lemma post_app rows rows' j : post (rows ++ rows') j = post rows' (post rows j).
Proof. apply foldl_app. Qed.

Lemma exec_batch_spec rows : forall calls j, Forall (fun row => 0 < row.2) rows ->
  exists calls' r, exec_batch rows calls j = (calls', r) /\ (r = Good (post rows j) \/ r = Fails ErrDatabase) /\
    (calls = [] -> r = Good (post rows j) /\ calls' = []).
Proof.
  induction rows as [|row rows IH]; intros calls j Hp; cbn [exec_batch]; [exists calls, (Good j); auto|].
  apply Forall_cons in Hp as [Hrow Hp]. unfold db_next. destruct (head calls) as [[]|] eqn:Eh; cbn [default from_option id].
  2:{ eexists _, _. split; [reflexivity|]. split; [by right|]. intros ->. done. }
  all: unfold insertEntry; rewrite (proj2 (Z.leb_gt _ _)) by lia;
    assert (Hgo : forall j', j' = ins j row -> exists calls' r, exec_batch rows (tail calls) j' = (calls', r) /\
      (r = Good (post (row :: rows) j) \/ r = Fails ErrDatabase) /\
      (calls = [] -> r = Good (post (row :: rows) j) /\ calls' = []))
      by (intros j' ->; destruct (IH (tail calls) (ins j row) Hp) as (c & r & H1 & H2 & H3);
          exists c, r; split_and!; try done; intros ->; by apply H3);
    unfold ins in Hgo; destruct (j !! row.1); by apply Hgo.
Qed.

(** [Settle] is all or nothing. *)
Lemma Settle_spec calls trades j : Forall settleable trades ->
  let '(j', e) := Settle calls trades j in
  (j' = j \/ j' = post (trades ≫= legs) j) /\ (e = None -> j' = post (trades ≫= legs) j) /\ (calls = [] -> e = None).
Proof.
  intros Ht. unfold Settle. destruct trades as [|t trades]; [by auto|].
  remember (t :: trades) as ts eqn:Ets. clear Ets. unfold db_next.
  destruct (head calls) as [[]|] eqn:Eh; cbn [default from_option id].
  2:{ split_and!; [by left|done|by intros ->]. }
  all: rewrite queue_entries_Good by done;
    destruct (exec_batch_spec (ts ≫= legs) (tail calls) j) as (c & r & -> & Hr & Hc);
    [apply Forall_bind; eapply Forall_impl; [exact Ht|apply legs_positive]|];
    (destruct r as [j'|]; [|split_and!; [by left|done|by intros ->; destruct (Hc eq_refl)]]);
    (destruct Hr as [[= ->]|]; [|done]).
  all: destruct (head c) as [[]|] eqn:Ec; cbn [default from_option id];
    try (split_and!; [by left|done|intros ->; destruct (Hc eq_refl) as [_ ->]; done]);
    destruct (head (tail c)) as [[|[]]|] eqn:Ec2; cbn [default from_option id];
    (split_and!; [auto|done|intros ->; destruct (Hc eq_refl) as [_ ->]; done]).
Qed.

(** * The journal the calls build *)

(** The venue's identity of a trade, as the journal stores it. *)
Definition trade_key (t : Trade) : string * Z := (t_Symbol t, wrap64 (t_SeqID t)).

(** Presentations of one trade agree on its legs; the time stamp may differ, since
    replay stamps its own. *)
Definition identified (U : list Trade) : Prop :=
  forall t u, t ∈ U -> u ∈ U -> trade_key t = trade_key u -> legs t = legs u.

(** The journals that calls of [Settle] on trades of [U] build. *)
Inductive settled_from (U : list Trade) : Journal -> Prop :=
| from_empty : settled_from U ∅
| from_settle j calls trades : settled_from U j -> trades ⊆ U -> settled_from U (Settle calls trades j).1.

(** The journal is exactly the legs of [T]. *)
Record holds_trades (U T : list Trade) (j : Journal) : Prop := {
  ht_from : T ⊆ U;
  ht_once : NoDup (trade_key <$> T);
  ht_rows : map_to_list j ≡ₚ T ≫= legs
}.

Lemma post_present rows j : Forall (fun row => is_Some (j !! row.1)) rows -> post rows j = j.
Proof.
  induction 1 as [|row rows [a Ha] _ IH]; [done|]. unfold post in *. cbn [foldl].
  assert (ins j row = j) as -> by (unfold ins; by rewrite Ha). done.
Qed.

Lemma post_fresh rows : forall j, NoDup rows.*1 -> Forall (fun row => j !! row.1 = None) rows ->
  map_to_list (post rows j) ≡ₚ rows ++ map_to_list j.
Proof.
  induction rows as [|[l a] rows IH]; intros j Hnd Hf; [done|].
  rewrite fmap_cons in Hnd. apply NoDup_cons in Hnd as [Hl Hnd]. apply Forall_cons in Hf as [Hn Hf]. simpl in Hl, Hn.
  unfold post in *. cbn [foldl]. assert (ins j (l, a) = <[l := a]> j) as -> by (unfold ins; simpl; by rewrite Hn).
  rewrite IH; [|done|].
  - rewrite map_to_list_insert by done. symmetry. apply Permutation_middle.
  - rewrite Forall_forall in Hf |- *. intros row Hr. rewrite lookup_insert_ne; [by apply Hf|].
    intros ->. apply Hl. by apply list_elem_of_fmap_2.
Qed.

Lemma holds_row U T j t row : holds_trades U T j -> t ∈ T -> row ∈ legs t -> j !! row.1 = Some row.2.
Proof.
  intros [_ _ Hr] Ht Hrow. apply elem_of_map_to_list. rewrite Hr. apply list_elem_of_bind. exists t.
  by destruct row.
Qed.

Lemma row_trade U T j l a : holds_trades U T j -> j !! l = Some a ->
  exists t, t ∈ T /\ (l, a) ∈ legs t /\ trade_key t = (leg_symbol l, leg_trade l).
Proof.
  intros [_ _ Hr] Hl. apply elem_of_map_to_list in Hl. rewrite Hr in Hl.
  apply list_elem_of_bind in Hl as (t & Hl & Ht). exists t. split_and!; [done|done|].
  destruct (leg_identity t _ Hl) as [H1 H2]. unfold trade_key. simpl in *. congruence.
Qed.

Lemma post_trade U T j t : identified U -> t ∈ U -> holds_trades U T j ->
  holds_trades U (if decide (trade_key t ∈ trade_key <$> T) then T else t :: T) (post (legs t) j).
Proof.
  intros Hid Htu Hj. case_decide as Hin.
  - apply list_elem_of_fmap in Hin as (u & Hk & Hu). rewrite (Hid t u Htu (ht_from _ _ _ Hj u Hu) Hk).
    rewrite post_present; [done|]. apply Forall_forall. intros row Hr. rewrite (holds_row U T j u row Hj Hu Hr). by eexists.
  - split.
    + intros u [->|Hu]%elem_of_cons; [done|]. by apply (ht_from _ _ _ Hj).
    + rewrite fmap_cons. apply NoDup_cons. by split; [|apply Hj].
    + rewrite post_fresh; [rewrite (ht_rows _ _ _ Hj); done|apply legs_nodup|].
      apply Forall_forall. intros row Hr. destruct (j !! row.1) as [a|] eqn:Ha; [|done]. destruct Hin.
      destruct (row_trade U T j _ _ Hj Ha) as (u & Hu & _ & Hk). destruct (leg_identity t row Hr) as [H1 H2].
      apply list_elem_of_fmap. exists u. split; [|done]. rewrite Hk. unfold trade_key. congruence.
Qed.

Lemma post_trades U trades : identified U -> forall T j, trades ⊆ U -> holds_trades U T j ->
  exists T', holds_trades U T' (post (trades ≫= legs) j) /\
    forall k, k ∈ trade_key <$> T' <-> k ∈ trade_key <$> T \/ k ∈ trade_key <$> trades.
Proof.
  intros Hid. induction trades as [|t trades IH]; intros T j Hsub Hj.
  - exists T. split; [done|]. intros k. simpl. rewrite elem_of_nil. tauto.
  - assert (Ht : t ∈ U) by (apply Hsub; left). assert (Hts : trades ⊆ U) by (intros u Hu; apply Hsub; by right).
    cbn [mbind list_bind]. rewrite post_app.
    destruct (IH _ _ Hts (post_trade U T j t Hid Ht Hj)) as (T' & HT' & Hk).
    exists T'. split; [done|]. intros k. rewrite Hk, fmap_cons, elem_of_cons.
    destruct (decide (trade_key t ∈ trade_key <$> T)); [|rewrite fmap_cons, elem_of_cons; tauto].
    split; [tauto|]. intros [?|[->|?]]; auto.
Qed.

(** The order of [T] does not matter, and [U] may grow. *)
Lemma holds_perm U T T' j : T ≡ₚ T' -> holds_trades U T j -> holds_trades U T' j.
Proof. intros HT [H1 H2 H3]. split; [intros t; rewrite <- HT; apply H1|by rewrite <- HT|by rewrite <- HT]. Qed.

Lemma holds_weaken U U' T j : U ⊆ U' -> holds_trades U T j -> holds_trades U' T j.
Proof. intros HU [H1 H2 H3]. split; [by etransitivity|done|done]. Qed.

(** New trades are posted next to the others. *)
Lemma post_new U trades : identified U -> forall T j, trades ⊆ U -> NoDup (trade_key <$> trades ++ T) ->
  holds_trades U T j -> holds_trades U (trades ++ T) (post (trades ≫= legs) j).
Proof.
  intros Hid. induction trades as [|t trades IH]; intros T j Hsub Hnd Hj; [done|].
  simpl in Hnd. apply NoDup_cons in Hnd as [Hni Hnd]. rewrite bind_cons, post_app.
  pose proof (post_trade U T j t Hid (Hsub t (list_elem_of_here _ _)) Hj) as H1.
  rewrite decide_False in H1 by (intros Hin; apply Hni; rewrite fmap_app, elem_of_app; by right).
  apply (holds_perm U (trades ++ t :: T)); [symmetry; apply Permutation_middle|]. apply IH; [|  |done].
  - intros u Hu. apply Hsub. by right.
  - rewrite <- Permutation_middle. simpl. by apply NoDup_cons.
Qed.

(** Posting something changes the journal. *)
Lemma holds_length U T j : holds_trades U T j -> size j = (4 * length T)%nat.
Proof.
  intros [_ _ Hr]. rewrite <- length_map_to_list, Hr. clear Hr. induction T as [|t T IH]; [done|].
  rewrite bind_cons, length_app, IH. simpl. lia.
Qed.

Lemma Settle_holds U calls trades T j : identified U -> Forall settleable U -> trades ⊆ U -> holds_trades U T j ->
  exists T', holds_trades U T' (Settle calls trades j).1 /\
    (forall k, k ∈ trade_key <$> T -> k ∈ trade_key <$> T') /\
    ((forall k, k ∈ trade_key <$> trades -> k ∈ trade_key <$> T') \/ (Settle calls trades j).1 = j) /\
    ((Settle calls trades j).2 = None -> forall k, k ∈ trade_key <$> trades -> k ∈ trade_key <$> T').
Proof.
  intros Hid Hs Hsub Hj. assert (Ht : Forall settleable trades) by (rewrite Forall_forall in *; auto).
  pose proof (Settle_spec calls trades j Ht) as H. destruct (Settle calls trades j) as [j' e]. simpl in *.
  destruct H as (Hc & Hn & _). destruct (post_trades U trades Hid T j Hsub Hj) as (T' & HT' & Hk).
  destruct e as [e|].
  - destruct Hc as [->| ->]; [exists T; by split_and!; auto|]. exists T'.
    split_and!; [done|intros k; rewrite Hk; auto|left; intros k; rewrite Hk; auto|done].
  - rewrite (Hn eq_refl). exists T'. split_and!; [done|..|left|]; intros; apply Hk; auto.
Qed.

Lemma settled_holds U j : identified U -> Forall settleable U -> settled_from U j -> exists T, holds_trades U T j.
Proof.
  intros Hid Hs. induction 1 as [|j calls trades _ [T HT] Hsub].
  - exists []. split; [set_solver|apply NoDup_nil_2|by rewrite map_to_list_empty].
  - destruct (Settle_holds U calls trades T j Hid Hs Hsub HT) as (T' & HT' & _). by exists T'.
Qed.

(** * The two overflow checks agree *)

(** The two overflow guards of the code agree: [tradeValue], which multiplies
    and divides back, accepts a trade with the value [v] exactly when matching's
    [notional] accepts its price and quantity with [v]; so no trade the account
    store moves is one the ledger refuses to post. When it accepts, no product
    wrapped. *)
Theorem tradeValue_agrees t : in64 (t_Price t) -> in64 (t_Quantity t) ->
  (forall v, tradeValue t = Good v <-> notional (t_Price t) (t_Quantity t) = Good v) /\
  (forall v, tradeValue t = Good v -> v = t_Price t * t_Quantity t /\ 0 <= v <= MaxInt64) /\
  (settleable t -> exists v, tradeValue t = Good v /\ 0 < v).
Proof.
  intros Hp Hq. split; [|split].
  - intros v. by apply tradeValue_Good.
  - intros v Hv. apply tradeValue_Good in Hv; [|done..]. apply notional_Good in Hv as (H1 & H2 & H3 & ->).
    split; [done|]. nia.
  - intros Hs. exists (value t). by destruct (settleable_value t Hs) as (? & _ & ?).
Qed.

Lemma tradeValue_agrees_witness :
  tradeValue (mkTrade 1 "NABIL" 100 1 2 "ann" "bob" 3 Sell 1000) = Good 300.
Proof.
  apply (proj1 (tradeValue_agrees (mkTrade 1 "NABIL" 100 1 2 "ann" "bob" 3 Sell 1000)
    ltac:(split; vm_compute; discriminate) ltac:(split; vm_compute; discriminate))). vm_compute. reflexivity.
Defined.
