(* ===== verification/LedgerRead.v ===== *)
(** Reading the journal back.

    A sum over the rows of a journal is a sum over its trades, so that the queries
    of [ledger.go] come down to what one trade's four legs contribute. *)

From Stdlib Require Import ZArith Lia.
From stdpp Require Import base gmap list strings.
From S2P Require Import Prelude Types Accounts AccountsInv Ledger LedgerFacts.

Open Scope Z_scope.

(** What a row adds to debits minus credits over the rows of [P]. *)
Definition signed (P : leg -> bool) (row : leg * Z) : Z :=
  if P row.1 then match leg_direction row.1 with DirectionDebit => row.2 | DirectionCredit => - row.2 end else 0.

Lemma net_signed P j : net P j = sumZ (signed P) (map_to_list j).
Proof.
  unfold net, sum_rows, map_sum. rewrite <- sumZ_sub. apply sumZ_ext. intros [l a] _.
  unfold signed. simpl. destruct (P l), (leg_direction l); simpl; lia.
Qed.

Lemma net_trades U T j P : holds_trades U T j -> net P j = sumZ (fun t => sumZ (signed P) (legs t)) T.
Proof. intros Hj. rewrite net_signed, (ht_rows _ _ _ Hj). by autorewrite with sums. Qed.

Lemma legs_cash t ac : settleable t -> sumZ (signed (cash_rows ac)) (legs t) = cash_flow ac t.
Proof.
  intros Ht. unfold cash_flow. destruct (settleable_value t Ht) as (_ & -> & _).
  unfold signed, cash_rows, legs, queueEntry. simpl.
  unfold leg_account, leg_asset, leg_direction. simpl.
  destruct (decide (Seller t = ac)) as [Hs|Hs], (decide (Buyer t = ac)) as [Hb|Hb];
    rewrite ?(bool_decide_true (Seller t = ac)), ?(bool_decide_true (Buyer t = ac)) by done;
    rewrite ?(bool_decide_false (Seller t = ac)), ?(bool_decide_false (Buyer t = ac)) by done; simpl; lia.
Qed.

Lemma legs_shares t ac sy : settleable t -> sumZ (signed (position_rows ac sy)) (legs t) = share_flow ac sy t.
Proof.
  intros Ht. unfold share_flow. destruct (settleable_value t Ht) as (_ & -> & _).
  unfold signed, position_rows, legs, queueEntry. simpl.
  unfold leg_account, leg_asset, leg_direction, leg_symbol. simpl.
  destruct (decide (t_Symbol t = sy)) as [Hy|Hy];
    [rewrite (bool_decide_true (t_Symbol t = sy)) by done|rewrite (bool_decide_false (t_Symbol t = sy)) by done];
  destruct (decide (Seller t = ac)) as [Hs|Hs], (decide (Buyer t = ac)) as [Hb|Hb];
    rewrite ?(bool_decide_true (Seller t = ac)), ?(bool_decide_true (Buyer t = ac)) by done;
    rewrite ?(bool_decide_false (Seller t = ac)), ?(bool_decide_false (Buyer t = ac)) by done;
    repeat case_decide; simpl; first [lia | tauto].
Qed.

(** The sums of the queries are the flows of the trades. *)
Lemma net_flows U T j : Forall settleable U -> holds_trades U T j ->
  (forall ac, net (cash_rows ac) j = sumZ (cash_flow ac) T) /\
  (forall ac sy, net (position_rows ac sy) j = sumZ (share_flow ac sy) T).
Proof.
  intros Hs HT. assert (HsT : forall t, t ∈ T -> settleable t)
    by (rewrite Forall_forall in Hs; intros t Ht; by apply Hs, (ht_from _ _ _ HT)).
  split; intros; rewrite (net_trades U T j _ HT); apply sumZ_ext; intros t Ht; [by apply legs_cash, HsT|by apply legs_shares, HsT].
Qed.

(** Each trade's debits are its credits, asset by asset. *)
Lemma legs_movement t m : settleable t -> sumZ (signed (in_movement m)) (legs t) = 0.
Proof.
  intros Ht. unfold signed, in_movement, legs, queueEntry. simpl. unfold movement_of, leg_symbol, leg_trade, leg_asset, leg_direction.
  simpl. repeat case_bool_decide; simpl; first [lia | congruence].
Qed.

(** The rows of one trade. *)
Lemma legs_count t k :
  sumZ (fun row : leg * Z => if decide (leg_symbol row.1 = k.1 /\ leg_trade row.1 = k.2) then 1 else 0) (legs t)
    = if decide (trade_key t = k) then 4 else 0.
Proof.
  destruct k as [sy n]. rewrite (sumZ_ext _ (fun _ => if decide (trade_key t = (sy, n)) then 1 else 0)).
  - simpl. case_decide; lia.
  - intros row Hr. destruct (leg_identity t row Hr) as [-> ->]. unfold trade_key. simpl.
    repeat case_decide; try done; naive_solver.
Qed.

(** * [Balances] *)

(** What the groups of [gs] bring an account. *)
Definition group_net (Q : group -> bool) (j : Journal) (gs : list group) : Z :=
  sumZ (fun g => if Q g then net (in_group g) j else 0) gs.

(** Every row is in exactly one group. *)
Lemma group_net_all Q j : group_net Q j (groups j) = net (fun l => Q (group_of l)) j.
Proof.
  unfold group_net. rewrite net_signed.
  rewrite (sumZ_ext _ (fun g => sumZ (fun row => if decide (g = group_of row.1) then signed (fun l => Q (group_of l)) row else 0) (map_to_list j))).
  - rewrite sumZ_swap. apply sumZ_ext. intros row Hr.
    rewrite (sumZ_once (fun g => g)) by (rewrite list_fmap_id; apply NoDup_remove_dups).
    rewrite decide_True; [done|]. rewrite list_fmap_id. apply elem_of_remove_dups.
    by apply list_elem_of_fmap_2, list_elem_of_fmap_2.
  - intros g _. rewrite net_signed. destruct (Q g) eqn:Hq.
    + apply sumZ_ext. intros row _. unfold signed, in_group. destruct (decide (g = group_of row.1)) as [->|Hne].
      * by rewrite bool_decide_true, Hq.
      * by rewrite bool_decide_false.
    + symmetry. apply sumZ_zero. intros row _. destruct (decide (g = group_of row.1)) as [->|]; [|done].
      unfold signed. by rewrite Hq.
Qed.

Definition cash_group (ac : string) (g : group) : bool := bool_decide (g.1.1 = ac) && bool_decide (g.1.2 = AssetCash).
Definition position_group (ac sy : string) (g : group) : bool :=
  bool_decide (g.1.1 = ac) && bool_decide (g.1.2 = AssetPosition) && bool_decide (g.2 = sy).

Lemma balance_row_reads g v c p :
  let '(c', p') := balance_row g v (c, p) in
  (forall ac, eq64 (zlookup c' ac) (zlookup c ac + if cash_group ac g then v else 0)) /\
  (forall ac sy, eq64 (zlookup2 p' ac sy) (zlookup2 p ac sy + if position_group ac sy g then v else 0)).
Proof.
  destruct g as [[account []] symbol]; unfold balance_row, cash_group, position_group; simpl; split; intros.
  all: rewrite ?zlookup_zadd64, ?zlookup2_add64; repeat case_bool_decide; repeat case_decide; simpl;
    first [tauto | apply eq64_of_eq; lia].
Qed.

Lemma balance_rows_reads j gs : forall c p c' p', balance_rows gs j (c, p) = Good (c', p') ->
  (forall ac, eq64 (zlookup c' ac) (zlookup c ac + group_net (cash_group ac) j gs)) /\
  (forall ac sy, eq64 (zlookup2 p' ac sy) (zlookup2 p ac sy + group_net (position_group ac sy) j gs)).
Proof.
  induction gs as [|g gs IH]; intros c p c' p' H; cbn [balance_rows] in H.
  - injection H as <- <-. unfold group_net. simpl. split; intros; apply eq64_of_eq; lia.
  - unfold scan in H. case_decide; [|done]. cbn [mbind result_bind] in H.
    pose proof (balance_row_reads g (net (in_group g) j) c p) as Hr.
    destruct (balance_row g (net (in_group g) j) (c, p)) as [c1 p1]. destruct Hr as [Hc Hp].
    destruct (IH _ _ _ _ H) as [Hc' Hp']. unfold group_net in *. simpl. split; intros.
    + rewrite Hc', Hc. apply eq64_of_eq. lia.
    + rewrite Hp', Hp. apply eq64_of_eq. lia.
Qed.

Lemma Balances_reads j c p : Balances j = Good (c, p) ->
  (forall ac, eq64 (zlookup c ac) (net (cash_rows ac) j)) /\
  (forall ac sy, eq64 (zlookup2 p ac sy) (net (position_rows ac sy) j)).
Proof.
  intros H. destruct (balance_rows_reads j _ _ _ _ _ H) as [Hc Hp]. split; intros.
  - rewrite Hc, group_net_all. apply eq64_of_eq. done.
  - rewrite Hp, group_net_all. apply eq64_of_eq. done.
Qed.

(** It answers whenever no group's net overflows an [int64]. *)
Lemma balance_rows_Good j gs : (forall g, g ∈ gs -> in64 (net (in_group g) j)) ->
  forall acc, exists r, balance_rows gs j acc = Good r.
Proof.
  induction gs as [|g gs IH]; intros H acc; cbn [balance_rows]; [by eexists|].
  unfold scan. rewrite decide_True by (apply H; left). cbn [mbind result_bind].
  apply IH. intros g' Hg. apply H. by right.
Qed.
