(* ===== verification/LedgerProps.v ===== *)
(** What the settlement ledger guarantees: a trade is posted once, all four legs or
    none, however often it is presented; the journal balances; and its sums are the
    flows of the trades it holds, in the units the account store moves them. *)

From Stdlib Require Import ZArith Lia.
From stdpp Require Import base gmap list strings.
From S2P Require Import Prelude Types Accounts AccountsInv AccountsSolv AccountsProps Ledger LedgerFacts LedgerRead.

Open Scope Z_scope.

(** All four legs of every trade are in the journal. *)
Definition journalled (trades : list Trade) (j : Journal) : Prop :=
  forall t row, t ∈ trades -> row ∈ legs t -> j !! row.1 = Some row.2.

(** Not one leg of the trade is. *)
Definition absent (t : Trade) (j : Journal) : Prop := forall row, row ∈ legs t -> j !! row.1 = None.

Lemma journalled_holds U T j trades : identified U -> trades ⊆ U -> holds_trades U T j ->
  (forall k, k ∈ trade_key <$> trades -> k ∈ trade_key <$> T) -> journalled trades j.
Proof.
  intros Hid Hsub Hj Hk t row Ht Hr.
  destruct (proj1 (list_elem_of_fmap _ _ _) (Hk _ (list_elem_of_fmap_2 trade_key _ _ Ht))) as (u & Hku & Hu).
  apply (holds_row U T j u row Hj Hu). by rewrite <- (Hid t u (Hsub t Ht) (ht_from _ _ _ Hj u Hu) Hku).
Qed.

Lemma journalled_one U T j t : identified U -> t ∈ U -> holds_trades U T j ->
  trade_key t ∈ trade_key <$> T -> journalled [t] j.
Proof.
  intros Hid Ht Hj Hk. apply (journalled_holds U T); [done| |done|].
  - by intros u ->%list_elem_of_singleton.
  - intros k Hk'. by apply list_elem_of_singleton in Hk' as ->.
Qed.

(** Settling what is there is doing nothing. *)
Lemma Settle_again calls trades j : Forall settleable trades -> journalled trades j ->
  (Settle calls trades j).1 = j.
Proof.
  intros Hs Hj. pose proof (Settle_spec calls trades j Hs) as H. destruct (Settle calls trades j) as [j' e]. simpl.
  destruct H as ([-> | ->] & _); [done|]. apply post_present, Forall_forall. intros row Hr.
  apply list_elem_of_bind in Hr as (t & Hr & Ht). rewrite (Hj t row Ht Hr). by eexists.
Qed.

Module LedgerDemo.
Definition sale : Trade := mkTrade 1 "NABIL" 100 1 2 "ann" "bob" 3 Sell 1000.
Definition self : Trade := mkTrade 2 "NABIL" 90 3 4 "ann" "ann" 2 Buy 1001.
(** The first trade again, as replay stamps it. *)
Definition resale : Trade := mkTrade 1 "NABIL" 100 1 2 "ann" "bob" 3 Sell 5000.
Definition U : list Trade := [sale; self; resale].
Definition j1 : Journal := (Settle [] [sale; self] ∅).1.

Lemma U_identified : identified U.
Proof.
  intros t u Ht Hu. unfold U in *. rewrite !list_elem_of_In in *.
  destruct Ht as [<-|[<-|[<-|[]]]], Hu as [<-|[<-|[<-|[]]]]; vm_compute; intros E; first [reflexivity | discriminate E].
Qed.
Lemma U_settleable : Forall settleable U.
Proof. repeat apply Forall_cons_2; [..|done]; split; vm_compute; try reflexivity; discriminate. Qed.
Lemma j1_settled : settled_from U j1.
Proof.
  apply (from_settle U ∅ [] [sale; self] (from_empty U)). unfold U. intros t [->|[->|[]%elem_of_nil]%elem_of_cons]%elem_of_cons; set_solver.
Qed.
End LedgerDemo.

(** * The properties *)

(** C15: settlement is exactly-once. Whatever calls came before and however the
    database answers, [Settle] on trades of [U] either leaves the journal as it was
    or puts all legs of all of them there; when it reports success it did the
    latter; rows that were there keep their amounts; trades that were settled,
    presented again (as replay does, with other time stamps), change nothing; and
    with a database that answers, it succeeds. *)
Theorem settled_once U calls trades j : identified U -> Forall settleable U -> settled_from U j -> trades ⊆ U ->
  let '(j', e) := Settle calls trades j in
  (j' = j \/ journalled trades j') /\
  (e = None -> journalled trades j') /\
  (forall l a, j !! l = Some a -> j' !! l = Some a) /\
  (journalled trades j -> j' = j) /\
  (calls = [] -> e = None).
Proof.
  intros Hid Hs Hj Hsub. destruct (settled_holds U j Hid Hs Hj) as [T HT].
  pose proof (Settle_holds U calls trades T j Hid Hs Hsub HT) as (T' & HT' & Hk & Hc & Hn).
  assert (Ht : Forall settleable trades) by (rewrite Forall_forall in *; auto).
  pose proof (Settle_again calls trades j Ht) as Ha. pose proof (Settle_spec calls trades j Ht) as Hsp.
  destruct (Settle calls trades j) as [j' e]. simpl in *. destruct Hsp as (_ & _ & Hcalls).
  split_and!; [|intros He; by apply (journalled_holds U T'), Hn| |done|done].
  - destruct Hc as [Hc| ->]; [right|by left]. by apply (journalled_holds U T').
  - intros l a Hl. destruct (row_trade U T j l a HT Hl) as (t & Htt & Hr & _).
    assert (Htk : trade_key t ∈ trade_key <$> T') by (by apply Hk, list_elem_of_fmap_2).
    apply (journalled_one U T' j' t Hid (ht_from _ _ _ HT t Htt) HT' Htk t (l, a)); [by left|done].
Qed.

Lemma settled_once_witness :
  (Settle [DbOk; DbErr false] [LedgerDemo.resale] LedgerDemo.j1).1 = LedgerDemo.j1 /\
  journalled [LedgerDemo.resale] LedgerDemo.j1.
Proof.
  assert (Hj : journalled [LedgerDemo.resale] LedgerDemo.j1).
  { intros t row Ht Hr. apply list_elem_of_singleton in Ht as ->. rewrite list_elem_of_In in Hr.
    destruct Hr as [<-|[<-|[<-|[<-|[]]]]]; vm_compute; reflexivity. }
  split; [|exact Hj].
  pose proof (settled_once LedgerDemo.U [DbOk; DbErr false] [LedgerDemo.resale] LedgerDemo.j1
    LedgerDemo.U_identified LedgerDemo.U_settleable LedgerDemo.j1_settled) as H.
  destruct (Settle [DbOk; DbErr false] [LedgerDemo.resale] LedgerDemo.j1) as [j' e].
  destruct H as (_ & _ & _ & H & _); [|exact (H Hj)].
  intros t ->%list_elem_of_singleton. right. right. left.
Defined.

(** The journal always balances: [Imbalance] reports no movement whose debits
    are not its credits, also when a party trades with itself; and every trade of
    [U] has either exactly four entries, all its legs, or none. *)
Theorem journal_balanced U j : identified U -> Forall settleable U -> settled_from U j ->
  Imbalance j = 0%nat /\
  forall t, t ∈ U -> (EntryCount (t_Symbol t) (t_SeqID t) j = 4%nat /\ journalled [t] j) \/
                     (EntryCount (t_Symbol t) (t_SeqID t) j = 0%nat /\ absent t j).
Proof.
  intros Hid Hs Hj. destruct (settled_holds U j Hid Hs Hj) as [T HT]. split.
  - unfold Imbalance. rewrite filter_drop; [done|]. apply Forall_forall. intros m _ Hne. apply Hne.
    enough (net (in_movement m) j = 0) by (unfold net in *; lia). rewrite (net_trades U T j _ HT).
    apply sumZ_zero. intros t Ht. apply legs_movement. rewrite Forall_forall in Hs. by apply Hs, (ht_from _ _ _ HT).
  - intros t Ht.
    assert (Hn : Z.of_nat (EntryCount (t_Symbol t) (t_SeqID t) j)
               = if decide (trade_key t ∈ trade_key <$> T) then 4 else 0).
    { unfold EntryCount. rewrite length_filter_sumZ. autorewrite with sums. rewrite (ht_rows _ _ _ HT). autorewrite with sums.
      rewrite (sumZ_ext _ (fun u => if decide (trade_key u = trade_key t) then 4 else 0))
        by (intros u _; apply (legs_count u (trade_key t))).
      apply sumZ_once, HT. }
    case_decide as Hk; [left|right]; (split; [lia|]).
    + by apply (journalled_one U T).
    + intros row Hr. destruct (j !! row.1) as [a|] eqn:Ha; [|done]. destruct Hk.
      destruct (row_trade U T j _ a HT Ha) as (u & Hu & _ & Hku). destruct (leg_identity t row Hr) as [H1 H2].
      assert (trade_key t = trade_key u) as -> by (rewrite Hku; unfold trade_key; congruence).
      by apply list_elem_of_fmap_2.
Qed.

Lemma journal_balanced_witness :
  Imbalance LedgerDemo.j1 = 0%nat /\ EntryCount "NABIL" 2 LedgerDemo.j1 = 4%nat.
Proof.
  destruct (journal_balanced LedgerDemo.U LedgerDemo.j1 LedgerDemo.U_identified LedgerDemo.U_settleable
              LedgerDemo.j1_settled) as [H H2].
  split; [exact H|]. destruct (H2 LedgerDemo.self) as [[H4 _]|[H0 _]]; [right; left|exact H4|].
  vm_compute in H0. discriminate H0.
Defined.

(** C39: the journal is the account store's durable twin. There is one set of trades
    [T], each once and all journalled, such that [Balance] and [Position], when
    they answer, give exactly the cash and shares [Complete] moves for [T]; and
    whatever [Balances] answers, loading it into a store without live reservations
    gives every account those same amounts, as 64-bit integers: a restarted node's
    balances are the executed trades'. *)
Theorem journal_is_the_store U j : identified U -> Forall settleable U -> settled_from U j ->
  exists T, T ⊆ U /\ NoDup (trade_key <$> T) /\ journalled T j /\
    (forall ac v, ledger_Balance ac j = Good v -> v = sumZ (cash_flow ac) T) /\
    (forall ac sy v, ledger_Position ac sy j = Good v -> v = sumZ (share_flow ac sy) T) /\
    (forall c p a, Balances j = Good (c, p) -> acc_wf a -> HoldCount a = 0%nat ->
       let a' := (LoadBalances c p a).1 in
       (forall ac, eq64 (Cash ac a') (sumZ (cash_flow ac) T)) /\
       (forall ac sy, eq64 (Position ac sy a') (sumZ (share_flow ac sy) T))).
Proof.
  intros Hid Hs Hj. destruct (settled_holds U j Hid Hs Hj) as [T HT].
  destruct (net_flows U T j Hs HT) as [Hc Hp].
  exists T. split_and!; [exact (ht_from _ _ _ HT)|exact (ht_once _ _ _ HT)|exact (journalled_holds U T j T Hid (ht_from _ _ _ HT) HT (fun _ H => H))|..].
  - intros ac v. unfold ledger_Balance, scan. case_decide; [|done]. intros [= <-]. apply Hc.
  - intros ac sy v. unfold ledger_Position, scan. case_decide; [|done]. intros [= <-]. apply Hp.
  - intros c p a Hb Hwf H0. destruct (Balances_reads j c p Hb) as [Hbc Hbp].
    destruct (LoadBalances_spec c p a Hwf) as (_ & _ & Hl). simpl.
    destruct (LoadBalances c p a).2; [|by destruct Hl]. destruct Hl as (_ & Hcash & Hpos). split.
    + intros ac. unfold Cash. by rewrite Hcash, Hbc, Hc.
    + intros ac sy. rewrite Hpos, <- Hp, <- Hbp. unfold zlookup2, inner, zlookup.
      by destruct (p !! ac).
Qed.

Lemma journal_is_the_store_witness : exists T, journalled T LedgerDemo.j1 /\
  sumZ (cash_flow "bob") T = 300 /\ sumZ (share_flow "ann" "NABIL") T = 3.
Proof.
  destruct (journal_is_the_store LedgerDemo.U LedgerDemo.j1 LedgerDemo.U_identified LedgerDemo.U_settleable
              LedgerDemo.j1_settled) as (T & _ & _ & Hj & Hb & Hp & _).
  exists T. split; [exact Hj|]. split; symmetry; [apply Hb|apply Hp]; vm_compute; reflexivity.
Defined.
