(* ===== verification/Migrations.v ===== *)
(** Schema migrations, from [Migrate] of [src/internal/ledger/ledger.go].

    The database is whether [schema_migrations] exists, the names recorded in it,
    and the migrations whose statements have taken effect, each list in order. The
    advisory lock is held from the start of a transaction to its end, so that of two
    nodes migrating at once one waits: a call of [applyMigration] is one step. A
    migration's statements are not interpreted; what matters is that they run. *)

From Stdlib Require Import ZArith Lia String.
From stdpp Require Import base gmap list strings sorting.
From S2P Require Import Prelude Types WalRecord Bytes WalFormat SegNames Wal Ledger.

Open Scope Z_scope.

Record Schema := mkSchema {
  has_table : bool;
  recorded : list string;
  executed : list string
}.

(** [migrationNames], of the embedded directory's entries. *)
Definition migrationNames (entries : list (string * bool)) : list string :=
  merge_sort name_le (fst <$> filter (fun e => e.2 = false /\ has_suffix ".sql" e.1 = true) entries).

(** [CREATE TABLE IF NOT EXISTS], outside a transaction. *)
Definition create_table (calls : list DbRes) (db : Schema) : list DbRes * Schema * option ledger_error :=
  match db_next calls with
  | (DbOk, calls) => (calls, mkSchema true (recorded db) (executed db), None)
  | (DbErr effect, calls) =>
      (calls, mkSchema ((has_table db) || effect) (recorded db) (executed db), Some ErrDatabase)
  end.

(** The calls of a transaction up to its commit, which stop at the first error. *)
Fixpoint calls_ok (n : nat) (calls : list DbRes) : list DbRes * bool :=
  match n with
  | O => (calls, true)
  | S n => match db_next calls with
           | (DbOk, calls) => calls_ok n calls
           | (DbErr _, calls) => (calls, false)
           end
  end.

(** [applyMigration]: begin, lock and check; then the statements and the record,
    and the commit. *)
Definition applyMigration (name : string) (calls : list DbRes) (db : Schema) : list DbRes * Schema * option ledger_error :=
  match calls_ok 3 calls with
  | (calls, false) => (calls, db, Some ErrDatabase)
  | (calls, true) =>
      if decide (name ∈ recorded db) then (calls, db, None) else
      match calls_ok 2 calls with
      | (calls, false) => (calls, db, Some ErrDatabase)
      | (calls, true) =>
          let db' := mkSchema (has_table db) (recorded db ++ [name]) (executed db ++ [name]) in
          match db_next calls with
          | (DbOk, calls) => (calls, db', None)
          | (DbErr true, calls) => (calls, db', Some ErrDatabase)
          | (DbErr false, calls) => (calls, db, Some ErrDatabase)
          end
      end
  end.

(** [Migrate]'s loop, and [Migrate]. *)
Fixpoint migrate_loop (names : list string) (calls : list DbRes) (db : Schema) : list DbRes * Schema * option ledger_error :=
  match names with
  | [] => (calls, db, None)
  | name :: names =>
      match applyMigration name calls db with
      | (calls, db, Some e) => (calls, db, Some e)
      | (calls, db, None) => migrate_loop names calls db
      end
  end.

Definition Migrate (entries : list (string * bool)) (calls : list DbRes) (db : Schema) : Schema * option ledger_error :=
  match create_table calls db with
  | (_, db, Some e) => (db, Some e)
  | (calls, db, None) => let '(_, db, e) := migrate_loop (migrationNames entries) calls db in (db, e)
  end.

(** * Several nodes at once *)

(** A node that is migrating has come to the migration at [todo]'s head. *)
Abbreviation nodes := (gmap nat (list string)).

Inductive migrating (names : list string) : Schema -> nodes -> Prop :=
| mig_fresh : migrating names (mkSchema false [] []) ∅
| mig_start n calls db ns db' rest : migrating names db ns -> create_table calls db = (rest, db', None) ->
    migrating names db' (<[n := names]> ns)
| mig_start_failed calls db ns db' rest e : migrating names db ns -> create_table calls db = (rest, db', Some e) ->
    migrating names db' ns
| mig_step n name todo calls db ns db' rest : migrating names db ns -> ns !! n = Some (name :: todo) ->
    applyMigration name calls db = (rest, db', None) -> migrating names db' (<[n := todo]> ns)
| mig_failed n name todo calls db ns db' rest e : migrating names db ns -> ns !! n = Some (name :: todo) ->
    applyMigration name calls db = (rest, db', Some e) -> migrating names db' (delete n ns).

Lemma applyMigration_spec name calls db : let '(_, db', e) := applyMigration name calls db in
  has_table db' = has_table db /\
  ((recorded db' = recorded db /\ executed db' = executed db) \/
   ((name ∉ recorded db) /\ recorded db' = recorded db ++ [name] /\ executed db' = executed db ++ [name])) /\
  (e = None -> name ∈ recorded db') /\
  (name ∈ recorded db -> db' = db) /\
  (calls = [] -> e = None).
Proof.
  unfold applyMigration. destruct (calls_ok 3 calls) as [c1 b1] eqn:E1.
  assert (Hn1 : calls = [] -> c1 = [] /\ b1 = true) by (intros ->; by injection E1 as <- <-).
  destruct b1; cbv beta iota; [|split_and!; [done|by left|done|done|by intros [? ?]%Hn1]].
  case_decide as Hin; cbv beta iota; [split_and!; [done|by left|done|done|done]|].
  destruct (calls_ok 2 c1) as [c2 b2] eqn:E2.
  assert (Hn2 : calls = [] -> c2 = [] /\ b2 = true) by (intros [-> _]%Hn1; by injection E2 as <- <-).
  destruct b2; cbv beta iota; [|split_and!; [done|by left|done|done|by intros [? ?]%Hn2]].
  destruct (db_next c2) as [[|[]] c3] eqn:E3; cbn [has_table recorded executed]; split_and!; try done;
    try (by right); try (by left); try (intros _; apply elem_of_app; right; left);
    intros [-> _]%Hn2; by vm_compute in E3.
Qed.

(** What every node and the database agree on. *)
Record migrated (names : list string) (k : nat) (db : Schema) (ns : nodes) : Prop := {
  mg_recorded : recorded db = take k names;
  mg_executed : executed db = take k names;
  mg_bound : (k <= length names)%nat;
  mg_nodes : forall n todo, ns !! n = Some todo -> exists i, todo = drop i names /\ (i <= k)%nat
}.

Lemma migrating_migrated names db ns : NoDup names -> migrating names db ns -> exists k, migrated names k db ns.
Proof.
  intros Hnd. induction 1 as [|n calls db ns db' rest _ [k [H1 H2 H3 H4]] Hc|calls db ns db' rest e _ [k [H1 H2 H3 H4]] Hc
    |n name todo calls db ns db' rest _ [k [H1 H2 H3 H4]] Hn Ha|n name todo calls db ns db' rest e _ [k [H1 H2 H3 H4]] Hn Ha].
  - exists 0%nat. split; [done|done|simpl; lia|]. intros n todo Hn. by rewrite lookup_empty in Hn.
  - exists k. unfold create_table in Hc. destruct (db_next calls) as [[]]; [|done]. injection Hc as _ <-. split; try done.
    intros m todo [[<- <-]|[_ Hm]]%lookup_insert_Some; [exists 0%nat; split; [done|lia]|by apply (H4 m)].
  - exists k. unfold create_table in Hc. destruct (db_next calls) as [[]]; [done|]. injection Hc as _ <- _. by split.
  - pose proof (applyMigration_spec name calls db) as Hs. rewrite Ha in Hs. destruct Hs as (_ & Hr & Hin & Hid & _).
    destruct (H4 n _ Hn) as (i & Hi & Hik). specialize (Hin eq_refl).
    assert (Hname : names !! i = Some name) by (rewrite <- (Nat.add_0_r i), <- lookup_drop, <- Hi; done).
    assert (Htodo : todo = drop (S i) names) by (rewrite (drop_S _ _ _ Hname) in Hi; congruence).
    destruct (decide (i < k)%nat) as [Hlt|Hge].
    + assert (Hrec : name ∈ recorded db).
      { rewrite H1. apply list_elem_of_lookup. exists i. by rewrite lookup_take_lt. }
      rewrite (Hid Hrec). exists k. split; try done.
      intros m todo' [[<- <-]|[_ Hm]]%lookup_insert_Some; [exists (S i); split; [done|lia]|by apply (H4 m)].
    + assert (i = k) as -> by lia. pose proof (lookup_lt_Some _ _ _ Hname) as Hlt.
      destruct Hr as [[Hr He]|(_ & Hr & He)].
      * exfalso. rewrite Hr, H1 in Hin. apply list_elem_of_lookup in Hin as [m Hm].
        apply lookup_take_Some in Hm as [Hm Hmk]. pose proof (NoDup_lookup _ _ _ _ Hnd Hm Hname). lia.
      * exists (S k). split; [by rewrite Hr, H1, (take_S_r _ _ _ Hname)|by rewrite He, H2, (take_S_r _ _ _ Hname)|lia|].
        intros m todo' [[<- <-]|[_ Hm]]%lookup_insert_Some; [exists (S k); split; [done|lia]|].
        destruct (H4 m _ Hm) as (i & ? & ?). exists i. split; [done|lia].
  - pose proof (applyMigration_spec name calls db) as Hs. rewrite Ha in Hs. destruct Hs as (_ & Hr & _ & _ & _).
    destruct (H4 n _ Hn) as (i & Hi & Hik).
    assert (Hname : names !! i = Some name) by (rewrite <- (Nat.add_0_r i), <- lookup_drop, <- Hi; done).
    destruct Hr as [[Hr He]|(Hnot & Hr & He)].
    + exists k. split; [congruence|congruence|done|]. intros m todo' [_ Hm]%lookup_delete_Some. by apply (H4 m).
    + assert (i = k) as ->.
      { destruct (decide (i < k)%nat); [|lia]. destruct Hnot. rewrite H1. apply list_elem_of_lookup. exists i. by rewrite lookup_take_lt. }
      pose proof (lookup_lt_Some _ _ _ Hname) as Hlt.
      exists (S k). split; [by rewrite Hr, H1, (take_S_r _ _ _ Hname)|by rewrite He, H2, (take_S_r _ _ _ Hname)|lia|].
      intros m todo' [_ Hm]%lookup_delete_Some. destruct (H4 m _ Hm) as (j & ? & ?). exists j. split; [done|lia].
Qed.

(** * The property *)

(** Migrations run exactly once and in order. However many nodes migrate at once,
    whichever calls fail, and however often nodes start over, the migrations that
    have taken effect are the ones recorded, a prefix of the list each run once and
    in its order; when any node finishes, all have; and a node alone on a database
    that answers does finish. *)
Theorem migrations_once names db ns : NoDup names -> migrating names db ns ->
  executed db = recorded db /\ executed db `prefix_of` names /\ NoDup (executed db) /\
  (forall n, ns !! n = Some [] -> executed db = names) /\
  (forall n todo, ns !! n = Some todo -> exists db', migrate_loop todo [] db = ([], db', None) /\ executed db' = names).
Proof.
  intros Hnd Hm. destruct (migrating_migrated names db ns Hnd Hm) as [k Hk]. pose proof Hk as [H1 H2 H3 H4].
  split_and!.
  - congruence.
  - rewrite H2. exists (drop k names). by rewrite take_drop.
  - rewrite H2. rewrite <- (take_drop k names) in Hnd. by apply NoDup_app in Hnd as [? _].
  - intros n Hn. destruct (H4 n [] Hn) as (i & Hi & Hik). rewrite H2. apply take_ge.
    apply (f_equal length) in Hi. rewrite length_drop in Hi. simpl in Hi. lia.
  - intros n todo. clear k Hk H1 H2 H3 H4. revert db ns Hm n. induction todo as [|name todo IH]; intros db ns Hm n Hn.
    + exists db. split; [done|]. destruct (migrating_migrated names db ns Hnd Hm) as [k' [H1 H2 H3 H4]].
      destruct (H4 n [] Hn) as (i & Hi & Hik). rewrite H2. apply take_ge.
      apply (f_equal length) in Hi. rewrite length_drop in Hi. simpl in Hi. lia.
    + cbn [migrate_loop]. pose proof (applyMigration_spec name [] db) as Hs.
      destruct (applyMigration name [] db) as [[c db1] e] eqn:Ha. destruct Hs as (_ & _ & _ & _ & He).
      rewrite (He eq_refl) in *. assert (Hc : c = []).
      { unfold applyMigration in Ha. simpl in Ha. case_decide; by injection Ha as <- _. }
      subst c. refine (IH db1 (<[n := todo]> ns) _ n (lookup_insert_eq _ _ _)). by eapply mig_step.
Qed.

Module MigrationDemo.
Definition entries : list (string * bool) := [("0002_index.sql", false); ("README.md", false); ("0001_journal.sql", false); ("old.sql", true)]%string.
Definition names : list string := migrationNames entries.
(** Two nodes at once: the second waits for the first one's lock, and finds its work done. *)
Definition db1 : Schema := mkSchema true ["0001_journal.sql"] ["0001_journal.sql"].
Definition ns1 : nodes := <[2%nat := ["0002_index.sql"]]> (<[1%nat := ["0002_index.sql"]]> (<[2%nat := names]> (<[1%nat := names]> ∅))).

Lemma both_migrating : migrating names db1 ns1.
Proof.
  assert (En : names = ["0001_journal.sql"; "0002_index.sql"]) by (by vm_compute). unfold ns1. rewrite En in *.
  eapply (mig_step _ 2 "0001_journal.sql" ["0002_index.sql"] [] db1); [|by vm_compute|by vm_compute].
  eapply (mig_step _ 1 "0001_journal.sql" ["0002_index.sql"] [] (mkSchema true [] [])); [|by vm_compute|by vm_compute].
  eapply (mig_start _ 2 [] (mkSchema true [] [])); [|by vm_compute].
  eapply (mig_start _ 1 [] (mkSchema false [] [])); [apply mig_fresh|by vm_compute].
Qed.
End MigrationDemo.

Lemma migrations_once_witness : exists db,
  migrate_loop ["0002_index.sql"] [] MigrationDemo.db1 = ([], db, None) /\ executed db = MigrationDemo.names.
Proof.
  destruct (migrations_once MigrationDemo.names MigrationDemo.db1 MigrationDemo.ns1
    ltac:(apply (bool_decide_unpack _); vm_compute; exact I) MigrationDemo.both_migrating) as (_ & _ & _ & _ & H).
  apply (H 2%nat). apply lookup_insert_eq.
Defined.
