(* ===== verification/Feed.v ===== *)
(** The live trade feed, from [src/internal/api/feed.go].

    A subscriber is a channel with room for [feedBuffer] batches. [publish] offers
    a batch to each and never waits: a full channel loses it, which [onDrop] counts.
    The events of a feed are a sequence, since its methods hold its lock and a
    channel operation is atomic. *)

From Stdlib Require Import ZArith Lia.
From stdpp Require Import base gmap list strings.
From S2P Require Import Prelude Types.

Open Scope Z_scope.

Definition feedBuffer : nat := 256.

Record tradeBatch := mkBatch {
  tb_symbol : string;
  tb_trades : list Trade
}.

(** [tradeFeed]; a channel is what is queued in it, and [drops] how often [onDrop] was called. *)
Record tradeFeed := mkFeed {
  subs : gmap Z (list tradeBatch);
  nextID : Z;
  drops : nat
}.

Definition newTradeFeed : tradeFeed := mkFeed ∅ 0 0.

Definition subscribe (f : tradeFeed) : tradeFeed * Z :=
  let id := add64 (nextID f) 1 in
  (mkFeed (<[id := []]> (subs f)) id (drops f), id).

Definition unsubscribe (id : Z) (f : tradeFeed) : tradeFeed :=
  mkFeed (delete id (subs f)) (nextID f) (drops f).

(** The [select] of [publish]: a send that does not wait. *)
Definition has_room (queue : list tradeBatch) : bool := (length queue <? feedBuffer)%nat.
Definition offer (b : tradeBatch) (queue : list tradeBatch) : list tradeBatch :=
  if has_room queue then queue ++ [b] else queue.

Definition publish (symbol : string) (trades : list Trade) (f : tradeFeed) : tradeFeed :=
  let b := mkBatch symbol trades in
  mkFeed (offer b <$> subs f) (nextID f)
    (drops f + size (filter (fun kq => has_room kq.2 = false) (subs f))).

Definition subscriberCount (f : tradeFeed) : nat := size (subs f).

(** [<-ch] in [StreamTrades]; nothing when the channel is empty. *)
Definition receive (id : Z) (f : tradeFeed) : tradeFeed * option tradeBatch :=
  match subs f !! id with
  | Some (b :: queue) => (mkFeed (<[id := queue]> (subs f)) (nextID f) (drops f), Some b)
  | _ => (f, None)
  end.

(** * Runs of a feed *)

Inductive feed_event :=
| Subscribe
| Unsubscribe (id : Z)
| Publish (symbol : string) (trades : list Trade)
| Receive (id : Z).

Definition feed_step (e : feed_event) (f : tradeFeed) : tradeFeed * list (Z * tradeBatch) :=
  match e with
  | Subscribe => ((subscribe f).1, [])
  | Unsubscribe id => (unsubscribe id f, [])
  | Publish symbol trades => (publish symbol trades f, [])
  | Receive id => let '(f, b) := receive id f in (f, match b with Some b => [(id, b)] | None => [] end)
  end.

(** The feed after the events, and what was received by whom. *)
Fixpoint feed_run (es : list feed_event) (f : tradeFeed) : tradeFeed * list (Z * tradeBatch) :=
  match es with
  | [] => (f, [])
  | e :: es =>
      let '(f, out) := feed_step e f in
      let '(f, rest) := feed_run es f in
      (f, out ++ rest)
  end.

Definition received (id : Z) (out : list (Z * tradeBatch)) : list tradeBatch :=
  snd <$> filter (fun p => p.1 = id) out.
Definition published (es : list feed_event) : list tradeBatch :=
  es ≫= fun e => match e with Publish symbol trades => [mkBatch symbol trades] | _ => [] end.

(** * One subscriber's view *)

(** [queue]d before, then [es] leave [queue'] having given [R]: in publishing order,
    with only counted losses. *)
Definition lossy (queue : list tradeBatch) (P : list tradeBatch) (R queue' : list tradeBatch) (lost : nat) : Prop :=
  R ++ queue' `sublist_of` queue ++ P /\
  (length queue + length P <= length R + length queue' + lost)%nat.

Lemma lossy_trans q P R q1 n P' R' q2 n' :
  lossy q P R q1 n -> lossy q1 P' R' q2 n' -> lossy q (P ++ P') (R ++ R') q2 (n + n').
Proof.
  intros [H1 H2] [H3 H4]. split; [|rewrite !length_app; lia].
  rewrite <- app_assoc. transitivity (R ++ q1 ++ P'); [by apply sublist_app|].
  rewrite !app_assoc. by apply sublist_app.
Qed.

Lemma sublist_same_length {A} (l k : list A) : l `sublist_of` k -> (length k <= length l)%nat -> l = k.
Proof.
  induction 1 as [|x l k _ IH|x l k Hs IH]; simpl; intros Hl; [done|f_equal; apply IH; lia|].
  apply sublist_length in Hs. lia.
Qed.

Lemma lossy_refl q : lossy q [] [] q 0.
Proof. split; [by rewrite app_nil_r|simpl; lia]. Qed.

Lemma publish_drops symbol trades f id queue : subs f !! id = Some queue -> has_room queue = false ->
  (drops f + 1 <= drops (publish symbol trades f))%nat.
Proof.
  intros Hq Hr. simpl. enough (0 < size (filter (fun kq : Z * list tradeBatch => has_room kq.2 = false) (subs f)))%nat by lia.
  apply Nat.neq_0_lt_0. intros Hz%map_size_empty_inv. apply (f_equal (lookup id)) in Hz.
  rewrite lookup_empty in Hz. apply map_lookup_filter_None in Hz as [Hz|Hz]; [congruence|]. by eapply Hz.
Qed.

Lemma step_view e f id queue : subs f !! id = Some queue -> e <> Unsubscribe id -> 0 <= nextID f < MaxInt64 -> id <= nextID f ->
  let '(f', out) := feed_step e f in
  exists queue', subs f' !! id = Some queue' /\
    (exists n, lossy queue (published [e]) (received id out) queue' n /\ (drops f + n <= drops f')%nat) /\
    ((length queue <= feedBuffer)%nat -> (length queue' <= feedBuffer)%nat) /\
    nextID f <= nextID f' <= nextID f + 1.
Proof.
  intros Hq He Hn Hid. destruct e as [|id'|symbol trades|id']; simpl.
  - exists queue. unfold add64. rewrite wrap64_id by (unfold64; lia). rewrite lookup_insert_ne by lia.
    split_and!; [done|exists 0%nat; split; [apply lossy_refl|lia]|done|lia|lia].
  - exists queue. rewrite lookup_delete_ne by congruence. split_and!; [done|exists 0%nat; split; [apply lossy_refl|simpl; lia]|done|lia|lia].
  - exists (offer (mkBatch symbol trades) queue). rewrite lookup_fmap, Hq. split; [done|].
    unfold offer. destruct (has_room queue) eqn:Hr; (split_and!; [| |lia|lia]).
    + exists 0%nat. split; [|lia]. split; [done|]. rewrite length_app. simpl. lia.
    + unfold has_room in Hr. apply Nat.ltb_lt in Hr. rewrite length_app. simpl. lia.
    + exists 1%nat. split; [|by apply (publish_drops symbol trades f id queue)].
      split; [by apply sublist_inserts_r|simpl; lia].
    + done.
  - unfold receive. destruct (decide (id' = id)) as [->|Hne].
    + rewrite Hq. destruct queue as [|b queue]; cbn [subs nextID drops].
      * exists []. split_and!; [done|exists 0%nat; split; [apply lossy_refl|lia]|done|lia|lia].
      * exists queue. rewrite lookup_insert_eq. split_and!; [done| |simpl; lia|simpl; lia|simpl; lia].
        exists 0%nat. split; [|simpl; lia]. unfold received. rewrite filter_cons, decide_True by done. simpl.
        split; [by rewrite app_nil_r|simpl; lia].
    + destruct (subs f !! id') as [[|b q']|]; cbn [subs nextID drops]; exists queue.
      all: rewrite ?lookup_insert_ne by done; split_and!; [done| |done|lia|lia]; exists 0%nat; (split; [|lia]).
      all: unfold received; rewrite ?filter_cons, ?decide_False by done; apply lossy_refl.
Qed.

Lemma run_view es : forall f id queue, subs f !! id = Some queue -> Unsubscribe id ∉ es ->
  0 <= nextID f -> nextID f + Z.of_nat (length es) <= MaxInt64 -> id <= nextID f ->
  let '(f', out) := feed_run es f in
  exists queue', subs f' !! id = Some queue' /\
    (exists n, lossy queue (published es) (received id out) queue' n /\ (drops f + n <= drops f')%nat) /\
    ((length queue <= feedBuffer)%nat -> (length queue' <= feedBuffer)%nat).
Proof.
  induction es as [|e es IH]; intros f id queue Hq He H0 Hn Hid.
  - simpl. exists queue. split_and!; [done|exists 0%nat; split; [apply lossy_refl|lia]|done].
  - apply not_elem_of_cons in He as [He1 He2]. simpl in Hn.
    pose proof (step_view e f id queue Hq (not_eq_sym He1) ltac:(lia) Hid) as Hs. cbn [feed_run].
    destruct (feed_step e f) as [f1 out1]. destruct Hs as (q1 & Hq1 & (n1 & Hl1 & Hd1) & Hb1 & Hn1).
    pose proof (IH f1 id q1 Hq1 He2 ltac:(lia) ltac:(lia) ltac:(lia)) as Hr. destruct (feed_run es f1) as [f2 out2].
    destruct Hr as (q2 & Hq2 & (n2 & Hl2 & Hd2) & Hb2). exists q2. split_and!; [done| |auto].
    exists (n1 + n2)%nat. split; [|lia]. unfold received. rewrite filter_app, fmap_app.
    change (e :: es) with ([e] ++ es). unfold published. rewrite bind_app.
    by apply lossy_trans with (q1 := q1).
Qed.

(** * The property *)

(** C38: a live subscriber sees the matching order with counted gaps. Whatever else
    subscribes, leaves, publishes or reads meanwhile, what a subscriber has received
    and still has queued is, in publishing order, a part of what was published since
    it subscribed; everything missing was counted as dropped, so with no drop it is
    all of it; and its queue never exceeds the buffer. *)
Theorem feed_in_order f es : 0 <= nextID f -> nextID f + Z.of_nat (length es) < MaxInt64 ->
  let '(f1, id) := subscribe f in
  Unsubscribe id ∉ es ->
  let '(f2, out) := feed_run es f1 in
  exists queue, subs f2 !! id = Some queue /\ (length queue <= feedBuffer)%nat /\
    received id out ++ queue `sublist_of` published es /\
    (length (published es) <= length (received id out ++ queue) + (drops f2 - drops f1))%nat /\
    (drops f2 = drops f1 -> received id out ++ queue = published es).
Proof.
  intros H0 Hn. unfold subscribe. unfold add64. rewrite wrap64_id by (unfold64; lia). intros Hu.
  pose proof (run_view es (mkFeed (<[nextID f + 1 := []]> (subs f)) (nextID f + 1) (drops f)) (nextID f + 1) []
    (lookup_insert_eq _ _ _) Hu ltac:(simpl; lia) ltac:(simpl; lia) ltac:(simpl; lia)) as Hr.
  destruct (feed_run _ _) as [f2 out]. destruct Hr as (queue & Hq & (n & [Hs Hl] & Hd) & Hb). simpl in *.
  exists queue. rewrite length_app. split_and!; [done|apply Hb; unfold feedBuffer; lia|done|lia|].
  intros He. pose proof (sublist_length _ _ Hs) as Hle. rewrite length_app in Hle.
  apply sublist_same_length; [done|]. rewrite length_app. lia.
Qed.

Module FeedDemo.
Definition t (id : Z) : Trade := mkTrade id "NABIL" 100 1 2 "ann" "bob" 3 Sell 1000.
Definition es : list feed_event :=
  [Publish "NABIL" [t 1]; Subscribe; Publish "NABIL" [t 2; t 3]; Receive 1; Receive 2; Publish "NABIL" [t 4]].
End FeedDemo.

Lemma feed_in_order_witness :
  received 1 (feed_run FeedDemo.es (subscribe newTradeFeed).1).2 = [mkBatch "NABIL" [FeedDemo.t 1]] /\
  exists queue, [mkBatch "NABIL" [FeedDemo.t 1]] ++ queue = published FeedDemo.es.
Proof.
  split; [vm_compute; reflexivity|].
  pose proof (feed_in_order newTradeFeed FeedDemo.es ltac:(vm_compute; discriminate) ltac:(vm_compute; reflexivity)
    ltac:(intros Hin; rewrite list_elem_of_In in Hin; vm_compute in Hin; intuition discriminate)) as H.
  vm_compute in H. destruct H as (queue & _ & _ & _ & _ & H). exists queue. exact (H eq_refl).
Defined.
