(* ===== verification/Rand.v ===== *)
(** [math/rand], as the load programs under [src/cmd] use it: a generator is a state,
    and a draw is a number and the next state.

    [RandSource] is the generator; which numbers it gives is not the programs'
    business, so the theorems hold for every one that satisfies [RandLaws]. *)

From Stdlib Require Import ZArith Lia.
From stdpp Require Import base tactics.
From S2P Require Import Prelude.

Open Scope Z_scope.

Class RandSource (G : Type) := { draw : Z -> G -> Z * G }.
Class RandLaws (G : Type) `{RandSource G} := { draw_range n g : 0 < n -> 0 <= (draw n g).1 < n }.

(** [rng.Intn(n)] panics unless [n] is positive. *)
Definition Intn `{RandSource G} (n : Z) (g : G) : outcome (Z * G) :=
  if n <=? 0 then Panic else Ok (draw n g).

Lemma Intn_range `{RandLaws G} n g : 0 < n -> exists k g', Intn n g = Ok (k, g') /\ 0 <= k < n.
Proof.
  intros Hn. unfold Intn. destruct (Z.leb_spec n 0); [lia|]. pose proof (draw_range n g Hn) as Hr.
  destruct (draw n g) as [k g']. by exists k, g'.
Qed.

(** A generator to try the theorems with. *)
Module RandDemo.
#[global] Instance demo_source : RandSource Z := { draw n g := (g mod n, (g * 48271 + 11) mod 2147483647) }.
#[global] Instance demo_rand : RandLaws Z.
Proof. split. intros n g Hn. apply Z.mod_pos_bound. done. Qed.
End RandDemo.
