(* ===== verification/Bench.v ===== *)
(** The long-running book benchmark, from [src/cmd/bench/main.go].

    The program submits random orders to one book, priced around the last trade, and
    reports as it goes; its globals are [lastPrice] and the generator. What its
    [select] picks is the list of [event]s; output and clocks are left out. *)

From Stdlib Require Import ZArith Lia.
From stdpp Require Import base gmap list strings pretty.
From S2P Require Import Prelude Types Book Rand.

Open Scope Z_scope.

Definition basePrice : Z := 1000.
Definition priceSpread : Z := 50.
Definition clampRange : Z := 200.
Definition maxQty : Z := 500.
Definition targetDepth : Z := 2000.
Definition maxHeapMB : Z := 1024.

Definition clamp (p : Z) : Z :=
  if add64 basePrice clampRange <? p then add64 basePrice clampRange
  else if p <? sub64 basePrice clampRange then sub64 basePrice clampRange
  else p.

Section Bench.
Context `{RandSource G}.

(** [genOrder]: the draws in the order the code makes them. [stamp] is [time.Now()]. *)
Definition genOrder (lastPrice stamp : Z) (seq : Z) (b : Book) (g : G) : outcome (Order * G) :=
  '(s, g) ← Intn 2 g;
  let side := if s =? 0 then Sell else Buy in
  '(k, g) ← Intn 20 g;
  let orderType := if k =? 0 then Market else Limit in
  '(off, g) ← Intn (2 * priceSpread + 1) g;
  let price := add64 lastPrice (off - priceSpread) in
  let price :=
    if targetDepth <? Z.of_nat (RestingCount b) then
      match side with
      | Buy => match BestAsk b with (ask, true) => ask | _ => price end
      | _ => match BestBid b with (bid, true) => bid | _ => price end
      end
    else price in
  '(who, g) ← Intn 50 g;
  '(q, g) ← Intn maxQty g;
  Ok (mkOrder seq "NABIL" ("trader-" ++ pretty who) orderType (clamp price) (q + 1) side stamp, g).

(** [main]'s variables. *)
Record bench := mkBench {
  bn_book : Book;
  bn_rng : G;
  bn_lastPrice : Z;
  bn_orders : Z;
  bn_trades : Z;
  bn_seq : Z;
  bn_errors : Z     (* lines "submit error" printed *)
}.

(** What one turn of [select] finds: nothing, so an order to submit, at a time; the
    ticker, with the bytes of heap in use; or the end. *)
Inductive event := Idle (stamp : Z) | Tick (heapAlloc : Z) | Deadline | Stop.

(** One turn; [None] leaves the loop. [clock] stamps trades. [heapMB > maxHeapMB] divides
    the bytes by [1e6] in [float64], which compares like the whole numbers. *)
Definition turn (clock : Z -> Z) (e : event) (st : bench) : outcome (option bench) :=
  match e with
  | Deadline | Stop => Ok None
  | Tick heapAlloc => Ok (if maxHeapMB * 1000000 <? heapAlloc then None else Some st)
  | Idle stamp =>
      let seq := add64 (bn_seq st) 1 in
      '(o, g) ← genOrder (bn_lastPrice st) stamp seq (bn_book st) (bn_rng st);
      '(b, r) ← Submit clock o (bn_book st);
      Ok (Some match r with
               | Fails _ => mkBench b g (bn_lastPrice st) (bn_orders st) (bn_trades st) seq (bn_errors st + 1)
               | Good ts =>
                   mkBench b g (match last ts with Some t => clamp (t_Price t) | None => bn_lastPrice st end)
                     (add64 (bn_orders st) 1) (add64 (bn_trades st) (Z.of_nat (length ts))) seq (bn_errors st)
               end)
  end.

(** The loop: the state when it ends, or when the events run out. *)
Fixpoint loop (clock : Z -> Z) (es : list event) (st : bench) : outcome bench :=
  match es with
  | [] => Ok st
  | e :: es => r ← turn clock e st; match r with Some st => loop clock es st | None => Ok st end
  end.

Definition bench_main (clock : Z -> Z) (es : list event) (g : G) : outcome bench :=
  loop clock es (mkBench NewBook g basePrice 0 0 0 0).
End Bench.
