(* ===== verification/BenchProps.v ===== *)
(** What the benchmark can rely on: it never prints an error or panics, its orders and
    the book stay in their bands, and past the target depth the book stops growing. *)

From Stdlib Require Import ZArith Lia.
From stdpp Require Import base gmap list strings pretty sorting.
From S2P Require Import Prelude Types Book BookInv BookSpec BookRefine BookProps SeqFacts VenueFacts Venue BookCount Rand Bench.

Open Scope Z_scope.

(** Within the universe of prices [clamp] keeps to. *)
Definition in_band (p : Z) : Prop := basePrice - clampRange <= p <= basePrice + clampRange.

(** A resting order of the benchmark. *)
Definition banded (o : Order) : Prop := in_band (o_Price o) /\ 1 <= o_Quantity o <= maxQty.

Lemma clamp_band p : in_band (clamp p).
Proof.
  unfold clamp, in_band. change (add64 basePrice clampRange) with 1200. change (sub64 basePrice clampRange) with 800.
  unfold basePrice, clampRange. destruct (Z.ltb_spec 1200 p); [lia|]. destruct (Z.ltb_spec p 800); lia.
Qed.

Lemma clamp_id p : in_band p -> clamp p = p.
Proof.
  unfold clamp, in_band, basePrice, clampRange. change (add64 1000 200) with 1200. change (sub64 1000 200) with 800. intros Hp.
  destruct (Z.ltb_spec 1200 p); [lia|]. destruct (Z.ltb_spec p 800); lia.
Qed.

(** The best price is the first resting order's. *)
Lemma best_resting b s : reachable b -> side_ok s ->
  match best s b with
  | (p, true) => exists m q, resting s b = m :: q /\ o_Price m = p
  | (_, false) => resting s b = []
  end.
Proof.
  intros Hr Hs. destruct (reachable_inv b Hr) as [Hwf _]. rewrite (best_ladder b s Hs).
  destruct (side_head b Hwf s Hs) as [[-> He]|(p & ps & l & lvl & e & es & -> & _ & _ & _ & _ & (_ & Hp & _) & He)];
    unfold resting; rewrite He; [done|]. by eexists _, _.
Qed.

Lemma resting_banded b s : reachable b -> side_ok s -> Forall banded (RestingOrders b) -> Forall banded (resting s b).
Proof. intros Hr Hs Hb. rewrite (resting_perm b s Hr Hs) in Hb. by apply Forall_app in Hb as [_ Hb]. Qed.

Section Bench.
Context `{RandLaws G}.

(** What [genOrder] makes; past the target depth, at the best opposite price. *)
Lemma genOrder_spec lastPrice stamp seq b g : reachable b -> Forall banded (RestingOrders b) ->
  exists o g', genOrder lastPrice stamp seq b g = Ok (o, g') /\ o_SeqID o = seq /\ side_ok (o_Side o) /\
    o_Type o <> UnknownType /\ banded o /\
    (targetDepth < Z.of_nat (RestingCount b) -> forall m q, resting (opposite (o_Side o)) b = m :: q -> o_Price o = o_Price m).
Proof.
  intros Hr Hb. unfold genOrder.
  destruct (Intn_range 2 g ltac:(lia)) as (s & g1 & -> & _). cbn [mbind outcome_bind].
  destruct (Intn_range 20 g1 ltac:(lia)) as (k & g2 & -> & _). cbn [mbind outcome_bind].
  destruct (Intn_range (2 * priceSpread + 1) g2 ltac:(unfold priceSpread; lia)) as (off & g3 & -> & _). cbn [mbind outcome_bind].
  destruct (Intn_range 50 g3 ltac:(lia)) as (who & g4 & -> & _). cbn [mbind outcome_bind].
  destruct (Intn_range maxQty g4 ltac:(unfold maxQty; lia)) as (q & g5 & -> & Hq). cbn [mbind outcome_bind].
  eexists _, _. split; [reflexivity|]. cbn [o_SeqID o_Side o_Type o_Price]. split_and!; [done| | | |].
  - destruct (s =? 0); [by right|by left].
  - by destruct (k =? 0).
  - split; [apply clamp_band|]. cbn [o_Quantity]. lia.
  - intros Hd m q' Hm. rewrite (proj2 (Z.ltb_lt _ _) Hd).
    assert (Hin : forall sd, side_ok sd -> resting sd b = m :: q' -> in_band (o_Price m)).
    { intros sd Hsd Hm'. pose proof (resting_banded b sd Hr Hsd Hb) as Hall. rewrite Hm' in Hall.
      apply Forall_cons in Hall as [[Hp _] _]. exact Hp. }
    destruct (s =? 0); cbn [opposite] in Hm.
    + pose proof (best_resting b Buy Hr (or_introl eq_refl)) as Hbest. cbn [best] in Hbest.
      destruct (BestBid b) as [p [|]]; [|congruence]. destruct Hbest as (m' & q1 & E & Hp). rewrite Hm in E. injection E as <- <-.
      rewrite <- Hp. apply clamp_id. apply (Hin Buy); [by left|done].
    + pose proof (best_resting b Sell Hr (or_intror eq_refl)) as Hbest. cbn [best] in Hbest.
      destruct (BestAsk b) as [p [|]]; [|congruence]. destruct Hbest as (m' & q1 & E & Hp). rewrite Hm in E. injection E as <- <-.
      rewrite <- Hp. apply clamp_id. apply (Hin Sell); [by right|done].
Qed.

Record bench_ok (n : nat) (st : bench (G := G)) : Prop := {
  bk_book : reachable (bn_book st);
  bk_counted : counted (bn_book st);
  bk_banded : Forall banded (RestingOrders (bn_book st));
  bk_lastPrice : in_band (bn_lastPrice st);
  bk_seq : bn_seq st = Z.of_nat n /\ MaxOrderID (bn_book st) <= bn_seq st <= MaxInt64;
  bk_orders : bn_orders st = Z.of_nat n;
  bk_trades : bn_trades st = nextTradeID (bn_book st);
  bk_errors : bn_errors st = 0
}.

(** One submission. *)
Lemma bench_idle clock stamp n st : bench_ok n st -> Z.of_nat (S n) <= MaxInt64 ->
  exists st', turn clock (Idle stamp) st = Ok (Some st') /\ bench_ok (S n) st' /\
    (targetDepth < Z.of_nat (RestingCount (bn_book st)) -> (BestBid (bn_book st)).2 = true -> (BestAsk (bn_book st)).2 = true ->
       (RestingCount (bn_book st') <= RestingCount (bn_book st))%nat).
Proof.
  intros [Hr Hc Hb Hl [Hs Hm] Ho Ht He] Hn. cbn [turn]. assert (Hseq : add64 (bn_seq st) 1 = Z.of_nat (S n)) by (unfold add64; rewrite wrap64_id; unfold64; lia).
  rewrite Hseq. destruct (genOrder_spec (bn_lastPrice st) stamp (Z.of_nat (S n)) (bn_book st) (bn_rng st) Hr Hb)
    as (o & g' & -> & Hid & Hside & Hty & Hband & Hcross). cbn [mbind outcome_bind].
  assert (Hfresh : MaxOrderID (bn_book st) < o_SeqID o <= MaxInt64) by lia.
  assert (Hsub : submittable o (bn_book st)) by (apply fresh_submittable; [done|lia|]; destruct Hband as [_ Hq]; unfold maxQty, MaxInt64 in *; lia).
  destruct (submit_accepted clock o (bn_book st) Hr Hsub Hside Hty) as (b' & res & Hsm). unfold Submit. rewrite Hsm. cbn [mbind outcome_bind].
  destruct (counted_trades clock o (bn_book st) b' res Hr Hsub Hsm Hc Hfresh) as [Hnum Hnext].
  destruct (counted_submit clock o (bn_book st) b' res Hr Hsub Hsm Hc Hfresh) as [Hc' Hmax].
  assert (Hroom : 0 <= nextTradeID b' <= MaxInt64) by (destruct Hc'; lia).
  eexists. split; [reflexivity|]. split; [split; cbn [bn_book bn_lastPrice bn_seq bn_orders bn_trades bn_errors]|].
  - by eapply reach_submit.
  - exact Hc'.
  - apply (resting_kept clock o (bn_book st) b' res Hr Hsub Hsm); [|done|done].
    intros k m Hk [Hp Hm']. split; [done|]. cbn [set_quantity o_Quantity]. lia.
  - destruct (last (Trades res)); [apply clamp_band|done].
  - split; [done|]. lia.
  - rewrite Ho. unfold add64. rewrite wrap64_id; unfold64; lia.
  - rewrite Ht, Hnext. unfold add64. apply wrap64_id. rewrite <- Hnext. unfold64. lia.
  - done.
  - intros Hd Hbid Hask. cbn [bn_book]. pose proof (side_ok_opposite _ Hside) as Hopp.
    pose proof (best_resting (bn_book st) (opposite (o_Side o)) Hr Hopp) as Hbest.
    assert (Hex : exists m q, resting (opposite (o_Side o)) (bn_book st) = m :: q).
    { destruct Hside as [E|E]; rewrite E in *; cbn [opposite best] in *; destruct (BestBid _) as [p1 b1], (BestAsk _) as [p2 b2];
        cbn [snd] in *; subst; destruct Hbest as (m & q & Hm' & _); by exists m, q. }
    destruct Hex as (m & q & Hmq). apply (count_crosses clock o (bn_book st) b' res Hr Hsub Hsm m q Hmq); [destruct Hband; lia|].
    unfold beyond_limit. rewrite (Hcross Hd m q Hmq), !Z.ltb_irrefl. case_decide; by rewrite andb_false_r.
Qed.

Lemma bench_turn clock e n st : bench_ok n st -> Z.of_nat (S n) <= MaxInt64 ->
  turn clock e st = Ok None \/ exists st' n', turn clock e st = Ok (Some st') /\ (n' <= S n)%nat /\ bench_ok n' st'.
Proof.
  intros Hok Hn. destruct e as [stamp|heap| |]; [|cbn [turn]; destruct (maxHeapMB * 1000000 <? heap)|by left|by left].
  - right. destruct (bench_idle clock stamp n st Hok Hn) as (st' & Ht & Hok' & _). by exists st', (S n).
  - by left.
  - right. exists st, n. split_and!; [done|lia|done].
Qed.

Lemma bench_loop clock es : forall n st, bench_ok n st -> Z.of_nat (n + length es) <= MaxInt64 ->
  exists st' n', loop clock es st = Ok st' /\ (n' <= n + length es)%nat /\ bench_ok n' st'.
Proof.
  induction es as [|e es IH]; intros n st Hok Hn; cbn [loop length] in *; [exists st, n; split_and!; [done|lia|done]|].
  destruct (bench_turn clock e n st Hok ltac:(lia)) as [->|(st1 & n1 & -> & Hle & Hok1)]; cbn [mbind outcome_bind].
  - exists st, n. split_and!; [done|lia|done].
  - destruct (IH n1 st1 Hok1 ltac:(lia)) as (st' & n' & Hl & Hle' & Hok'). exists st', n'. split_and!; [done|lia|done].
Qed.

Lemma bench_start g : bench_ok 0 (mkBench NewBook g basePrice 0 0 0 0).
Proof.
  split; cbn [bn_book bn_lastPrice bn_seq bn_orders bn_trades bn_errors];
    first [exact reach_new|exact counted_NewBook|unfold in_band, basePrice, clampRange; lia|by vm_compute].
Qed.

(** The benchmark runs on a healthy book for as long as it likes. Whatever numbers
    the generator draws and whatever the timers do, it ends without a panic and
    without a submit error; every order it counted was accepted and its count of
    trades is the book's; prices stay within 200 of the base and quantities within
    500; and past its target depth, as long as both sides have orders, no
    order makes the book deeper. *)
Theorem bench_bounded clock es g : Z.of_nat (length es) <= MaxInt64 ->
  (exists st n, bench_main clock es g = Ok st /\ (n <= length es)%nat /\ bench_ok n st /\ bn_errors st = 0 /\
     bn_orders st = Z.of_nat n /\ bn_trades st = nextTradeID (bn_book st) /\ Forall banded (RestingOrders (bn_book st)) /\
     nextTradeID (bn_book st) + Z.of_nat (RestingCount (bn_book st)) <= Z.of_nat n) /\
  (forall stamp n st, bench_ok n st -> Z.of_nat (S n) <= MaxInt64 -> targetDepth < Z.of_nat (RestingCount (bn_book st)) ->
     (BestBid (bn_book st)).2 = true -> (BestAsk (bn_book st)).2 = true ->
     exists st', turn clock (Idle stamp) st = Ok (Some st') /\ (RestingCount (bn_book st') <= RestingCount (bn_book st))%nat).
Proof.
  intros Hn. split.
  - destruct (bench_loop clock es 0 _ (bench_start g) Hn) as (st & n & Hl & Hle & Hok). exists st, n.
    pose proof Hok as [Hr [Hnn Hc] Hb _ [Hs Hm] Ho Ht He]. split_and!; try done. lia.
  - intros stamp n st Hok Hn' Hd Hbid Hask. destruct (bench_idle clock stamp n st Hok Hn') as (st' & Ht & _ & Hdepth).
    exists st'. auto.
Qed.
End Bench.

Lemma bench_bounded_witness :
  exists st, bench_main id [Idle 1; Idle 2; Tick 9; Idle 3; Stop; Idle 4] 7 = Ok st /\ bn_errors st = 0 /\ bn_orders st = 3.
Proof.
  destruct (bench_bounded (G := Z) id [Idle 1; Idle 2; Tick 9; Idle 3; Stop; Idle 4] 7 ltac:(vm_compute; discriminate))
    as [(st & n & Hm & _ & _ & He & Ho & _) _].
  exists st. split; [exact Hm|]. split; [exact He|].
  apply (f_equal (fun r => match r with Ok st => bn_orders st | _ => 0 end)) in Hm. rewrite <- Hm. vm_compute. reflexivity.
Defined.
