(* ===== verification/Server.v ===== *)
(** The gRPC handlers, from [src/internal/api/server.go].

    A handler hands its request to the symbol's sequencer and waits; what becomes of
    it is a [fate]: it is committed in a batch with whatever requests arrived around
    it, or it is never sent, or its caller leaves before the reply. The ledger is a
    journal when there is one, and answers as the list [calls] says. Enumerations
    and message fields are as in [Messages]; an error is its gRPC code. *)

From Stdlib Require Import ZArith Lia Ascii String.
From stdpp Require Import base gmap list strings.
From S2P Require Import Prelude Types Book Accounts WalRecord Sequencer Bytes WalFormat Wal Registry Status Messages Ledger Feed.

Open Scope Z_scope.

Definition maxAccountIDLen : nat := 64.
Definition maxPrice : Z := Z.shiftl 1 40.
Definition maxQuantity : Z := Z.shiftl 1 32.

(** * Messages *)

Record PlaceOrderRequest := mkPlaceOrder {
  po_Symbol : string;
  po_AccountId : string;
  po_Side : Z;
  po_Type : Z;
  po_Price : Z;
  po_Quantity : Z
}.

Record TradePB := mkTradePB {
  tp_TradeId : Z;
  tp_Symbol : string;
  tp_Price : Z;
  tp_Quantity : Z;
  tp_MakerOrderId : Z;
  tp_TakerOrderId : Z;
  tp_MakerAccountId : string;
  tp_TakerAccountId : string;
  tp_ExecutedAtUnixNano : Z;
  tp_TakerSide : Z
}.

Record PlaceOrderResponse := mkPlaced {
  pr_OrderId : Z;
  pr_LogPosition : Z;
  pr_Trades : list TradePB;
  pr_RestingQuantity : Z;
  pr_SelfPreventedOrderIds : list Z
}.

Definition tradeToPB (t : Trade) : TradePB :=
  mkTradePB (wrap64 (t_SeqID t)) (t_Symbol t) (t_Price t) (t_Quantity t) (wrap64 (t_MakerSeqID t))
    (wrap64 (t_TakerSeqID t)) (t_MakerAccID t) (t_TakerAccID t) (UnixNano (t_TimeStamp t)) (sideToPB (t_TakerSide t)).
Definition tradesToPB (trades : list Trade) : list TradePB := tradeToPB <$> trades.
Definition seqIDsToInt64 (ids : list Z) : list Z := wrap64 <$> ids.

(** * Validation *)

Definition validateSymbol (symbol : string) : result grpc_code unit :=
  if bool_decide (symbol = "") then Fails InvalidArgument else Good tt.

(** The bytes [0x20..0x7e]. *)
Definition printable (c : ascii) : bool :=
  let n := nat_of_ascii c in negb ((n <? 32) || (126 <? n))%nat.

Definition validateAccountID (account : string) : result grpc_code string :=
  if bool_decide (account = "") then Fails InvalidArgument
  else if (maxAccountIDLen <? String.length account)%nat then Fails InvalidArgument
  else if forallb printable (list_ascii_of_string account) then Good account
  else Fails InvalidArgument.

Definition orderFromRequest (req : PlaceOrderRequest) : result grpc_code Order :=
  _ ← validateSymbol (po_Symbol req);
  account ← validateAccountID (po_AccountId req);
  side ← (if po_Side req =? Side_SIDE_BUY then Good Buy
          else if po_Side req =? Side_SIDE_SELL then Good Sell
          else Fails InvalidArgument);
  orderType ← (if po_Type req =? OrderType_ORDER_TYPE_LIMIT then Good Limit
               else if po_Type req =? OrderType_ORDER_TYPE_MARKET then Good Market
               else Fails InvalidArgument);
  let qty := po_Quantity req in
  if (qty <=? 0) || (maxQuantity <? qty) then Fails InvalidArgument else
  let price := po_Price req in
  _ ← (match orderType with
       | Limit => if (price <=? 0) || (maxPrice <? price) then Fails InvalidArgument else Good tt
       | Market => if negb (price =? 0) then Fails InvalidArgument else Good tt
       | UnknownType => Good tt
       end);
  Good (mkOrder 0 (po_Symbol req) account orderType price qty side zeroTime).

(** * Handlers *)

(** [Server]: what it reaches. [sv_ledger] is [None] when the ledger is nil. *)
Record Server := mkServer {
  sv_venue : State;
  sv_ledger : option Journal;
  feeds : gmap string tradeFeed
}.
Definition set_venue (st : State) (sv : Server) : Server := mkServer st (sv_ledger sv) (feeds sv).

(** [feed]: the symbol's feed, made on first use. *)
Definition feed (symbol : string) (sv : Server) : tradeFeed := default newTradeFeed (feeds sv !! symbol).
Definition set_feed (symbol : string) (f : tradeFeed) (sv : Server) : Server :=
  mkServer (sv_venue sv) (sv_ledger sv) (<[symbol := f]> (feeds sv)).

Definition onTrades (symbol : string) (trades : list Trade) (sv : Server) : Server :=
  set_feed symbol (publish symbol trades (feed symbol sv)) sv.

Inductive fate :=
| Served (before after : list request)
| NotSent (e : oms_error)
| Abandoned (before after : list request) (e : oms_error).

Section Server.
Context `{PayloadCodec}.
Context (now : Z -> Z) (ts : Z).

(** The sequencer's [do], seen from the whole server: the batch commits and its
    trades are published; then the reply, unless the caller is gone. *)
Definition do_batch (symbol : string) (before after : list request) (r : request) (sv : Server)
    : outcome (Server * reply) :=
  '(st, replies, pub) ← venue_commit now ts symbol (before ++ r :: after) (sv_venue sv);
  p ← deref (replies !! length before);
  Ok (foldl (fun sv st => onTrades st.1 st.2 sv) (set_venue st sv) pub, p).

Definition do_request (symbol : string) (f : fate) (r : request) (sv : Server)
    : outcome (Server * Prelude.result oms_error reply) :=
  match f with
  | NotSent e => Ok (sv, Fails e)
  | Served before after => '(sv, p) ← do_batch symbol before after r sv; Ok (sv, Good p)
  | Abandoned before after e => '(sv, _) ← do_batch symbol before after r sv; Ok (sv, Fails e)
  end.

(** The reply as [Submit] and [CancelFor] return it. *)
Definition served {A} (read : reply -> Prelude.result oms_error A) (res : Prelude.result oms_error reply)
    : Prelude.result oms_error A := p ← res; read p.

(** The settlement [PlaceOrder] makes when there is a ledger and something traded. *)
Definition settle_trades (calls : list DbRes) (trades : list Trade) (sv : Server) : Server * option ledger_error :=
  match sv_ledger sv with
  | Some j =>
      if bool_decide (trades = []) then (sv, None) else
      let '(j, e) := Settle calls trades j in (mkServer (sv_venue sv) (Some j) (feeds sv), e)
  | None => (sv, None)
  end.

(** [PlaceOrder]: the server afterwards, the outcome label observed, and the answer. *)
Definition PlaceOrder (f : fate) (calls : list DbRes) (req : PlaceOrderRequest) (sv : Server)
    : outcome (Server * string * result grpc_code PlaceOrderResponse) :=
  match orderFromRequest req with
  | Fails c => Ok (sv, "invalid"%string, Fails c)
  | Good order =>
      '(st, seq) ← Get now (po_Symbol req) (sv_venue sv);
      let sv := set_venue st sv in
      match seq with
      | Fails e => Ok (sv, "unavailable"%string, Fails (registryError e))
      | Good _ =>
          '(sv, res) ← do_request (po_Symbol req) f (submit_request order) sv;
          match served submit_response res with
          | Fails e => Ok (sv, submitOutcome e, Fails (submitError e))
          | Good resp =>
              match settle_trades calls (or_Trades resp) sv with
              | (sv, Some _) => Ok (sv, "unsettled"%string, Fails Internal)
              | (sv, None) =>
                  Ok (sv, "accepted"%string,
                      Good (mkPlaced (wrap64 (or_OrderID resp)) (or_Seq resp) (tradesToPB (or_Trades resp))
                              (or_RestingQuantity resp) (seqIDsToInt64 (or_SelfPrevented resp))))
              end
          end
      end
  end.

(** [CancelOrder]; the label is [None] where nothing is observed. *)
Definition CancelOrder (f : fate) (symbol account : string) (orderID : Z) (sv : Server)
    : outcome (Server * option string * result grpc_code Z) :=
  match validateSymbol symbol with
  | Fails c => Ok (sv, None, Fails c)
  | Good _ =>
  match validateAccountID account with
  | Fails c => Ok (sv, None, Fails c)
  | Good account =>
  if orderID <=? 0 then Ok (sv, None, Fails InvalidArgument) else
  '(st, seq) ← Get now symbol (sv_venue sv);
  let sv := set_venue st sv in
  match seq with
  | Fails e => Ok (sv, None, Fails (registryError e))
  | Good _ =>
      '(sv, res) ← do_request symbol f (cancelFor_request orderID account) sv;
      match served (fun p => match p_err p with Some e => Fails e | None => Good (p_seq p) end) res with
      | Fails e => Ok (sv, Some (cancelOutcome e), Fails (cancelError e))
      | Good pos => Ok (sv, Some "cancelled"%string, Good pos)
      end
  end end end.

(** [GetBookSnapshot]; the depth is the rows that are serialised. *)
Definition GetBookSnapshot (f : fate) (symbol : string) (sv : Server)
    : outcome (Server * result grpc_code (option BookState * Z)) :=
  match validateSymbol symbol with
  | Fails c => Ok (sv, Fails c)
  | Good _ =>
  '(st, seq) ← Get now symbol (sv_venue sv);
  let sv := set_venue st sv in
  match seq with
  | Fails e => Ok (sv, Fails (registryError e))
  | Good _ =>
      '(sv, res) ← do_request symbol f snapshot_request sv;
      match served (fun p => match p_err p with Some e => Fails e | None => Good (p_state p, p_seq p) end) res with
      | Fails e => Ok (sv, Fails (submitError e))
      | Good r => Ok (sv, Good r)
      end
  end end.

(** [StreamTrades] up to its loop: the subscription, which an error gives back. *)
Definition StreamTrades_open (symbol : string) (sv : Server) : outcome (Server * result grpc_code Z) :=
  match validateSymbol symbol with
  | Fails c => Ok (sv, Fails c)
  | Good _ =>
      let '(f, id) := subscribe (feed symbol sv) in
      let sv := set_feed symbol f sv in
      '(st, seq) ← Get now symbol (sv_venue sv);
      let sv := set_venue st sv in
      match seq with
      | Fails e => Ok (set_feed symbol (unsubscribe id (feed symbol sv)) sv, Fails (registryError e))
      | Good _ => Ok (sv, Good id)
      end
  end.

(** One turn of its loop: the trades sent, [None] when nothing is queued. *)
Definition StreamTrades_turn (symbol : string) (id : Z) (sv : Server) : Server * option (list TradePB) :=
  let '(f, b) := receive id (feed symbol sv) in
  (set_feed symbol f sv, tradesToPB <$> (tb_trades <$> b)).

(** Its deferred [unsubscribe]. *)
Definition StreamTrades_close (symbol : string) (id : Z) (sv : Server) : Server :=
  set_feed symbol (unsubscribe id (feed symbol sv)) sv.
End Server.
