(* ===== verification/ServerFacts.v ===== *)
(** What the sequencer's reply says of one request of the batch. *)

From Stdlib Require Import ZArith Lia.
From stdpp Require Import base gmap list strings sorting.
From S2P Require Import Prelude Types Book BookInv BookSpec BookRefine BookProps.
From S2P Require Import Accounts AccountsInv AccountsSolv WalRecord Sequencer SeqFacts SeqProps VenueFacts Venue VenueProps.

Open Scope Z_scope.

(** * Replies, request by request *)

Section Acknowledged.
Context {W : Type} `{!WalOps W} `{!WalLaws W}.

Lemma apply_batch_each now symbol acc onT seq we batch : forall st st' ps,
  apply_batch now symbol acc onT seq we batch st = Ok (st', ps) ->
  Forall2 (fun r p => exists s s', apply_one now symbol acc onT seq we r s = Ok (s', p)) batch ps.
Proof.
  induction batch as [|r batch IH]; intros st st' ps; cbn [apply_batch]; [by intros [= <- <-]|].
  destruct (apply_one _ _ _ _ _ _ r st) as [[s1 p1]| |] eqn:E1; simpl; try done.
  destruct (apply_batch _ _ _ _ _ _ batch s1) as [[s2 ps2]| |] eqn:E2; simpl; try done.
  intros [= <- <-]. constructor; [by exists st, s1|]. by eapply IH.
Qed.

Lemma core_lookup (b1 b2 : list request) (i : nat) (r : request) : core <$> b1 = core <$> b2 -> b1 !! i = Some r ->
  exists r', b2 !! i = Some r' /\ core r' = core r.
Proof.
  intros Hc Hr. pose proof (f_equal (lookup i) Hc) as Hi. rewrite !list_lookup_fmap, Hr in Hi.
  destruct (b2 !! i) as [r'|]; [|done]. injection Hi as Hi. exists r'. split; [done|]. symmetry.
  unfold core. congruence.
Qed.

(** What the apply loop sees at a place of the batch. *)
Lemma prepared_lookup ts s a batch i r : seq_ok s -> batch_ok ts batch s -> batch !! i = Some r ->
  exists r' id, (prepared s a batch).1.1 !! i = Some r' /\ in64 id /\ core r' = core (assigned (sq_symbol s) id r).
Proof.
  intros Hok Hb Hr. pose proof (assign_ids_spec (sq_symbol s) batch (sq_nextOrderID s) (ba_arriving _ _ _ Hb)
    (so_int s Hok) (ba_ids _ _ _ Hb)) as Ha. unfold prepared.
  destruct (assign_ids _ _ batch) as [b0 next]. destruct Ha as (_ & _ & _ & _ & Has & _).
  destruct (Forall2_lookup_l _ _ _ _ _ Has Hr) as (r0 & Hr0 & id & Hid & ->).
  destruct (sq_accounts s); [|by exists (assigned (sq_symbol s) id r), id].
  pose proof (reserve_batch_core b0 a) as Hc. destruct (reserve_batch b0 a) as [b1 a1]. simpl in *.
  destruct (core_lookup b0 b1 i _ (eq_sym Hc) Hr0) as (r' & Hr' & Hcr). by exists r', id.
Qed.

Definition logs (symbol : string) (r : request) (p : reply) (rec : WalRecord) : Prop :=
  w_Seq rec = p_seq p /\
  match r_kind r with
  | reqSubmit => w_Kind rec = RecordSubmit /\
      w_Order rec = r_order (assigned symbol (p_orderID p) r) /\ in64 (p_orderID p)
  | reqCancel => w_Kind rec = RecordCancel /\ w_CancelID rec = r_cancelID r /\ w_CancelBy rec = r_cancelBy r
  | reqSnapshot => True
  end.

(** An acknowledged mutation is in the durable log, as it was asked for. *)
Lemma acknowledged_request now ts batch (s : Sequencer W) a s' st ps w i r p : seq_ok s -> batch_ok ts batch s ->
  sq_wal s = Some w -> commit now ts batch s a = Ok (s', st, ps) ->
  batch !! i = Some r -> r_kind r <> reqSnapshot -> ps !! i = Some p -> p_err p = None ->
  exists w' rec, sq_wal s' = Some w' /\ rec ∈ durable w' /\ logs (sq_symbol s) r p rec.
Proof.
  intros Hok Hb Hw Hc Hr Hk Hp He. pose proof (commit_spec now ts batch s a Hok Hb) as Hs.
  destruct (prepared_lookup ts s a batch i r Hok Hb Hr) as (r1 & id & Hr1 & Hid & Hcr1).
  destruct (prepared s a batch) as [[b1 a1] next] eqn:Ep. simpl in Hr1.
  pose proof (log_phase_spec ts s a batch b1 a1 next Hok Hb Ep) as Hl.
  destruct (log_phase ts s b1) as [[[b2 seq] wal] walErr].
  destruct Hs as (st1 & ps1 & s1 & Ha & Hc1 & _ & _ & _ & _ & Hw1 & _).
  rewrite Hc in Hc1. injection Hc1 as <- <- <-. destruct Hl as (Hcore & _ & _ & Hl & _).
  destruct wal as [w'|]; [|congruence]. destruct Hl as (w0 & Hw0 & _ & Hnone).
  rewrite Hw in Hw0. injection Hw0 as <-.
  destruct (core_lookup b1 b2 i r1 (eq_sym Hcore) Hr1) as (r2 & Hr2 & Hcr2).
  pose proof (Forall2_lookup_lr _ _ _ _ _ _ (apply_batch_each _ _ _ _ _ _ _ _ _ _ Ha) Hr2 Hp) as (x & x' & Ho).
  assert (Hcr : core r2 = core (assigned (sq_symbol s) id r)) by congruence.
  assert (Hk2 : r_kind r2 = r_kind r) by (rewrite (core_kind _ _ Hcr); unfold assigned; destruct (r_kind r) eqn:E; simpl; congruence).
  pose proof (apply_one_state _ _ _ _ _ _ _ _ _ _ Ho ltac:(congruence)) as Hst.
  destruct (apply_one_ack _ _ _ _ _ _ _ _ _ _ Ho He Hst) as (Hwe & Hlog & Hseq & Hoid).
  destruct (Hnone Hwe) as (_ & _ & _ & _ & Hd & _).
  exists w', (to_record ts (r_seq r2) r2). split_and!; [done| |].
  - rewrite Hd. apply elem_of_app. right. unfold records.
    apply (list_elem_of_fmap_2 (fun r => to_record ts (r_seq r) r)). apply list_elem_of_filter.
    split; [done|]. by eapply list_elem_of_lookup_2.
  - unfold logs, to_record. rewrite Hk2, Hseq. unfold core, assigned in *. rewrite Hoid.
    destruct (r_kind r) eqn:Ek; simpl in *; [| |done].
    + injection Hcr as _ Ho2 _ _ Hi2. simpl. rewrite Hi2, Ho2. done.
    + injection Hcr as _ _ H1 H2 _. by rewrite H1, H2.
Qed.

Lemma running_wal (s : Sequencer W) : running s -> exists w, sq_wal s = Some w.
Proof.
  induction 1 as [now w b symbol acc onT|now ts batch s a s' st ps Hr [w Hw] Hb Hc]; [by exists w|].
  pose proof (running_ok s Hr) as Hok. pose proof (commit_spec now ts batch s a Hok Hb) as Hs.
  destruct (prepared s a batch) as [[b1 a1] next] eqn:Ep. pose proof (log_phase_spec ts s a batch b1 a1 next Hok Hb Ep) as Hl.
  destruct (log_phase ts s b1) as [[[b2 seq] wal] walErr]. destruct Hs as (st1 & ps1 & s1 & _ & Hc1 & _ & _ & _ & _ & Hw1 & _).
  rewrite Hc in Hc1. injection Hc1 as <- <- <-. destruct wal as [w'|]; [by exists w'|]. destruct Hl as (_ & _ & _ & Hn & _). congruence.
Qed.
End Acknowledged.
