(* ===== verification/ServerProps.v ===== *)
(** What the gRPC surface guarantees: validation bounds what reaches the matcher,
    and no request, whatever becomes of it, takes the venue out of its invariant. *)

From Stdlib Require Import ZArith Lia Ascii String.
From stdpp Require Import base gmap list strings sorting.
From S2P Require Import Prelude Types Book BookInv BookSpec BookRefine BookProps.
From S2P Require Import Accounts AccountsInv AccountsSolv AccountsProps WalRecord Sequencer SeqFacts SeqProps.
From S2P Require Import VenueFacts Venue VenueProps Bytes WalFormat SegNames Wal WalDir WalLaw WalStep WalRecover WalProps.
From S2P Require Import Registry RegistryFacts RegistryProps Status Messages Ledger Feed Server ServerFacts.

Open Scope Z_scope.

(** * Validation *)

Definition account_ok (s : string) : Prop :=
  (1 <= String.length s <= maxAccountIDLen)%nat /\ Forall (fun c => 32 <= nat_of_ascii c <= 126)%nat (list_ascii_of_string s).

(** A request the API takes. *)
Record well_formed (req : PlaceOrderRequest) : Prop := {
  wf_symbol : po_Symbol req <> ""%string;
  wf_account : account_ok (po_AccountId req);
  wf_side : po_Side req = Side_SIDE_BUY \/ po_Side req = Side_SIDE_SELL;
  wf_quantity : 1 <= po_Quantity req <= 2 ^ 32;
  wf_price : (po_Type req = OrderType_ORDER_TYPE_LIMIT /\ 1 <= po_Price req <= 2 ^ 40) \/
             (po_Type req = OrderType_ORDER_TYPE_MARKET /\ po_Price req = 0)
}.

#[global] Instance well_formed_dec req : Decision (well_formed req).
Proof.
  destruct (decide (po_Symbol req <> ""%string /\ account_ok (po_AccountId req) /\
    (po_Side req = Side_SIDE_BUY \/ po_Side req = Side_SIDE_SELL) /\ 1 <= po_Quantity req <= 2 ^ 32 /\
    ((po_Type req = OrderType_ORDER_TYPE_LIMIT /\ 1 <= po_Price req <= 2 ^ 40) \/
     (po_Type req = OrderType_ORDER_TYPE_MARKET /\ po_Price req = 0)))) as [(? & ? & ? & ? & ?)|Hn];
    [by left; split|right; intros []; by apply Hn].
Defined.

(** The order it stands for. *)
Definition requested (req : PlaceOrderRequest) : Order :=
  mkOrder 0 (po_Symbol req) (po_AccountId req)
    (if po_Type req =? OrderType_ORDER_TYPE_LIMIT then Limit else Market)
    (po_Price req) (po_Quantity req) (if po_Side req =? Side_SIDE_BUY then Buy else Sell) zeroTime.

Lemma validateAccountID_spec s :
  validateAccountID s = if bool_decide (account_ok s) then Good s else Fails InvalidArgument.
Proof.
  unfold validateAccountID. destruct (decide (s = "")) as [->|Hne]; [done|]. rewrite bool_decide_false by done.
  assert (Hlen : (1 <= String.length s)%nat) by (destruct s; [done|simpl; lia]).
  assert (Hp : forallb printable (list_ascii_of_string s) = true <->
               Forall (fun c => 32 <= nat_of_ascii c <= 126)%nat (list_ascii_of_string s)).
  { rewrite forallb_forall, Forall_forall. unfold printable. split; intros H c Hc.
    - apply list_elem_of_In in Hc. specialize (H c Hc). apply negb_true_iff, orb_false_elim in H as [H1 H2].
      apply Nat.ltb_ge in H1, H2. lia.
    - apply list_elem_of_In in Hc. specialize (H c Hc). apply negb_true_iff, orb_false_intro; apply Nat.ltb_ge; lia. }
  destruct (Nat.ltb_spec maxAccountIDLen (String.length s)) as [Hl|Hl].
  - rewrite bool_decide_false; [done|]. intros [H _]. lia.
  - destruct (forallb _ _) eqn:Hf; [rewrite bool_decide_true|rewrite bool_decide_false]; try done.
    + split; [lia|by apply Hp].
    + intros [_ H]. by apply Hp in H.
Qed.

Lemma orderFromRequest_Good req : well_formed req -> orderFromRequest req = Good (requested req).
Proof.
  intros [H1 H2 H3 H4 H5]. unfold orderFromRequest, validateSymbol, requested.
  rewrite bool_decide_false by done. rewrite validateAccountID_spec, bool_decide_true by done.
  change maxQuantity with (2 ^ 32). change maxPrice with (2 ^ 40). cbn [mbind result_bind].
  assert (Hq : (po_Quantity req <=? 0) || (2 ^ 32 <? po_Quantity req) = false)
    by (apply orb_false_intro; [apply Z.leb_gt; lia|apply Z.ltb_ge; lia]).
  destruct H3 as [->| ->], H5 as [[-> Hp]|[-> Hp]]; simpl; rewrite Hq; cbn [mbind result_bind].
  1,3: rewrite (proj2 (Z.leb_gt _ _)), (proj2 (Z.ltb_ge _ _)) by lia; done.
  all: rewrite Hp; done.
Qed.

Lemma orderFromRequest_Fails req : ~ well_formed req -> orderFromRequest req = Fails InvalidArgument.
Proof.
  intros Hn. unfold orderFromRequest, validateSymbol.
  destruct (decide (po_Symbol req = "")) as [E|H1]; [by rewrite bool_decide_true|rewrite bool_decide_false by done].
  rewrite validateAccountID_spec. case_bool_decide as H2; [|done]. cbn [mbind result_bind].
  destruct (Z.eqb_spec (po_Side req) Side_SIDE_BUY) as [E3|E3];
    [|destruct (Z.eqb_spec (po_Side req) Side_SIDE_SELL) as [E3'|]; [|done]]; cbn [mbind result_bind];
    (destruct (Z.eqb_spec (po_Type req) OrderType_ORDER_TYPE_LIMIT) as [E4|E4];
      [|destruct (Z.eqb_spec (po_Type req) OrderType_ORDER_TYPE_MARKET) as [E4'|]; [|done]]); cbn [mbind result_bind];
    (destruct (Z.leb_spec (po_Quantity req) 0); [done|]);
    (destruct (Z.ltb_spec maxQuantity (po_Quantity req)) as [|Hq]; [done|]; change maxQuantity with (2 ^ 32) in Hq);
    cbn [orb];
    try (destruct (Z.leb_spec (po_Price req) 0); [done|];
         destruct (Z.ltb_spec maxPrice (po_Price req)) as [|Hp]; [done|]; change maxPrice with (2 ^ 40) in Hp);
    try (destruct (Z.eqb_spec (po_Price req) 0) as [Hp|]; [|done]);
    exfalso; apply Hn; split; auto; lia.
Qed.

(** * Requests and the venue *)

Section Handlers.
Context `{CodecLaws}.
Context (now : Z -> Z) (ts : Z).

Lemma published_elsewhere pub : forall sv,
  sv_venue (foldl (fun sv st => onTrades st.1 st.2 sv) sv pub) = sv_venue sv /\
  sv_ledger (foldl (fun sv st => onTrades st.1 st.2 sv) sv pub) = sv_ledger sv.
Proof. induction pub as [|p pub IH]; intros sv; [done|]. cbn [foldl]. by destruct (IH (onTrades p.1 p.2 sv)) as [-> ->]. Qed.

(** The request as the durable log of its symbol has it. *)
Definition recorded (symbol : string) (r : request) (p : reply) (st : State) : Prop :=
  exists s w rec, seqs (registry st) !! symbol = Some s /\ sq_wal s = Some w /\
    rec ∈ durable (W := Writer) w /\ logs symbol r p rec.

Lemma do_batch_lawful symbol before after r sv s : venue_reachable (sv_venue sv) ->
  seqs (registry (sv_venue sv)) !! symbol = Some s ->
  batch_ok ts (before ++ r :: after) s -> Forall arrives (before ++ r :: after) ->
  exists sv' p, do_batch now ts symbol before after r sv = Ok (sv', p) /\ venue_reachable (sv_venue sv') /\
    sv_ledger sv' = sv_ledger sv /\
    (p_err p = None -> r_kind r <> reqSnapshot -> recorded symbol r p (sv_venue sv')).
Proof.
  intros Hr Hs Hb Harr. pose proof (venue_reachable_consistent _ Hr) as Hc.
  destruct (co_open _ Hc symbol s Hs) as (_ & Hsy & Hat). pose proof (at_running _ _ Hat) as Hrun.
  destruct (venue_commit_consistent now ts symbol _ (sv_venue sv) s Hc Hs Hb Harr)
    as (s' & res & ps & Hcm & Hv & _ & _).
  pose proof (commit_spec now ts _ s (accounts (sv_venue sv)) (running_ok _ Hrun) Hb) as Hlen.
  destruct (prepared _ _ _) as [[b1 a1] next]. destruct (log_phase _ _ _) as [[[b2 seq] wal] we].
  destruct Hlen as (st1 & ps1 & s1 & _ & Hc1 & _ & Hlen & _). rewrite Hcm in Hc1. injection Hc1 as <- <- <-.
  destruct (lookup_lt_is_Some_2 ps (length before)) as [p Hp]; [rewrite Hlen, length_app; simpl; lia|].
  unfold do_batch. rewrite Hv. cbn [mbind outcome_bind]. rewrite Hp. cbn [deref mbind outcome_bind].
  eexists _, p. split; [reflexivity|]. destruct (published_elsewhere ((fun ts => (symbol, ts)) <$> ap_published res)
    (set_venue (mkState (set_seqs (<[symbol := s']> (seqs (registry (sv_venue sv)))) (registry (sv_venue sv)))
       (ap_accounts res) (disk (sv_venue sv))) sv)) as [-> ->].
  split_and!; [|done|].
  - cbn [set_venue sv_venue]. by eapply venue_commits.
  - intros He Hk. destruct (running_wal s Hrun) as [w Hw].
    assert (Hmid : (before ++ r :: after) !! length before = Some r)
      by (rewrite lookup_app_r, Nat.sub_diag by lia; done).
    destruct (acknowledged_request now ts _ s _ s' res ps w _ r p (running_ok _ Hrun) Hb Hw Hcm Hmid Hk Hp He)
      as (w' & rec & Hw' & Hin & Hlog). rewrite Hsy in Hlog.
    exists s', w', rec. split_and!; try done. cbn [set_venue sv_venue registry set_seqs seqs]. apply lookup_insert_eq.
Qed.

(** The batch the request is committed in, if it is sent. *)
Definition around (f : fate) (r : request) : list request :=
  match f with
  | Served before after | Abandoned before after _ => before ++ r :: after
  | NotSent _ => []
  end.

Lemma do_request_lawful symbol f r sv s : venue_reachable (sv_venue sv) ->
  seqs (registry (sv_venue sv)) !! symbol = Some s -> batch_ok ts (around f r) s -> Forall arrives (around f r) ->
  exists sv' res, do_request now ts symbol f r sv = Ok (sv', res) /\ venue_reachable (sv_venue sv') /\
    sv_ledger sv' = sv_ledger sv /\
    (forall p, res = Good p -> p_err p = None -> r_kind r <> reqSnapshot -> recorded symbol r p (sv_venue sv')).
Proof.
  intros Hr Hs Hb Harr. destruct f as [before after|e|before after e]; cbn [around do_request] in *.
  2: by exists sv, (Fails e).
  all: destruct (do_batch_lawful symbol before after r sv s Hr Hs Hb Harr) as (sv' & p & Hdo & Hr' & Hl & Hp).
  all: unfold do_request; rewrite Hdo; cbn [mbind outcome_bind].
  - exists sv', (Good p). split_and!; try done. by intros p' [= <-].
  - by exists sv', (Fails e).
Qed.

(** Opening the symbol first. *)
Definition openable (symbol : string) (sv : Server) : Prop :=
  seqs (registry (sv_venue sv)) !! symbol = None -> recoverable symbol (dir_at symbol (sv_venue sv)).

Lemma Get_lawful symbol sv : venue_reachable (sv_venue sv) -> openable symbol sv ->
  exists st r, Get now symbol (sv_venue sv) = Ok (st, r) /\ venue_reachable st /\
    (forall s, r = Good s -> seqs (registry st) !! symbol = Some s).
Proof.
  intros Hr Ho. pose proof (venue_reachable_consistent _ Hr) as Hc.
  destruct (Get_consistent now symbol (sv_venue sv) Hc Ho) as (st & r & Hg & _ & _ & _ & Hres).
  exists st, r. split; [done|]. split.
  - destruct (seqs (registry (sv_venue sv)) !! symbol) as [s|] eqn:Es; [|by eapply venue_get; [|by apply Ho|]].
    unfold Get, Get_with in Hg. rewrite Es in Hg. destruct (negb _); by injection Hg as <- _.
  - intros s ->. destruct Hres as (-> & _). apply lookup_insert_eq.
Qed.

(** What must be so of the batch a request is committed in: identifiers and log
    positions remain, and the other requests are such as the API sends. *)
Definition fits (symbol : string) (f : fate) (r : request) (sv : Server) : Prop :=
  Forall arrives (around f r) /\
  forall st s, Get now symbol (sv_venue sv) = Ok (st, Good s) -> batch_ok ts (around f r) s.

Lemma settle_elsewhere calls trades sv : sv_venue (settle_trades calls trades sv).1 = sv_venue sv.
Proof. unfold settle_trades. destruct (sv_ledger sv); [|done]. case_bool_decide; [done|]. by destruct (Settle _ _ _). Qed.

(** [PlaceOrder] and [CancelOrder] past validation. *)
Lemma place_lawful f calls req sv order : venue_reachable (sv_venue sv) -> openable (po_Symbol req) sv ->
  orderFromRequest req = Good order -> fits (po_Symbol req) f (submit_request order) sv ->
  exists sv' label res, PlaceOrder now ts f calls req sv = Ok (sv', label, res) /\ venue_reachable (sv_venue sv') /\
    match res with
    | Good resp => exists p, p_err p = None /\ recorded (po_Symbol req) (submit_request order) p (sv_venue sv') /\
        pr_OrderId resp = wrap64 (p_orderID p) /\ pr_LogPosition resp = p_seq p /\ pr_Trades resp = tradesToPB (p_trades p) /\
        match sv_ledger sv with
        | Some j => exists j', sv_ledger sv' = Some j' /\ ((p_trades p = [] /\ j' = j) \/ Settle calls (p_trades p) j = (j', None))
        | None => sv_ledger sv' = None
        end
    | Fails _ => label <> "accepted"%string
    end.
Proof.
  intros Hr Ho Hreq [Harr Hfit]. unfold PlaceOrder. rewrite Hreq.
  destruct (Get_lawful (po_Symbol req) sv Hr Ho) as (st & r & Hg & Hr1 & Hs). rewrite Hg. cbn [mbind outcome_bind].
  destruct r as [s|e]; [|eexists _, _, _; split; [reflexivity|by split]].
  destruct (do_request_lawful (po_Symbol req) f (submit_request order) (set_venue st sv) s Hr1 (Hs s eq_refl) (Hfit st s Hg) Harr)
    as (sv1 & res & -> & Hr2 & Hl & Hp). cbn [mbind outcome_bind].
  destruct res as [p|e]; cbn [served mbind result_bind].
  2:{ eexists _, _, _. split; [reflexivity|]. split; [done|]. by destruct e. }
  unfold submit_response. destruct (p_err p) as [e|] eqn:He.
  { eexists _, _, _. split; [reflexivity|]. split; [done|]. by destruct e. }
  cbn [or_Trades or_OrderID or_Seq or_RestingQuantity or_SelfPrevented].
  pose proof (settle_elsewhere calls (p_trades p) sv1) as Hsv. unfold settle_trades in *. rewrite Hl in *.
  cbn [set_venue sv_ledger] in *. destruct (sv_ledger sv) as [j|].
  - case_bool_decide as Ht; [|destruct (Settle calls (p_trades p) j) as [j' [e|]] eqn:Es]; (eexists _, _, _; split; [reflexivity|]);
      cbn [fst sv_venue sv_ledger] in *; (split; [by rewrite ?Hsv|]); try done; exists p; split_and!; try done; try by apply Hp.
    + exists j. auto.
    + exists j'. auto.
  - eexists _, _, _. split; [reflexivity|]. split; [done|]. exists p. split_and!; try done. by apply Hp.
Qed.

Lemma cancel_lawful f symbol account orderID sv : venue_reachable (sv_venue sv) -> openable symbol sv ->
  fits symbol f (cancelFor_request orderID account) sv ->
  exists sv' label res, CancelOrder now ts f symbol account orderID sv = Ok (sv', label, res) /\
    venue_reachable (sv_venue sv') /\ sv_ledger sv' = sv_ledger sv /\
    ((symbol = ""%string \/ ~ account_ok account \/ orderID <= 0) -> sv' = sv /\ res = Fails InvalidArgument) /\
    (forall pos, res = Good pos -> exists p, p_err p = None /\ p_seq p = pos /\
       recorded symbol (cancelFor_request orderID account) p (sv_venue sv')).
Proof.
  intros Hr Ho [Harr Hfit]. unfold CancelOrder, validateSymbol.
  assert (Hbad : exists sv' label res, Ok (sv, None, Fails InvalidArgument) = Ok (sv', label, res) /\
    venue_reachable (sv_venue sv') /\ sv_ledger sv' = sv_ledger sv /\
    ((symbol = ""%string \/ ~ account_ok account \/ orderID <= 0) -> sv' = sv /\ res = Fails InvalidArgument) /\
    (forall pos : Z, res = Good pos -> exists p, p_err p = None /\ p_seq p = pos /\
       recorded symbol (cancelFor_request orderID account) p (sv_venue sv')))
    by (exists sv, (@None string), (@Fails grpc_code Z InvalidArgument); by split_and!).
  destruct (decide (symbol = "")) as [E|Hsy]; [by rewrite bool_decide_true|rewrite bool_decide_false by done].
  rewrite validateAccountID_spec. case_bool_decide as Hac; [|done]. destruct (Z.leb_spec orderID 0) as [|Hid]; [done|].
  clear Hbad. assert (Hgood : ~ (symbol = ""%string \/ ~ account_ok account \/ orderID <= 0)) by (intros [?|[?|?]]; [done|done|lia]).
  destruct (Get_lawful symbol sv Hr Ho) as (st & r & Hg & Hr1 & Hs). rewrite Hg. cbn [mbind outcome_bind].
  destruct r as [s|e]; [|eexists _, _, _; split; [reflexivity|]; split_and!; [done|done|by intros|done]].
  destruct (do_request_lawful symbol f (cancelFor_request orderID account) (set_venue st sv) s Hr1 (Hs s eq_refl) (Hfit st s Hg) Harr)
    as (sv1 & res & -> & Hr2 & Hl & Hp). cbn [mbind outcome_bind].
  destruct res as [p|e]; cbn [served mbind result_bind]; [|eexists _, _, _; split; [reflexivity|]; split_and!; [done|done|by intros|done]].
  destruct (p_err p) as [e|] eqn:He; (eexists _, _, _; split; [reflexivity|]; split_and!; [done|done|by intros|]); [done|].
  intros pos [= <-]. exists p. split_and!; try done. by apply Hp.
Qed.

(** * The properties *)

(** C25: validation is the API's only gate and it holds. A request is turned into
    exactly the order it describes when its symbol, account, side, type, quantity
    and price are in range, and is refused as [InvalidArgument] otherwise; the order
    has no identifier of the client's choosing, is one the matcher's guarantees
    cover as long as price times quantity fits in 64 bits, and, unless it is a
    market purchase, one whose cost is reserved up front. The limits alone do not
    make the product fit. *)
Theorem requests_validated :
  (forall req, (well_formed req -> orderFromRequest req = Good (requested req)) /\
     (~ well_formed req -> orderFromRequest req = Fails InvalidArgument)) /\
  (forall req, well_formed req -> let r := submit_request (requested req) in
     arriving r /\ o_SeqID (requested req) = 0 /\
     (po_Price req * po_Quantity req <= MaxInt64 -> arrives r) /\
     (po_Side req = Side_SIDE_SELL \/ po_Type req = OrderType_ORDER_TYPE_LIMIT -> pays r)) /\
  exists req, well_formed req /\ ~ valued (requested req).
Proof.
  split; [|split].
  - intros req. split; [apply orderFromRequest_Good|apply orderFromRequest_Fails].
  - intros req Hw r. pose proof Hw as [H1 H2 H3 H4 H5].
    assert (Harr : arriving r) by (split; [done|]; intros _; split; [done|]; unfold MaxInt64; simpl; lia).
    split_and!; [done|done| |].
    + intros Hv. split; [done|]. intros _ _. split; simpl; [|lia]. destruct H5 as [[_ ?]|[_ ?]]; lia.
    + intros Hs _. split_and!.
      * unfold priced. simpl. destruct Hs as [-> | ->]; [by left|by right].
      * simpl. intros E. rewrite E in H2. destruct H2 as [[Hlen _] _]. simpl in Hlen. lia.
      * simpl. by destruct (_ =? _).
  - exists (mkPlaceOrder "NABIL" "ann" Side_SIDE_SELL OrderType_ORDER_TYPE_LIMIT (2 ^ 40) (2 ^ 32)). split.
    + split; cbn [po_Symbol po_AccountId po_Side po_Quantity po_Type po_Price].
      * done.
      * split; [vm_compute; lia|]. repeat constructor.
      * by right.
      * lia.
      * left. split; [done|lia].
    + intros [_ H1]. unfold MaxInt64, requested in H1. cbn [o_Price o_Quantity po_Price po_Quantity] in H1. lia.
Qed.


(** So is cancelling. [CancelOrder] returns and keeps the venue in its invariant
    and the ledger as it is; a request without a symbol, a proper account or a
    positive identifier changes nothing; and an accepted cancel is in the durable log
    at the position reported, for that order and on behalf of that account, which the
    book compares with the order's owner, also on replay. *)
Theorem cancel_order_lawful f symbol account orderID sv : venue_reachable (sv_venue sv) -> openable symbol sv ->
  fits symbol f (cancelFor_request orderID account) sv ->
  exists sv' label res, CancelOrder now ts f symbol account orderID sv = Ok (sv', label, res) /\
    venue_reachable (sv_venue sv') /\ sv_ledger sv' = sv_ledger sv /\
    ((symbol = ""%string \/ ~ account_ok account \/ orderID <= 0) -> sv' = sv /\ res = Fails InvalidArgument) /\
    (forall pos, res = Good pos -> exists s w rec,
       seqs (registry (sv_venue sv')) !! symbol = Some s /\ sq_wal s = Some w /\ rec ∈ durable (W := Writer) w /\
       w_Seq rec = pos /\ w_Kind rec = RecordCancel /\ w_CancelID rec = orderID /\ w_CancelBy rec = account).
Proof.
  intros Hr Ho Hfit. destruct (cancel_lawful f symbol account orderID sv Hr Ho Hfit)
    as (sv' & label & res & Hc & Hr' & Hl & Hbad & Hp).
  exists sv', label, res. split_and!; try done.
  intros pos Hres. destruct (Hp pos Hres) as (p & _ & <- & s & w & rec & Hs & Hw & Hin & Hseq & Hk & H1 & H2).
  by exists s, w, rec.
Qed.
End Handlers.

(** * Witnesses *)

Module ServerDemo.
Import StoreDemo.

(** "bob" sells 5 of his shares, in the venue of [RegistryDemo], then cancels. *)
Definition req : PlaceOrderRequest :=
  mkPlaceOrder "NABIL" "bob" Side_SIDE_SELL OrderType_ORDER_TYPE_LIMIT 100 5.
Definition sv : Server := mkServer RegistryDemo.st1 (Some ∅) ∅.
Definition f : fate := Served [] [].

Lemma sv_open r : Get id "NABIL" (sv_venue sv) = Ok r -> r = (RegistryDemo.st1, Good RegistryDemo.q1).
Proof.
  destruct RegistryDemo.st1_reachable as [_ Hq]. unfold Get, Get_with, sv. cbn [sv_venue].
  change (negb (validSymbol "NABIL")) with false. cbv iota. rewrite Hq. by intros [= <-].
Qed.

Lemma sv_openable : openable "NABIL" sv.
Proof. intros Hn. destruct RegistryDemo.st1_reachable as [_ Hq]. unfold sv in Hn. cbn [sv_venue] in Hn. congruence. Qed.

Lemma req_well_formed : well_formed req.
Proof. apply (bool_decide_unpack _). vm_compute. exact I. Qed.

Lemma one_fits r : arrives r -> carriable (W := Writer) 7 "NABIL" r -> fits id 7 "NABIL" f r sv.
Proof.
  intros Ha Hc. split; [by apply Forall_singleton|]. intros st s [= -> ->]%sv_open.
  split; [apply Forall_singleton, Ha|vm_compute; discriminate..|by apply Forall_singleton].
Qed.

Lemma req_fits : fits id 7 "NABIL" f (submit_request (requested req)) sv.
Proof.
  apply one_fits.
  - split; [split; [done|]|]; intros _; (split; [done|]) || (intros _; split); vm_compute; discriminate.
  - intros i Hi n Hn.
    split; [done|by vm_compute|split_and!; simpl; try done; split_and!; try done; by vm_compute|done].
Qed.

Lemma placed : match PlaceOrder id 7 f [] req sv with
  | Ok (_, _, Good resp) => Some (pr_OrderId resp, pr_RestingQuantity resp) | _ => None end = Some (1, 5).
Proof. vm_compute. reflexivity. Qed.

Lemma cancel_fits : fits id 7 "NABIL" f (cancelFor_request 1 "bob") sv.
Proof.
  apply one_fits; [by repeat split|]. intros i Hi n Hn.
  split; [done|by vm_compute|split_and!; simpl; try done; split_and!; try done; by vm_compute|done].
Qed.
End ServerDemo.


Lemma cancel_order_lawful_witness :
  exists sv' label res, CancelOrder id 7 ServerDemo.f "NABIL" "bob" 1 ServerDemo.sv = Ok (sv', label, res) /\
    venue_reachable (sv_venue sv') /\ sv_ledger sv' = Some ∅.
Proof.
  destruct (cancel_order_lawful id 7 ServerDemo.f "NABIL" "bob" 1 ServerDemo.sv
    (proj1 RegistryDemo.st1_reachable) ServerDemo.sv_openable ServerDemo.cancel_fits)
    as (sv' & label & res & Hp & Hr & Hl & _).
  exists sv', label, res. exact (conj Hp (conj Hr Hl)).
Defined.
