(* ===== verification/Typed.v ===== *)
(** What the API lets in is what rests, trades and is logged: the types of orders,
    books and trades.

    [typed_order], [typed_book] and [typed_trade] are the ranges the fields of an
    order keep from the request to the journal; matching and cancelling preserve
    them. *)

From Stdlib Require Import ZArith Lia Ascii String.
From stdpp Require Import base gmap list strings sorting.
From S2P Require Import Prelude Types Book BookInv BookSpec BookRefine BookProps.
From S2P Require Import Accounts AccountsInv WalRecord Sequencer SeqFacts VenueFacts Venue VenueProps BookCount.
From S2P Require Import Ledger LedgerFacts Server ServerProps.

Open Scope Z_scope.

(** An order of symbol [sy] as a checked request describes it. *)
Record typed_order (sy : string) (o : Order) : Prop := {
  ty_symbol : o_Symbol o = sy;
  ty_placer : account_ok (o_Placer o);
  ty_side : side_ok (o_Side o);
  ty_quantity : 1 <= o_Quantity o <= 2 ^ 32;
  ty_price : (o_Type o = Limit /\ 1 <= o_Price o <= 2 ^ 40) \/ (o_Type o = Market /\ o_Price o = 0);
  ty_value : o_Price o * o_Quantity o <= MaxInt64
}.

(** Only LIMIT orders rest. *)
Definition typed_resting (sy : string) (o : Order) : Prop := typed_order sy o /\ o_Type o = Limit.

(** A trade between two different accounts, at a price and for a quantity in range,
    whose value is an [int64]. *)
Record typed_trade (sy : string) (t : Trade) : Prop := {
  tt_symbol : t_Symbol t = sy;
  tt_maker : account_ok (t_MakerAccID t);
  tt_taker : account_ok (t_TakerAccID t);
  tt_parties : t_MakerAccID t <> t_TakerAccID t;
  tt_side : side_ok (t_TakerSide t);
  tt_price : 1 <= t_Price t <= 2 ^ 40;
  tt_quantity : 1 <= t_Quantity t <= 2 ^ 32;
  tt_value : t_Price t * t_Quantity t <= MaxInt64;
  tt_number : 1 <= t_SeqID t <= MaxInt64
}.

(** A book of such orders, whose numbers are in step. *)
Record typed_book (sy : string) (b : Book) : Prop := {
  tb_resting : Forall (typed_resting sy) (RestingOrders b);
  tb_counted : counted b
}.

Lemma account_nonempty s : account_ok s -> s <> ""%string.
Proof. intros [[H _] _] ->. simpl in H. lia. Qed.

Lemma typed_reduced sy o k : 1 <= k <= o_Quantity o -> typed_resting sy o -> typed_resting sy (set_quantity k o).
Proof.
  intros Hk [[H1 H2 H3 H4 H5 H6] Hl]. split; [|done]. split; cbn [set_quantity o_Symbol o_Placer o_Side o_Quantity o_Price o_Type];
    try done; [lia|]. destruct H5 as [[_ Hp]|[Ht _]]; [nia|congruence].
Qed.

Lemma typed_valued sy o : typed_order sy o -> valued o.
Proof. intros [_ _ _ _ H5 H6]. split; [|done]. destruct H5 as [[_ ?]|[_ ?]]; lia. Qed.

(** A typed trade is one the ledger takes. *)
Lemma typed_settleable sy t : typed_trade sy t -> settleable t.
Proof.
  intros [_ H2 H3 _ _ H6 H7 H8 _]. apply account_nonempty in H2, H3.
  split; [lia|lia|exact H8|unfold Buyer; by case_decide|unfold Seller; by case_decide].
Qed.

(** * Matching *)

(** A trade's parties differ because an order is never matched with its own account's. *)
Lemma sound_typed now s sy o q t : typed_order sy o -> s = opposite (o_Side o) -> Forall (typed_resting sy) q ->
  1 <= t_SeqID t <= MaxInt64 -> sound_trade now s o q t -> typed_trade sy t.
Proof.
  intros Ho -> Hq Hn (m & Hm & _ & Hma & Hp & Hqt & _ & Hta & Hsy & Hts & _ & _ & Hself).
  rewrite Forall_forall in Hq. destruct (Hq m Hm) as [[M1 M2 M3 M4 M5 M6] Ml]. destruct Ho as [O1 O2 O3 O4 O5 O6].
  destruct M5 as [[_ Mp]|[Mt _]]; [|congruence].
  split; rewrite ?Hsy, ?Hma, ?Hta, ?Hp, ?Hts; try done; [|by destruct O3 as [-> | ->]; [left|right]|lia|nia].
  intros E. unfold selfMatch in Hself. apply andb_false_iff in Hself as [H|H].
  - apply negb_false_iff, bool_decide_eq_true in H. by apply account_nonempty in O2.
  - apply bool_decide_eq_false in H. congruence.
Qed.

Lemma typed_NewBook sy : typed_book sy NewBook.
Proof. split; [constructor|apply counted_NewBook]. Qed.

Section Submit.
Context (now : Z -> Z) (sy : string) (o : Order) (b b' : Book) (res : MatchResult).
Context (Hr : reachable b) (Hb : typed_book sy b) (Ho : typed_order sy o).
Context (Hfresh : MaxOrderID b < o_SeqID o <= MaxInt64) (Hs : SubmitOrder now o b = Ok (b', Good res)).

Lemma typed_submittable : submittable o b.
Proof. apply fresh_submittable; [done|lia|]. pose proof (ty_quantity _ _ Ho). unfold MaxInt64. lia. Qed.

Lemma typed_submit_trades :
  Forall (typed_trade sy) (Trades res) /\
  (forall i t, Trades res !! i = Some t -> t_SeqID t = nextTradeID b + Z.of_nat i + 1) /\
  nextTradeID b' = nextTradeID b + Z.of_nat (length (Trades res)).
Proof.
  destruct (counted_trades now o b b' res Hr typed_submittable Hs (tb_counted _ _ Hb) Hfresh) as [Hnum Hnext].
  destruct (count_sides now o b b' res Hr typed_submittable Hs) as (Hside & Hopp & _).
  split_and!; [|intros i t Ht; by apply Hnum|done].
  apply Forall_forall. intros t Ht. destruct (submit_outcome now o b b' res Hr typed_submittable Hs) as (Htr & _).
  pose proof (matching_sound now (opposite (o_Side o)) (nextTradeID b) o _ (resting_pos b (opposite (o_Side o)) Hr Hopp)) as Hsd.
  rewrite <- Htr, Forall_forall in Hsd.
  apply (sound_typed now (opposite (o_Side o)) sy o (resting (opposite (o_Side o)) b)); try done; [| |by apply Hsd].
  - pose proof (tb_resting _ _ Hb) as Hf. rewrite (resting_perm b (o_Side o) Hr Hside) in Hf. by apply Forall_app in Hf as [Hf _].
  - apply list_elem_of_lookup in Ht as [i Hi]. by destruct (Hnum i t Hi).
Qed.

Lemma typed_submit_book : typed_book sy b' /\ MaxOrderID b' = o_SeqID o.
Proof.
  destruct (counted_submit now o b b' res Hr typed_submittable Hs (tb_counted _ _ Hb) Hfresh) as [Hc Hm].
  split; [|done]. split; [|done]. apply (resting_kept now o b b' res Hr typed_submittable Hs); [|by split|apply Hb].
  intros k m Hk. by apply typed_reduced.
Qed.
End Submit.

Lemma typed_cancel sy id by_ b b' r : reachable b -> typed_book sy b -> CancelOwned id by_ b = Ok (b', r) ->
  typed_book sy b' /\ nextTradeID b' = nextTradeID b /\ MaxOrderID b' = MaxOrderID b.
Proof.
  intros Hr [Hb [H1 H2]] Hc. destruct (cancel_kept id by_ b b' r Hr Hc) as (HP & Hn & Hid & Hm).
  split_and!; [split; [by apply HP|split; lia]|done|done].
Qed.
