(* ===== verification/TypedLog.v ===== *)
(** The log of a symbol whose requests came through the API.

    [typed_log] is what such a log is; it replays from an empty book without an error,
    on the primary and on a follower alike, and the wire can carry all of it. *)

From Stdlib Require Import ZArith Lia Ascii String.
From stdpp Require Import base gmap list strings sorting.
From S2P Require Import Prelude Types Book BookInv BookSpec BookRefine BookProps.
From S2P Require Import Accounts WalRecord Sequencer SeqFacts VenueFacts Venue VenueProps BookCount Bytes WalFormat Wal WalStep.
From S2P Require Import Messages BookTime ReplicaFacts Server ServerProps Typed.

Open Scope Z_scope.

(** A record of the log. *)
Definition typed_record (sy : string) (rec : WalRecord) : Prop :=
  match w_Kind rec with
  | RecordSubmit => typed_order sy (w_Order rec) /\ 1 <= o_SeqID (w_Order rec) <= MaxInt64
  | RecordCancel => 0 < w_CancelID rec /\ account_ok (w_CancelBy rec)
  | RecordUnknown => False
  end.

Lemma sendable_typed sy rec : typed_record sy rec -> sendable rec.
Proof.
  unfold typed_record, sendable. destruct (w_Kind rec); [done| |by split].
  intros [[_ _ Hs _ Ht _] _]. split; [done|]. intros _. split.
  - destruct Hs as [-> | ->]; done.
  - destruct Ht as [[-> _]|[-> _]]; done.
Qed.

(** The identifiers of the orders in a log. *)
Definition order_ids (recs : list WalRecord) : list Z :=
  recs ≫= fun r => match w_Kind r with RecordSubmit => [o_SeqID (w_Order r)] | _ => [] end.

Lemma order_ids_app l k : order_ids (l ++ k) = order_ids l ++ order_ids k.
Proof. apply bind_app. Qed.

(** Typed records at positions 1, 2, ..., of orders with increasing identifiers. *)
Record typed_log (sy : string) (P : list WalRecord) : Prop := {
  tl_records : Forall (typed_record sy) P;
  tl_numbered : numbered P;
  tl_ids : StronglySorted Z.lt (order_ids P)
}.

Lemma typed_log_nil sy : typed_log sy [].
Proof. split; [constructor|by intros i r|constructor]. Qed.

(** Applying the next record. *)
Lemma typed_Apply now sy r b : reachable b -> typed_book sy b -> typed_record sy r ->
  Forall (fun i => MaxOrderID b < i) (order_ids [r]) ->
  exists b', Apply now r b = Ok b' /\ reachable b' /\ typed_book sy b' /\
    MaxOrderID b' = default (MaxOrderID b) (last (order_ids [r])).
Proof.
  intros Hr Hb Hty Hid. unfold order_ids in *. cbn [mbind list_bind] in *. unfold typed_record in Hty. unfold Apply.
  destruct (w_Kind r); [done| |]; rewrite ?app_nil_r in *; cbn [last default app] in *.
  - apply Forall_cons in Hid as [Hid _]. destruct Hty as [Ho Hi].
    assert (Hsub : submittable (w_Order r) b) by (apply fresh_submittable; [exact Hr|exact Hid|]; pose proof (ty_quantity _ _ Ho); unfold MaxInt64; lia).
    assert (Hok : side_ok (o_Side (w_Order r)) /\ o_Type (w_Order r) <> UnknownType).
    { split; [apply Ho|]. destruct (ty_price _ _ Ho) as [[-> _]|[-> _]]; done. }
    destruct (submit_accepted now (w_Order r) b Hr Hsub (proj1 Hok) (proj2 Hok)) as (b' & res & Hs).
    unfold Submit. rewrite Hs. cbn [mbind outcome_bind]. exists b'. split; [done|]. split; [by eapply reach_submit|].
    apply (typed_submit_book now sy (w_Order r) b b' res Hr Hb Ho); [lia|done].
  - destruct (reachable_inv b Hr) as [Hwf _]. destruct (CancelOwned_correct b (w_CancelID r) (w_CancelBy r) Hwf) as (b' & res & Hc & _).
    rewrite Hc. cbn [mbind outcome_bind]. destruct (typed_cancel sy _ _ b b' res Hr Hb Hc) as (H1 & _ & H2).
    exists b'. split_and!; [done|by eapply reach_cancel|done|done].
Qed.

(** Replaying the rest of a log. *)
Lemma typed_replay now sy P : forall b, reachable b -> typed_book sy b -> Forall (typed_record sy) P ->
  StronglySorted Z.lt (order_ids P) -> Forall (fun i => MaxOrderID b < i) (order_ids P) ->
  exists b', replay now P b = Ok b' /\ reachable b' /\ typed_book sy b' /\
    MaxOrderID b' = default (MaxOrderID b) (last (order_ids P)).
Proof.
  induction P as [|r P IH]; intros b Hr Hb Hty Hs Hid; [by exists b|].
  apply Forall_cons in Hty as [Hty1 Hty]. assert (E : order_ids (r :: P) = order_ids [r] ++ order_ids P) by (by rewrite <- order_ids_app).
  rewrite E in *. apply StronglySorted_app in Hs as (Hlt & _ & Hs). apply Forall_app in Hid as [Hid1 Hid2].
  destruct (typed_Apply now sy r b Hr Hb Hty1 Hid1) as (b1 & Ha & Hr1 & Hb1 & Hm1). cbn [replay]. rewrite Ha. cbn [mbind outcome_bind].
  destruct (IH b1 Hr1 Hb1 Hty Hs) as (b' & Hrep & Hr' & Hb' & Hm').
  - rewrite Hm1. unfold order_ids in Hlt, Hid1 |- *. cbn [mbind list_bind] in *. destruct (w_Kind r); cbn [app last default] in *; try done.
    apply Forall_forall. intros i Hi. by apply (Hlt (o_SeqID (w_Order r)) i (list_elem_of_here _ _)).
  - exists b'. split_and!; try done. rewrite Hm', Hm1, last_app. by destruct (last (order_ids P)).
Qed.

(** A whole log: no record of it fails. *)
Lemma typed_log_replays now sy P : typed_log sy P -> exists b, replay now P NewBook = Ok b /\ reachable b /\ typed_book sy b /\
  Forall (fun i => i <= MaxOrderID b) (order_ids P) /\ 0 <= MaxOrderID b <= MaxInt64.
Proof.
  intros [H1 _ H3].
  assert (Hids : Forall (fun i => 1 <= i <= MaxInt64) (order_ids P)).
  { apply Forall_forall. intros i (r & Hi & Hr)%list_elem_of_bind. rewrite Forall_forall in H1. specialize (H1 r Hr). unfold typed_record in H1.
    destruct (w_Kind r); try by apply elem_of_nil in Hi. apply list_elem_of_singleton in Hi as ->. apply H1. }
  assert (Hpos : Forall (fun i => MaxOrderID NewBook < i) (order_ids P))
    by (eapply Forall_impl; [exact Hids|]; intros i Hi; cbv beta in *; change (MaxOrderID NewBook) with 0; lia).
  destruct (typed_replay now sy P NewBook (reach_new) (typed_NewBook sy) H1 H3 Hpos) as (b & Hb & Hr & Ht & Hm).
  exists b. split_and!; try done; rewrite Hm; [clear - H3|..].
  2-3: destruct (last (order_ids P)) as [i|] eqn:E; [|done]; rewrite Forall_forall in Hids;
    pose proof (Hids i (last_Some_elem_of _ _ E)); cbn; lia.
  induction (order_ids P) as [|i l IH]; [done|].
  apply StronglySorted_inv in H3 as [Hl Hi]. specialize (IH Hl). destruct l as [|k l]; [cbn; by repeat constructor|].
  change (last (i :: k :: l)) with (last (k :: l)). constructor; [|destruct (last (k :: l)) eqn:E; [exact IH|by apply last_None in E]].
  destruct (last (k :: l)) as [x|] eqn:E; [|by apply last_None in E]. rewrite Forall_forall in Hi.
  assert (i < x) by (apply Hi, last_Some_elem_of, E). cbn. lia.
Qed.

(** * On the wire *)

Lemma on_wire_typed sy r : typed_record sy r -> typed_record sy (on_wire r).
Proof.
  unfold typed_record, on_wire. destruct (w_Kind r) eqn:E; [done| |done]. cbn [w_Kind w_Order].
  intros [[H1 H2 H3 H4 H5 H6] Hi]. split; [by split|exact Hi].
Qed.

Lemma on_wire_ids sy P : Forall (typed_record sy) P -> order_ids (on_wire <$> P) = order_ids P.
Proof.
  induction 1 as [|r P Hr _ IH]; [done|]. rewrite fmap_cons. unfold order_ids in *. cbn [mbind list_bind]. rewrite IH. f_equal.
  unfold typed_record in Hr. unfold on_wire. by destruct (w_Kind r).
Qed.

Lemma on_wire_log sy P : typed_log sy P -> typed_log sy (on_wire <$> P).
Proof.
  intros [H1 H2 H3]. split.
  - apply Forall_fmap. eapply Forall_impl; [exact H1|apply on_wire_typed].
  - intros i r Hi. rewrite list_lookup_fmap in Hi. destruct (P !! i) as [x|] eqn:Ex; [|done]. injection Hi as <-.
    rewrite on_wire_seq. by apply H2.
  - by rewrite (on_wire_ids sy).
Qed.

(** A piece of a log from its start is one. *)
Lemma typed_take sy n P : typed_log sy P -> typed_log sy (take n P).
Proof.
  intros [H1 H2 H3]. split; [by apply Forall_take| |].
  - intros i r Hi. apply lookup_take_Some in Hi as [Hi _]. by apply H2.
  - rewrite <- (take_drop n P), order_ids_app in H3. by apply StronglySorted_app in H3 as (_ & H3 & _).
Qed.
