(* ===== verification/TypedVenue.v ===== *)
(** The types through the sequencer, the log and the whole venue.

    [typed_seq] is kept by every commit of requests the API sends and by a restart;
    [generations] is a venue's life over any number of processes, and what it has
    executed. *)

From Stdlib Require Import ZArith Lia Ascii String.
From stdpp Require Import base gmap list strings sorting.
From S2P Require Import Prelude Types Book BookInv BookSpec BookRefine BookProps.
From S2P Require Import Accounts AccountsInv AccountsSolv AccountsProps WalRecord Sequencer SeqFacts SeqProps.
From S2P Require Import VenueFacts Venue VenueProps BookCount Bytes WalFormat SegNames Wal WalDir WalLaw WalStep WalRecover WalProps.
From S2P Require Import Registry RegistryFacts RegistryProps Messages ReplicaFacts Ledger LedgerFacts Server ServerFacts ServerProps Typed TypedLog.

Open Scope Z_scope.

(** * Requests *)

(** What the handlers send: a checked order whose value is an [int64], a cancel on
    behalf of a named account, or a snapshot. *)
Inductive api_request : request -> Prop :=
| api_submit req : well_formed req -> po_Price req * po_Quantity req <= MaxInt64 ->
    api_request (submit_request (requested req))
| api_cancel orderID account : 0 < orderID -> account_ok account -> api_request (cancelFor_request orderID account)
| api_snapshot : api_request snapshot_request.

(** A request that has its identifier. *)
Definition typed_request (sy : string) (r : request) : Prop :=
  match r_kind r with
  | reqSubmit => typed_order sy (r_order r) /\ 1 <= o_SeqID (r_order r) <= MaxInt64
  | reqCancel => 0 < r_cancelID r /\ account_ok (r_cancelBy r)
  | reqSnapshot => True
  end.

(** Trades numbered from [n] on. *)
Definition numbers_from (n : Z) (T : list Trade) : Prop :=
  forall i t, T !! i = Some t -> t_SeqID t = n + Z.of_nat i + 1.

Lemma numbers_nil n : numbers_from n [].
Proof. by intros i t. Qed.

Lemma numbers_app n T T' : numbers_from n T -> numbers_from (n + Z.of_nat (length T)) T' -> numbers_from n (T ++ T').
Proof.
  intros H1 H2 i t [Ht|[Hi Ht]]%lookup_app_Some; [by apply H1|]. rewrite (H2 _ t Ht). lia.
Qed.

Lemma api_arrives r : api_request r -> arrives r.
Proof.
  intros [req Hw Hv|orderID account _ _|]; [|by repeat split..].
  pose proof Hw as [_ _ _ Hq Hp]. split; [split; [done|]; intros _; split; [done|unfold MaxInt64; simpl; lia]|].
  intros _ _. split; simpl; [|done]. destruct Hp as [[_ ?]|[_ ?]]; lia.
Qed.

(** A checked order with an identifier is typed. *)
Lemma requested_typed sy id req : sy <> ""%string -> well_formed req -> po_Price req * po_Quantity req <= MaxInt64 ->
  typed_order sy (set_symbol sy (set_seqid id (requested req))).
Proof.
  intros Hsy [H1 H2 H3 H4 H5] Hv. split; cbn [set_symbol set_seqid requested o_Symbol o_Placer o_Side o_Quantity o_Type o_Price]; try done.
  - destruct (_ =? _); [by left|by right].
  - destruct H5 as [[-> ?]|[-> ?]]; [by left|by right].
Qed.

Lemma Forall_core (P : request -> Prop) : (forall r r', core r = core r' -> P r -> P r') ->
  forall batch batch', core <$> batch = core <$> batch' -> Forall P batch -> Forall P batch'.
Proof.
  intros HP. induction batch as [|r batch IH]; intros [|r' batch']; try done.
  rewrite !fmap_cons. intros Hc [Hr Hb]%Forall_cons. pose proof (f_equal head Hc) as H1. pose proof (f_equal tail Hc) as H2.
  simpl in H1, H2. injection H1 as H1. constructor; [|by apply IH]. eapply HP; [|exact Hr]. unfold core. congruence.
Qed.

Lemma typed_request_core sy r r' : core r = core r' -> typed_request sy r -> typed_request sy r'.
Proof. unfold core, typed_request. by intros [= -> -> -> -> _]. Qed.

(** * The apply loop *)

Section Apply.
Context (now : Z -> Z) (sy : string) (acc onT : bool) (seq : Z) (we : option oms_error).

(** What [T] adds to the book [b]. *)
Definition typed_step (b b' : Book) (T : list Trade) : Prop :=
  typed_book sy b' /\ Forall (typed_trade sy) T /\ numbers_from (nextTradeID b) T /\
  nextTradeID b' = nextTradeID b + Z.of_nat (length T).

Lemma typed_still b : typed_book sy b -> typed_step b b [].
Proof. intros Hb. split_and!; [done|done|apply numbers_nil|simpl; lia]. Qed.

Lemma typed_step_trans b b1 b2 T T' : typed_step b b1 T -> typed_step b1 b2 T' -> typed_step b b2 (T ++ T').
Proof.
  intros (_ & H1 & H2 & H3) (H4 & H5 & H6 & H7). split_and!; [done|by apply Forall_app| |rewrite length_app; lia].
  apply numbers_app; [done|]. by rewrite <- H3.
Qed.

Lemma typed_apply_one r b a pub lo st p : reachable b -> typed_book sy b -> MaxOrderID b <= lo -> ids_above lo [r] ->
  typed_request sy r -> apply_one now sy acc onT seq we r (mkApplied b a pub) = Ok (st, p) ->
  typed_step b (ap_book st) (p_trades p).
Proof.
  intros Hr Hb Hlo Hids Hty Ha. pose proof (typed_still b Hb) as Hsame.
  unfold apply_one in Ha. cbn [ids_above] in Hids. unfold typed_request in Hty. destruct (r_kind r).
  - destruct (r_preErr r); [by injection Ha as <- <-|]. destruct we; [by injection Ha as <- <-|].
    destruct Hids as (Hid & _). destruct Hty as [Hord [_ Hmax]].
    destruct (SubmitOrder now (r_order r) b) as [[b' [mr|e]]| |] eqn:Es; cbn [mbind outcome_bind] in Ha; try done;
      injection Ha as <- <-; cbn [ap_book p_trades error_reply].
    + assert (Hfresh : MaxOrderID b < o_SeqID (r_order r) <= MaxInt64) by lia.
      destruct (typed_submit_trades now sy _ b b' mr Hr Hb Hord Hfresh Es) as (H1 & H2 & H3).
      destruct (typed_submit_book now sy _ b b' mr Hr Hb Hord Hfresh Es) as [H4 _]. by split_and!.
    + rewrite (SubmitOrder_Fails now (r_order r) b b' e Hr); [done| |done].
      apply fresh_submittable; [done|lia|]. pose proof (ty_quantity _ _ Hord). unfold MaxInt64. lia.
  - destruct (r_preErr r); [by injection Ha as <- <-|]. destruct we; [by injection Ha as <- <-|].
    destruct (CancelOwned (r_cancelID r) (r_cancelBy r) b) as [[b' res]| |] eqn:Ec; cbn [mbind outcome_bind] in Ha; try done.
    destruct (typed_cancel sy _ _ b b' res Hr Hb Ec) as (H1 & H2 & _).
    destruct res; injection Ha as <- <-; cbn [ap_book p_trades error_reply base_reply];
      (split_and!; [done|done|apply numbers_nil|simpl; lia]).
  - destruct (Snapshot b); cbn [mbind outcome_bind] in Ha; try done. by injection Ha as <- <-.
Qed.

Lemma typed_apply_batch batch : forall b a pub lo st ps, reachable b -> typed_book sy b -> MaxOrderID b <= lo ->
  ids_above lo batch -> Forall (typed_request sy) batch ->
  apply_batch now sy acc onT seq we batch (mkApplied b a pub) = Ok (st, ps) ->
  typed_step b (ap_book st) (concat (p_trades <$> ps)).
Proof.
  induction batch as [|r batch IH]; intros b a pub lo st ps Hr Hb Hlo Hids Hty Ha; cbn [apply_batch] in Ha.
  { injection Ha as <- <-. by apply typed_still. }
  apply Forall_cons in Hty as [Hty1 Hty].
  assert (Hids' : ids_above lo [r] /\ ids_above (top lo r) batch) by (simpl in *; unfold top; destruct (r_kind r); tauto).
  destruct Hids' as [H1 H2].
  destruct (apply_one_book now 0 sy acc onT seq we r b a pub lo Hr Hlo H1) as (b1 & a1 & pub1 & p1 & E1 & Hr1 & Hm1 & _).
  rewrite E1 in Ha. cbn [mbind outcome_bind] in Ha.
  destruct (apply_batch _ _ _ _ _ _ batch _) as [[s2 ps2]| |] eqn:E2; cbn [mbind outcome_bind] in Ha; try done.
  injection Ha as <- <-. pose proof (typed_apply_one r b a pub lo _ p1 Hr Hb Hlo H1 Hty1 E1) as Hs1.
  rewrite fmap_cons. apply (typed_step_trans b b1); [done|].
  apply (IH b1 a1 pub1 (top lo r) s2 ps2); try done. apply Hs1.
Qed.
End Apply.

(** * The sequencer *)

Section Sequencer.
Context {W : Type} `{!WalOps W, !WalLaws W}.

(** A book in its types, and, while no write has failed, a typed log that ends at the
    sequencer's position. *)
Record typed_seq (s : Sequencer W) : Prop := {
  tq_book : typed_book (sq_symbol s) (sq_book s);
  tq_log : sq_walErr s = None -> forall w, sq_wal s = Some w ->
    typed_log (sq_symbol s) (durable w) /\ sq_seq s = Z.of_nat (length (durable w))
}.

(** The batch as the apply loop sees it. *)
Lemma typed_prepared ts s a batch : seq_ok s -> typed_book (sq_symbol s) (sq_book s) -> sq_symbol s <> ""%string ->
  batch_ok ts batch s -> Forall api_request batch -> Forall (typed_request (sq_symbol s)) (prepared s a batch).1.1.
Proof.
  intros Hok Hb Hsy Hbatch Hapi. pose proof (prepared_spec ts s a batch Hok Hbatch) as Hp.
  pose proof (assign_ids_spec (sq_symbol s) batch (sq_nextOrderID s) (ba_arriving _ _ _ Hbatch) (so_int s Hok) (ba_ids _ _ _ Hbatch)) as Ha.
  assert (H0 : 0 <= sq_nextOrderID s) by (destruct (tb_counted _ _ Hb); pose proof (so_next s Hok); lia).
  pose proof (ba_ids _ _ _ Hbatch) as Hmax. unfold prepared in *.
  destruct (assign_ids _ _ batch) as [b0 next]. destruct Ha as (Hids & Hnext & _ & _ & Has & Htop).
  assert (Hty : Forall (typed_request (sq_symbol s)) b0).
  { apply Forall_forall. intros r0 Hr0. apply list_elem_of_lookup in Hr0 as [i Hi].
    destruct (Forall2_lookup_r _ _ _ _ _ Has Hi) as (r & Hr & id & Hid & ->).
    pose proof (Htop _ (list_elem_of_lookup_2 _ _ _ Hi)) as Hup. pose proof (ids_above_all _ _ Hids _ (list_elem_of_lookup_2 _ _ _ Hi)) as Hlow.
    rewrite Forall_forall in Hapi. destruct (Hapi r (list_elem_of_lookup_2 _ _ _ Hr)) as [req Hw Hv|orderID account Hpos Hac|];
      unfold assigned, typed_request in *; cbn in Hup, Hlow |- *; [|done|done].
    rewrite bool_decide_true in Hup, Hlow |- * by done. cbn in Hup, Hlow |- *.
    specialize (Hup eq_refl). specialize (Hlow eq_refl). split; [by apply requested_typed|lia]. }
  destruct (sq_accounts s); [|done]. pose proof (reserve_batch_core b0 a) as Hc. destruct (reserve_batch b0 a) as [b1 a1].
  eapply Forall_core; [apply typed_request_core|by symmetry|done].
Qed.

Lemma typed_to_record ts sy n r : r_kind r <> reqSnapshot -> typed_request sy r -> typed_record sy (to_record ts n r).
Proof. unfold typed_request, typed_record, to_record. by destruct (r_kind r). Qed.

Lemma typed_records ts sy batch : Forall (typed_request sy) batch -> Forall (typed_record sy) (records ts batch).
Proof.
  intros Hb. unfold records. apply Forall_fmap, Forall_forall. intros r [Hl Hr]%list_elem_of_filter.
  rewrite Forall_forall in Hb. apply typed_to_record; [|by apply Hb].
  unfold logged in Hl. apply andb_prop in Hl as [_ Hl]. by apply bool_decide_eq_true in Hl.
Qed.

(** The identifiers of a batch's records. *)
Lemma records_ids ts batch : forall lo, ids_above lo batch ->
  Forall (fun i => lo < i) (order_ids (records ts batch)) /\ StronglySorted Z.lt (order_ids (records ts batch)).
Proof.
  induction batch as [|r batch IH]; intros lo Hids; [split; constructor|]. rewrite records_cons. cbn [ids_above] in Hids.
  destruct (r_kind r) eqn:Ek.
  - destruct Hids as (Hlo & _ & _ & Hids). destruct (IH _ Hids) as [H1 H2].
    assert (H3 : Forall (fun i => lo < i) (order_ids (records ts batch))) by (eapply Forall_impl; [exact H1|]; simpl; lia).
    destruct (logged r); [|by split]. unfold to_record, order_ids in *. rewrite Ek. cbn [mbind list_bind w_Kind w_Order app].
    split; [by constructor|by apply SSorted_cons].
  - destruct (logged r); [|by apply IH]. unfold to_record. rewrite Ek. exact (IH lo Hids).
  - unfold logged. rewrite Ek. rewrite andb_comm, bool_decide_false by tauto. by apply IH.
Qed.

(** A log extended by a batch. *)
Lemma typed_log_extend now ts sy P batch b lo : typed_log sy P -> replay now P NewBook = Ok b -> MaxOrderID b <= lo ->
  Forall (typed_request sy) batch -> ids_above lo batch -> Forall (typed_record sy) (records ts batch) ->
  numbered (P ++ records ts batch) -> typed_log sy (P ++ records ts batch).
Proof.
  intros Hlog Hrep Hlo Hty Hids Hrecs Hnum. destruct (typed_log_replays now sy P Hlog) as (b1 & Hb1 & _ & _ & Hmax & _).
  rewrite Hrep in Hb1. injection Hb1 as <-. destruct (records_ids ts batch lo Hids) as [H1 H2]. destruct Hlog as [L1 _ L3].
  split; [by apply Forall_app|done|]. rewrite order_ids_app. apply StronglySorted_app. split_and!; [|done|done].
  intros x y Hx Hy. rewrite Forall_forall in Hmax, H1. specialize (Hmax x Hx). specialize (H1 y Hy). lia.
Qed.

(** A commit of API requests. *)
Lemma typed_commit now ts batch s a s' st ps : running s -> typed_seq s -> sq_symbol s <> ""%string ->
  batch_ok ts batch s -> Forall api_request batch -> commit now ts batch s a = Ok (s', st, ps) ->
  typed_seq s' /\ sq_symbol s' = sq_symbol s /\
  typed_step (sq_symbol s) (sq_book s) (sq_book s') (concat (p_trades <$> ps)).
Proof.
  intros Hrun [Hb Hlog] Hsy Hbatch Hapi Hc. pose proof (running_ok s Hrun) as Hok.
  assert (Hsy' : sq_symbol s' = sq_symbol s) by (by destruct (commit_attached _ _ _ _ _ _ _ _ Hc)).
  pose proof (typed_prepared ts s a batch Hok Hb Hsy Hbatch Hapi) as Hty.
  pose proof (prepared_spec ts s a batch Hok Hbatch) as Hp.
  pose proof (commit_spec now ts batch s a Hok Hbatch) as Hs.
  destruct (prepared s a batch) as [[b1 a1] next] eqn:Ep. cbn [fst] in Hty.
  pose proof (log_phase_spec ts s a batch b1 a1 next Hok Hbatch Ep) as Hl.
  destruct (log_phase ts s b1) as [[[b2 seq] wal] we]. destruct Hl as (Hcore & _ & _ & Hwal & Hsticky).
  destruct Hs as (st1 & ps1 & s1 & Ha & Hc1 & _ & _ & Hbk & Hsq & Hw1 & He1 & _).
  rewrite Hc in Hc1. injection Hc1 as <- <- <-. destruct Hp as (Hids & Hlen & _).
  pose proof (ids_above_core b1 b2 _ (eq_sym Hcore) Hids) as Hids2.
  assert (Hty2 : Forall (typed_request (sq_symbol s)) b2) by (eapply Forall_core; [apply typed_request_core|by symmetry|done]).
  pose proof (typed_apply_batch now (sq_symbol s) _ _ seq we b2 (sq_book s) a1 [] _ st ps (so_book s Hok) Hb (so_next s Hok) Hids2 Hty2 Ha) as Hstep.
  rewrite <- Hbk in Hstep. split_and!; [|done|done]. split; rewrite Hsy'; [apply Hstep|].
  rewrite He1, Hw1. intros Hnone w Hw. rewrite Hw in Hwal. cbv iota in Hwal. destruct Hwal as (w0 & Hw0 & _ & Hd). destruct (Hd Hnone) as (_ & _ & Hin & _ & Hdur & _ & Hpos & Hcnt).
  destruct (sq_walErr s) as [e|] eqn:Ewe; [specialize (Hsticky ltac:(done)); congruence|].
  destruct (Hlog eq_refl w0 Hw0) as (Hl1 & Hl3). pose proof (ba_seqs _ _ _ Hbatch) as Hroom.
  assert (Hlr : (length (records ts b2) <= length batch)%nat).
  { unfold records. rewrite length_fmap. etransitivity; [apply length_filter|].
    rewrite <- (length_fmap core), Hcore, length_fmap, Hlen. done. }
  assert (Hi : forall i rec, records ts b2 !! i = Some rec -> w_Seq rec = sq_seq s + Z.of_nat i + 1).
  { intros i rec Hr. pose proof (lookup_lt_Some _ _ _ Hr). rewrite (Hpos i rec Hr), wrap64_id by (unfold64; lia). lia. }
  pose proof (so_wal s Hok) as Hwo. unfold wal_ok in Hwo. rewrite Hw0 in Hwo. destruct Hwo as (lg & Hrep & _ & Hall).
  destruct (Hall Ewe) as (-> & _). rewrite Hdur. split.
  - apply (typed_log_extend id ts _ _ b2 (sq_book s) (sq_nextOrderID s)); try done; [apply Hok|by apply typed_records|].
    intros i rec [Hr|[Hge Hr]]%lookup_app_Some; [by apply (tl_numbered _ _ Hl1)|]. rewrite (Hi _ _ Hr). lia.
  - rewrite Hsq, length_app, Nat2Z.inj_add, <- Hl3. rewrite <- (wrap64_id seq) by done.
    rewrite (wrap64_eq64 _ _ Hcnt). apply wrap64_id. unfold64. lia.
Qed.
End Sequencer.

(** * The venue, over any number of processes *)

Lemma numbers_keys n T : 0 <= n -> Forall (fun t => typed_trade (t_Symbol t) t) T -> numbers_from n T ->
  NoDup (trade_key <$> T).
Proof.
  intros Hn Hty Hnum. apply NoDup_alt. intros i j k Hi Hj. rewrite list_lookup_fmap in Hi, Hj.
  destruct (T !! i) as [t|] eqn:Et; [|done]. destruct (T !! j) as [u|] eqn:Eu; [|done].
  injection Hi as <-. apply (f_equal (fun o => default 0 (snd <$> o))) in Hj. simpl in Hj. rename Hj into Hk. rewrite Forall_forall in Hty.
  pose proof (tt_number _ _ (Hty t (list_elem_of_lookup_2 _ _ _ Et))). pose proof (tt_number _ _ (Hty u (list_elem_of_lookup_2 _ _ _ Eu))).
  rewrite !wrap64_id in Hk by (unfold64; lia). rewrite (Hnum i t Et), (Hnum j u Eu) in Hk. lia.
Qed.

Lemma keys_identified T : NoDup (trade_key <$> T) -> identified T.
Proof.
  intros Hnd t u Ht Hu Hk. apply list_elem_of_lookup in Ht as [i Hi]. apply list_elem_of_lookup in Hu as [j Hj].
  rewrite NoDup_alt in Hnd. assert (i = j) as ->; [|congruence].
  apply (Hnd i j (trade_key t)); rewrite list_lookup_fmap; [by rewrite Hi|by rewrite Hj, Hk].
Qed.

Section Generations.
Context `{CodecLaws}.

(** A new process over what the last one left, no log of which had failed. *)
Record restarted (st st' : State) : Prop := {
  rs_fresh : fresh_state st';
  rs_open : forall symbol s, seqs (registry st) !! symbol = Some s ->
    exists w, sq_wal s = Some w /\ sq_walErr s = None /\ crashed (wr_dir w) (dir_at symbol st');
  rs_closed : forall symbol, seqs (registry st) !! symbol = None -> dir_at symbol st' = dir_at symbol st
}.

(** [generations T st]: since its first start over an empty log root the venue has
    executed the trades of [T], on requests of the API, and has come to [st]. *)
Inductive generations : list Trade -> State -> Prop :=
| gen_first st : fresh_state st -> (forall symbol, files (dir_at symbol st) = ∅) -> generations [] st
| gen_open now symbol T st st' s : generations T st -> Get now symbol st = Ok (st', Good s) -> generations T st'
| gen_commit now ts symbol batch s T st st' ps pub : generations T st -> seqs (registry st) !! symbol = Some s ->
    batch_ok ts batch s -> Forall api_request batch -> venue_commit now ts symbol batch st = Ok (st', ps, pub) ->
    generations (T ++ concat (p_trades <$> ps)) st'
| gen_deposit account amount T st : generations T st -> generations T (with_accounts (Deposit account amount) st)
| gen_position account symbol qty T st : generations T st -> generations T (with_accounts (SetPosition account symbol qty) st)
| gen_restart T st st' : generations T st -> restarted st st' -> generations T st'.

(** A symbol's sequencer, and the trades it has executed so far. *)
Definition kept (T : list Trade) (symbol : string) (s : Sequencer Writer) : Prop :=
  typed_seq s /\ forall t, t ∈ T -> t_Symbol t = symbol -> t_SeqID t <= nextTradeID (sq_book s).

Record generation_ok (T : list Trade) (st : State) : Prop := {
  go_consistent : consistent st;
  go_open : forall symbol s, seqs (registry st) !! symbol = Some s -> kept T symbol s;
  go_closed : forall symbol, seqs (registry st) !! symbol = None ->
    (files (dir_at symbol st) = ∅ /\ forall t, t ∈ T -> t_Symbol t <> symbol) \/
    exists s, left_by symbol s (dir_at symbol st) /\ kept T symbol s;
  go_typed : Forall (fun t => typed_trade (t_Symbol t) t) T;
  go_keys : NoDup (trade_key <$> T)
}.

(** Opening one symbol leaves the directories of the others. *)
Lemma Get_disk now symbol st st' r : Get now symbol st = Ok (st', r) ->
  forall other, other <> symbol -> dir_at other st' = dir_at other st.
Proof.
  unfold Get, Get_with, create. destruct (negb _); [by intros [= <- _]|].
  destruct (seqs (registry st) !! symbol) eqn:E; [by intros [= <- _]|]. unfold id at 1. rewrite E.
  destruct (_ <=? _)%nat; [by intros [= <- _]|].
  destruct (newSequencer _ _ _ _ _) as [[d [[s a]|e]]| |]; cbn [mbind outcome_bind]; try done;
    intros [= <- _] other Hne; unfold dir_at; cbn [disk]; by rewrite lookup_insert_ne by done.
Qed.

Lemma kept_reopened T symbol s s' : sq_symbol s = symbol -> sq_symbol s' = symbol -> sq_walErr s = None ->
  reopened s s' -> kept T symbol s -> kept T symbol s'.
Proof.
  intros Hsy Hsy' He (Hb & Hq & w & w' & Hw & Hw' & Hd) [[H1 H2] H3]. unfold kept. rewrite Hb. split; [|done].
  split; rewrite Hsy', <- Hsy; [by rewrite Hb|]. intros _ w1 Hw1. rewrite Hw' in Hw1. injection Hw1 as <-.
  rewrite Hd, Hq. by apply H2.
Qed.

Lemma generation_open now symbol T st st' s : generation_ok T st -> Get now symbol st = Ok (st', Good s) -> generation_ok T st'.
Proof.
  intros [Hc Ho Hcl Hty Hk] Hg.
  assert (Hrec : seqs (registry st) !! symbol = None -> recoverable symbol (dir_at symbol st)).
  { intros Hn. destruct (Hcl symbol Hn) as [[Hf _]|(s0 & Hl & _)]; [by left|right; by exists s0]. }
  destruct (Get_consistent now symbol st Hc Hrec) as (st1 & r1 & Hg1 & Hc1 & _ & _ & Hres).
  rewrite Hg in Hg1. injection Hg1 as <- <-. destruct Hres as (Hseqs & Hat & Hnew).
  destruct (co_open _ Hc1 symbol s) as (_ & Hsy & _); [by rewrite Hseqs, lookup_insert_eq|].
  split; try done; rewrite Hseqs.
  - intros sy s' [[<- <-]|[Hne Hs]]%lookup_insert_Some; [|by apply Ho].
    destruct (seqs (registry st) !! symbol) as [s0|] eqn:E.
    { assert (s0 = s) as ->; [|by apply Ho]. unfold Get, Get_with in Hg. rewrite E in Hg.
      destruct (negb _); [done|]. by injection Hg as _ ->. }
    destruct (Hnew eq_refl) as (He & Hleft & Hempty). destruct (Hcl symbol E) as [[Hf Hno]|(s0 & Hl & Hkept)].
    + destruct (Hempty Hf) as (Hb & Hq & w & Hw & Hd). split; [split|].
      * rewrite Hb. apply typed_NewBook.
      * intros _ w' Hw'. rewrite Hw in Hw'. injection Hw' as <-. rewrite Hd, Hq. split; [apply typed_log_nil|done].
      * intros t Ht Hts. by destruct (Hno t Ht).
    + destruct Hl as (w & a & Hat0 & Hsy0 & Hw & He0 & Hcr). eapply kept_reopened; [exact Hsy0|exact Hsy|exact He0| |exact Hkept].
      apply Hleft. by exists w, a.
  - intros sy [Hs Hne]%lookup_insert_None. rewrite (Get_disk now symbol st st' _ Hg sy) by done. by apply Hcl.
Qed.

Lemma generation_commit now ts symbol batch s T st st' ps pub : generation_ok T st ->
  seqs (registry st) !! symbol = Some s -> batch_ok ts batch s -> Forall api_request batch ->
  venue_commit now ts symbol batch st = Ok (st', ps, pub) -> generation_ok (T ++ concat (p_trades <$> ps)) st'.
Proof.
  intros [Hc Ho Hcl Hty Hk] Hs Hb Hapi Hv. destruct (co_open _ Hc symbol s Hs) as (_ & Hsy & Hat).
  assert (Harr : Forall arrives batch) by (eapply Forall_impl; [exact Hapi|apply api_arrives]).
  destruct (venue_commit_consistent now ts symbol batch st s Hc Hs Hb Harr) as (s' & res & ps' & Hcm & Hv' & Hc' & _).
  rewrite Hv in Hv'. injection Hv' as -> <- _. destruct (Ho symbol s Hs) as [Hts Hnum].
  destruct (typed_commit now ts batch s (accounts st) s' res ps (at_running _ _ Hat) Hts (at_symbol _ _ Hat) Hb Hapi Hcm)
    as (Hts' & Hsy' & Htb & Htt & Hfrom & Hnext). rewrite Hsy in *. set (T' := concat (p_trades <$> ps)) in *.
  assert (Hin : forall t, t ∈ T' -> t_Symbol t = symbol /\ nextTradeID (sq_book s) < t_SeqID t <= nextTradeID (sq_book s')).
  { intros t Ht. rewrite Forall_forall in Htt. split; [apply (Htt t Ht)|].
    apply list_elem_of_lookup in Ht as [i Hi]. pose proof (lookup_lt_Some _ _ _ Hi). rewrite (Hfrom i t Hi). lia. }
  assert (Hty' : Forall (fun t => typed_trade (t_Symbol t) t) T').
  { rewrite Forall_forall in *. intros t Ht. destruct (Hin t Ht) as [-> _]. by apply Htt. }
  pose proof (cn_number _ (tb_counted _ _ (tq_book _ Hts))) as Hnn.
  split; [done| | |by apply Forall_app|]; cbn [registry set_seqs seqs].
  - intros sy x [[<- <-]|[Hne Hx]]%lookup_insert_Some.
    + split; [done|]. intros t [Ht|Ht]%elem_of_app Hsyt; [|destruct (Hin t Ht); lia]. specialize (Hnum t Ht Hsyt). lia.
    + destruct (Ho sy x Hx) as [H1 H2]. split; [done|]. intros t [Ht|Ht]%elem_of_app Hsyt; [by apply H2|].
      destruct (Hin t Ht). congruence.
  - intros sy [Hx Hne]%lookup_insert_None. destruct (Hcl sy Hx) as [[Hf Hno]|(x & Hl & H1 & H2)]; [left|right; exists x].
    + split; [done|]. intros t [Ht|Ht]%elem_of_app; [by apply Hno|]. destruct (Hin t Ht). congruence.
    + split; [done|]. split; [done|]. intros t [Ht|Ht]%elem_of_app Hsyt; [by apply H2|]. destruct (Hin t Ht). congruence.
  - rewrite fmap_app. apply NoDup_app. split_and!; [done| |by apply (numbers_keys (nextTradeID (sq_book s)))].
    intros k (t & -> & Ht)%list_elem_of_fmap (u & Hku & Hu)%list_elem_of_fmap. unfold trade_key in Hku. injection Hku as Hsu Hiu.
    destruct (Hin u Hu) as [Hus Hun]. rewrite Forall_forall in Hty, Hty'.
    pose proof (tt_number _ _ (Hty t Ht)). pose proof (tt_number _ _ (Hty' u Hu)).
    rewrite !wrap64_id in Hiu by (unfold64; lia). specialize (Hnum t Ht ltac:(congruence)). lia.
Qed.

Lemma generation_balances f T st : (forall a, holds (f a) = holds a /\ (acc_wf a -> acc_wf (f a))) ->
  generation_ok T st -> generation_ok T (with_accounts f st).
Proof. intros Hf [Hc Ho Hcl Hty Hk]. split; try done. by apply consistent_balances. Qed.

Lemma generation_restart T st st' : generation_ok T st -> restarted st st' -> generation_ok T st'.
Proof.
  intros [Hc Ho Hcl Hty Hk] [Hf Hop Hcd]. split; try done; [by apply fresh_consistent|..]; destruct Hf as (Hnil & _); rewrite Hnil.
  - intros symbol s. by rewrite lookup_empty.
  - intros symbol _. destruct (seqs (registry st) !! symbol) as [s|] eqn:E.
    + right. exists s. split; [|by apply Ho]. destruct (Hop symbol s E) as (w & Hw & He & Hcr).
      destruct (co_open _ Hc symbol s E) as (_ & Hsy & Hat). by exists w, (accounts st).
    + rewrite (Hcd symbol E). by apply Hcl.
Qed.

Lemma generations_ok T st : generations T st -> generation_ok T st.
Proof.
  induction 1 as [st Hf Hd|now symbol T st st' s _ IH Hg|now ts symbol batch s T st st' ps pub _ IH Hs Hb Hapi Hv
    |account amount T st _ IH|account symbol qty T st _ IH|T st st' _ IH Hrs].
  - split; [by apply fresh_consistent|destruct Hf as (Hnil & _); rewrite Hnil; intros symbol s; by rewrite lookup_empty| |done|constructor].
    intros symbol _. left. split; [done|]. intros t Ht. by apply elem_of_nil in Ht.
  - by eapply generation_open.
  - by eapply generation_commit.
  - apply generation_balances; [|done]. intros a. split; [done|]. intros [W1 W2 W3]. by split.
  - apply generation_balances; [|done]. intros a. split; [done|]. intros [W1 W2 W3]. by split.
  - by eapply generation_restart.
Qed.

(** * The property *)

End Generations.

(** * Witnesses *)

Module TypedDemo.
Import StoreDemo.

(** "bob" sells 5 at 100, "ann" buys 3 of them; then the process dies and
    another one starts over its directory. *)
Definition sale : PlaceOrderRequest := ServerDemo.req.
Definition purchase : PlaceOrderRequest := mkPlaceOrder "NABIL" "ann" Side_SIDE_BUY OrderType_ORDER_TYPE_LIMIT 101 3.
Definition batch : list request := [submit_request (requested sale); submit_request (requested purchase)].
Definition traded := venue_commit id 7 "NABIL" batch RegistryDemo.st1.
Definition st2 : State := match traded with Ok (st, _, _) => st | _ => RegistryDemo.st1 end.
Definition T : list Trade := match traded with Ok (_, ps, _) => concat (p_trades <$> ps) | _ => [] end.
Definition q2 : Sequencer Writer := default RegistryDemo.q1 (seqs (registry st2) !! "NABIL"%string).
Definition w2 : Writer := default opened (sq_wal q2).
Definition st3 : State := RegistryDemo.empty_venue VenueDemo.store {["NABIL"%string := wr_dir w2]}.

Lemma batch_api : Forall api_request batch.
Proof.
  apply Forall_cons. split; [|apply Forall_singleton]; apply api_submit; try (vm_compute; discriminate).
  - exact ServerDemo.req_well_formed.
  - apply (bool_decide_unpack _). vm_compute. exact I.
Qed.

Lemma batch_fits : batch_ok 7 batch RegistryDemo.q1.
Proof.
  split; [|vm_compute; discriminate..|].
  - eapply Forall_impl; [exact batch_api|]. intros r Hr. apply (api_arrives r Hr).
  - assert (E : sq_symbol RegistryDemo.q1 = "NABIL"%string) by (vm_compute; reflexivity). rewrite E.
    apply Forall_cons. split; [|apply Forall_singleton]; intros i Hi n Hn;
      (split; [done|by vm_compute|split_and!; simpl; try done; split_and!; try done; by vm_compute|done]).
Qed.

Lemma traded_ok : exists ps pub, traded = Ok (st2, ps, pub) /\ T = concat (p_trades <$> ps).
Proof.
  destruct RegistryDemo.st1_reachable as [Hr Hq]. pose proof (venue_reachable_consistent _ Hr) as Hc.
  assert (Harr : Forall arrives batch) by (eapply Forall_impl; [exact batch_api|apply api_arrives]).
  destruct (venue_commit_consistent id 7 "NABIL" batch RegistryDemo.st1 RegistryDemo.q1 Hc Hq batch_fits Harr)
    as (s' & res & ps & _ & Hv & _).
  eexists ps, _. unfold st2, T, traded. rewrite Hv. split; reflexivity.
Qed.

Lemma st2_generation : generations T st2.
Proof.
  destruct traded_ok as (ps & pub & Hv & ->).
  assert (Hf : generations [] RegistryDemo.st0) by (apply gen_first; [apply RegistryDemo.fresh_venue|intros symbol; done]).
  destruct (Get_consistent id "NABIL" RegistryDemo.st0 (fresh_consistent _ (RegistryDemo.fresh_venue ∅)) (fun _ => or_introl eq_refl))
    as (st & [s|e] & Hg & _).
  - assert (E : RegistryDemo.st1 = st) by (unfold RegistryDemo.st1; by rewrite Hg). rewrite <- E in Hg.
    exact (gen_commit id 7 "NABIL" batch RegistryDemo.q1 [] RegistryDemo.st1 st2 ps pub
      (gen_open id "NABIL" [] _ _ s Hf Hg) (proj2 RegistryDemo.st1_reachable) batch_fits batch_api Hv).
  - exfalso. apply (f_equal (fun r => match r with Ok (_, Good _) => true | _ => false end)) in Hg. vm_compute in Hg. discriminate Hg.
Qed.

Lemma only_key {A} (m : gmap string A) k x : m !! k = Some x -> size m = 1%nat -> forall k', k' <> k -> m !! k' = None.
Proof.
  intros Hk Hm k' Hne. pose proof (map_size_delete_Some k m (ex_intro _ x Hk)) as Hd. rewrite Hm in Hd.
  apply map_size_empty_inv in Hd. by rewrite <- (lookup_delete_ne m _ _ (not_eq_sym Hne)), Hd, lookup_empty.
Qed.

(** A process that starts over what one with a single open symbol left. *)
Lemma restarted_one symbol st st' q w d : seqs (registry st) !! symbol = Some q -> size (seqs (registry st)) = 1%nat ->
  sq_wal q = Some w -> sq_walErr q = None -> Registry.disk st !! symbol = Some d -> size (Registry.disk st) = 1%nat ->
  fresh_state st' -> Registry.disk st' = {[symbol := wr_dir w]} -> restarted st st'.
Proof.
  intros Hq Hs Hw He Hd Hds Hf Hd'. split; [exact Hf| |].
  - intros sy s Hsy. destruct (decide (sy = symbol)) as [->|Hne].
    + rewrite Hq in Hsy. injection Hsy as <-. exists w. split_and!; [done|done|]. unfold dir_at. rewrite Hd', lookup_singleton_eq.
      exact (WalDemo.crashed_refl _).
    + by rewrite (only_key _ _ q Hq Hs sy Hne) in Hsy.
  - intros sy Hn. destruct (decide (sy = symbol)) as [->|Hne]; [congruence|].
    unfold dir_at. rewrite (only_key _ _ d Hd Hds sy Hne), Hd', lookup_singleton_ne by done. done.
Qed.

Lemma next_restarted st : fresh_state st -> Registry.disk st = {["NABIL"%string := wr_dir w2]} -> restarted st2 st.
Proof. apply (restarted_one "NABIL" st2 st q2 w2 (dir_at "NABIL" st2)); vm_compute; reflexivity. Qed.

Lemma st3_restarted : restarted st2 st3.
Proof. apply next_restarted; [apply RegistryDemo.fresh_venue|reflexivity]. Qed.
End TypedDemo.

