(* ===== verification/Failover.v ===== *)
(** Failover, from [docs/failover.md]: a follower's log directory becomes a primary's.

    The promotion is a server started on the directory the follower wrote; nothing is
    converted. What that gives back depends only on how far the follower had come. *)

From Stdlib Require Import ZArith Lia Ascii String.
From stdpp Require Import base gmap list strings sorting.
From S2P Require Import Prelude Types Book BookInv BookSpec BookRefine BookProps.
From S2P Require Import Accounts AccountsInv AccountsSolv AccountsProps WalRecord Sequencer SeqFacts SeqProps.
From S2P Require Import VenueFacts Venue VenueProps BookCount Bytes WalFormat SegNames Wal WalDir WalInv WalLaw WalStep WalRecover WalProps.
From S2P Require Import Tail Registry RegistryFacts RegistryProps Messages BookTime Replication Replica ReplicaFacts ReplicaProps.
From S2P Require Import Ledger LedgerFacts Server ServerFacts ServerProps Typed TypedLog TypedVenue.

Open Scope Z_scope.

Section Failover.
Context `{CodecLaws}.

(** A server has been started on the directory a follower kept for [symbol], which a
    crash may have gone over. *)
Record takes_over (symbol : string) (f : symbolState Writer) (st0 : State) : Prop := {
  to_fresh : fresh_state st0;
  to_log : crashed (wr_dir (st_wal f)) (dir_at symbol st0);
  to_calls : script (dir_at symbol st0) = []
}.

(** A follower's log is one a primary could have left. *)
Lemma promoted_left symbol P (f : symbolState Writer) d : symbol <> ""%string -> typed_log symbol P -> mirrors P f ->
  crashed (wr_dir (st_wal f)) d ->
  exists s, left_by symbol s d /\ sq_book s = st_book f /\ sq_seq s = st_position f /\ typed_book symbol (sq_book s).
Proof.
  intros Hsy HP [(n & Hn & Hle & Hd) Hbuf Hh Hl Hrep] Hcr.
  destruct (typed_log_replays id symbol (durable (st_wal f))) as (b & Hb & Hr & Ht & _ & Hmax).
  { rewrite Hd. by apply on_wire_log, typed_take. }
  rewrite Hrep in Hb. injection Hb as <-.
  assert (Hval : Forall valued (RestingOrders (st_book f))).
  { eapply Forall_impl; [apply (tb_resting _ _ Ht)|]. intros o [Ho _]. by eapply typed_valued. }
  assert (Hrun : running (attach symbol true true (NewSequencerWithWAL (st_book f) (Some (st_wal f))))).
  { apply (running_start id); try done; [unfold64; lia|]. destruct Hh as (closed & sg & Hw).
    pose proof (hw_seq _ _ _ Hw). cbn [wal_LastSeq Writer_ops]. unfold64. lia. }
  pose proof (attach_spec (mkRegistry true "wal" true ∅) symbol (st_book f) (st_wal f) NewAccounts eq_refl Hsy NewAccounts_wf
    ltac:(done) ltac:(done) Hrun Hr Hval) as Hat.
  destruct (registry_attach _ symbol _ NewAccounts) as [s a]. destruct Hat as (H1 & H2 & H3 & H4 & H5 & _ & _ & _ & H9).
  exists s. split_and!; [by exists (st_wal f), a|done|by rewrite H4|by rewrite H3].
Qed.

(** Orders that differ in time stamps reserve the same. *)
Lemma holds_same s b b' a a' : same_book b b' -> holds_are s (RestingOrders b) a -> holds_are s (RestingOrders b') a' ->
  forall id, holds a !! (s, id) = holds a' !! (s, id).
Proof.
  intros Hb H1 H2 id. apply option_eq. intros h. rewrite (H1 id h), (H2 id h).
  assert (Hx : forall c c', same_book c c' -> (exists o, o ∈ RestingOrders c /\ o_SeqID o = id /\ h = order_hold s o) ->
    exists o, o ∈ RestingOrders c' /\ o_SeqID o = id /\ h = order_hold s o).
  { intros c c' Hc (o & Ho & Hid & Hh). apply (list_elem_of_fmap_2 untime) in Ho. rewrite (same_book_orders c c' Hc) in Ho.
    apply list_elem_of_fmap in Ho as (o' & E & Ho'). exists o'. split; [done|].
    assert (Eid : o_SeqID o = o_SeqID o') by (change (o_SeqID (untime o) = o_SeqID (untime o')); by rewrite E).
    assert (Eh : order_hold s o = order_hold s o') by (change (order_hold s (untime o) = order_hold s (untime o')); by rewrite E).
    by rewrite <- Eid, <- Eh. }
  split; [by apply Hx|apply Hx; by symmetry].
Qed.

End Failover.

(** * A follower that was behind *)

(** A server on the directory a follower left. *)
Definition promoted (a : Accounts) (symbol : string) (f : symbolState Writer) : State :=
  mkState (mkRegistry true "wal" true ∅) a {[symbol := wr_dir (st_wal f)]}.

Module FailoverDemo.
Import StoreDemo TypedDemo ReplicaDemo.

(** [TypedDemo]'s primary has executed one trade; the follower never connected. *)
Definition behind : symbolState Writer := follower [].
Definition node0 : State := promoted VenueDemo.store "NABIL" behind.
Definition node1 : State := RegistryDemo.fallback node0 (Get id "NABIL" node0).
(** The same accounts trade again, for another quantity. *)
Definition purchase2 : PlaceOrderRequest := mkPlaceOrder "NABIL" "ann" Side_SIDE_BUY OrderType_ORDER_TYPE_LIMIT 101 2.
Definition batch2 : list request := [submit_request (requested sale); submit_request (requested purchase2)].
Definition traded2 := venue_commit id 7 "NABIL" batch2 node1.
Definition T2 : list Trade := match traded2 with Ok (_, ps, _) => concat (p_trades <$> ps) | _ => [] end.

Lemma batch2_api : Forall api_request batch2.
Proof.
  apply Forall_cons. split; [|apply Forall_singleton]; apply api_submit; try (vm_compute; discriminate);
    apply (bool_decide_unpack _); vm_compute; exact I.
Qed.

Lemma T2_settleable : Forall settleable T2.
Proof.
  assert (E : T2 = [mkTrade 1 "NABIL" 100 1 2 "bob" "ann" 2 Buy 1]) by (vm_compute; reflexivity). rewrite E.
  apply Forall_singleton. split; vm_compute; try reflexivity; discriminate.
Qed.

Lemma behind_mirrors : mirrors (durable (W := Writer) w2) behind.
Proof. apply follower_mirrors. vm_compute. reflexivity. Qed.

Lemma node0_fresh : fresh_state node0.
Proof. exact (RegistryDemo.fresh_venue {["NABIL"%string := wr_dir (st_wal behind)]}). Qed.

Lemma node0_dir : dir_at "NABIL" node0 = wr_dir (st_wal behind).
Proof. unfold dir_at, node0, promoted. cbn [Registry.disk]. by rewrite lookup_singleton_eq. Qed.

Lemma node0_takes_over : takes_over "NABIL" behind node0.
Proof.
  split; [exact node0_fresh|rewrite node0_dir; apply WalDemo.crashed_refl|rewrite node0_dir; vm_compute; reflexivity].
Qed.
End FailoverDemo.


Import StoreDemo.

