(* ===== verification/Cluster.v ===== *)
(** One symbol on two nodes: the primary's log, the stream over it, and the follower.

    A [Cluster] is everything the two processes hold for one symbol, and
    [cluster_step] the moves they make, interleaved in any order: the sequencer's
    appends, the flush and the fsync inside [Sync], a stream's polls, a follower's
    deliveries, and the death and restart of either process at any moment. Writes that
    return do not fail here; what failing ones do is in [SeqProps] and [ReplicaProps].
    An append is one step, its rotation included; what a poll finds inside a rotation is
    in [Rotation]. *)

From Stdlib Require Import ZArith Lia Ascii String.
From stdpp Require Import base gmap list strings sorting relations.
From S2P Require Import Prelude Types Book BookInv BookSpec BookRefine BookProps.
From S2P Require Import Accounts WalRecord Sequencer SeqFacts SeqProps VenueFacts Venue VenueProps BookCount.
From S2P Require Import Bytes WalFormat WalRead SegNames Wal WalDir WalInv WalLaw WalStep WalRecover WalProps.
From S2P Require Import Tail TailFacts TailProps Registry RegistryFacts RegistryProps Status Messages BookTime Replication ReplicationProps.
From S2P Require Import Replica ReplicaFacts ReplicaProps LogGrow Server ServerProps Typed TypedLog TypedVenue.

Open Scope Z_scope.

(** A stream is a tailer on the primary's side and the messages sent but not received. *)
Record Cluster := mkCluster {
  cl_primary : Writer;
  cl_follower : symbolState Writer;
  cl_stream : option (Tailer * list (list WALRecordPB))
}.

(** [Next] sends nothing while it finds nothing. *)
Definition enqueue (recs : list WalRecord) (queue : list (list WALRecordPB)) : list (list WALRecordPB) :=
  match recs with [] => queue | _ => queue ++ [recordToPB <$> recs] end.

Section Steps.
Context `{PayloadCodec} `{!CodecLaws} (now : Z -> Z) (sy : string).

(** [may_poll] says of which logs a stream may be looking at the files. *)
Inductive cluster_step (may_poll : Writer -> Prop) : Cluster -> Cluster -> Prop :=
| step_append w f s r w' : typed_log sy (log w ++ [r]) -> loggable r -> loggable (on_wire r) -> w_Seq r < MaxInt64 ->
    wal_Append r w = (w', None) -> cluster_step may_poll (mkCluster w f s) (mkCluster w' f s)
| step_flush w f s w' : wr_flush w = Ok (w', None) -> cluster_step may_poll (mkCluster w f s) (mkCluster w' f s)
| step_sync w f s w' : wal_Sync w = (w', None) -> cluster_step may_poll (mkCluster w f s) (mkCluster w' f s)
| step_restart w f s d d' w' : crashed (wr_dir w) d -> OpenWriter d = (d', Good w') ->
    cluster_step may_poll (mkCluster w f s) (mkCluster w' f None)
| step_connect w f s : cluster_step may_poll (mkCluster w f s) (mkCluster w f (Some (NewTailer (currentPosition f), [])))
| step_hangup w f s : cluster_step may_poll (mkCluster w f s) (mkCluster w f None)
| step_poll w f t q t' recs : may_poll w ->
    poll (poll_fuel (wr_dir w) walBatchCap) (wr_dir w) t walBatchCap = Ok (t', recs, None) ->
    cluster_step may_poll (mkCluster w f (Some (t, q))) (mkCluster w f (Some (t', enqueue recs q)))
| step_deliver w f t msg q recs f' : decode_all msg = Good recs -> apply now recs f = Ok (f', None) ->
    cluster_step may_poll (mkCluster w f (Some (t, msg :: q))) (mkCluster w f' (Some (t, q)))
| step_reopen w f s r r' f' : rp_symbols r !! sy = None -> crashed (wr_dir (st_wal f)) (replica_dir sy r) ->
    script (replica_dir sy r) = [] -> openSymbol now sy r = Ok (r', Good f') ->
    cluster_step may_poll (mkCluster w f s) (mkCluster w f' None).

(** The code polls whenever it likes; a tailer that only read what is on disk for good
    would look at logs with nothing buffered. *)
Definition any_time (w : Writer) : Prop := True.
Definition once_synced (w : Writer) : Prop := buffered w = [].

(** Two nodes that have nothing yet. *)
Record cluster_start (c : Cluster) : Prop := {
  cs_tidy : tidy (cl_primary c);
  cs_log : log (cl_primary c) = [];
  cs_follower : mirrors [] (cl_follower c);
  cs_stream : cl_stream c = None
}.

(** * The invariant *)

(** What a stream has taken from the log since the follower connected at [a], and what
    of it the follower does not have yet. *)
Definition flowing (P : list WalRecord) (w : Writer) (f : symbolState Writer) (t : Tailer) (q : list (list WALRecordPB)) : Prop :=
  exists (a k : nat) segs segs' out, Forall seg_ok segs /\ grown segs segs' /\ showing w segs' /\
    delivered (Z.of_nat a) segs t out /\ (a + length out <= length P)%nat /\ (a <= k <= a + length out)%nat /\ st_position f = Z.of_nat k /\
    concat q = recordToPB <$> drop (k - a) out.

(** The follower, and what it is being sent, come from the part [P] of the log. *)
Record tracks (P : list WalRecord) (c : Cluster) : Prop := {
  tr_tidy : tidy (cl_primary c);
  tr_log : typed_log sy (log (cl_primary c));
  tr_wire : Forall (fun r => loggable (on_wire r)) (log (cl_primary c));
  tr_last : Z.of_nat (length (log (cl_primary c))) < MaxInt64;
  tr_part : P `prefix_of` log (cl_primary c);
  tr_follower : mirrors P (cl_follower c);
  tr_stream : forall t q, cl_stream c = Some (t, q) -> flowing P (cl_primary c) (cl_follower c) t q
}.

Lemma take_of_prefix {A} (l k : list A) n : l `prefix_of` k -> (n <= length l)%nat -> take n l = take n k.
Proof. intros Hp Hn. symmetry. by apply take_prefix. Qed.

Lemma mirrors_part P Q L (f : symbolState Writer) : mirrors P f -> P `prefix_of` L -> Q `prefix_of` L ->
  st_position f <= Z.of_nat (length Q) -> mirrors Q f.
Proof.
  intros [(n & Hn & Hle & Hd) H2 H3 H4 H5] HP HQ Hpos. split; [|done..]. exists n. split; [done|]. split; [lia|].
  rewrite Hd, (take_of_prefix P L), (take_of_prefix Q L) by (done || lia). done.
Qed.

Lemma mirrors_bound P (f : symbolState Writer) : mirrors P f -> st_position f <= Z.of_nat (length P).
Proof. intros [(n & -> & Hle & _) _ _ _ _]. lia. Qed.

Lemma typed_shippable P : typed_log sy P -> Forall (fun r => loggable (on_wire r)) P -> shippable (W := Writer) P.
Proof.
  intros HP Hw. destruct (typed_log_replays id sy P HP) as (b & Hb & _). split; [apply HP| |exact Hw|by exists b].
  eapply Forall_impl; [apply HP|]. by apply sendable_typed.
Qed.

Lemma typed_prefix P L : typed_log sy L -> P `prefix_of` L -> typed_log sy P.
Proof. intros HL [x ->]. rewrite <- (take_app_length P x). by apply typed_take. Qed.

Lemma Forall_prefix {A} (Q : A -> Prop) l k : Forall Q k -> l `prefix_of` k -> Forall Q l.
Proof. intros Hk [x ->]. by apply Forall_app in Hk as [? _]. Qed.

Lemma tracks_shippable P c : tracks P c -> shippable (W := Writer) P.
Proof.
  intros [_ HL Hw _ Hp _ _]. apply typed_shippable; [by eapply typed_prefix|by eapply Forall_prefix].
Qed.

(** What a stream has taken is the next piece of the log. *)
Lemma flowing_piece L a segs segs' w t out : L = log w -> numbered L -> grown segs segs' -> showing w segs' ->
  delivered (Z.of_nat a) segs t out -> out `prefix_of` drop a L.
Proof.
  intros -> Hn Hg Hs Hd. rewrite <- (above_numbered _ a Hn). etransitivity; [apply Hd|].
  assert (Hp : all_recs segs `prefix_of` log w).
  { etransitivity; [exact (grown_recs _ _ Hg)|]. apply (showing_log w segs' Hs). }
  destruct Hp as [x ->]. rewrite above_app. by apply prefix_app_r.
Qed.

Lemma tracks_more P Q c : tracks P c -> P `prefix_of` Q -> Q `prefix_of` log (cl_primary c) -> tracks Q c.
Proof.
  intros [H1 H2 H3 H4 H5 H6 H7] HQ HL. pose proof (prefix_length _ _ HQ) as Hlen. split; try done.
  - apply (mirrors_part P Q _ _ H6 H5 HL). pose proof (mirrors_bound _ _ H6). lia.
  - intros t q Hs. destruct (H7 t q Hs) as (a & k & segs & segs' & out & R1 & R2 & R3 & R4 & R5 & R6).
    exists a, k, segs, segs', out. split_and!; try done; [lia|apply R6..].
Qed.

(** ** The primary writes *)

Lemma tracks_write P w f s w' : tracks P (mkCluster w f s) -> typed_log sy (log w') ->
  Forall (fun r => loggable (on_wire r)) (log w') -> Z.of_nat (length (log w')) < MaxInt64 -> log w `prefix_of` log w' ->
  (forall segs, showing w segs -> exists segs', showing w' segs' /\ grown segs segs') -> tidy w' ->
  tracks P (mkCluster w' f s).
Proof.
  intros [H1 H2 H3 H4 H5 H6 H7] G1 G2 G3 G4 G5 G6. cbn [cl_primary cl_follower cl_stream] in *.
  split; cbn [cl_primary cl_follower cl_stream]; try done; [by etransitivity|].
  intros t q Hs. destruct (H7 t q Hs) as (a & k & segs & segs1 & out & R1 & R2 & R3 & R4 & R5).
  destruct (G5 segs1 R3) as (segs2 & S1 & S2). exists a, k, segs1, segs2, out.
  pose proof (showing_log _ _ R3) as (Hsh & _). split; [apply (sh_segs _ _ Hsh)|]. split; [exact S2|]. split; [exact S1|].
  split; [|exact R5]. destruct R4 as [D1 D2 D3 D4]. split; [by eapply at_pos_grown| |exact D3|exact D4].
  etransitivity; [exact D2|]. destruct (grown_recs _ _ R2) as [x ->]. rewrite above_app. by apply prefix_app_r.
Qed.

(** Every write keeps the part the follower tracks, and what is durable. *)
Definition advances (P : list WalRecord) (c c' : Cluster) : Prop :=
  tracks P c' /\ durable (cl_primary c) `prefix_of` durable (cl_primary c') /\ log (cl_primary c) `prefix_of` log (cl_primary c').

Lemma advance_append P w f s r w' : tracks P (mkCluster w f s) -> typed_log sy (log w ++ [r]) -> loggable r ->
  loggable (on_wire r) -> w_Seq r < MaxInt64 -> wal_Append r w = (w', None) -> advances P (mkCluster w f s) (mkCluster w' f s).
Proof.
  intros Ht Hty Hl Hw Hm Ha. pose proof (tr_tidy _ _ Ht) as Htidy. pose proof (tr_wire _ _ Ht) as Hwire. cbn [cl_primary] in *.
  destruct (tidy_log w Htidy) as (_ & _ & Hls & _). destruct (tidy_showing w Htidy) as [segs Hs].
  assert (Hq0 : w_Seq r = Z.of_nat (length (log w)) + 1)
    by (apply (tl_numbered _ _ Hty); by rewrite lookup_app_r, Nat.sub_diag).
  assert (Hq : w_Seq r = lastSeq w + 1) by lia.
  destruct (Append_shows w segs r w' Hs Hl Hq Ha) as (segs' & Hs' & _ & Hlog & Hd).
  split; [|split; [exact Hd|]; cbn [cl_primary]; rewrite Hlog; by apply prefix_app_r].
  apply (tracks_write P w); rewrite ?Hlog; try done.
  - apply Forall_app. split; [done|by constructor].
  - rewrite length_app. simpl. lia.
  - by apply prefix_app_r.
  - intros sg Hsg. destruct (Append_shows w sg r w' Hsg Hl Hq Ha) as (sg' & G1 & G2 & _). by exists sg'.
  - by eapply showing_tidy.
Qed.

(** The two halves of [Sync]. *)
Lemma advance_same P w f s w' : tracks P (mkCluster w f s) ->
  (forall segs, showing w segs -> exists segs', showing w' segs' /\ grown segs segs' /\ log w' = log w /\ durable w `prefix_of` durable w') ->
  advances P (mkCluster w f s) (mkCluster w' f s).
Proof.
  intros Ht Hw. destruct (tidy_showing w (tr_tidy _ _ Ht)) as [segs Hs]. destruct (Hw segs Hs) as (segs' & Hs' & _ & Hlog & Hd).
  split; [|split; [exact Hd|]; cbn [cl_primary]; by rewrite Hlog].
  apply (tracks_write P w); rewrite ?Hlog; try done; try apply Ht; [|by eapply showing_tidy].
  intros sg Hsg. destruct (Hw sg Hsg) as (sg' & G1 & G2 & _). by exists sg'.
Qed.

Lemma advance_flush P w f s w' : tracks P (mkCluster w f s) -> wr_flush w = Ok (w', None) ->
  advances P (mkCluster w f s) (mkCluster w' f s).
Proof.
  intros Ht Ha. apply advance_same; [done|]. intros segs Hs.
  destruct (flush_shows w segs w' Hs Ha) as (segs' & G1 & G2 & G3 & G4 & _). by exists segs'.
Qed.

Lemma advance_sync P w f s w' : tracks P (mkCluster w f s) -> wal_Sync w = (w', None) ->
  advances P (mkCluster w f s) (mkCluster w' f s).
Proof.
  intros Ht Ha. apply advance_same; [done|]. intros segs Hs.
  destruct (Sync_shows w segs w' Hs Ha) as (segs' & G1 & G2 & G3 & G4). exists segs'. split_and!; try done.
  rewrite G4. unfold log. by apply prefix_app_r.
Qed.

(** ** The primary dies *)

Lemma tracks_restart P Q w f s d d' w' : tracks P (mkCluster w f s) -> crashed (wr_dir w) d -> OpenWriter d = (d', Good w') ->
  Q `prefix_of` log w' -> st_position f <= Z.of_nat (length Q) -> tracks Q (mkCluster w' f None).
Proof.
  intros [H1 H2 H3 H4 H5 H6 H7] Hcr Ho HQ Hpos. cbn [cl_primary cl_follower cl_stream] in *.
  destruct (restart_tidy w d d' w' H1 Hcr Ho) as (G1 & _ & G3 & _).
  split; cbn [cl_primary cl_follower cl_stream]; try done.
  - by eapply typed_prefix.
  - by eapply Forall_prefix.
  - pose proof (prefix_length _ _ G3). lia.
  - apply (mirrors_part P Q (log w)); try done. by etransitivity.
Qed.

(** ** The stream *)

Lemma tracks_stop P w f s : tracks P (mkCluster w f s) -> tracks P (mkCluster w f None).
Proof. intros [? ? ? ? ? ? _]. by split. Qed.

Lemma tracks_connect P w f s : tracks P (mkCluster w f s) ->
  tracks P (mkCluster w f (Some (NewTailer (currentPosition f), []))).
Proof.
  intros [H1 H2 H3 H4 H5 H6 _]. cbn [cl_primary cl_follower cl_stream] in *. split; cbn [cl_primary cl_follower cl_stream]; try done.
  intros t q [= <- <-]. destruct (tidy_showing w H1) as [segs Hs]. destruct (mi_count _ _ H6) as (n & Hn & Hle & _).
  exists n, n, [], segs, []. split; [constructor|]. split; [by left|]. split; [exact Hs|].
  split; [unfold currentPosition; rewrite Hn; split; try done; apply prefix_nil|]. simpl. split_and!; [lia..|done|by rewrite drop_nil].
Qed.

Lemma concat_enqueue recs q : concat (enqueue recs q) = concat q ++ (recordToPB <$> recs).
Proof. destruct recs as [|r recs]; [simpl; by rewrite app_nil_r|]. unfold enqueue. rewrite concat_app. cbn [concat]. by rewrite app_nil_r. Qed.

(** A poll may take whatever the files hold. *)
Lemma tracks_poll P w f t q t' recs : tracks P (mkCluster w f (Some (t, q))) ->
  poll (poll_fuel (wr_dir w) walBatchCap) (wr_dir w) t walBatchCap = Ok (t', recs, None) ->
  tracks (log w) (mkCluster w f (Some (t', enqueue recs q))).
Proof.
  intros Ht Hp. pose proof (tracks_more P (log w) _ Ht (tr_part _ _ Ht) (reflexivity _)) as [H1 H2 H3 H4 _ H6 H7].
  cbn [cl_primary cl_follower cl_stream] in *. split; cbn [cl_primary cl_follower cl_stream]; try done.
  intros t1 q1 [= <- <-]. destruct (H7 t q eq_refl) as (a & k & segs & segs' & out & R1 & R2 & R3 & R4 & R5 & R6 & R7 & R8).
  pose proof (tl_numbered _ _ H2) as Hn.
  pose proof (showing_log _ _ R3) as (Hsh & _ & Hrecs).
  pose proof (delivered_poll (Z.of_nat a) segs segs' (wr_dir w) walBatchCap t out ltac:(unfold64; lia) ltac:(lia) R1 R4 R2 Hsh) as Hd.
  cbv zeta in Hd. destruct Hd as (t2 & Hp2 & Hd). rewrite Hp in Hp2. injection Hp2 as <- Er.
  rewrite <- Er in Hd. exists a, k, segs', segs', (out ++ recs). split; [apply (sh_segs _ _ Hsh)|].
  split; [apply grown_refl|]. split; [exact R3|]. split; [exact Hd|].
  pose proof (flowing_piece (log w) a segs' segs' w t' (out ++ recs) eq_refl Hn (grown_refl segs') R3 Hd) as Hpc.
  pose proof (flowing_piece (log w) a segs segs' w t out eq_refl Hn R2 R3 R4) as Hpo.
  apply prefix_length in Hpc, Hpo. rewrite length_drop in Hpc, Hpo. rewrite length_app in *.
  split; [lia|]. split; [lia|]. split; [exact R7|]. rewrite concat_enqueue, R8, drop_app_le, fmap_app by lia. done.
Qed.

(** A message is the next piece of the log, and the follower takes it. *)
Lemma tracks_deliver P w f t msg q recs f' : tracks P (mkCluster w f (Some (t, msg :: q))) ->
  decode_all msg = Good recs -> apply now recs f = Ok (f', None) -> tracks P (mkCluster w f' (Some (t, q))).
Proof.
  intros Ht Hdec Ha. pose proof (tracks_shippable _ _ Ht) as HP. pose proof Ht as [H1 H2 H3 H4 H5 H6 H7].
  cbn [cl_primary cl_follower cl_stream] in *.
  destruct (H7 t _ eq_refl) as (a & k & segs & segs' & out & R1 & R2 & R3 & R4 & R5 & R6 & R7 & R8).
  assert (Hout : drop (k - a) out `prefix_of` drop k P).
  { pose proof (flowing_piece (log w) a segs segs' w t out eq_refl (tl_numbered _ _ H2) R2 R3 R4) as [x Hx].
    destruct H5 as [y Hy]. exists (drop (length (drop (k - a) out)) (drop k P)).
    assert (E : drop (k - a) out = take (length (drop (k - a) out)) (drop k P)); [|by rewrite E at 1; rewrite take_drop].
    assert (Ek : drop k (log w) = drop (k - a) out ++ x).
    { replace k with (a + (k - a))%nat at 1 by lia. by rewrite <- drop_drop, Hx, drop_app_le by lia. }
    rewrite Hy, drop_app_le in Ek by lia. apply (f_equal (take (length (drop (k - a) out)))) in Ek.
    rewrite take_app_length, take_app_le in Ek; [done|]. rewrite !length_drop. lia. }
  cbn [concat] in R8. assert (Hmsg : (msg ++ concat q) `prefix_of` recordToPB <$> drop k P)
    by (rewrite R8; destruct Hout as [x ->]; rewrite fmap_app; by apply prefix_app_r).
  apply message_piece in Hmsg as (Hm & _ & Hlen). set (m := length msg) in *.
  assert (Hrest : concat q = recordToPB <$> drop (k + m - a) out /\ (k + m <= a + length out)%nat).
  { assert (El := f_equal length R8). rewrite length_app, length_fmap, length_drop in El. fold m in El.
    apply (f_equal (drop m)) in R8. unfold m in R8 at 1. rewrite drop_app_length, <- fmap_drop, drop_drop in R8.
    split; [|lia]. rewrite R8. do 2 f_equal. lia. }
  destruct Hrest as [Hrest Hbound].
  rewrite Hm, decode_sent in Hdec by (apply Forall_take, Forall_drop, HP). injection Hdec as <-.
  destruct (apply_spec now P f k k m HP H6 R7 (le_n k) ltac:(lia)) as (f1 & e & Hf1 & _ & Hres).
  rewrite Ha in Hf1. injection Hf1 as <- <-. destruct Hres as (Hm' & Hp' & _).
  split; cbn [cl_primary cl_follower cl_stream]; try done. intros t0 q0 [= <- <-].
  exists a, (k + m)%nat, segs, segs', out. split_and!; try done; lia.
Qed.

(** ** The follower dies *)

Lemma tracks_reopen P w f s r r' f' : tracks P (mkCluster w f s) -> rp_symbols r !! sy = None ->
  crashed (wr_dir (st_wal f)) (replica_dir sy r) -> script (replica_dir sy r) = [] -> openSymbol now sy r = Ok (r', Good f') ->
  tracks P (mkCluster w f' None).
Proof.
  intros Ht Hn Hcr Hsc Ho. pose proof (tracks_shippable _ _ Ht) as HP. destruct Ht as [H1 H2 H3 H4 H5 H6 _].
  destruct (follower_restart now P f r sy HP H6 Hn Hcr Hsc) as (r1 & f1 & Ho1 & _ & Hm & _). rewrite Ho in Ho1.
  injection Ho1 as _ <-. by split.
Qed.

(** ** Any step *)

(** What a step does to the part of the log the follower tracks: it stays as it is while
    the log grows, a poll extends it to the whole log, and the death of the primary leaves
    any part of the log it left that the follower is not ahead of. *)
Lemma step_tracks may P c c' : cluster_step may c c' -> tracks P c ->
  durable (cl_primary c) `prefix_of` durable (cl_primary c') /\
  (advances P c c' \/
   (may (cl_primary c) /\ cl_primary c' = cl_primary c /\ tracks (log (cl_primary c)) c') \/
   (tidy (cl_primary c') /\ durable (cl_primary c') = log (cl_primary c') /\ cl_follower c' = cl_follower c /\
      forall Q, Q `prefix_of` log (cl_primary c') -> st_position (cl_follower c') <= Z.of_nat (length Q) -> tracks Q c')).
Proof.
  intros Hs Ht. assert (Hadv : advances P c c' -> durable (cl_primary c) `prefix_of` durable (cl_primary c') /\ advances P c c')
    by (intros Ha; split; [apply Ha|exact Ha]).
  assert (Hstill : cl_primary c' = cl_primary c -> tracks P c' -> advances P c c') by (intros E Ht'; split; [done|by rewrite E]).
  destruct Hs.
  - destruct Hadv; [by eapply advance_append|auto].
  - destruct Hadv; [by apply advance_flush|auto].
  - destruct Hadv; [by apply advance_sync|auto].
  - destruct (restart_tidy w d d' w' (tr_tidy _ _ Ht)) as (G1 & G2 & _ & G4); [done..|]. cbn [cl_primary cl_follower].
    split; [by rewrite G4|]. right. right. split_and!; [done..|]. intros Q HQ Hpos. by eapply (tracks_restart P).
  - destruct Hadv; [|auto]. apply Hstill; [done|by eapply tracks_connect].
  - destruct Hadv; [|auto]. apply Hstill; [done|by eapply tracks_stop].
  - split; [done|]. right. left. split_and!; [done..|]. by eapply tracks_poll.
  - destruct Hadv; [|auto]. apply Hstill; [done|by eapply tracks_deliver].
  - destruct Hadv; [|auto]. apply Hstill; [done|by eapply tracks_reopen].
Qed.

(** The follower is not ahead of what its primary has. *)
Definition not_ahead (c : Cluster) : Prop := st_position (cl_follower c) <= lastSeq (cl_primary c).
Definition follower_behind_step (may : Writer -> Prop) (c c' : Cluster) : Prop := cluster_step may c c' /\ not_ahead c'.

Lemma start_tracks c : cluster_start c -> tracks [] c.
Proof.
  intros [H1 H2 H3 H4]. split; rewrite ?H2; try done; [by apply typed_log_nil|]. intros t q Hs. by rewrite H4 in Hs.
Qed.

Lemma tracks_all may c0 c : cluster_start c0 -> rtc (follower_behind_step may) c0 c -> tracks (log (cl_primary c)) c.
Proof.
  intros Hst Hr. assert (Ht : tracks (log (cl_primary c0)) c0) by (rewrite (cs_log _ Hst); by apply start_tracks).
  clear Hst. induction Hr as [|c c1 c2 [Hs Hb] _ IH]; [done|]. apply IH. clear IH.
  destruct (step_tracks may _ c c1 Hs Ht) as (_ & [(H1 & _ & H3)|[(_ & E & H1)|(H1 & _ & _ & HQ)]]).
  - by apply (tracks_more (log (cl_primary c))).
  - by rewrite E.
  - apply HQ; [done|]. destruct (tidy_log _ H1) as (_ & _ & <- & _). exact Hb.
Qed.

Lemma tracks_durable c0 c : cluster_start c0 -> rtc (cluster_step once_synced) c0 c -> tracks (durable (cl_primary c)) c.
Proof.
  intros Hst Hr. assert (Ht : tracks (durable (cl_primary c0)) c0).
  { pose proof (cs_log _ Hst) as E. unfold log in E. apply app_eq_nil in E as [-> _]. by apply start_tracks. }
  clear Hst. induction Hr as [|c c1 c2 Hs _ IH]; [done|]. apply IH. clear IH.
  assert (Hpart : forall x, tracks (durable (cl_primary c)) x -> durable (cl_primary c) `prefix_of` durable (cl_primary x) ->
    tracks (durable (cl_primary x)) x).
  { intros x Hx Hd. apply (tracks_more (durable (cl_primary c))); [done..|]. unfold log. by apply prefix_app_r. }
  destruct (step_tracks once_synced _ c c1 Hs Ht) as (Hd & [(H1 & _ & _)|[(Hp & E & H1)|(_ & H1 & H2 & HQ)]]).
  - by apply Hpart.
  - unfold once_synced in Hp. unfold log in H1. rewrite Hp, app_nil_r in H1. by rewrite E.
  - apply HQ; [by rewrite H1|]. rewrite H2. pose proof (mirrors_bound _ _ (tr_follower _ _ Ht)) as Hm.
    pose proof (prefix_length _ _ Hd). lia.
Qed.

(** * What it means for the two nodes *)

(** The follower is at a position of the log [P]: it has durably the wire image of what
    comes before, a book that is the primary's there up to time stamps, and what is being
    sent to it comes next. *)
Definition replicates (P : list WalRecord) (c : Cluster) : Prop := exists n b,
  st_position (cl_follower c) = Z.of_nat n /\ (n <= length P)%nat /\
  durable (st_wal (cl_follower c)) = on_wire <$> take n P /\
  replay id (take n P) NewBook = Ok b /\ same_book (st_book (cl_follower c)) b /\
  Snapshot (st_book (cl_follower c)) = Snapshot b /\
  forall t q, cl_stream c = Some (t, q) -> exists k, (n + k <= length P)%nat /\
    concat q = recordToPB <$> take k (drop n P) /\ AfterSeq t = Z.of_nat (n + k).

Lemma latest_numbered L a out : numbered L -> out `prefix_of` drop a L -> latest (Z.of_nat a) out = Z.of_nat (a + length out).
Proof.
  intros HL [x Hx]. unfold latest. destruct (last out) as [r|] eqn:E.
  - rewrite last_lookup in E. assert (Hr : L !! (a + pred (length out))%nat = Some r)
      by (rewrite <- lookup_drop, Hx; by apply lookup_app_l_Some).
    apply HL in Hr. simpl. rewrite Hr. destruct out; [done|simpl; lia].
  - apply last_None in E as ->. simpl. lia.
Qed.

Lemma tracks_replicates P c : tracks P c -> replicates P c.
Proof.
  intros Ht. pose proof Ht as [_ Hty _ _ Hp Hm Hs]. pose proof (mi_count _ _ Hm) as (n & Hn & Hle & Hd).
  destruct (typed_log_replays id sy (take n P)) as (b & Hb & _); [apply typed_take; by eapply typed_prefix|].
  assert (Hsame : same_book (st_book (cl_follower c)) b).
  { pose proof (mi_book _ _ Hm) as Hrep. rewrite Hd in Hrep.
    destruct (replay_same id (take n P) _ (on_wire_same_list _) NewBook NewBook b ltac:(done) Hb) as (b' & Hb' & Hsm).
    rewrite Hrep in Hb'. injection Hb' as <-. by symmetry. }
  exists n, b. split_and!; try done; [by rewrite Hsame|]. intros t q Hst.
  destruct (Hs t q Hst) as (a & k & segs & segs' & out & R1 & R2 & R3 & R4 & R5 & R6 & R7 & R8).
  assert (n = k) as -> by lia.
  pose proof (tl_numbered _ _ Hty) as HL.
  pose proof (flowing_piece (log (cl_primary c)) a segs segs' _ t out eq_refl HL R2 R3 R4) as Ho.
  exists (a + length out - k)%nat. split; [lia|]. split.
  - rewrite R8. f_equal. destruct Hp as [y Hy], Ho as [x Hx].
    assert (Ek : drop k (log (cl_primary c)) = drop (k - a) out ++ x).
    { replace k with (a + (k - a))%nat at 1 by lia. by rewrite <- drop_drop, Hx, drop_app_le by lia. }
    rewrite Hy, drop_app_le in Ek by lia. apply (f_equal (take (length (drop (k - a) out)))) in Ek.
    rewrite take_app_length, take_app_le in Ek by (rewrite !length_drop; lia). rewrite <- Ek, length_drop. f_equal. lia.
  - unfold AfterSeq. rewrite (de_after _ _ _ _ R4), (latest_numbered _ _ _ HL Ho). lia.
Qed.


End Steps.

(** * The sequencer makes these steps *)

Section Sequencing.
Context `{PayloadCodec} `{!CodecLaws} (now : Z -> Z) (sy : string) (may : Writer -> Prop).
Context (f : symbolState Writer) (str : option (Tailer * list (list WALRecordPB))).

Definition primary_steps (w w' : Writer) : Prop := rtc (cluster_step now sy may) (mkCluster w f str) (mkCluster w' f str).

(** The appends of a batch. *)
Lemma append_batch_steps ts batch : forall seq w batch' seq' w', healthy w -> lastSeq w = seq -> in64 seq ->
  seq + Z.of_nat (length batch) <= MaxInt64 -> Forall (carried (W := Writer) ts) batch -> append_batch ts batch seq w = (batch', seq', w', None) ->
  typed_log sy (log w ++ records ts batch') -> Forall (fun r => loggable (on_wire r)) (records ts batch') ->
  Z.of_nat (length (log w ++ records ts batch')) < MaxInt64 -> primary_steps w w'.
Proof.
  induction batch as [|r batch IH]; intros seq w batch' seq' w' Hh Hls Hi Hmax Hc; cbn [append_batch].
  { intros [= _ _ <-] _ _ _. apply rtc_refl. }
  apply Forall_cons in Hc as [Hcr Hc]. cbn [length] in Hmax. destruct (logged r) eqn:Hl.
  - assert (Hadd : add64 seq 1 = seq + 1) by (apply wrap64_id; unfold64; lia). rewrite Hadd.
    set (rec := to_record ts (seq + 1) (set_seq (seq + 1) r)).
    pose proof (Hcr (seq + 1) ltac:(unfold64; lia)) as Hcar. change (loggable rec) in Hcar.
    assert (Hws : w_Seq rec = lastSeq w + 1) by (unfold rec, to_record; rewrite Hls; by destruct (r_kind _)).
    destruct (wal_Append rec w) as [w1 [e1|]] eqn:Ha; [done|].
    destruct (Append_adds rec w w1 Hh Hcar Hws Ha) as (Hh1 & Hls1 & Hadds).
    destruct (append_batch ts batch (seq + 1) w1) as [[[b2 s2] w2] e2] eqn:E. intros [= <- _ <- ->].
    rewrite records_cons. replace (logged (set_seq (seq + 1) r)) with true by done.
    change (to_record ts (r_seq (set_seq (seq + 1) r)) (set_seq (seq + 1) r)) with rec.
    assert (Hlog : log w1 = log w ++ [rec]) by (unfold log; rewrite Hadds; by rewrite app_assoc).
    intros Hty [Hw1 Hw2]%Forall_cons Hlen.
    assert (Hty1 : typed_log sy (log w ++ [rec])).
    { eapply typed_prefix; [exact Hty|]. apply prefix_app. by exists (records ts b2). }
    assert (Hbound : w_Seq rec < MaxInt64).
    { rewrite (tl_numbered _ _ Hty1 (length (log w)) rec) by (by rewrite lookup_app_r, Nat.sub_diag).
      rewrite length_app in Hlen. cbn [length] in Hlen. lia. }
    eapply rtc_l; [by apply (step_append now sy may w f str rec w1)|].
    assert (Hsplit : log w ++ rec :: records ts b2 = log w1 ++ records ts b2) by (by rewrite Hlog, <- app_assoc).
    rewrite Hsplit in Hty, Hlen. apply (IH (seq + 1) w1 b2 s2 w2); try done; [|unfold64; lia|lia].
    change (lastSeq w1 = w_Seq rec) in Hls1. lia.
  - destruct (append_batch ts batch seq w) as [[[b2 s2] w2] e2] eqn:E. intros [= <- _ <- ->]. rewrite records_cons, Hl.
    apply (IH seq w b2 s2 w2); try done. lia.
Qed.

(** C27: What the sequencer does to its log is these steps: a commit of requests of the API by
    a running sequencer, if its writes succeed, takes the primary through appends that keep
    the log typed and a [Sync], whatever else the two nodes are doing meanwhile; so what
    is proved of the steps holds of the sequencer. *)
Theorem commit_is_primary_steps now' ts batch (s : Sequencer Writer) a s' st ps w w' : running s -> typed_seq s ->
  sq_symbol s = sy -> sy <> ""%string -> batch_ok ts batch s -> Forall api_request batch ->
  commit now' ts batch s a = Ok (s', st, ps) -> sq_wal s = Some w -> sq_wal s' = Some w' -> sq_walErr s' = None ->
  Forall (fun r => loggable (on_wire r)) (durable w') -> Z.of_nat (length (durable w')) < MaxInt64 ->
  primary_steps w w'.
Proof.
  intros Hrun Hty Hsy Hne Hbatch Hapi Hc Hw Hw' He' Hwire Hmax. pose proof (running_ok s Hrun) as Hok.
  destruct (typed_commit now' ts batch s a s' st ps Hrun Hty ltac:(by rewrite Hsy) Hbatch Hapi Hc) as ([_ Hlog'] & Hsy' & _).
  destruct (Hlog' He' w' Hw') as [Hty' _]. rewrite Hsy', Hsy in Hty'.
  pose proof (prepared_spec ts s a batch Hok Hbatch) as Hp. pose proof (commit_spec now' ts batch s a Hok Hbatch) as Hs.
  destruct (prepared s a batch) as [[b1 a1] next] eqn:Ep. destruct Hp as (_ & Hlen & _ & Hcar & _).
  pose proof (log_phase_spec ts s a batch b1 a1 next Hok Hbatch Ep) as Hl.
  destruct (log_phase ts s b1) as [[[b2 seq] wal] we] eqn:El. destruct Hl as (_ & _ & _ & Hwal & Hsticky).
  destruct Hs as (st1 & ps1 & s1 & _ & Hc1 & _ & _ & _ & _ & Hw1 & He1 & _). rewrite Hc in Hc1. injection Hc1 as <- _ _.
  rewrite Hw' in Hw1. rewrite He' in He1. subst wal we. destruct Hwal as (w0 & Hw0 & _ & Hd).
  rewrite Hw in Hw0. injection Hw0 as <-. destruct (Hd eq_refl) as (_ & _ & _ & Hbuf & Hdur & _).
  assert (Ewe : sq_walErr s = None) by (destruct (sq_walErr s); [by specialize (Hsticky ltac:(done))|done]).
  pose proof (so_wal s Hok) as Hwo. unfold wal_ok in Hwo. rewrite Hw in Hwo. destruct Hwo as (lg & _ & _ & Hall).
  destruct (Hall Ewe) as (_ & _ & Hh & Hls & Hi).
  unfold log_phase in El. rewrite Hw, Ewe in El. unfold logBatch in El.
  destruct (append_batch ts b1 (sq_seq s) w) as [[[b3 s3] w3] [e3|]] eqn:Eb; [done|].
  destruct (wal_Sync w3) as [w4 [e4|]] eqn:Es; [done|]. injection El as -> _ ->.
  assert (Elog : log w = durable w) by (unfold log; by rewrite Hbuf, app_nil_r). rewrite Hdur in Hty', Hwire, Hmax.
  eapply rtc_r; [|by apply step_sync].
  apply (append_batch_steps ts b1 (sq_seq s) w b2 s3 w3); try done; rewrite ?Elog; try done.
  - pose proof (ba_seqs _ _ _ Hbatch). lia.
  - by apply Forall_app in Hwire as [_ ?].
Qed.
End Sequencing.

(** * A session is these steps *)

Section Sessions.
Context `{PayloadCodec} `{!CodecLaws} (now : Z -> Z) (sy : string).

#[local] Abbreviation step := (cluster_step now sy any_time).

(** The logs a stream's successive polls look at: what the primary has made of its log by
    then, whatever else is going on. *)
Fixpoint polled_in (w : Writer) (ws : list Writer) : Prop :=
  match ws with
  | [] => True
  | w' :: ws => (forall f str, primary_steps now sy any_time f str w w') /\ polled_in w' ws
  end.

(** [Next] is polls, and what it returns is sent. *)
Lemma Next_steps ctxErr f : forall ws w t q t' seen' r, polled_in w ws ->
  Next ctxErr (wr_dir <$> ws) t walBatchCap = Ok (t', seen', Good r) ->
  exists w' ws', seen' = wr_dir <$> ws' /\ polled_in w' ws' /\
    rtc step (mkCluster w f (Some (t, q))) (mkCluster w' f (Some (t', q ++ [recordToPB <$> r]))).
Proof.
  induction ws as [|w1 ws IH]; intros w t q t' seen' r Hp; [done|]. destruct Hp as [Hs Hp]. rewrite fmap_cons. cbn [Next].
  destruct (poll _ _ t walBatchCap) as [[[t1 recs] [e|]]| |] eqn:Epoll; cbn [mbind outcome_bind]; try done.
  destruct recs as [|x recs].
  - intros Hn. destruct (IH w1 t1 q t' seen' r Hp Hn) as (w' & ws' & H1 & H2 & H3). exists w', ws'. split; [done|]. split; [done|].
    etransitivity; [apply Hs|]. eapply rtc_l; [|exact H3]. by apply (step_poll now sy any_time w1 f t q t1 [] I).
  - intros [= <- <- <-]. exists w1, ws. split; [done|]. split; [done|].
    etransitivity; [apply Hs|]. apply rtc_once. by apply (step_poll now sy any_time w1 f t q t1 (x :: recs) I).
Qed.

(** A stream that is still running, or whose next send failed, has sent what it took from
    the log; with the messages it has queued up. *)
Lemma stream_steps ctxErr f : forall n ws w t q t' batches e, polled_in w ws ->
  stream_loop ctxErr (replicate n true) (wr_dir <$> ws) t = Ok (t', batches, e) ->
  exists w' t1, rtc step (mkCluster w f (Some (t, q))) (mkCluster w' f (Some (t1, q ++ (wb_Records <$> batches)))).
Proof.
  induction n as [|n IH]; intros ws w t q t' batches e Hp; cbn [replicate stream_loop].
  { intros [= <- <- <-]. exists w, t. rewrite app_nil_r. apply rtc_refl. }
  destruct (Next ctxErr (wr_dir <$> ws) t walBatchCap) as [[[t1 seen1] [recs|e1]]| |] eqn:En; cbn [mbind outcome_bind]; try done.
  - destruct (Next_steps ctxErr f ws w t q t1 seen1 recs Hp En) as (w1 & ws1 & -> & Hp1 & Hs1).
    destruct (stream_loop _ _ _ t1) as [[[t2 more] e2]| |] eqn:El; cbn [mbind outcome_bind]; try done. intros [= <- <- <-].
    destruct (IH ws1 w1 t1 (q ++ [recordToPB <$> recs]) t2 more e2 Hp1 El) as (w' & t3 & H3). exists w', t3.
    rewrite fmap_cons. cbn [wb_Records]. rewrite cons_middle, app_assoc. by etransitivity.
  - assert (Hstop : Ok (t1, [], match e1 with ErrCanceled | ErrDeadlineExceeded => Ended None | ErrCorruptWAL => Ended (Some DataLoss)
      | _ => Ended (Some Internal) end) = Ok (t', batches, e) -> batches = []) by by intros [=].
    intros Hr. assert (batches = []) as -> by (apply Hstop; destruct e1; exact Hr). exists w, t. rewrite app_nil_r. apply rtc_refl.
Qed.

(** A session of the follower receives the messages in order. *)
Lemma receive_steps last w t : forall batches f f', streamOnce now batches last f = Ok (f', StreamError last) ->
  rtc step (mkCluster w f (Some (t, batches))) (mkCluster w f' (Some (t, []))).
Proof.
  induction batches as [|msg batches IH]; intros f f'; cbn [streamOnce]; [intros [= <-]; apply rtc_refl|].
  destruct (decode_all msg) as [recs|e] eqn:Ed; [|done].
  destruct (apply now recs f) as [[f1 [e|]]| |] eqn:Ea; cbn [mbind outcome_bind]; try done.
  intros Hr. eapply rtc_l; [by apply (step_deliver now sy any_time w f t msg batches recs f1)|by apply IH].
Qed.

End Sessions.

(** * A run of the two nodes *)

Module ClusterDemo.
Import StoreDemo ReplicaDemo.

(** "bob" sells 5 at 100, or, in the life the primary has afterwards, at 200. *)
Definition quote (price : Z) : WalRecord := mkRecord 1 RecordSubmit 7 (mkOrder 1 "NABIL" "bob" Limit price 5 Sell zeroTime) 0 "".
Definition wal_of (o : outcome (Writer * option oms_error)) : Writer := match o with Ok (w, _) => w | _ => opened end.
Definition written (r : WalRecord) (w : Writer) : Writer := (wal_Append r w).1.
Definition tailer_of (o : outcome (Tailer * list WalRecord * option oms_error)) : Tailer :=
  match o with Ok (t, _, _) => t | _ => NewTailer 0 end.

(** The first quote is appended and flushed; the stream takes it, and the follower has it. *)
Definition w1 : Writer := written (quote 100) opened.
Definition w2 : Writer := wal_of (wr_flush w1).
Definition polled2 := poll (poll_fuel (wr_dir w2) walBatchCap) (wr_dir w2) (NewTailer 0) walBatchCap.
Definition msg : list WALRecordPB := [recordToPB (quote 100)].
Definition f0 : symbolState Writer := follower [].
Definition f1 : symbolState Writer := match apply id [on_wire (quote 100)] f0 with Ok (f, _) => f | _ => f0 end.

(** The power fails before the fsync. *)
Definition unsynced_lost (d : Dir) : Dir := mkDir ((fun f => mkFile (f_synced f) [] (f_linked f)) <$> files d) [].
Definition w3 : Writer := match (OpenWriter (unsynced_lost (wr_dir w2))).2 with Good w => w | Fails _ => opened end.

(** The other quote is written, and synced, at the same position. *)
Definition w4 : Writer := written (quote 200) w3.
Definition w5 : Writer := (wal_Sync w4).1.
Definition polled5 := poll (poll_fuel (wr_dir w5) walBatchCap) (wr_dir w5) (NewTailer 1) walBatchCap.

Definition c0 : Cluster := mkCluster opened f0 None.
Definition c4 : Cluster := mkCluster w2 f1 (Some (tailer_of polled2, [])).
Definition c9 : Cluster := mkCluster w5 f1 (Some (tailer_of polled5, [])).

Lemma start_ok : cluster_start c0.
Proof.
  destruct (opened_tidy disk (wr_dir opened) opened eq_refl opened_ok) as [H1 H2].
  split; [exact H1|exact H2| |reflexivity]. apply follower_mirrors. vm_compute. reflexivity.
Qed.

#[local] Instance order_ok_dec o : Decision (order_ok o).
Proof. unfold order_ok, text_ok. apply _. Defined.

Lemma quote_typed p : 1 <= p <= 1000 -> typed_log "NABIL" [quote p].
Proof.
  intros Hp. split.
  - apply Forall_singleton. split; [|vm_compute; split; discriminate]. split; cbn.
    + reflexivity.
    + apply (bool_decide_unpack _). vm_compute. exact I.
    + by right.
    + lia.
    + left. split; [reflexivity|lia].
    + unfold64. lia.
  - intros [|i] r Hi; [injection Hi as <-; reflexivity|discriminate Hi].
  - repeat constructor.
Qed.

Lemma quote_loggable p : p = 100 \/ p = 200 -> loggable (quote p) /\ loggable (on_wire (quote p)).
Proof.
  intros [-> | ->]; split; (apply submit_loggable; apply (bool_decide_unpack _); vm_compute; exact I).
Qed.

Lemma empty_log : log opened = [] /\ log w3 = [].
Proof. split; vm_compute; reflexivity. Qed.

(** Until the follower has the quote nothing has gone wrong, and it may be ahead of what
    is durable, not of the log. *)
Lemma before_crash may : may w2 -> rtc (follower_behind_step id "NABIL" may) c0 c4.
Proof.
  intros Hmay. destruct (quote_loggable 100 (or_introl eq_refl)) as [L1 L2].
  eapply rtc_l; [split; [apply (step_append id "NABIL" may opened f0 None (quote 100) w1)|]|].
  - rewrite (proj1 empty_log). apply quote_typed. lia.
  - exact L1.
  - exact L2.
  - vm_compute. reflexivity.
  - vm_compute. reflexivity.
  - vm_compute. discriminate.
  - eapply rtc_l; [split; [apply (step_flush id "NABIL" may w1 f0 None w2); vm_compute; reflexivity|vm_compute; discriminate]|].
    eapply rtc_l; [split; [apply (step_connect id "NABIL" may w2 f0 None)|vm_compute; discriminate]|].
    eapply rtc_l; [split; [apply (step_poll id "NABIL" may w2 f0 (NewTailer 0) [] (tailer_of polled2) [quote 100] Hmay);
      vm_compute; reflexivity|vm_compute; discriminate]|].
    eapply rtc_l; [split; [apply (step_deliver id "NABIL" may w2 f0 (tailer_of polled2) msg [] [on_wire (quote 100)] f1);
      vm_compute; reflexivity|vm_compute; discriminate]|].
    apply rtc_refl.
Qed.

Lemma crashed_unsynced d : crashed d (unsynced_lost d).
Proof.
  intros name. unfold unsynced_lost. cbn [files]. rewrite lookup_fmap. destruct (files d !! name) as [f|]; [|constructor].
  simpl. apply survive_kept; cbn; [done| |done]. unfold f_bytes. cbn. rewrite app_nil_r. by apply prefix_app_r.
Qed.

(** The power failure, the quote at 200, and a stream that has nothing to send. *)
Lemma after_crash : rtc (cluster_step id "NABIL" any_time) c4 c9.
Proof.
  destruct (quote_loggable 200 (or_intror eq_refl)) as [L1 L2].
  eapply rtc_l; [apply (step_restart id "NABIL" any_time w2 f1 _ _ (wr_dir w3) w3 (crashed_unsynced _)); vm_compute; reflexivity|].
  eapply rtc_l; [apply (step_append id "NABIL" any_time w3 f1 None (quote 200) w4)|].
  - rewrite (proj2 empty_log). apply quote_typed. lia.
  - exact L1.
  - exact L2.
  - vm_compute. reflexivity.
  - vm_compute. reflexivity.
  - eapply rtc_l; [apply (step_sync id "NABIL" any_time w4 f1 None w5); vm_compute; reflexivity|].
    eapply rtc_l; [apply (step_connect id "NABIL" any_time w5 f1 None)|].
    eapply rtc_l; [apply (step_poll id "NABIL" any_time w5 f1 (NewTailer 1) [] (tailer_of polled5) [] I); vm_compute; reflexivity|].
    apply rtc_refl.
Qed.

(** The same quote, synced before it is looked at. *)
Definition ws : Writer := (wal_Sync w1).1.
Definition polleds := poll (poll_fuel (wr_dir ws) walBatchCap) (wr_dir ws) (NewTailer 0) walBatchCap.
Definition cs : Cluster := mkCluster ws f1 (Some (tailer_of polleds, [])).

Lemma synced_run : rtc (cluster_step id "NABIL" once_synced) c0 cs.
Proof.
  destruct (quote_loggable 100 (or_introl eq_refl)) as [L1 L2].
  eapply rtc_l; [apply (step_append id "NABIL" once_synced opened f0 None (quote 100) w1)|].
  - rewrite (proj1 empty_log). apply quote_typed. lia.
  - exact L1.
  - exact L2.
  - vm_compute. reflexivity.
  - vm_compute. reflexivity.
  - eapply rtc_l; [apply (step_sync id "NABIL" once_synced w1 f0 None ws); vm_compute; reflexivity|].
    eapply rtc_l; [apply (step_connect id "NABIL" once_synced ws f0 None)|].
    eapply rtc_l; [apply (step_poll id "NABIL" once_synced ws f0 (NewTailer 0) [] (tailer_of polleds) [quote 100]); vm_compute; reflexivity|].
    eapply rtc_l; [apply (step_deliver id "NABIL" once_synced ws f0 (tailer_of polleds) msg [] [on_wire (quote 100)] f1);
      vm_compute; reflexivity|].
    apply rtc_refl.
Qed.
End ClusterDemo.

Module SequencingDemo.
Import StoreDemo ReplicaDemo.

(** The sequencer of [StoreDemo] commits the two requests of [TypedDemo]. *)
Definition ran := commit id 7 TypedDemo.batch start NewAccounts.
Definition s1 : Sequencer Writer := match ran with Ok (s, _, _) => s | _ => start end.
Definition wal1 : Writer := default opened (sq_wal s1).

Lemma start_typed : typed_seq start.
Proof.
  split; [exact (typed_NewBook "NABIL")|]. intros _ w [= <-].
  assert (E : durable opened = []) by (vm_compute; reflexivity). rewrite E. split; [apply typed_log_nil|reflexivity].
Qed.

Lemma start_fits : batch_ok 7 TypedDemo.batch start.
Proof.
  split; [|vm_compute; discriminate..|].
  - eapply Forall_impl; [exact TypedDemo.batch_api|]. intros r Hr. apply (api_arrives r Hr).
  - apply Forall_cons. split; [|apply Forall_singleton]; intros i Hi n Hn;
      (split; [done|by vm_compute|split_and!; simpl; try done; split_and!; try done; by vm_compute|done]).
Qed.

Lemma ran_ok : exists st ps, ran = Ok (s1, st, ps).
Proof.
  pose proof (commit_spec id 7 TypedDemo.batch start NewAccounts (running_ok _ venue_running) start_fits) as Hs.
  destruct (prepared _ _ _) as [[b1 a1] next]. destruct (log_phase _ _ _) as [[[b2 seq] wal] walErr].
  destruct Hs as (st & ps & s' & _ & Hc & _). fold ran in Hc. exists st, ps. unfold s1. rewrite Hc. reflexivity.
Qed.

#[local] Instance order_ok_dec o : Decision (order_ok o).
Proof. unfold order_ok, text_ok. apply _. Defined.

Lemma wal1_loggable : Forall (fun r => loggable (on_wire r)) (durable wal1).
Proof.
  assert (E : durable wal1 = [mkRecord 1 RecordSubmit 7 (mkOrder 1 "NABIL" "bob" Limit 100 5 Sell zeroTime) 0 "";
                              mkRecord 2 RecordSubmit 7 (mkOrder 2 "NABIL" "ann" Limit 101 3 Buy zeroTime) 0 ""]) by (vm_compute; reflexivity).
  rewrite E. repeat apply Forall_cons_2; [| |apply Forall_nil_2];
    (apply submit_loggable; apply (bool_decide_unpack _); vm_compute; exact I).
Qed.
End SequencingDemo.

Lemma commit_is_primary_steps_witness : 
  primary_steps id "NABIL" any_time ClusterDemo.f0 None StoreDemo.opened SequencingDemo.wal1.
Proof.
  destruct SequencingDemo.ran_ok as (st & ps & Hc).
  exact (commit_is_primary_steps id "NABIL" any_time ClusterDemo.f0 None id 7 TypedDemo.batch StoreDemo.start NewAccounts SequencingDemo.s1 st ps
    StoreDemo.opened SequencingDemo.wal1 StoreDemo.venue_running SequencingDemo.start_typed eq_refl ltac:(discriminate)
    SequencingDemo.start_fits TypedDemo.batch_api Hc eq_refl ltac:(vm_compute; reflexivity) ltac:(vm_compute; reflexivity)
    SequencingDemo.wal1_loggable ltac:(vm_compute; reflexivity)).
Defined.




(** C34: A crash of the primary can set the two nodes apart for good. A stream reads what
    the files hold, synced or not: it sends a record between its flush and its fsync, the
    follower stores it, and the power fails. The primary comes back without it and gives
    its position to another order, which is acknowledged; the follower, already at that
    position, is sent nothing more. Nothing is buffered or in flight, the lag reported
    is none, and the two books show different depths. *)
Theorem unsynced_poll_diverges : exists sy c0 c1 c2 t r r' b, cluster_start c0 /\
  rtc (follower_behind_step id sy any_time) c0 c1 /\ rtc (cluster_step id sy any_time) c1 c2 /\
  cl_follower c2 = cl_follower c1 /\ cl_stream c2 = Some (t, []) /\
  buffered (cl_primary c2) = [] /\ lastSeq (cl_primary c2) = st_position (cl_follower c2) /\
  durable (cl_primary c2) = [r] /\ durable (st_wal (cl_follower c2)) = [r'] /\ w_Seq r = w_Seq r' /\ on_wire r <> r' /\
  replay id (durable (cl_primary c2)) NewBook = Ok b /\ Snapshot b <> Snapshot (st_book (cl_follower c2)).
Proof.
  set (b := match replay id (durable ClusterDemo.w5) NewBook with Ok b => b | _ => NewBook end).
  exists "NABIL"%string, ClusterDemo.c0, ClusterDemo.c4, ClusterDemo.c9, (ClusterDemo.tailer_of ClusterDemo.polled5),
    (ClusterDemo.quote 200), (on_wire (ClusterDemo.quote 100)), b.
  split; [exact ClusterDemo.start_ok|]. split; [exact (ClusterDemo.before_crash any_time I)|].
  split; [exact ClusterDemo.after_crash|]. split; [reflexivity|]. split; [reflexivity|].
  split; [vm_compute; reflexivity|]. split; [vm_compute; reflexivity|].
  split; [vm_compute; reflexivity|]. split; [vm_compute; reflexivity|]. split; [reflexivity|]. split; [discriminate|].
  split; [vm_compute; reflexivity|]. vm_compute. discriminate.
Qed.
