(* ===== verification/Rotation.v ===== *)
(** A stream that looks while the log rotates.

    [openSegment] creates the new segment's file and then writes its header; between the
    two calls the directory lists a segment that has none. *)

From Stdlib Require Import ZArith Lia.
From stdpp Require Import base gmap list strings sorting.
From S2P Require Import Prelude Types Book WalRecord Bytes WalFormat WalRead SegNames Wal WalDir WalInv WalLaw WalStep WalRecover.
From S2P Require Import BookProps Accounts Sequencer SeqFacts SeqProps WalProps Tail TailFacts TailProps.
From S2P Require Import Registry Status Messages Replication Replica ReplicaProps LogGrow Cluster.

Open Scope Z_scope.

#[local] Arguments content : simpl never.

Section Rotation.
Context `{CodecLaws}.

(** A tailer that has read all of a segment, and delivered all of it. *)
Definition at_end (sg : Seg) (after : Z) : Tailer := mkTailer after (Some (segment_name (sg_first sg))) (length (content sg)).

(** What is there of the segments once the open one is closed. *)
Lemma Close_files closed sg w w1 : healthy_as closed sg w -> Close w = Ok (w1, None) ->
  files (wr_dir w1) = files_of (closed_files (closed ++ [sg])) /\ lastSeq w1 = lastSeq w.
Proof.
  intros Hw Hc. pose proof (healthy_names _ _ _ Hw) as Hn.
  destruct (hw_file _ _ _ Hw) as (bw & Hf & He & (s & u & Hfs & Hs0 & Hb & Hd)).
  assert (Hwr : writing (closed_files closed) (sg_first sg) s (content sg) None w)
    by (exists bw; split_and!; try done; exists s, u; by split_and!).
  destruct (Close_spec _ _ Hn s (content sg) w Hwr) as (w2 & e & Hc2 & (_ & _ & Hl) & _ & _ & Hok).
  rewrite Hc in Hc2. injection Hc2 as <- <-. split; [|done]. rewrite closed_files_snoc. by apply Hok.
Qed.

(** Such a tailer finds nothing in its segment. *)
Lemma at_end_reads d sg after max f : files d !! segment_name (sg_first sg) = Some f -> f_bytes f = content sg ->
  readSegment d (at_end sg after) max = (at_end sg after, [], None).
Proof.
  intros Hf Hb. assert (H8 : (8 <= length (content sg))%nat) by (unfold content; rewrite length_app, seg_header_length; lia).
  unfold readSegment, at_end. cbn [segment offset afterSeq]. rewrite Hf, Hb.
  rewrite (proj2 (Nat.ltb_ge _ _)) by (unfold walHeaderSize; lia).
  assert (Hck : check_header (content sg) = None) by (unfold content; done). by rewrite Hck, drop_all.
Qed.

(** With another segment behind it, whatever that holds, the tailer goes there. *)
Lemma at_end_polls segs sg q f d after max fuel : names_ok ((closed_files (segs ++ [sg])).*1 ++ [q]) ->
  files d = files_of (closed_files (segs ++ [sg]) ++ [(q, f)]) ->
  poll (S fuel) d (at_end sg after) (S max) = poll fuel d (mkTailer after (Some (segment_name q)) walHeaderSize) (S max).
Proof.
  intros Hn Hd. set (l := closed_files (segs ++ [sg]) ++ [(q, f)]) in *.
  assert (Hl : names_ok l.*1) by (unfold l; by rewrite fmap_app). cbn [poll]. change (segment (at_end sg after)) with (Some (segment_name (sg_first sg))).
  cbv beta iota zeta. rewrite (at_end_reads d sg after (S max) (mkFile (content sg) [] true)).
  - unfold nextSegment, at_end. cbn [segment afterSeq]. destruct d as [fs sc]. cbn in Hd. subst fs. rewrite (segmentPaths_files l Hl sc).
    assert (E : l.*1 = (sg_first <$> segs) ++ sg_first sg :: [q]).
    { unfold l. rewrite fmap_app, closed_files_fst, fmap_app, <- app_assoc. done. }
    rewrite E in *. rewrite path_after_names by done. done.
  - rewrite Hd. apply files_of_lookup; [done|]. unfold l. apply elem_of_app. left.
    apply (list_elem_of_fmap_2 (fun sg => (sg_first sg, mkFile (content sg) [] true))). apply elem_of_app. right. by left.
  - unfold f_bytes. cbn. by rewrite app_nil_r.
Qed.

(** A tailer at a segment without a header. *)
Lemma poll_headless d q f after max fuel e : files d !! segment_name q = Some f -> check_header (f_bytes f) = Some e ->
  poll (S fuel) d (mkTailer after (Some (segment_name q)) walHeaderSize) (S max) =
    Ok (mkTailer after (Some (segment_name q)) walHeaderSize, [], Some e).
Proof.
  intros Hf Hc. cbn [poll segment]. unfold readSegment. cbn [segment offset]. rewrite Hf.
  cbn [walHeaderSize Nat.ltb Nat.leb]. by rewrite Hc.
Qed.

(** A tailer at the end of the last segment stays there. *)
Lemma poll_waits l q f d after max fuel : names_ok (l.*1 ++ [q]) -> files d = files_of (l ++ [(q, f)]) ->
  check_header (f_bytes f) = None -> let t := mkTailer after (Some (segment_name q)) (length (f_bytes f)) in
  poll (S fuel) d t (S max) = Ok (t, [], None).
Proof.
  intros Hn Hd Hc t. assert (H8 : (8 <= length (f_bytes f))%nat).
  { unfold check_header in Hc. destruct (Nat.ltb_spec (length (f_bytes f)) walHeaderSize); [done|]. unfold walHeaderSize in *. lia. }
  assert (Hl : names_ok (l ++ [(q, f)]).*1) by (by rewrite fmap_app).
  subst t. cbn [poll segment]. unfold readSegment. cbn [segment offset afterSeq]. rewrite Hd, (files_of_lookup _ Hl q f) by (apply elem_of_app; right; by left).
  rewrite (proj2 (Nat.ltb_ge _ _)) by (unfold walHeaderSize; lia). rewrite Hc, drop_all. cbn [length read_loop].
  change (next []) with ReadEOF. cbv beta iota zeta. unfold nextSegment. cbn [segment].
  destruct d as [fs sc]. cbn in Hd. subst fs. rewrite (segmentPaths_files _ Hl sc), fmap_app. cbn [fmap list_fmap fst].
  by rewrite path_after_names.
Qed.

(** C35: A rotation can end replication of a symbol. A stream that has sent everything and
    looks between the creation of the next segment and the write of its header finds a
    segment with no header, takes that for a damaged log and ends with data loss; a
    follower whose stream ends so never asks for the symbol again. Nothing is damaged:
    the same tailer, a moment earlier or once the rotation is through, finds the log
    complete and waits. *)
Theorem rotation_stops_replication now ctxErr closed sg w w1 d w2 max sends seen : healthy_as closed sg w -> sg_recs sg <> [] ->
  lastSeq w < MaxInt64 -> Close w = Ok (w1, None) -> sys_create (segment_name (lastSeq w + 1)) (wr_dir w1) = (d, None) ->
  openSegment (lastSeq w + 1) w1 = (w2, None) ->
  let t := at_end sg (lastSeq w) in
  (exists t', poll (poll_fuel (wr_dir w1) (S max)) (wr_dir w1) t (S max) = Ok (t', [], None)) /\
  (exists t', poll (poll_fuel (wr_dir w2) (S max)) (wr_dir w2) t (S max) = Ok (t', [], None)) /\
  (exists t', stream_loop ctxErr (true :: sends) (d :: seen) t = Ok (t', [], Ended (Some DataLoss))) /\
  forall (f : symbolState Writer) sessions, followSymbol now ((fun _ => ([], Some DataLoss)) :: sessions) f = Ok f.
Proof.
  intros Hw Hne Hlt Hcl Hcr Hop t. destruct (Close_files _ _ _ _ Hw Hcl) as [Hf1 Hl1].
  pose proof (hw_seq _ _ _ Hw) as Hsq. assert (Hi : in64 (lastSeq w + 1)) by (unfold64; lia).
  destruct (healthy_names_next closed sg w (lastSeq w + 1) Hw Hne eq_refl Hi) as [Hord Hnm].
  assert (Hn1 : names_ok ((closed_files (closed ++ [sg])).*1 ++ [lastSeq w + 1])).
  { rewrite closed_files_fst. rewrite fmap_app in Hnm. pose proof (marks_names _ Hord) as Hsn. rewrite fmap_app in Hsn. by split. }
  assert (Hfd : exists f, f_bytes f = [] /\ files d = files_of (closed_files (closed ++ [sg]) ++ [(lastSeq w + 1, f)])).
  { unfold sys_create, sys_next in Hcr. destruct (default SysOk _); injection Hcr as <-; [|done].
    eexists (mkFile [] [] _). split; [reflexivity|]. rewrite files_of_snoc by done. cbn. by rewrite Hf1. }
  destruct Hfd as (f & Hfb & Hfd).
  assert (Hf2 : files (wr_dir w2) = files_of (closed_files (closed ++ [sg]) ++ [(lastSeq w + 1, mkFile seg_header [] true)])).
  { apply (openSegment_spec _ _ Hn1 w1 w2 None Hf1); [|exact Hop]. unfold closed_files. by apply Forall_fmap, Forall_forall. }
  assert (Hfuel : forall x m, exists k, poll_fuel x (S m) = S (S k)).
  { intros x m. exists (m + length (segmentPaths x) + 1)%nat. unfold poll_fuel. lia. }
  split; [|split; [|split]].
  - destruct (Hfuel (wr_dir w1) max) as [k ->]. exists t. rewrite closed_files_snoc in Hf1. pose proof (healthy_names _ _ _ Hw) as Hn.
    assert (E : t = mkTailer (lastSeq w) (Some (segment_name (sg_first sg))) (length (f_bytes (mkFile (content sg) [] true))))
      by (unfold t, at_end, f_bytes; cbn; by rewrite app_nil_r).
    rewrite E. apply (poll_waits (closed_files closed)); [exact Hn|exact Hf1|]. unfold f_bytes. cbn. rewrite app_nil_r. done.
  - destruct (Hfuel (wr_dir w2) max) as [k ->]. eexists. unfold t. rewrite (at_end_polls closed sg _ _ _ _ _ _ Hn1 Hf2).
    exact (poll_waits _ _ (mkFile seg_header [] true) _ _ _ _ Hn1 Hf2 eq_refl).
  - assert (Hp : poll (poll_fuel d walBatchCap) d t walBatchCap =
      Ok (mkTailer (lastSeq w) (Some (segment_name (lastSeq w + 1))) walHeaderSize, [], Some ErrCorruptWAL)).
    { unfold walBatchCap. destruct (Hfuel d 511%nat) as [k ->]. unfold t. rewrite (at_end_polls closed sg _ _ _ _ _ _ Hn1 Hfd).
      apply (poll_headless d _ f); [|by rewrite Hfb]. rewrite Hfd. rewrite files_of_snoc by done. apply lookup_insert_eq. }
    eexists. cbn [stream_loop Next]. rewrite Hp. reflexivity.
  - done.
Qed.
End Rotation.

(** * Witness *)

Module RotationDemo.
Import StoreDemo ClusterDemo.

(** A log of one record, and the calls of its rotation. *)
Definition closed1 : Writer := wal_of (Close ClusterDemo.w1).
Definition created1 : Dir := (sys_create (segment_name 2) (wr_dir closed1)).1.
Definition rotated1 : Writer := (openSegment 2 closed1).1.

Lemma w1_healthy : exists closed sg, healthy_as closed sg ClusterDemo.w1 /\ sg_recs sg <> [].
Proof.
  destruct (quote_loggable 100 (or_introl eq_refl)) as [Hl _].
  destruct (Append_shape [] (mkSeg 1 [] []) opened (quote 100) fresh_healthy Hl ltac:(vm_compute; reflexivity)) as (w & e & Ha & _ & Hok).
  assert (Ea : Append (quote 100) opened = Ok (ClusterDemo.w1, None)) by (vm_compute; reflexivity). rewrite Ea in Ha. injection Ha as <- <-.
  destruct (Hok eq_refl) as (c & g & Hw & _ & bs & [[_ ->]|[_ ->]]); (eexists _, _; split; [exact Hw|discriminate]).
Qed.
End RotationDemo.

Lemma rotation_stops_replication_witness : exists sg t', 
  stream_loop ErrCanceled [true] [RotationDemo.created1] (at_end sg (lastSeq ClusterDemo.w1)) = Ok (t', [], Ended (Some DataLoss)).
Proof.
  destruct RotationDemo.w1_healthy as (closed & sg & Hw & Hne).
  destruct (rotation_stops_replication id ErrCanceled closed sg ClusterDemo.w1 RotationDemo.closed1 RotationDemo.created1 RotationDemo.rotated1
    0 [] [] Hw Hne ltac:(vm_compute; reflexivity) ltac:(vm_compute; reflexivity) ltac:(vm_compute; reflexivity) ltac:(vm_compute; reflexivity))
    as (_ & _ & (t' & Ht) & _).
  exists sg, t'. exact Ht.
Defined.
