(* ===== verification/Follower.v ===== *)
(** The follower's process, from [src/cmd/follower/main.go] and the rest of
    [src/internal/replica/replica.go]: how it starts and stops, what it reports to the
    primary, and what it logs. *)

From Stdlib Require Import ZArith Lia Ascii String.
From stdpp Require Import base gmap list strings sorting.
From S2P Require Import Prelude Types Book BookProps Accounts WalRecord Sequencer SeqFacts SeqProps.
From S2P Require Import Bytes WalFormat WalRead SegNames Wal WalDir WalInv WalLaw WalStep WalRecover WalProps WalClose.
From S2P Require Import Tail TailFacts TailProps VenueProps Registry RegistryFacts RegistryProps Status Messages BookTime.
From S2P Require Import Replication ReplicationProps Replica ReplicaFacts ReplicaProps.

Open Scope Z_scope.

(** [state]. *)
Definition state (symbol : string) (r : Replica) : option (symbolState Writer) := rp_symbols r !! symbol.

(** * Reporting *)

(** [pb.ReportProgressRequest], as [reportProgress] fills it in. *)
Record ReportPB := mkReport { rq_Symbol : string; rq_AppliedPosition : Z; rq_AppliedRecordLoggedAtUnixNano : Z }.

Definition progress_report {W} (symbol : string) (st : symbolState W) : ReportPB :=
  let '(position, ts) := currentProgress st in mkReport symbol position ts.

(** [discover] is [ListSymbols], or the error of a primary that does not answer. *)
Definition discover (answer : result grpc_code (list string)) : option (list string) :=
  match answer with Good symbols => Some symbols | Fails _ => None end.

Section Reports.
Context `{PayloadCodec} (now : Z -> Z).

(** One tick: the symbol as it is then, whether the call gets through, and the
    primary's clock. *)
Record Tick := mkTick { tk_state : symbolState Writer; tk_reaches : bool; tk_clock : Z }.

(** [reportProgress]: a report at every tick; what becomes of it is not looked at. *)
Fixpoint reportProgress (symbol : string) (ticks : list Tick) (rs : ReplicationServer) : outcome ReplicationServer :=
  match ticks with
  | [] => Ok rs
  | tick :: ticks =>
      let req := progress_report symbol (tk_state tick) in
      if tk_reaches tick then
        '(rs, _) ← ReportProgress now (rq_Symbol req) (rq_AppliedPosition req) (rq_AppliedRecordLoggedAtUnixNano req) (tk_clock tick) rs;
        reportProgress symbol ticks rs
      else reportProgress symbol ticks rs
  end.
End Reports.

(** * The command *)

Record FollowerFlags := mkFollowerFlags { ff_primary : string; ff_dir : string; ff_statusInterval : Z }.

Inductive follower_error := ErrNoWalDir | ErrDial | ErrRun.

(** [logStatus]: a row for every symbol, at every tick. *)
Record StatusRow := mkStatusRow { sr_symbol : string; sr_position : Z; sr_resting : nat }.
Definition logStatus (r : Replica) : list StatusRow :=
  (fun symbol => mkStatusRow symbol (replica_Position symbol r) (replica_RestingCount symbol r)) <$> replica_Symbols r.

(** What [run] may do with the flags: it refuses an empty directory, and a target
    [grpc.NewClient] does not take; then it follows, logging if it is to. *)
Definition follower_start (fl : FollowerFlags) (dialed : bool) (disk : gmap string Dir)
    : result follower_error (Replica * bool) :=
  if bool_decide (ff_dir fl = "") then Fails ErrNoWalDir
  else if negb dialed then Fails ErrDial
  else Good (New disk, 0 <? ff_statusInterval fl).

(** The end: [Run] returns the context's error, which [run] takes for a stop; the
    deferred [Close] comes after, and what it returns is logged. *)
Definition follower_finish (run_err : option oms_error) (ctx_done : bool) (r : Replica)
    : outcome (Replica * list (string * oms_error) * option follower_error) :=
  '(r, errs) ← replica_Close r;
  Ok (r, errs, match run_err with Some _ => if ctx_done then None else Some ErrRun | None => None end).

(** * Stopping *)

Section Stopping.
Context `{CodecLaws}.

(** Every symbol a follower has open is in order. *)
Definition in_order (r : Replica) (P : string -> list WalRecord) : Prop := forall symbol st,
  rp_symbols r !! symbol = Some st -> shippable (W := Writer) (P symbol) /\ mirrors (P symbol) st.

Lemma close_logs_keeps open : forall dk, NoDup open.*1 ->
  Forall (fun p => healthy (st_wal p.2) /\ buffered (st_wal p.2) = []) open ->
  exists dk' errs, close_logs open dk = Ok (dk', errs) /\
    (forall symbol st, (symbol, st) ∈ open -> exists d, dk' !! symbol = Some d /\ files d = files (wr_dir (st_wal st))) /\
    (forall symbol, symbol ∉ open.*1 -> dk' !! symbol = dk !! symbol).
Proof.
  induction open as [|[symbol st] open IH]; intros dk Hnd Hall; cbn [close_logs].
  { exists dk, []. split_and!; try done. by intros ? ? ?%elem_of_nil. }
  apply NoDup_cons in Hnd as [Hni Hnd]. apply Forall_cons in Hall as [[Hh Hb] Hall]. cbn [snd] in Hh, Hb.
  destruct (Close_keeps _ Hh Hb) as (w & e & Hc & Hf & _). rewrite Hc. cbn [mbind outcome_bind].
  destruct (IH (<[symbol := wr_dir w]> dk) Hnd Hall) as (dk' & errs & -> & Hin & Hout). cbn [mbind outcome_bind].
  eexists dk', _. split; [reflexivity|]. split.
  - intros s x [[= -> ->]|Hx]%elem_of_cons; [|by apply Hin]. exists (wr_dir w). rewrite Hout, lookup_insert_eq by exact Hni.
    by split.
  - intros s Hs. cbn [fmap list_fmap fst] in Hs. apply not_elem_of_cons in Hs as [Hne Hs]. rewrite Hout by exact Hs.
    by rewrite lookup_insert_ne.
Qed.
End Stopping.

Section Properties.
Context `{CodecLaws} (now : Z -> Z).


(** A report about a symbol the primary has open. *)
Lemma ReportProgress_open symbol s position loggedAt clock rs : validSymbol symbol = true ->
  seqs (registry (rs_state rs)) !! symbol = Some s ->
  ReportProgress now symbol position loggedAt clock rs =
    Ok (mkReplicationServer (rs_state rs) (<[symbol := mkProgress position (Unix loggedAt) clock]> (rs_progress rs)), Good tt).
Proof. intros Hv Hs. unfold ReportProgress, Get, Get_with. rewrite Hv, Hs. done. Qed.

(** The last report that got through. *)
Definition last_report (ticks : list Tick) : option followerProgress :=
  (fun tk => mkProgress (st_position (tk_state tk)) (Unix (UnixNano (st_positionTS (tk_state tk)))) (tk_clock tk)) <$>
    last (filter (fun tk => tk_reaches tk = true) ticks).

Lemma reportProgress_spec symbol s ticks : validSymbol symbol = true -> forall rs,
  seqs (registry (rs_state rs)) !! symbol = Some s ->
  exists rs', reportProgress now symbol ticks rs = Ok rs' /\ rs_state rs' = rs_state rs /\
    rs_progress rs' = match last_report ticks with Some p => <[symbol := p]> (rs_progress rs) | None => rs_progress rs end.
Proof.
  intros Hv. unfold last_report. induction ticks as [|tk ticks IH]; intros rs Hs; cbn [reportProgress]; [by exists rs|].
  rewrite filter_cons. destruct (tk_reaches tk) eqn:Et; [rewrite decide_True by done|rewrite decide_False by done; by apply IH].
  cbn [progress_report currentProgress rq_Symbol rq_AppliedPosition rq_AppliedRecordLoggedAtUnixNano].
  unfold progress_report, currentProgress. cbn [rq_Symbol rq_AppliedPosition rq_AppliedRecordLoggedAtUnixNano].
  rewrite (ReportProgress_open symbol s) by done. cbn [mbind outcome_bind].
  destruct (IH (mkReplicationServer (rs_state rs) (<[symbol := mkProgress (st_position (tk_state tk))
    (Unix (UnixNano (st_positionTS (tk_state tk)))) (tk_clock tk)]> (rs_progress rs))) Hs) as (rs' & -> & H1 & H2).
  exists rs'. split; [done|]. split; [done|]. rewrite H2, last_cons. cbn [rs_progress].
  destruct (last (filter _ ticks)); cbn [fmap option_fmap option_map]; [by rewrite insert_insert_eq|done].
Qed.

(** C33: Reporting progress is advisory and never flatters the follower. Whichever reports
    get through, the primary's books and logs stay as they were, it knows of the
    symbol what the last of them said, of every other symbol what it knew, and of the
    follower's position never more than it had reached: the records it says the
    follower is behind are at least those it is. *)
Theorem lag_never_understated symbol s ticks (f : symbolState Writer) rs : validSymbol symbol = true ->
  seqs (registry (rs_state rs)) !! symbol = Some s ->
  Forall (fun tk => 0 <= st_position (tk_state tk) <= st_position f) ticks -> rs_progress rs !! symbol = None ->
  exists rs', reportProgress now symbol ticks rs = Ok rs' /\ rs_state rs' = rs_state rs /\
    rs_progress rs' !! symbol = last_report ticks /\
    (forall other, other <> symbol -> rs_progress rs' !! other = rs_progress rs !! other) /\
    forall clock primaryPos, st_position f <= primaryPos <= MaxInt64 ->
      let lag := lag_of clock symbol primaryPos (rs_progress rs' !! symbol) in
      (lg_FollowerSeen lag = true <-> true ∈ (tk_reaches <$> ticks)) /\
      (lg_FollowerSeen lag = true -> primaryPos - st_position f <= lg_RecordsBehind lag).
Proof.
  intros Hv Hs Hall Hnone. destruct (reportProgress_spec symbol s ticks Hv rs Hs) as (rs' & Hr & H1 & H2).
  assert (Hp : rs_progress rs' !! symbol = last_report ticks)
    by (rewrite H2; destruct (last_report ticks); [by rewrite lookup_insert_eq|done]).
  exists rs'. split; [done|]. split; [done|]. split; [done|]. split.
  { intros other Hne. rewrite H2. destruct (last_report ticks); [by rewrite lookup_insert_ne|done]. }
  intros clock primaryPos Hpos lag. subst lag. rewrite Hp. unfold last_report.
  destruct (last (filter (fun tk => tk_reaches tk = true) ticks)) as [tk|] eqn:El; cbn [fmap option_fmap option_map lag_of].
  - apply last_Some_elem_of, list_elem_of_filter in El as [Et Hin]. rewrite Forall_forall in Hall. specialize (Hall tk Hin).
    cbn [lg_FollowerSeen lg_RecordsBehind fp_position]. split; [split; [|done]; intros _; rewrite <- Et; by apply list_elem_of_fmap_2|].
    intros _. unfold sub64. rewrite wrap64_id by (unfold64; unfold MaxInt64 in *; lia). lia.
  - cbn [lg_FollowerSeen]. split; [|done]. split; [done|]. intros (tk & Et & Hin)%list_elem_of_fmap.
    apply last_None in El. assert (Hx : tk ∈ filter (fun tk => tk_reaches tk = true) ticks) by by apply list_elem_of_filter.
    rewrite El in Hx. by apply elem_of_nil in Hx.
Qed.
End Properties.

(** * Witnesses *)

Module FollowerDemo.
Import RegistryDemo StoreDemo ReplicaDemo.

(** A follower with "NABIL" open and nothing received, and its directories once closed. *)
Definition standby : Replica := mkReplica {["NABIL"%string := follower []]} {["NABIL"%string := wr_dir (st_wal (follower []))]}.

Lemma standby_in_order : in_order standby (fun _ => shipped).
Proof.
  intros symbol st Hst. unfold standby in Hst. cbn [rp_symbols] in Hst. apply lookup_singleton_Some in Hst as [_ <-].
  split; [exact shipped_ok|]. apply follower_mirrors. vm_compute. reflexivity.
Qed.

Definition ticks : list Tick := [mkTick (follower []) true 9; mkTick (follower []) false 10].
End FollowerDemo.


Lemma lag_never_understated_witness : exists rs',
  reportProgress id "NABIL" FollowerDemo.ticks (NewReplicationServer RegistryDemo.st2) = Ok rs' /\
  rs_progress rs' !! "NABIL"%string = last_report FollowerDemo.ticks.
Proof.
  destruct RegistryDemo.st2_reachable as (_ & Hs & _).
  destruct (lag_never_understated id "NABIL" RegistryDemo.q2 FollowerDemo.ticks (ReplicaDemo.follower []) (NewReplicationServer RegistryDemo.st2)
    ltac:(vm_compute; reflexivity) Hs ltac:(repeat apply Forall_cons_2; try apply Forall_nil_2; vm_compute; split; discriminate) eq_refl)
    as (rs' & H1 & _ & H2 & _).
  exists rs'. exact (conj H1 H2).
Defined.
