(* ===== verification/Metrics.v ===== *)
(** The venue's metrics, from [src/internal/metrics/metrics.go].

    Counters and histograms are incremented on the request path, through the methods
    of [Metrics]; the gauges are read from the live venue by [Collect], when a scrape
    asks. Prometheus itself is the classes [Counters] and [Histograms]: a family of
    values, one for each list of label values it was given. Registration, buckets,
    help texts and the HTTP handler are left out, and a duration is its nanoseconds.
    A count becomes a [float64] on its way out, which is exact below 2^53. *)

From Stdlib Require Import ZArith Lia Ascii String.
From stdpp Require Import base gmap list strings.
From S2P Require Import Prelude Types Book Accounts WalRecord Sequencer Bytes WalFormat Wal Registry Replication.

Open Scope Z_scope.

(** * Prometheus *)

(** [CounterVec]. [WithLabelValues] panics on a wrong number of labels. *)
Class Counters (V : Type) := {
  NewCounterVec : list string -> V;
  counter_add : list string -> Z -> V -> outcome V;
  counter_arity : V -> nat;
  counter_value : list string -> V -> Z;
  counter_series : V -> list (list string)
}.

(** [HistogramVec]; a histogram without labels has the empty list. *)
Class Histograms (HV : Type) := {
  NewHistogramVec : list string -> HV;
  histogram_observe : list string -> Z -> HV -> outcome HV;
  histogram_arity : HV -> nat;
  histogram_count : list string -> HV -> Z
}.

Class CounterLaws (V : Type) `{Counters V} := {
  counter_new names : counter_arity (NewCounterVec names) = length names /\ counter_series (NewCounterVec names) = [] /\
    forall labels, counter_value labels (NewCounterVec names) = 0;
  counter_added labels n v : length labels = counter_arity v -> 0 <= n ->
    exists v', counter_add labels n v = Ok v' /\ counter_arity v' = counter_arity v /\
      (forall l, counter_value l v' = counter_value l v + (if decide (l = labels) then n else 0)) /\
      (forall l, l ∈ counter_series v' <-> l = labels \/ l ∈ counter_series v) /\
      (NoDup (counter_series v) -> NoDup (counter_series v'))
}.

Class HistogramLaws (HV : Type) `{Histograms HV} := {
  histogram_new names : histogram_arity (NewHistogramVec names) = length names /\
    forall labels, histogram_count labels (NewHistogramVec names) = 0;
  histogram_observed labels d h : length labels = histogram_arity h ->
    exists h', histogram_observe labels d h = Ok h' /\ histogram_arity h' = histogram_arity h /\
      forall l, histogram_count l h' = histogram_count l h + (if decide (l = labels) then 1 else 0)
}.

(** * The request path *)

Section Metrics.
Context {V HV : Type} `{!Counters V, !Histograms HV}.

Record Metrics := mkMetrics {
  ordersTotal : V;
  cancelsTotal : V;
  tradesTotal : V;
  orderLatency : HV;
  settleTotal : V;
  settleLatency : HV;
  feedDropped : V
}.

Definition NewMetrics : Metrics :=
  mkMetrics (NewCounterVec ["symbol"; "side"; "type"; "outcome"]) (NewCounterVec ["symbol"; "outcome"])
    (NewCounterVec ["symbol"]) (NewHistogramVec ["symbol"]) (NewCounterVec ["outcome"]) (NewHistogramVec [])
    (NewCounterVec ["symbol"]).

Definition ObserveOrder (symbol side orderType out : string) (trades : nat) (d : Z) (m : Metrics) : outcome Metrics :=
  o ← counter_add [symbol; side; orderType; out] 1 (ordersTotal m);
  l ← histogram_observe [symbol] d (orderLatency m);
  t ← (if (0 <? trades)%nat then counter_add [symbol] (Z.of_nat trades) (tradesTotal m) else Ok (tradesTotal m));
  Ok (mkMetrics o (cancelsTotal m) t l (settleTotal m) (settleLatency m) (feedDropped m)).

Definition ObserveCancel (symbol out : string) (m : Metrics) : outcome Metrics :=
  c ← counter_add [symbol; out] 1 (cancelsTotal m);
  Ok (mkMetrics (ordersTotal m) c (tradesTotal m) (orderLatency m) (settleTotal m) (settleLatency m) (feedDropped m)).

Definition ObserveSettlement (out : string) (d : Z) (m : Metrics) : outcome Metrics :=
  s ← counter_add [out] 1 (settleTotal m);
  l ← histogram_observe [] d (settleLatency m);
  Ok (mkMetrics (ordersTotal m) (cancelsTotal m) (tradesTotal m) (orderLatency m) s l (feedDropped m)).

Definition ObserveFeedDrop (symbol : string) (m : Metrics) : outcome Metrics :=
  f ← counter_add [symbol] 1 (feedDropped m);
  Ok (mkMetrics (ordersTotal m) (cancelsTotal m) (tradesTotal m) (orderLatency m) (settleTotal m) (settleLatency m) f).
End Metrics.
Arguments Metrics : clear implicits.

(** A call of [api.Observer], the interface [Metrics] has for the server. *)
Inductive observation :=
| OOrder (symbol side orderType out : string) (trades : nat) (d : Z)
| OCancel (symbol out : string)
| OSettlement (out : string) (d : Z)
| OFeedDrop (symbol : string).

Definition observe {V HV : Type} `{!Counters V, !Histograms HV} (m : Metrics V HV) (o : observation) : outcome (Metrics V HV) :=
  match o with
  | OOrder symbol side orderType out trades d => ObserveOrder symbol side orderType out trades d m
  | OCancel symbol out => ObserveCancel symbol out m
  | OSettlement out d => ObserveSettlement out d m
  | OFeedDrop symbol => ObserveFeedDrop symbol m
  end.
Fixpoint observe_all {V HV : Type} `{!Counters V, !Histograms HV} (os : list observation) (m : Metrics V HV) : outcome (Metrics V HV) :=
  match os with
  | [] => Ok m
  | o :: os => m ← observe m o; observe_all os m
  end.

(** * The scrape *)

Inductive desc :=
| descResting | descLogPosition | descCommits | descBatched
| descReplPrimary | descReplFollower | descReplBehind | descReplMillis | descReplSeen.
#[global] Instance desc_eq_dec : EqDecision desc.
Proof. solve_decision. Defined.

Inductive ValueType := GaugeValue | CounterValue.

(** [MustNewConstMetric], as it is sent. *)
Record Metric := mkMetric { mt_desc : desc; mt_type : ValueType; mt_value : Z; mt_symbol : string }.

Definition Describe : list desc :=
  [descResting; descLogPosition; descCommits; descBatched; descReplPrimary; descReplFollower; descReplBehind;
   descReplMillis; descReplSeen].

Definition symbol_metrics (symbol : string) (s : Sequencer Writer) : list Metric :=
  let '(commits, requests) := CommitStats s in
  [mkMetric descResting GaugeValue (sq_resting s) symbol;
   mkMetric descLogPosition GaugeValue (sq_lastPos s) symbol;
   mkMetric descCommits CounterValue commits symbol;
   mkMetric descBatched CounterValue requests symbol].

Definition lag_metrics (symbol : string) (l : FollowerLag) : list Metric :=
  [mkMetric descReplPrimary GaugeValue (fl_PrimaryPosition l) symbol;
   mkMetric descReplFollower GaugeValue (fl_FollowerPosition l) symbol;
   mkMetric descReplBehind GaugeValue (sub64 (fl_PrimaryPosition l) (fl_FollowerPosition l)) symbol;
   mkMetric descReplMillis GaugeValue (fl_MillisBehind l) symbol;
   mkMetric descReplSeen GaugeValue (if fl_FollowerSeen l then 1 else 0) symbol].

Section Collect.
Context `{PayloadCodec}.
Context (now : Z -> Z).

(** The loop over the symbols listed; one that [Get] refuses is skipped. *)
Fixpoint collect_symbols (symbols : list string) (st : State) : outcome (State * list Metric) :=
  match symbols with
  | [] => Ok (st, [])
  | symbol :: symbols =>
      '(st, seq) ← Get now symbol st;
      '(st, ms) ← collect_symbols symbols st;
      Ok (st, match seq with Good s => symbol_metrics symbol s ++ ms | Fails _ => ms end)
  end.

(** [Collect]; the lag source is the replication server, over the same registry, or nil. *)
Definition Collect (clock : Z) (lag : option (gmap string followerProgress)) (st : State) : outcome (State * list Metric) :=
  '(st, ms) ← collect_symbols (Symbols st) st;
  match lag with
  | None => Ok (st, ms)
  | Some progress =>
      '(rs, lags) ← SymbolLag now clock (mkReplicationServer st progress);
      Ok (rs_state rs, ms ++ (map_to_list (default ∅ lags) ≫= fun p => lag_metrics p.1 p.2))
  end.
End Collect.
