(* ===== verification/Observer.v ===== *)
(** The handlers with their measurements, from [src/internal/api/server.go].

    The observer is an interface; what a handler tells it is the list of the calls
    made, in order, and a nil observer is told nothing. The server itself is
    [Server.v]'s: [ObserverProps] shows that measuring changes nothing. *)

From Stdlib Require Import ZArith Lia Ascii String.
From stdpp Require Import base gmap list strings.
From S2P Require Import Prelude Types Book Accounts WalRecord Sequencer Bytes WalFormat Wal Registry Status Messages Ledger Feed Server.
From S2P Require Import Replication Metrics.

Open Scope Z_scope.

Section Observer.
Context `{PayloadCodec}.
Context (now : Z -> Z) (ts : Z).
(** The generated [String] methods of the two enumerations. *)
Context (side_String type_String : Z -> string).
(** Whether there is an observer. *)
Context (obs : bool).

Definition tell (o : observation) : list observation := if obs then [o] else [].

Definition observeOrder (req : PlaceOrderRequest) (out : string) (trades : nat) (d : Z) : list observation :=
  tell (OOrder (po_Symbol req) (side_String (po_Side req)) (type_String (po_Type req)) out trades d).
Definition observeCancel (symbol out : string) : list observation := tell (OCancel symbol out).
Definition observeSettlement {E} (err : option E) (d : Z) : list observation :=
  tell (OSettlement match err with Some _ => "failed" | None => "ok" end d).

(** [publish] calls the feed's [onDrop] once for every subscriber without room; [feed]
    gave it one that reports the symbol. *)
Definition onTrades_observed (symbol : string) (trades : list Trade) (sv : Server) : Server * list observation :=
  let sv' := onTrades symbol trades sv in
  (sv', concat (replicate (drops (feed symbol sv') - drops (feed symbol sv)) (tell (OFeedDrop symbol)))).

Fixpoint publish_observed (pub : list (string * list Trade)) (sv : Server) : Server * list observation :=
  match pub with
  | [] => (sv, [])
  | (symbol, trades) :: pub =>
      let '(sv, os) := onTrades_observed symbol trades sv in
      let '(sv, os') := publish_observed pub sv in
      (sv, os ++ os')
  end.

Definition do_batch_observed (symbol : string) (before after : list request) (r : request) (sv : Server)
    : outcome (Server * list observation * reply) :=
  '(st, replies, pub) ← venue_commit now ts symbol (before ++ r :: after) (sv_venue sv);
  p ← deref (replies !! length before);
  let '(sv, os) := publish_observed pub (set_venue st sv) in
  Ok (sv, os, p).

Definition do_request_observed (symbol : string) (f : fate) (r : request) (sv : Server)
    : outcome (Server * list observation * Prelude.result oms_error reply) :=
  match f with
  | NotSent e => Ok (sv, [], Fails e)
  | Served before after => '(sv, os, p) ← do_batch_observed symbol before after r sv; Ok (sv, os, Good p)
  | Abandoned before after e => '(sv, os, _) ← do_batch_observed symbol before after r sv; Ok (sv, os, Fails e)
  end.

(** [PlaceOrder]; [d] and [settled_in] are the durations measured. *)
Definition PlaceOrder_observed (d settled_in : Z) (f : fate) (calls : list DbRes) (req : PlaceOrderRequest) (sv : Server)
    : outcome (Server * list observation * result grpc_code PlaceOrderResponse) :=
  match orderFromRequest req with
  | Fails c => Ok (sv, observeOrder req "invalid" 0 d, Fails c)
  | Good order =>
      '(st, seq) ← Get now (po_Symbol req) (sv_venue sv);
      let sv := set_venue st sv in
      match seq with
      | Fails e => Ok (sv, observeOrder req "unavailable" 0 d, Fails (registryError e))
      | Good _ =>
          '(sv, os, res) ← do_request_observed (po_Symbol req) f (submit_request order) sv;
          match served submit_response res with
          | Fails e => Ok (sv, os ++ observeOrder req (submitOutcome e) 0 d, Fails (submitError e))
          | Good resp =>
              let trades := length (or_Trades resp) in
              let due := bool_decide (is_Some (sv_ledger sv)) && (0 <? trades)%nat in
              let '(sv, err) := settle_trades calls (or_Trades resp) sv in
              let os := os ++ if due then observeSettlement err settled_in else [] in
              match err with
              | Some _ => Ok (sv, os ++ observeOrder req "unsettled" trades d, Fails Internal)
              | None =>
                  Ok (sv, os ++ observeOrder req "accepted" trades d,
                      Good (mkPlaced (wrap64 (or_OrderID resp)) (or_Seq resp) (tradesToPB (or_Trades resp))
                              (or_RestingQuantity resp) (seqIDsToInt64 (or_SelfPrevented resp))))
              end
          end
      end
  end.

Definition CancelOrder_observed (f : fate) (symbol account : string) (orderID : Z) (sv : Server)
    : outcome (Server * list observation * result grpc_code Z) :=
  match validateSymbol symbol with
  | Fails c => Ok (sv, [], Fails c)
  | Good _ =>
  match validateAccountID account with
  | Fails c => Ok (sv, [], Fails c)
  | Good account =>
  if orderID <=? 0 then Ok (sv, [], Fails InvalidArgument) else
  '(st, seq) ← Get now symbol (sv_venue sv);
  let sv := set_venue st sv in
  match seq with
  | Fails e => Ok (sv, [], Fails (registryError e))
  | Good _ =>
      '(sv, os, res) ← do_request_observed symbol f (cancelFor_request orderID account) sv;
      match served (fun p => match p_err p with Some e => Fails e | None => Good (p_seq p) end) res with
      | Fails e => Ok (sv, os ++ observeCancel symbol (cancelOutcome e), Fails (cancelError e))
      | Good pos => Ok (sv, os ++ observeCancel symbol "cancelled", Good pos)
      end
  end end end.
End Observer.
