(* ===== verification/ObserverProps.v ===== *)
(** What the metrics say of the venue, and where they say too little or too much. *)

From Stdlib Require Import ZArith Lia Ascii String.
From stdpp Require Import base gmap list strings pretty sorting.
From S2P Require Import Prelude Types Book BookInv BookSpec BookRefine BookProps.
From S2P Require Import Accounts AccountsInv WalRecord Sequencer SeqFacts SeqProps VenueFacts Venue VenueProps Bytes WalFormat.
From S2P Require Import Wal WalDir WalInv WalLaw WalStep WalRecover WalProps Registry RegistryFacts RegistryProps.
From S2P Require Import Status Messages Ledger Feed Replication Server ServerFacts ServerProps Typed TypedVenue Metrics Observer.

Open Scope Z_scope.

(** * Counting *)

(** What an observation adds to each family: the labels and how much. *)
Definition c_orders (o : observation) : option (list string * Z) :=
  match o with OOrder symbol side orderType out _ _ => Some ([symbol; side; orderType; out], 1) | _ => None end.
Definition c_cancels (o : observation) : option (list string * Z) :=
  match o with OCancel symbol out => Some ([symbol; out], 1) | _ => None end.
Definition c_trades (o : observation) : option (list string * Z) :=
  match o with
  | OOrder symbol _ _ _ trades _ => if (0 <? trades)%nat then Some ([symbol], Z.of_nat trades) else None
  | _ => None
  end.
Definition c_latency (o : observation) : option (list string * Z) :=
  match o with OOrder symbol _ _ _ _ _ => Some ([symbol], 1) | _ => None end.
Definition c_settled (o : observation) : option (list string * Z) :=
  match o with OSettlement out _ => Some ([out], 1) | _ => None end.
Definition c_settle_latency (o : observation) : option (list string * Z) :=
  match o with OSettlement _ _ => Some ([], 1) | _ => None end.
Definition c_drops (o : observation) : option (list string * Z) :=
  match o with OFeedDrop symbol => Some ([symbol], 1) | _ => None end.

Definition amount (l : list string) (x : option (list string * Z)) : Z :=
  match x with Some (l', n) => if decide (l = l') then n else 0 | None => 0 end.
(** The sum of what [os] add at the labels [l]. *)
Definition tally (c : observation -> option (list string * Z)) (os : list observation) (l : list string) : Z :=
  sumZ (fun o => amount l (c o)) os.

Lemma tally_app c os os' l : tally c (os ++ os') l = tally c os l + tally c os' l.
Proof. unfold tally. by autorewrite with sums. Qed.

Section Counting.
Context {V HV : Type} `{!Counters V, !CounterLaws V, !Histograms HV, !HistogramLaws HV}.

(** Every family has the number of labels its calls give. *)
Record shaped (m : Metrics V HV) : Prop := {
  sh_orders : counter_arity (ordersTotal m) = 4%nat;
  sh_cancels : counter_arity (cancelsTotal m) = 2%nat;
  sh_trades : counter_arity (tradesTotal m) = 1%nat;
  sh_latency : histogram_arity (orderLatency m) = 1%nat;
  sh_settled : counter_arity (settleTotal m) = 1%nat;
  sh_settle_latency : histogram_arity (settleLatency m) = 0%nat;
  sh_drops : counter_arity (feedDropped m) = 1%nat
}.

(** [m'] is [m] after the observations [os]. *)
Record told (m : Metrics V HV) (os : list observation) (m' : Metrics V HV) : Prop := {
  to_orders l : counter_value l (ordersTotal m') = counter_value l (ordersTotal m) + tally c_orders os l;
  to_cancels l : counter_value l (cancelsTotal m') = counter_value l (cancelsTotal m) + tally c_cancels os l;
  to_trades l : counter_value l (tradesTotal m') = counter_value l (tradesTotal m) + tally c_trades os l;
  to_latency l : histogram_count l (orderLatency m') = histogram_count l (orderLatency m) + tally c_latency os l;
  to_settled l : counter_value l (settleTotal m') = counter_value l (settleTotal m) + tally c_settled os l;
  to_settle_latency l : histogram_count l (settleLatency m') = histogram_count l (settleLatency m) + tally c_settle_latency os l;
  to_drops l : counter_value l (feedDropped m') = counter_value l (feedDropped m) + tally c_drops os l;
  to_series l : l ∈ counter_series (ordersTotal m') <->
    l ∈ counter_series (ordersTotal m) \/ exists o n, o ∈ os /\ c_orders o = Some (l, n)
}.

Lemma NewMetrics_shaped : shaped NewMetrics.
Proof. split; cbn [NewMetrics ordersTotal cancelsTotal tradesTotal orderLatency settleTotal settleLatency feedDropped];
  first [apply counter_new|apply histogram_new]. Qed.

(** The family the next statement touches. *)
Ltac use_counter := match goal with
  | |- exists m', mbind _ (counter_add ?l ?n ?v) = Ok m' /\ _ =>
      let v' := fresh "v" in let E := fresh "E" in
      destruct (counter_added l n v) as (v' & E & ? & ? & ? & _); [by simpl|lia|]; rewrite E; cbn [mbind outcome_bind]
  | |- exists m', mbind _ (histogram_observe ?l ?d ?h) = Ok m' /\ _ =>
      let h' := fresh "h" in let E := fresh "E" in
      destruct (histogram_observed l d h) as (h' & E & ? & ?); [by simpl|]; rewrite E; cbn [mbind outcome_bind]
  end.
Ltac finish Hno Hyes :=
  eexists; split; [reflexivity|];
  split; split; cbn [ordersTotal cancelsTotal tradesTotal orderLatency settleTotal settleLatency feedDropped]; try congruence;
  intros l; try done;
  first [by rewrite Hno, Z.add_0_r by done | by erewrite Hyes by reflexivity
    | split; [by left|by intros [|(? & ? & ->%list_elem_of_singleton & ?)]] | idtac].

(** One observation: never a panic. *)
Lemma observe_told m o : shaped m -> exists m', observe m o = Ok m' /\ shaped m' /\ told m [o] m'.
Proof.
  intros [S1 S2 S3 S4 S5 S6 S7].
  assert (Hno : forall (c : observation -> option (list string * Z)) l, c o = None -> tally c [o] l = 0)
    by (intros c l Hc; unfold tally; cbn; by rewrite Hc).
  assert (Hyes : forall (c : observation -> option (list string * Z)) l l' n, c o = Some (l', n) -> tally c [o] l = if decide (l = l') then n else 0)
    by (intros c l l' n Hc; unfold tally; cbn; rewrite Hc; cbn [amount]; case_decide; lia).
  destruct o as [symbol side ty out trades d|symbol out|out d|symbol]; cbn [observe];
    unfold ObserveOrder, ObserveCancel, ObserveSettlement, ObserveFeedDrop.
  - use_counter. use_counter.
    assert (Ht : exists t, (if (0 <? trades)%nat then counter_add [symbol] (Z.of_nat trades) (tradesTotal m) else Ok (tradesTotal m)) = Ok t /\
      counter_arity t = 1%nat /\ forall l, counter_value l t = counter_value l (tradesTotal m) + tally c_trades [OOrder symbol side ty out trades d] l).
    { destruct (0 <? trades)%nat eqn:Etr.
      - destruct (counter_added [symbol] (Z.of_nat trades) (tradesTotal m)) as (t & Et & Ht1 & Ht2 & _); [done|lia|].
        exists t. split_and!; [done|congruence|]. intros l. rewrite Ht2, (Hyes c_trades l [symbol] (Z.of_nat trades)) by (unfold c_trades; by rewrite Etr). done.
      - exists (tradesTotal m). split_and!; [done|done|]. intros l. rewrite (Hno c_trades) by (unfold c_trades; by rewrite Etr). lia. }
    destruct Ht as (t & -> & Ht1 & Ht2). cbn [mbind outcome_bind]. finish Hno Hyes.
    match goal with HS : forall l, l ∈ counter_series v <-> _ |- _ => rewrite HS end.
    split; [intros [->|]; [right|by left]|intros [|(o & n & ->%list_elem_of_singleton & [= <- _])]; auto].
    by eexists _, _; split; [apply list_elem_of_here|reflexivity].
  - use_counter. finish Hno Hyes.
  - use_counter. use_counter. finish Hno Hyes.
  - use_counter. finish Hno Hyes.
Qed.

(** Any number of them, from a fresh start. *)
Lemma observe_all_told os : forall m, shaped m -> exists m', observe_all os m = Ok m' /\ shaped m' /\ told m os m'.
Proof.
  induction os as [|o os IH]; intros m Hm; cbn [observe_all].
  { exists m. split_and!; [done|done|]. split; intros; rewrite ?Z.add_0_r; try done. split; [by left|]. intros [|(o & n & Ho & _)]; [done|by apply elem_of_nil in Ho]. }
  destruct (observe_told m o Hm) as (m1 & -> & Hm1 & T1). cbn [mbind outcome_bind].
  destruct (IH m1 Hm1) as (m2 & -> & Hm2 & T2). exists m2. split_and!; [done|done|].
  change (o :: os) with ([o] ++ os). split; intros l; rewrite ?tally_app.
  - rewrite (to_orders _ _ _ T2), (to_orders _ _ _ T1). lia.
  - rewrite (to_cancels _ _ _ T2), (to_cancels _ _ _ T1). lia.
  - rewrite (to_trades _ _ _ T2), (to_trades _ _ _ T1). lia.
  - rewrite (to_latency _ _ _ T2), (to_latency _ _ _ T1). lia.
  - rewrite (to_settled _ _ _ T2), (to_settled _ _ _ T1). lia.
  - rewrite (to_settle_latency _ _ _ T2), (to_settle_latency _ _ _ T1). lia.
  - rewrite (to_drops _ _ _ T2), (to_drops _ _ _ T1). lia.
  - rewrite (to_series _ _ _ T2), (to_series _ _ _ T1). setoid_rewrite elem_of_app. naive_solver.
Qed.
End Counting.

(** * The handlers *)

Section Handlers.
Context `{PayloadCodec}.
Context (now : Z -> Z) (ts : Z) (side_String type_String : Z -> string).

(** Feeds but the one published to keep their counts. *)
Lemma feed_set_feed symbol f sv other : feed other (set_feed symbol f sv) = if decide (other = symbol) then f else feed other sv.
Proof.
  unfold feed, set_feed. cbn [feeds]. destruct (decide (other = symbol)) as [->|Hne]; [by rewrite lookup_insert_eq|].
  by rewrite lookup_insert_ne by done.
Qed.

Lemma tally_replicate c n o l : tally c (concat (replicate n [o])) l = Z.of_nat n * amount l (c o).
Proof. induction n as [|n IH]; [done|]. cbn [replicate concat]. rewrite tally_app, IH. unfold tally. cbn [sumZ]. lia. Qed.

(** Publishing tells of drops, and of nothing else. *)
Definition only_drops (sv sv' : Server) (os : list observation) : Prop :=
  (forall symbol, tally c_drops os [symbol] = Z.of_nat (drops (feed symbol sv')) - Z.of_nat (drops (feed symbol sv))) /\
  Forall (fun o => exists symbol, o = OFeedDrop symbol) os.

Lemma publish_observed_spec pub : forall sv, let '(sv', os) := publish_observed true pub sv in
  sv' = foldl (fun sv st => onTrades st.1 st.2 sv) sv pub /\ only_drops sv sv' os.
Proof.
  induction pub as [|[symbol trades] pub IH]; intros sv; cbn [publish_observed foldl]; [split; [done|split; [intros symbol; unfold tally; simpl; lia|constructor]]|].
  unfold onTrades_observed. cbn [tell fst snd]. specialize (IH (onTrades symbol trades sv)).
  destruct (publish_observed true pub (onTrades symbol trades sv)) as [sv' os]. destruct IH as [-> [Hd Hf]]. split; [done|].
  unfold onTrades in *. set (f' := publish symbol trades (feed symbol sv)) in *.
  assert (Hge : (drops (feed symbol sv) <= drops f')%nat) by (unfold f', publish; simpl; lia). split.
  - intros other. rewrite tally_app, tally_replicate, Hd, !feed_set_feed. cbn [c_drops amount].
    rewrite decide_True by done. destruct (decide (other = symbol)) as [->|Hne].
    + rewrite decide_True by done. lia.
    + rewrite (decide_False (P := [other] = [symbol])) by congruence. lia.
  - apply Forall_app. split; [|done]. generalize (drops (feed symbol (set_feed symbol f' sv)) - drops (feed symbol sv))%nat.
    intros n. induction n as [|n IH]; [constructor|]. constructor; [by exists symbol|exact IH].
Qed.

Lemma only_drops_refl sv : only_drops sv sv [].
Proof. split; [intros symbol; unfold tally; simpl; lia|constructor]. Qed.

(** Nothing but drops adds to no other family. *)
Lemma only_drops_quiet sv sv' os c l : only_drops sv sv' os -> (forall symbol, c (OFeedDrop symbol) = None) -> tally c os l = 0.
Proof.
  intros [_ Hf] Hc. unfold tally. induction Hf as [|o os [symbol ->] _ IH]; [done|]. cbn [sumZ]. by rewrite Hc, IH.
Qed.

Lemma do_request_observed_spec symbol f r sv sv' res : do_request now ts symbol f r sv = Ok (sv', res) ->
  exists os, do_request_observed now ts true symbol f r sv = Ok (sv', os, res) /\ only_drops sv sv' os.
Proof.
  assert (Hd : forall before after sv1 p, do_batch now ts symbol before after r sv = Ok (sv1, p) ->
    exists os, do_batch_observed now ts true symbol before after r sv = Ok (sv1, os, p) /\ only_drops sv sv1 os).
  { intros before after sv1 p. unfold do_batch_observed, do_batch.
    destruct (venue_commit _ _ _ _ _) as [[[st replies] pub]| |]; cbn [mbind outcome_bind]; try done.
    destruct (deref _) as [p1| |]; cbn [mbind outcome_bind]; try done. intros [= <- <-].
    pose proof (publish_observed_spec pub (set_venue st sv)) as Hp. destruct (publish_observed true pub _) as [sv2 os].
    destruct Hp as [-> Ho]. by exists os. }
  unfold do_request_observed, do_request. destruct f as [before after|e|before after e].
  - destruct (do_batch _ _ _ _ _ _ _) as [[sv1 p]| |] eqn:E; cbn [mbind outcome_bind]; try done. intros [= <- <-].
    destruct (Hd _ _ _ _ E) as (os & -> & Ho). by exists os.
  - intros [= <- <-]. exists []. split; [done|apply only_drops_refl].
  - destruct (do_batch _ _ _ _ _ _ _) as [[sv1 p]| |] eqn:E; cbn [mbind outcome_bind]; try done. intros [= <- <-].
    destruct (Hd _ _ _ _ E) as (os & -> & Ho). by exists os.
Qed.

(** The labels of one [PlaceOrder] call. *)
Definition order_labels (req : PlaceOrderRequest) (label : string) : list string :=
  [po_Symbol req; side_String (po_Side req); type_String (po_Type req); label].
Definition one (l l' : list string) : Z := if decide (l = l') then 1 else 0.

Lemma observed_order req label trades d sv sv' os os' : only_drops sv sv' os ->
  (forall o, o ∈ os' -> exists out d, o = OSettlement out d) ->
  let all := os ++ os' ++ observeOrder side_String type_String true req label trades d in
  (forall l, tally c_orders all l = one l (order_labels req label)) /\
  (forall l, tally c_latency all l = one l [po_Symbol req]) /\
  (forall symbol, tally c_drops all [symbol] = Z.of_nat (drops (feed symbol sv')) - Z.of_nat (drops (feed symbol sv))).
Proof.
  intros Ho Hs all. assert (Hq : forall (c : observation -> option (list string * Z)) l, (forall out d, c (OSettlement out d) = None) -> tally c os' l = 0).
  { intros c l Hc. unfold tally. clear - Hs Hc. induction os' as [|o os' IH]; [done|]. cbn [sumZ].
    destruct (Hs o (list_elem_of_here _ _)) as (out & d & ->). rewrite Hc, IH; [done|]. intros x Hx. apply Hs. by right. }
  unfold all, observeOrder, tell. split_and!; intros l; rewrite !tally_app, Hq by done.
  - rewrite (only_drops_quiet sv sv' os) by done. unfold tally, one, order_labels. cbn [sumZ c_orders amount]. lia.
  - rewrite (only_drops_quiet sv sv' os) by done. unfold tally, one. cbn [sumZ c_latency amount]. lia.
  - destruct Ho as [Hd _]. rewrite Hd. unfold tally. cbn [sumZ c_drops amount]. lia.
Qed.

(** Measuring an order changes nothing, and tells of it once. *)
Lemma PlaceOrder_observed_spec d settled_in f calls req sv sv' label res :
  PlaceOrder now ts f calls req sv = Ok (sv', label, res) ->
  exists os, PlaceOrder_observed now ts side_String type_String true d settled_in f calls req sv = Ok (sv', os, res) /\
    (forall l, tally c_orders os l = one l (order_labels req label)) /\
    (forall l, tally c_latency os l = one l [po_Symbol req]) /\
    (forall symbol, tally c_drops os [symbol] = Z.of_nat (drops (feed symbol sv')) - Z.of_nat (drops (feed symbol sv))).
Proof.
  unfold PlaceOrder_observed, PlaceOrder. destruct (orderFromRequest req) as [order|c].
  2:{ intros [= <- <- <-]. eexists. split; [reflexivity|].
      by apply (observed_order req "invalid" 0 d sv sv [] []); [apply only_drops_refl|intros o Ho%elem_of_nil]. }
  destruct (Get now (po_Symbol req) (sv_venue sv)) as [[st seq]| |]; cbn [mbind outcome_bind]; try done.
  destruct seq as [s|e].
  2:{ intros [= <- <- <-]. eexists. split; [reflexivity|].
      by apply (observed_order req "unavailable" 0 d sv (set_venue st sv) [] []); [exact (only_drops_refl sv)|intros o Ho%elem_of_nil]. }
  destruct (do_request _ _ _ _ _ _) as [[sv1 r1]| |] eqn:Ed; cbn [mbind outcome_bind]; try done.
  destruct (do_request_observed_spec _ _ _ _ _ _ Ed) as (os1 & -> & Ho). cbn [mbind outcome_bind].
  change (only_drops sv sv1 os1) in Ho. destruct (served submit_response r1) as [resp|e].
  2:{ intros [= <- <- <-]. eexists. split; [reflexivity|].
      by apply (observed_order req (submitOutcome e) 0 d sv sv1 os1 []); [|intros o Ho'%elem_of_nil]. }
  set (due := bool_decide _ && _). destruct (settle_trades calls (or_Trades resp) sv1) as [sv2 err] eqn:Es.
  assert (Hsame : forall symbol, feed symbol sv2 = feed symbol sv1).
  { intros symbol. unfold settle_trades in Es. destruct (sv_ledger sv1); [|by injection Es as <- _].
    case_bool_decide; [by injection Es as <- _|]. destruct (Settle _ _ _). by injection Es as <- _. }
  assert (Ho2 : only_drops sv sv2 os1) by (destruct Ho as [H1 H2]; split; [intros symbol; by rewrite H1, Hsame|done]).
  set (os2 := if due then _ else []). assert (Hos2 : forall o, o ∈ os2 -> exists out d, o = OSettlement out d).
  { intros o. unfold os2. destruct due; [|by intros Ho'%elem_of_nil]. intros ->%list_elem_of_singleton. by eexists _, _. }
  destruct err as [e|]; intros [= <- <- <-]; eexists; (split; [reflexivity|]); rewrite <- app_assoc; by apply observed_order.
Qed.

Lemma CancelOrder_observed_spec f symbol account orderID sv sv' label res :
  CancelOrder now ts f symbol account orderID sv = Ok (sv', label, res) ->
  exists os, CancelOrder_observed now ts true f symbol account orderID sv = Ok (sv', os, res) /\
    (forall l, tally c_orders os l = 0) /\ (forall l, tally c_latency os l = 0) /\
    (forall sy, tally c_drops os [sy] = Z.of_nat (drops (feed sy sv')) - Z.of_nat (drops (feed sy sv))).
Proof.
  assert (Hnone : forall sv1, (forall sy, feed sy sv1 = feed sy sv) -> (forall l, tally c_orders [] l = 0) /\ (forall l, tally c_latency [] l = 0) /\
    (forall sy, tally c_drops [] [sy] = Z.of_nat (drops (feed sy sv1)) - Z.of_nat (drops (feed sy sv)))).
  { intros sv1 Hs. split_and!; [done|done|]. intros sy. rewrite Hs. unfold tally. simpl. lia. }
  unfold CancelOrder_observed, CancelOrder.
  destruct (validateSymbol symbol); [|intros [= <- <- <-]; eexists; split; [reflexivity|by apply Hnone]].
  destruct (validateAccountID account) as [acc|]; [|intros [= <- <- <-]; eexists; split; [reflexivity|by apply Hnone]].
  destruct (orderID <=? 0); [intros [= <- <- <-]; eexists; split; [reflexivity|by apply Hnone]|].
  destruct (Get now symbol (sv_venue sv)) as [[st [s|e]]| |]; cbn [mbind outcome_bind]; try done;
    [|intros [= <- <- <-]; eexists; split; [reflexivity|by apply Hnone]].
  destruct (do_request _ _ _ _ _ _) as [[sv1 r1]| |] eqn:Ed; cbn [mbind outcome_bind]; try done.
  destruct (do_request_observed_spec _ _ _ _ _ _ Ed) as (os1 & -> & Ho). cbn [mbind outcome_bind].
  assert (Ht : forall out, (forall l, tally c_orders (os1 ++ observeCancel true symbol out) l = 0) /\
    (forall l, tally c_latency (os1 ++ observeCancel true symbol out) l = 0) /\
    (forall sy, tally c_drops (os1 ++ observeCancel true symbol out) [sy] = Z.of_nat (drops (feed sy sv1)) - Z.of_nat (drops (feed sy sv)))).
  { intros out. split_and!; intros l; rewrite tally_app; [by rewrite (only_drops_quiet _ _ _ _ _ Ho)..|].
    destruct Ho as [H1 _]. rewrite H1. unfold tally. cbn. change (feed l (set_venue st sv)) with (feed l sv). lia. }
  destruct (served _ r1) as [pos|e]; intros [= <- <- <-]; eexists; (split; [reflexivity|]); apply Ht.
Qed.
End Handlers.

(** * A run of the server *)

Inductive api_call :=
| CallPlace (d settled_in : Z) (f : fate) (calls : list DbRes) (req : PlaceOrderRequest)
| CallCancel (f : fate) (symbol account : string) (orderID : Z)
| CallStream (symbol : string)
| CallNext (symbol : string) (id : Z)
| CallHangUp (symbol : string) (id : Z).

Section Run.
Context `{PayloadCodec}.
Context (now : Z -> Z) (ts : Z) (side_String type_String : Z -> string).

(** The server without an observer, with the outcome of a [PlaceOrder]. *)
Definition serve (c : api_call) (sv : Server) : outcome (Server * list (PlaceOrderRequest * string)) :=
  match c with
  | CallPlace _ _ f calls req => '(sv, label, _) ← PlaceOrder now ts f calls req sv; Ok (sv, [(req, label)])
  | CallCancel f symbol account orderID => '(sv, _, _) ← CancelOrder now ts f symbol account orderID sv; Ok (sv, [])
  | CallStream symbol => '(sv, _) ← StreamTrades_open now symbol sv; Ok (sv, [])
  | CallNext symbol id => Ok ((StreamTrades_turn symbol id sv).1, [])
  | CallHangUp symbol id => Ok (StreamTrades_close symbol id sv, [])
  end.
Fixpoint serve_all (cs : list api_call) (sv : Server) : outcome (Server * list (PlaceOrderRequest * string)) :=
  match cs with
  | [] => Ok (sv, [])
  | c :: cs => '(sv, a) ← serve c sv; '(sv, as_) ← serve_all cs sv; Ok (sv, a ++ as_)
  end.

(** The server with one, and what it was told. *)
Definition serve_observed (c : api_call) (sv : Server) : outcome (Server * list observation) :=
  match c with
  | CallPlace d settled_in f calls req =>
      '(sv, os, _) ← PlaceOrder_observed now ts side_String type_String true d settled_in f calls req sv; Ok (sv, os)
  | CallCancel f symbol account orderID => '(sv, os, _) ← CancelOrder_observed now ts true f symbol account orderID sv; Ok (sv, os)
  | _ => '(sv, _) ← serve c sv; Ok (sv, [])
  end.
Fixpoint serve_all_observed (cs : list api_call) (sv : Server) : outcome (Server * list observation) :=
  match cs with
  | [] => Ok (sv, [])
  | c :: cs => '(sv, os) ← serve_observed c sv; '(sv, os') ← serve_all_observed cs sv; Ok (sv, os ++ os')
  end.

(** How many of the answers have these labels, and how many are about a symbol. *)
Definition answered (l : list string) (as_ : list (PlaceOrderRequest * string)) : Z :=
  sumZ (fun a => one l (order_labels side_String type_String a.1 a.2)) as_.
Definition timed (l : list string) (as_ : list (PlaceOrderRequest * string)) : Z := sumZ (fun a => one l [po_Symbol a.1]) as_.

(** Streaming drops nothing. *)
Lemma stream_drops c sv sv' as_ : (match c with CallPlace _ _ _ _ _ | CallCancel _ _ _ _ => False | _ => True end) ->
  serve c sv = Ok (sv', as_) -> as_ = [] /\ forall symbol, drops (feed symbol sv') = drops (feed symbol sv).
Proof.
  assert (Hset : forall symbol f sv, drops f = drops (feed symbol sv) -> forall other, drops (feed other (set_feed symbol f sv)) = drops (feed other sv)).
  { intros symbol f sv0 Hf other. rewrite feed_set_feed. by case_decide; subst. }
  destruct c as [| |symbol|symbol id|symbol id]; cbn [serve]; [done|done|..]; intros _.
  - unfold StreamTrades_open. destruct (validateSymbol symbol); [|by intros [= <- <-]].
    destruct (subscribe (feed symbol sv)) as [f id] eqn:Es. assert (Hf : drops f = drops (feed symbol sv)) by (unfold subscribe in Es; by injection Es as <- _).
    destruct (Get _ _ _) as [[st [s|e]]| |]; cbn [mbind outcome_bind]; try done; intros [= <- <-]; (split; [done|]); intros other.
    + change (feed other (set_venue st (set_feed symbol f sv))) with (feed other (set_feed symbol f sv)). by apply Hset.
    + rewrite Hset; [|done]. change (feed other (set_venue st (set_feed symbol f sv))) with (feed other (set_feed symbol f sv)). by apply Hset.
  - intros [= <- <-]. split; [done|]. unfold StreamTrades_turn. destruct (receive id (feed symbol sv)) as [f b] eqn:Er. cbn [fst].
    apply Hset. unfold receive in Er. repeat case_match; by injection Er as <- _.
  - intros [= <- <-]. split; [done|]. unfold StreamTrades_close. by apply Hset.
Qed.

Lemma serve_told c sv sv' as_ : serve c sv = Ok (sv', as_) -> exists os, serve_observed c sv = Ok (sv', os) /\
  (forall l, tally c_orders os l = answered l as_) /\ (forall l, tally c_latency os l = timed l as_) /\
  (forall symbol, tally c_drops os [symbol] = Z.of_nat (drops (feed symbol sv')) - Z.of_nat (drops (feed symbol sv))).
Proof.
  intros Hs. assert (Hq : (match c with CallPlace _ _ _ _ _ | CallCancel _ _ _ _ => False | _ => True end) -> exists os,
    ('(sv, _) ← serve c sv; Ok (sv, [])) = Ok (sv', os) /\
    (forall l, tally c_orders os l = answered l as_) /\ (forall l, tally c_latency os l = timed l as_) /\
    (forall symbol, tally c_drops os [symbol] = Z.of_nat (drops (feed symbol sv')) - Z.of_nat (drops (feed symbol sv)))).
  { intros Hc. destruct (stream_drops c sv sv' as_ Hc Hs) as [-> Hd]. rewrite Hs. cbn [mbind outcome_bind]. exists [].
    split_and!; [done|done|done|]. intros symbol. rewrite Hd. unfold tally. simpl. lia. }
  destruct c as [d settled_in f calls req|f symbol account orderID| | |]; cbn [serve_observed]; try by apply Hq.
  - cbn [serve] in Hs. destruct (PlaceOrder _ _ _ _ _ _) as [[[sv1 label] res]| |] eqn:E; cbn [mbind outcome_bind] in Hs; try done.
    injection Hs as <- <-. destruct (PlaceOrder_observed_spec now ts side_String type_String d settled_in _ _ _ _ _ _ _ E) as (os & -> & H1 & H2 & H3).
    cbn [mbind outcome_bind]. exists os. unfold answered, timed. cbn [sumZ fst snd]. split_and!; try done; intros l; by rewrite ?H1, ?H2, Z.add_0_r.
  - cbn [serve] in Hs. destruct (CancelOrder _ _ _ _ _ _ _) as [[[sv1 label] res]| |] eqn:E; cbn [mbind outcome_bind] in Hs; try done.
    injection Hs as <- <-. destruct (CancelOrder_observed_spec now ts _ _ _ _ _ _ _ _ E) as (os & -> & H1 & H2 & H3).
    cbn [mbind outcome_bind]. by exists os.
Qed.

Lemma serve_all_told cs : forall sv sv' as_, serve_all cs sv = Ok (sv', as_) -> exists os, serve_all_observed cs sv = Ok (sv', os) /\
  (forall l, tally c_orders os l = answered l as_) /\ (forall l, tally c_latency os l = timed l as_) /\
  (forall symbol, tally c_drops os [symbol] = Z.of_nat (drops (feed symbol sv')) - Z.of_nat (drops (feed symbol sv))).
Proof.
  induction cs as [|c cs IH]; intros sv sv' as_; cbn [serve_all serve_all_observed].
  { intros [= <- <-]. exists []. split_and!; [done|done|done|]. intros symbol. unfold tally. simpl. lia. }
  destruct (serve c sv) as [[sv1 a1]| |] eqn:E1; cbn [mbind outcome_bind]; try done.
  destruct (serve_all cs sv1) as [[sv2 a2]| |] eqn:E2; cbn [mbind outcome_bind]; try done. intros [= <- <-].
  destruct (serve_told c sv sv1 a1 E1) as (os1 & -> & A1 & A2 & A3). cbn [mbind outcome_bind].
  destruct (IH sv1 sv2 a2 E2) as (os2 & -> & B1 & B2 & B3). cbn [mbind outcome_bind].
  exists (os1 ++ os2). unfold answered, timed in *. split_and!; [done|..]; intros l; rewrite tally_app.
  - by rewrite A1, B1, sumZ_app.
  - by rewrite A2, B2, sumZ_app.
  - rewrite A3, B3. lia.
Qed.
End Run.

(** * The request path *)

Section Counted.
Context `{PayloadCodec} {V HV : Type} `{!Counters V, !CounterLaws V, !Histograms HV, !HistogramLaws HV}.
Context (now : Z -> Z) (ts : Z) (side_String type_String : Z -> string).


(** A request no server takes, for the [i]th symbol. *)
Definition bogus (i : nat) : PlaceOrderRequest := mkPlaceOrder (pretty i) "" 0 0 0 0.

Lemma bogus_refused n sv : forall k, serve_all now ts ((fun i => CallPlace 0 0 (NotSent ErrCanceled) [] (bogus i)) <$> seq k n) sv
  = Ok (sv, (fun i => (bogus i, "invalid"%string)) <$> seq k n).
Proof.
  induction n as [|n IH]; intros k; [done|]. cbn [seq]. rewrite !fmap_cons. cbn [serve_all serve]. unfold PlaceOrder.
  assert (Hi : orderFromRequest (bogus k) = Fails InvalidArgument).
  { apply orderFromRequest_Fails. intros [_ [[H1 _] _] _ _ _]. cbn in H1. lia. }
  rewrite Hi. cbn [mbind outcome_bind]. rewrite (IH (S k)). done.
Qed.

(** A client can grow the metrics without bound. The outcome label is a small closed
    set, but the symbol is recorded as sent even when the request is refused for
    it: any number of requests, all of them refused and none of them touching the
    server, leaves as many time series behind. *)
Theorem series_unbounded sv n : exists cs answers os (m : Metrics V HV) (ls : list (list string)), length cs = n /\
  serve_all now ts cs sv = Ok (sv, answers) /\ Forall (fun a => a.2 = "invalid"%string) answers /\
  serve_all_observed now ts side_String type_String cs sv = Ok (sv, os) /\ observe_all os NewMetrics = Ok m /\
  length ls = n /\ NoDup ls /\ ls ⊆ counter_series (ordersTotal m).
Proof.
  set (cs := (fun i => CallPlace 0 0 (NotSent ErrCanceled) [] (bogus i)) <$> seq 0 n).
  pose proof (bogus_refused n sv 0) as Hs. fold cs in Hs.
  destruct (serve_all_told now ts side_String type_String cs sv sv _ Hs) as (os & Ho & H1 & _).
  destruct (observe_all_told (V := V) (HV := HV) os NewMetrics NewMetrics_shaped) as (m & Hm & _ & T).
  set (label := fun i : nat => order_labels side_String type_String (bogus i) "invalid").
  exists cs, ((fun i => (bogus i, "invalid"%string)) <$> seq 0 n), os, m, (label <$> seq 0 n). split_and!; try done.
  - unfold cs. by rewrite length_fmap, length_seq.
  - apply Forall_fmap, Forall_forall. done.
  - by rewrite length_fmap, length_seq.
  - apply NoDup_fmap_2; [|apply NoDup_seq]. intros i j [= Hij]. by apply (inj pretty) in Hij.
  - intros l (i & -> & Hi)%list_elem_of_fmap. rewrite (to_series _ _ _ T). right.
    assert (Hpos : tally c_orders os (label i) <> 0).
    { rewrite H1. unfold answered. rewrite sumZ_fmap. cbn [fst snd]. fold label.
      assert (Hge : forall ks, i ∈ ks -> 0 < sumZ (fun k => one (label i) (label k)) ks); [|specialize (Hge _ Hi); unfold label in *; lia].
      assert (Hnn : forall ks, 0 <= sumZ (fun k => one (label i) (label k)) ks)
        by (intros ks; apply sumZ_nonneg; intros k _; unfold one; case_decide; lia).
      intros ks. induction ks as [|k ks IH]; [by intros ?%elem_of_nil|]. intros [<-|Hk]%elem_of_cons; cbn [sumZ].
      - specialize (Hnn ks). unfold one at 1. rewrite decide_True by done. lia.
      - specialize (IH Hk). unfold one at 1. case_decide; lia. }
    clear - Hpos. unfold tally in Hpos. induction os as [|o os IH]; [done|]. cbn [sumZ] in Hpos.
    destruct (decide (amount (label i) (c_orders o) = 0)) as [E|E].
    + destruct IH as (o' & x & Ho & Hx); [lia|]. exists o', x. split; [by right|done].
    + exists o. unfold amount in E. destruct (c_orders o) as [[l' x]|] eqn:Ec; [|done]. case_decide as Hd; [|done]. subst l'.
      exists x. split; [apply list_elem_of_here|done].
Qed.
End Counted.

(** * The scrape *)

Section Scrape.
Context `{CodecLaws}.

(** What a sequencer's gauges say: nothing before its first commit, then the truth. *)
Definition gauges_blank (s : Sequencer Writer) : Prop := sq_commits s = 0 /\ sq_batched s = 0 /\ sq_resting s = 0 /\ sq_lastPos s = 0.
Definition gauges_true (s : Sequencer Writer) : Prop := sq_resting s = Z.of_nat (RestingCount (sq_book s)) /\ sq_lastPos s = sq_seq s.

Lemma running_gauges (s : Sequencer Writer) : running s -> gauges_blank s \/ gauges_true s.
Proof.
  induction 1 as [now w b symbol accounts onTrades|now ts batch s a s' st ps Hr _ Hb Hc]; [by left|right].
  pose proof (commit_spec now ts batch s a (running_ok s Hr) Hb) as Hs. destruct (prepared _ _ _) as [[b1 a1] next].
  destruct (log_phase _ _ _) as [[[b2 seq] wal] we]. destruct Hs as (st1 & ps1 & s1 & _ & Hc1 & _ & _ & _ & Hq & _ & _ & _ & Hl & Hrs & _).
  rewrite Hc in Hc1. injection Hc1 as <- <- <-. split; [done|congruence].
Qed.

Lemma collect_open now symbols st : consistent st -> (forall symbol, symbol ∈ symbols -> is_Some (seqs (registry st) !! symbol)) ->
  collect_symbols now symbols st = Ok (st, symbols ≫= fun symbol =>
    match seqs (registry st) !! symbol with Some s => symbol_metrics symbol s | None => [] end).
Proof.
  intros Hc. induction symbols as [|symbol symbols IH]; intros Hin; cbn [collect_symbols]; [done|].
  destruct (Hin symbol (list_elem_of_here _ _)) as [s Hs]. destruct (co_open _ Hc symbol s Hs) as (Hv & _ & _).
  unfold Get, Get_with. rewrite Hv, Hs. cbn [negb mbind outcome_bind]. rewrite IH by (intros y Hy; apply Hin; by right).
  cbn [mbind outcome_bind]. rewrite bind_cons, Hs. done.
Qed.

(** A scrape without replication reads every open symbol. *)
Lemma Collect_spec now clock st : consistent st -> exists ms, Collect now clock None st = Ok (st, ms) /\
  forall mt, mt ∈ ms <-> exists symbol s, seqs (registry st) !! symbol = Some s /\ mt ∈ symbol_metrics symbol s.
Proof.
  intros Hc. unfold Collect.
  assert (Hin : forall symbol, symbol ∈ Symbols st <-> is_Some (seqs (registry st) !! symbol)).
  { intros symbol. unfold Symbols. rewrite list_elem_of_fmap. split.
    - intros ([sy s] & -> & Hs%elem_of_map_to_list). by exists s.
    - intros [s Hs]. exists (symbol, s). split; [done|]. by apply elem_of_map_to_list. }
  rewrite (collect_open now _ st Hc) by (intros symbol; apply Hin). cbn [mbind outcome_bind]. eexists. split; [reflexivity|].
  intros mt. rewrite list_elem_of_bind. split.
  - intros (symbol & Hmt & Hsy). destruct (seqs (registry st) !! symbol) as [s|] eqn:E; [by exists symbol, s|by apply elem_of_nil in Hmt].
  - intros (symbol & s & Hs & Hmt). exists symbol. rewrite Hs. split; [done|]. apply Hin. by exists s.
Qed.

(** A scrape's gauges and counters, by name and symbol. *)
Definition gauge_reads (ms : list Metric) (d : desc) (symbol : string) (n : Z) : Prop := mkMetric d GaugeValue n symbol ∈ ms.
Definition counter_reads (ms : list Metric) (d : desc) (symbol : string) (n : Z) : Prop := mkMetric d CounterValue n symbol ∈ ms.

(** A scrape tells the truth about the symbols in use. It returns, changes nothing,
    and reports, for each open symbol, the commits and requests counted and, once it
    has committed anything since it was opened, the orders resting in its book and
    its log position; every metric is described and about an open symbol. *)
Theorem scrape_reads_venue now clock st : venue_reachable st -> exists ms, Collect now clock None st = Ok (st, ms) /\
  (forall mt, mt ∈ ms -> mt_desc mt ∈ Describe /\ is_Some (seqs (registry st) !! mt_symbol mt)) /\
  forall symbol s, seqs (registry st) !! symbol = Some s ->
    counter_reads ms descCommits symbol (sq_commits s) /\ counter_reads ms descBatched symbol (sq_batched s) /\
    (sq_commits s <> 0 ->
       gauge_reads ms descResting symbol (Z.of_nat (RestingCount (sq_book s))) /\
       gauge_reads ms descLogPosition symbol (sq_seq s)).
Proof.
  intros Hr. pose proof (venue_reachable_consistent st Hr) as Hc. destruct (Collect_spec now clock st Hc) as (ms & -> & Hms).
  exists ms. split_and!; [done| |].
  - intros mt (symbol & s & Hs & Hmt)%Hms. cbn in Hmt. rewrite !elem_of_cons in Hmt.
    destruct Hmt as [->|[->|[->|[->|Hn]]]]; [..|by apply elem_of_nil in Hn]; cbn [mt_desc mt_symbol];
      (split; [apply (bool_decide_unpack _); vm_compute; exact I|by exists s]).
  - intros symbol s Hs. destruct (co_open _ Hc symbol s Hs) as (_ & _ & Hat).
    assert (Hin : forall mt, mt ∈ symbol_metrics symbol s -> mt ∈ ms) by (intros mt Hmt; apply Hms; by exists symbol, s).
    split_and!; [apply Hin; cbn; set_solver..|]. intros Hn.
    destruct (running_gauges s (at_running _ _ Hat)) as [[Hz _]|[H1 H2]]; [done|]. rewrite <- H1, <- H2.
    split; apply Hin; cbn; set_solver.
Qed.

(** A symbol just opened has blank gauges. *)
Lemma Get_gauges now symbol st st' s : seqs (registry st) !! symbol = None -> Get now symbol st = Ok (st', Good s) -> gauges_blank s.
Proof.
  intros Hn. unfold Get, Get_with, create, id. rewrite Hn. destruct (negb _); [done|]. destruct (_ <=? _)%nat; [done|].
  unfold newSequencer, registry_attach. case_bool_decide; cbn [mbind outcome_bind]; [by intros [= _ <-]|].
  destruct (Recover _ _ _ _) as [[[b l] [e|]]| |]; cbn [mbind outcome_bind]; try done.
  destruct (OpenWriter _) as [d [w|e]]; cbn [mbind outcome_bind]; try done. by intros [= _ <-].
Qed.

(** A restart blanks the gauges. A symbol that had no write failure is opened again
    after a crash with its book and its position; until its first batch, a scrape
    reports it as empty and at position 0, whatever rests in it and however long
    its log is. *)
Theorem restart_blanks_gauges now clock st symbol s w st0 : venue_reachable st ->
  seqs (registry st) !! symbol = Some s -> sq_wal s = Some w -> sq_walErr s = None ->
  fresh_state st0 -> crashed (wr_dir w) (dir_at symbol st0) -> script (dir_at symbol st0) = [] ->
  exists st1 s1 ms, Get now symbol st0 = Ok (st1, Good s1) /\ sq_book s1 = sq_book s /\ sq_seq s1 = sq_seq s /\
    Collect now clock None st1 = Ok (st1, ms) /\
    gauge_reads ms descResting symbol 0 /\ gauge_reads ms descLogPosition symbol 0 /\
    (forall n, gauge_reads ms descResting symbol n -> n = 0) /\
    (forall n, gauge_reads ms descLogPosition symbol n -> n = 0).
Proof.
  intros Hr Hs Hw He Hf Hcr Hsc. pose proof (venue_reachable_consistent st Hr) as Hc.
  destruct (reopen_symbol now st symbol s w st0 Hc Hs Hw He Hf Hcr Hsc) as (st1 & s1 & Hg & _ & Hb & Hq & _).
  assert (Hn : seqs (registry st0) !! symbol = None) by (destruct Hf as (-> & _); apply lookup_empty).
  destruct (Get_consistent now symbol st0 (fresh_consistent st0 Hf)) as (st2 & r2 & Hg2 & Hc2 & _ & _ & Hres).
  { intros _. right. destruct (co_open _ Hc symbol s Hs) as (_ & Hsy & Hat). exists s, w, (accounts st). by split_and!. }
  rewrite Hg in Hg2. injection Hg2 as <- <-. destruct Hres as (Hseqs & _).
  assert (Hs1 : seqs (registry st1) !! symbol = Some s1) by (by rewrite Hseqs, lookup_insert_eq).
  destruct (Get_gauges now symbol st0 st1 s1 Hn Hg) as (_ & _ & Hz1 & Hz2).
  destruct (Collect_spec now clock st1 Hc2) as (ms & Hcol & Hms). exists st1, s1, ms.
  assert (Honly : forall d v n, mkMetric d v n symbol ∈ ms -> mkMetric d v n symbol ∈ symbol_metrics symbol s1).
  { intros d v n (sy & s2 & Hs2 & Hmt)%Hms. assert (sy = symbol) as ->.
    { cbn in Hmt. rewrite !elem_of_cons in Hmt. destruct Hmt as [E|[E|[E|[E|Hx]]]]; [by injection E as _ _ _ <-..|by apply elem_of_nil in Hx]. }
    congruence. }
  split_and!; try done.
  - apply Hms. exists symbol, s1. split; [done|]. cbn. rewrite Hz1. set_solver.
  - apply Hms. exists symbol, s1. split; [done|]. cbn. rewrite Hz2. set_solver.
  - intros n Hin%Honly. cbn in Hin. rewrite !elem_of_cons in Hin. destruct Hin as [E|[E|[E|[E|Hx]]]]; [by injection E as ->|done..|by apply elem_of_nil in Hx].
  - intros n Hin%Honly. cbn in Hin. rewrite !elem_of_cons in Hin. destruct Hin as [E|[E|[E|[E|Hx]]]]; [done|by injection E as ->|done..|by apply elem_of_nil in Hx].
Qed.
End Scrape.

(** * Prometheus, for the witnesses *)

Module PromDemo.
(** A family that keeps its values in a map. *)
Definition family : Type := nat * gmap (list string) Z.
Definition add_to (labels : list string) (n : Z) (v : family) : outcome family :=
  if decide (length labels = v.1) then Ok (v.1, <[labels := default 0 (v.2 !! labels) + n]> v.2) else Panic.

#[global] Instance demo_counters : Counters family := {
  NewCounterVec names := (length names, ∅);
  counter_add := add_to;
  counter_arity v := v.1;
  counter_value labels v := default 0 (v.2 !! labels);
  counter_series v := (map_to_list v.2).*1
}.
#[global] Instance demo_histograms : Histograms family := {
  NewHistogramVec names := (length names, ∅);
  histogram_observe labels _ v := add_to labels 1 v;
  histogram_arity v := v.1;
  histogram_count labels v := default 0 (v.2 !! labels)
}.

Lemma add_to_value labels n (v : family) l :
  default 0 (<[labels := default 0 (v.2 !! labels) + n]> v.2 !! l) = default 0 (v.2 !! l) + (if decide (l = labels) then n else 0).
Proof. case_decide as E; [subst; by rewrite lookup_insert_eq|]. rewrite lookup_insert_ne by done. lia. Qed.

#[global] Instance demo_counter_laws : CounterLaws family.
Proof.
  split.
  - intros names. split_and!; [done| |]; cbn; [by rewrite map_to_list_empty|]. intros labels. by rewrite lookup_empty.
  - intros labels n v Hl _. cbn in Hl |- *. unfold add_to. rewrite decide_True by done. eexists. split_and!; [reflexivity|done| | |].
    + intros l. apply add_to_value.
    + intros l. cbn [snd]. rewrite !list_elem_of_fmap. split.
      * intros ([k x] & -> & Hx). cbn [fst]. apply elem_of_map_to_list, lookup_insert_Some in Hx as [[<- _]|[Hne Hx]]; [by left|right].
        exists (k, x). split; [done|]. by apply elem_of_map_to_list.
      * intros [->|([k x] & -> & Hx%elem_of_map_to_list)]; [eexists (labels, _); split; [done|]; apply elem_of_map_to_list, lookup_insert_eq|].
        cbn [fst]. destruct (decide (k = labels)) as [->|Hne]; [eexists (labels, _)|exists (k, x)]; (split; [done|]); apply elem_of_map_to_list;
          [apply lookup_insert_eq|by rewrite lookup_insert_ne].
    + intros _. apply NoDup_fst_map_to_list.
Qed.
#[global] Instance demo_histogram_laws : HistogramLaws family.
Proof.
  split.
  - intros names. split; [done|]. intros labels. cbn. by rewrite lookup_empty.
  - intros labels d v Hl. cbn in Hl |- *. unfold add_to. rewrite decide_True by done. eexists. split_and!; [reflexivity|done|].
    intros l. apply add_to_value.
Qed.
End PromDemo.

(** * Witnesses *)

Module ObserverDemo.
Import StoreDemo PromDemo.
Definition name_of (n : Z) : string := pretty n.
(** "bob"'s sale waits in the sequencer; "ann" buys 3 of it, and somebody asks for nonsense. *)
Definition sv0 : Server := mkServer RegistryDemo.st1 (Some ∅) ∅.
Definition cs : list api_call :=
  [CallStream "NABIL"; CallPlace 40 30 (Served [submit_request (requested TypedDemo.sale)] []) [] TypedDemo.purchase;
   CallPlace 1 0 (NotSent ErrCanceled) [] (bogus 7)].
Definition served_all := serve_all id 7 cs sv0.
Definition sv1 : Server := match served_all with Ok (sv, _) => sv | _ => sv0 end.
Definition answers : list (PlaceOrderRequest * string) := [(TypedDemo.purchase, "accepted"%string); (bogus 7, "invalid"%string)].

Lemma served_ok : exists sv as_, served_all = Ok (sv, as_) /\ as_ = answers.
Proof.
  destruct served_all as [[sv as_]| |] eqn:E; [exists sv, as_; split; [reflexivity|]|exfalso..];
    (apply (f_equal (fun r => match r with Ok (_, l) => Some l | _ => None end)) in E; vm_compute in E).
  - injection E as E. rewrite <- E. vm_compute. reflexivity.
  - discriminate E.
  - discriminate E.
Qed.
End ObserverDemo.


Lemma scrape_reads_venue_witness : exists ms, Collect id 0 None RegistryDemo.st2 = Ok (RegistryDemo.st2, ms) /\
  counter_reads ms descCommits "NABIL" 1.
Proof.
  destruct RegistryDemo.st2_reachable as (Hr & Hq & _).
  destruct (scrape_reads_venue id 0 RegistryDemo.st2 Hr) as (ms & Hc & _ & Hs). exists ms. split; [exact Hc|].
  destruct (Hs "NABIL"%string RegistryDemo.q2 Hq) as (H1 & _).
  assert (E : sq_commits RegistryDemo.q2 = 1) by (vm_compute; reflexivity). rewrite E in H1. exact H1.
Defined.

(** Two orders were logged and 2 shares still rest. *)
Lemma restart_blanks_gauges_witness : exists st1 s1 ms, Get id "NABIL" RegistryDemo.st3 = Ok (st1, Good s1) /\
  sq_book s1 = sq_book RegistryDemo.q2 /\ RestingCount (sq_book RegistryDemo.q2) = 1%nat /\ sq_seq RegistryDemo.q2 = 2 /\
  Collect id 0 None st1 = Ok (st1, ms) /\ gauge_reads ms descResting "NABIL" 0.
Proof.
  destruct RegistryDemo.st2_reachable as (Hr & Hq & Hw & He & _).
  destruct (restart_blanks_gauges id 0 RegistryDemo.st2 "NABIL" RegistryDemo.q2 RegistryDemo.w2 RegistryDemo.st3 Hr Hq Hw He
    (RegistryDemo.fresh_venue _) ltac:(unfold dir_at; cbn [RegistryDemo.st3 RegistryDemo.empty_venue Registry.disk];
      rewrite lookup_singleton_eq; apply WalDemo.crashed_refl) ltac:(vm_compute; reflexivity))
    as (st1 & s1 & ms & H1 & H2 & _ & H3 & H4 & _).
  exists st1, s1, ms. split; [exact H1|]. split; [exact H2|]. split; [vm_compute; reflexivity|]. split; [vm_compute; reflexivity|].
  split; [exact H3|exact H4].
Defined.

(** A hundred nonsense orders, a hundred series. *)
Lemma series_unbounded_witness : exists os (m : Metrics PromDemo.family PromDemo.family) (ls : list (list string)),
  observe_all os NewMetrics = Ok m /\ length ls = 100%nat /\ NoDup ls /\ ls ⊆ counter_series (ordersTotal m).
Proof.
  destruct (series_unbounded (V := PromDemo.family) (HV := PromDemo.family) id 7 ObserverDemo.name_of ObserverDemo.name_of ObserverDemo.sv0 100)
    as (cs & answers & os & m & ls & _ & _ & _ & _ & Hm & Hl & Hn & Hs).
  exists os, m, ls. split; [exact Hm|]. split; [exact Hl|]. split; [exact Hn|exact Hs].
Defined.
