(* ===== verification/Handlers.v ===== *)
(** Many callers at once, from [src/internal/api/server.go] and
    [src/internal/oms/sequencer.go].

    A gRPC call runs in a goroutine of its own, so between the steps of one handler
    those of others happen. A call is a [stage] in a table: its request waits in the
    sequencer's channel, perhaps after its caller has gone, and then [PlaceOrder] has
    the reply and must still settle. Here are the steps of the handlers and of a
    symbol's sequencer as functions on that table; [HandlersProps] interleaves them. *)

From Stdlib Require Import ZArith Lia Ascii String.
From stdpp Require Import base gmap list strings.
From S2P Require Import Prelude Types Book Accounts WalRecord Sequencer Bytes WalFormat Wal Registry Status Messages Ledger Feed Server.

Open Scope Z_scope.

Inductive stage :=
| Waiting (symbol : string) (r : request)
| Left (symbol : string) (r : request)
| Settling (resp : OrderResponse).

Record Calls := mkCalls { cl_server : Server; cl_stages : gmap nat stage }.

(** The request a call has in the channel of [symbol]. *)
Definition queued (symbol : string) (s : stage) : option request :=
  match s with
  | Waiting sy r | Left sy r => if bool_decide (sy = symbol) then Some r else None
  | Settling _ => None
  end.

(** The trades a call has still to settle. *)
Definition holding (s : stage) : list Trade :=
  match s with Settling resp => or_Trades resp | _ => [] end.
Definition held (hs : gmap nat stage) : list Trade := map_to_list hs ≫= fun p => holding p.2.

Section Handlers.
Context `{PayloadCodec}.
Context (now : Z -> Z).

(** [PlaceOrder] up to [seq.Submit]: the request it sends, or the label and code of its error. *)
Definition place_begin (req : PlaceOrderRequest) (sv : Server)
    : outcome (Server * result (string * grpc_code) request) :=
  match orderFromRequest req with
  | Fails c => Ok (sv, Fails ("invalid"%string, c))
  | Good order =>
      '(st, seq) ← Get now (po_Symbol req) (sv_venue sv);
      Ok (set_venue st sv, match seq with
                           | Fails e => Fails ("unavailable"%string, registryError e)
                           | Good _ => Good (submit_request order)
                           end)
  end.

(** [CancelOrder] up to [seq.CancelFor]. *)
Definition cancel_begin (symbol account : string) (orderID : Z) (sv : Server)
    : outcome (Server * result grpc_code request) :=
  match (_ ← validateSymbol symbol; validateAccountID account) with
  | Fails c => Ok (sv, Fails c)
  | Good account =>
      if orderID <=? 0 then Ok (sv, Fails InvalidArgument) else
      '(st, seq) ← Get now symbol (sv_venue sv);
      Ok (set_venue st sv, match seq with
                           | Fails e => Fails (registryError e)
                           | Good _ => Good (cancelFor_request orderID account)
                           end)
  end.

(** What [PlaceOrder] makes of the reply, and its settlement. *)
Definition place_settle (calls : list DbRes) (resp : OrderResponse) (sv : Server)
    : Server * string * result grpc_code PlaceOrderResponse :=
  match settle_trades calls (or_Trades resp) sv with
  | (sv, Some _) => (sv, "unsettled"%string, Fails Internal)
  | (sv, None) =>
      (sv, "accepted"%string,
       Good (mkPlaced (wrap64 (or_OrderID resp)) (or_Seq resp) (tradesToPB (or_Trades resp))
               (or_RestingQuantity resp) (seqIDsToInt64 (or_SelfPrevented resp))))
  end.

(** A reply reaches its call: [PlaceOrder] goes on to settle an accepted order, the
    other calls answer, and nobody hears the reply of a call that was left. *)
Definition deliver (hs : gmap nat stage) (d : nat * reply) : gmap nat stage :=
  match hs !! d.1 with
  | Some (Waiting _ r) =>
      match r_kind r, submit_response d.2 with
      | reqSubmit, Good resp => <[d.1 := Settling resp]> hs
      | _, _ => delete d.1 hs
      end
  | Some (Left _ _) => delete d.1 hs
  | _ => hs
  end.
Definition unheard (hs : gmap nat stage) (d : nat * reply) : list Trade :=
  match hs !! d.1 with Some (Left _ _) => p_trades d.2 | _ => [] end.

(** The requests of the calls [ids], if all of them wait for [symbol]. *)
Fixpoint requests_of (symbol : string) (hs : gmap nat stage) (ids : list nat) : option (list request) :=
  match ids with
  | [] => Some []
  | i :: ids =>
      match hs !! i ≫= queued symbol, requests_of symbol hs ids with
      | Some r, Some rs => Some (r :: rs)
      | _, _ => None
      end
  end.

(** One batch: commit, publish, reply. *)
Definition commit_calls (ts : Z) (symbol : string) (ids : list nat) (batch : list request) (c : Calls)
    : outcome (Calls * list Trade * list Trade) :=
  '(st, ps, pub) ← venue_commit now ts symbol batch (sv_venue (cl_server c));
  let sv := foldl (fun sv st => onTrades st.1 st.2 sv) (set_venue st (cl_server c)) pub in
  Ok (mkCalls sv (foldl deliver (cl_stages c) (zip ids ps)), concat (p_trades <$> ps),
      zip ids ps ≫= unheard (cl_stages c)).
End Handlers.
