(* ===== verification/HandlersProps.v ===== *)
(** Where the executed trades are while calls come and go: journalled once, about to
    be settled, or lost to the ledger for one of two reasons. *)

From Stdlib Require Import ZArith Lia Ascii String.
From stdpp Require Import base gmap list strings sorting.
From S2P Require Import Prelude Types Book BookInv BookSpec BookRefine BookProps.
From S2P Require Import Accounts AccountsInv AccountsSolv AccountsProps WalRecord Sequencer SeqFacts SeqProps.
From S2P Require Import VenueFacts Venue VenueProps Bytes WalFormat SegNames Wal WalDir WalLaw WalStep WalRecover WalProps.
From S2P Require Import Registry RegistryFacts RegistryProps VenueFlow Status Messages Ledger LedgerFacts Feed Server ServerFacts ServerProps.
From S2P Require Import Typed TypedVenue Handlers.

Open Scope Z_scope.

(** * The steps of a handler are the handler *)

Section Compose.
Context `{PayloadCodec}.
Context (now : Z -> Z) (ts : Z).

(** [PlaceOrder], alone, is its steps one after the other. *)
Lemma place_steps before after calls req sv :
  PlaceOrder now ts (Served before after) calls req sv =
  '(sv, r) ← place_begin now req sv;
  match r with
  | Fails (label, c) => Ok (sv, label, Fails c)
  | Good r =>
      '(sv, p) ← do_batch now ts (po_Symbol req) before after r sv;
      match submit_response p with
      | Fails e => Ok (sv, submitOutcome e, Fails (submitError e))
      | Good resp => Ok (place_settle calls resp sv)
      end
  end.
Proof.
  unfold PlaceOrder, place_begin, place_settle. destruct (orderFromRequest req) as [o|c]; [|done].
  destruct (Get now (po_Symbol req) (sv_venue sv)) as [[st [s|e]]| |]; cbn [mbind outcome_bind]; try done.
  unfold do_request. destruct (do_batch _ _ _ _ _ _ _) as [[sv1 p]| |]; cbn [mbind outcome_bind served result_bind]; try done.
  destruct (submit_response p) as [resp|e]; [|done]. by destruct (settle_trades calls (or_Trades resp) sv1) as [sv2 [e|]].
Qed.

(** So is one whose caller leaves while its request is in the channel: the batch
    commits, and nothing is settled. *)
Lemma abandoned_steps before after e calls req sv :
  PlaceOrder now ts (Abandoned before after e) calls req sv =
  '(sv, r) ← place_begin now req sv;
  match r with
  | Fails (label, c) => Ok (sv, label, Fails c)
  | Good r =>
      '(sv, p) ← do_batch now ts (po_Symbol req) before after r sv;
      Ok (sv, submitOutcome e, Fails (submitError e))
  end.
Proof.
  unfold PlaceOrder, place_begin. destruct (orderFromRequest req) as [o|c]; [|done].
  destruct (Get now (po_Symbol req) (sv_venue sv)) as [[st [s|e1]]| |]; cbn [mbind outcome_bind]; try done.
  unfold do_request. by destruct (do_batch _ _ _ _ _ _ _) as [[sv1 p]| |].
Qed.
End Compose.

(** * Replies and the table *)

(** Only an accepted submit is told of trades. *)
Definition reply_fits (r : request) (p : reply) : Prop :=
  p_trades p <> [] -> r_kind r = reqSubmit /\ p_err p = None.

Lemma apply_one_fits now symbol acc onT seq we r st st' p : apply_one now symbol acc onT seq we r st = Ok (st', p) -> reply_fits r p.
Proof.
  destruct st as [b a pub]. unfold apply_one, reply_fits. destruct (r_kind r).
  - destruct (r_preErr r); [by intros [= _ <-]|]. destruct we; [by intros [= _ <-]|].
    destruct (SubmitOrder now (r_order r) b) as [[b' [mr|e]]| |]; cbn [mbind outcome_bind]; try done; by intros [= _ <-].
  - destruct (r_preErr r); [by intros [= _ <-]|]. destruct we; [by intros [= _ <-]|].
    destruct (CancelOwned _ _ b) as [[b' [u|e]]| |]; cbn [mbind outcome_bind]; try done; by intros [= _ <-].
  - destruct (Snapshot b); cbn [mbind outcome_bind]; try done. by intros [= _ <-].
Qed.

Lemma Forall2_kinds (batch batch' : list request) ps : r_kind <$> batch' = r_kind <$> batch ->
  Forall2 reply_fits batch' ps -> Forall2 reply_fits batch ps.
Proof.
  intros Hk H. revert batch Hk. induction H as [|r p batch' ps Hr _ IH]; intros [|r0 batch]; try done.
  rewrite !fmap_cons. intros [= Hr0 Hk]. constructor; [|by apply IH]. unfold reply_fits in *. by rewrite <- Hr0.
Qed.

Lemma commit_replies `{!WalOps W, !WalLaws W} now ts batch (s : Sequencer W) a s' st ps : seq_ok s -> batch_ok ts batch s ->
  commit now ts batch s a = Ok (s', st, ps) -> Forall2 reply_fits batch ps.
Proof.
  intros Hok Hb Hc. pose proof (commit_spec now ts batch s a Hok Hb) as Hs.
  pose proof (assign_ids_spec (sq_symbol s) batch (sq_nextOrderID s) (ba_arriving _ _ _ Hb) (so_int s Hok) (ba_ids _ _ _ Hb)) as Ha.
  destruct (prepared s a batch) as [[b1 a1] next] eqn:Ep. pose proof (log_phase_spec ts s a batch b1 a1 next Hok Hb Ep) as Hl.
  destruct (log_phase ts s b1) as [[[b2 seq] wal] we]. destruct Hs as (st1 & ps1 & s1 & Hap & Hc1 & _). destruct Hl as (Hcore & _).
  rewrite Hc in Hc1. injection Hc1 as <- <- <-.
  apply (Forall2_kinds _ b2).
  - unfold prepared in Ep. destruct (assign_ids _ _ batch) as [b0 n0]. destruct Ha as (_ & _ & _ & <- & _).
    assert (Hcb : core <$> b1 = core <$> b0).
    { destruct (sq_accounts s); [|by injection Ep as <- _ _].
      pose proof (reserve_batch_core b0 a) as Hr. destruct (reserve_batch b0 a) as [b3 a3]. by injection Ep as <- _ _. }
    rewrite Hcb in Hcore. apply (f_equal (fmap (fun c => c.1.1.1.1))) in Hcore. by rewrite <- !list_fmap_compose in Hcore.
  - eapply Forall2_impl; [exact (apply_batch_each _ _ _ _ _ _ _ _ _ _ Hap)|]. intros r p (x & x' & Hx). by eapply apply_one_fits.
Qed.

Lemma held_insert i s hs : hs !! i = None -> held (<[i := s]> hs) ≡ₚ holding s ++ held hs.
Proof. intros Hn. unfold held. rewrite (map_to_list_insert hs i s Hn). done. Qed.

Lemma held_take i s hs : hs !! i = Some s -> held hs ≡ₚ holding s ++ held (delete i hs).
Proof. intros Hs. rewrite <- (insert_id hs i s Hs) at 1. rewrite <- insert_delete_eq, held_insert by apply lookup_delete_eq. done. Qed.

(** What a reply does to the trades in the table. *)
Lemma deliver_held hs i p r symbol : hs !! i ≫= queued symbol = Some r -> reply_fits r p ->
  held (deliver hs (i, p)) ++ unheard hs (i, p) ≡ₚ p_trades p ++ held hs.
Proof.
  intros Hq Hf. destruct (hs !! i) as [s|] eqn:Es; [|done]. cbn [mbind option_bind] in Hq. unfold deliver, unheard. cbn [fst snd]. rewrite Es.
  assert (Hno : r_kind r <> reqSubmit \/ p_err p <> None -> p_trades p = []).
  { intros Hc. destruct (p_trades p) as [|t l] eqn:E; [done|]. destruct Hf as [H1 H2]; [by rewrite E|]. tauto. }
  destruct s as [sy r0|sy r0|resp]; cbn [queued] in Hq; [| |done]; case_bool_decide; try done; injection Hq as ->.
  - rewrite app_nil_r, (held_take i _ hs Es). cbn [holding app]. unfold submit_response.
    destruct (r_kind r), (p_err p) eqn:He; try (rewrite Hno by (try (by left); right; congruence); done).
    rewrite <- insert_delete_eq, held_insert by apply lookup_delete_eq. done.
  - rewrite (held_take i _ hs Es). cbn [holding app]. apply Permutation_app_comm.
Qed.

Lemma deliver_other hs i j p : i <> j -> deliver hs (i, p) !! j = hs !! j.
Proof.
  intros Hne. unfold deliver. cbn [fst snd]. destruct (hs !! i) as [[sy r|sy r|resp]|]; try done; [|by apply lookup_delete_ne].
  destruct (r_kind r), (submit_response p); first [by apply lookup_insert_ne|by apply lookup_delete_ne].
Qed.

Lemma requests_other symbol hs i p ids : i ∉ ids -> requests_of symbol (deliver hs (i, p)) ids = requests_of symbol hs ids.
Proof.
  induction ids as [|j ids IH]; [done|]. rewrite not_elem_of_cons. intros [Hne Hi]. cbn [requests_of].
  rewrite deliver_other by done. by rewrite IH.
Qed.

Lemma unheard_other hs i p ids (ps : list reply) : i ∉ ids ->
  zip ids ps ≫= unheard (deliver hs (i, p)) = zip ids ps ≫= unheard hs.
Proof.
  revert ps. induction ids as [|j ids IH]; intros [|q ps]; try done. rewrite not_elem_of_cons. intros [Hne Hi].
  cbn [zip zip_with]. rewrite !bind_cons, IH by done. f_equal. unfold unheard. cbn [fst snd]. by rewrite deliver_other by done.
Qed.

(** A batch's replies: the trades executed are held by their calls or heard by nobody. *)
Lemma deliver_all symbol ids : forall hs batch ps, NoDup ids -> requests_of symbol hs ids = Some batch ->
  Forall2 reply_fits batch ps ->
  held (foldl deliver hs (zip ids ps)) ++ (zip ids ps ≫= unheard hs) ≡ₚ concat (p_trades <$> ps) ++ held hs.
Proof.
  induction ids as [|i ids IH]; intros hs batch ps Hnd Hrs Hf.
  { cbn in Hrs. injection Hrs as <-. inversion Hf; subst. simpl. by rewrite app_nil_r. }
  apply NoDup_cons in Hnd as [Hi Hnd]. cbn [requests_of] in Hrs. destruct (hs !! i ≫= queued symbol) as [r|] eqn:Eq; [|done].
  destruct (requests_of symbol hs ids) as [rs|] eqn:Er; [|done]. injection Hrs as <-.
  inversion Hf as [|r' p rs' ps' Hr Hf' E1 E2]; subst. cbn [zip zip_with foldl]. rewrite bind_cons, fmap_cons. cbn [concat].
  pose proof (deliver_held hs i p r symbol Eq Hr) as H1.
  pose proof (IH (deliver hs (i, p)) rs ps' Hnd (eq_trans (requests_other symbol hs i p ids Hi) Er) Hf') as H2.
  rewrite (unheard_other hs i p ids ps' Hi) in H2.
  rewrite (Permutation_app_comm (unheard hs (i, p))), app_assoc. unfold zip in H2. rewrite H2, <- app_assoc, H1.
  rewrite !app_assoc. f_equiv. apply Permutation_app_comm.
Qed.

(** Neither sending a request nor committing a batch touches the ledger. *)
Lemma place_begin_ledger `{PayloadCodec} now req sv sv' r : place_begin now req sv = Ok (sv', r) -> sv_ledger sv' = sv_ledger sv.
Proof.
  unfold place_begin. destruct (orderFromRequest req); [|by intros [= <- _]].
  destruct (Get now (po_Symbol req) (sv_venue sv)) as [[st s]| |]; cbn [mbind outcome_bind]; try done. by intros [= <- _].
Qed.

Lemma commit_calls_ledger `{PayloadCodec} now ts symbol ids batch c c' executed gone :
  commit_calls now ts symbol ids batch c = Ok (c', executed, gone) -> sv_ledger (cl_server c') = sv_ledger (cl_server c).
Proof.
  unfold commit_calls. destruct (venue_commit _ _ _ _ _) as [[[st ps] pub]| |]; cbn [mbind outcome_bind]; try done.
  intros [= <- _ _]. cbn [cl_server]. by destruct (published_elsewhere pub (set_venue st (cl_server c))) as [_ ->].
Qed.

(** * Interleaving *)

Section Process.
Context `{CodecLaws}.
Context (now : Z -> Z).
(** [patient]: no caller leaves before its reply; [reliable]: the database answers. *)
Context (patient reliable : bool).

(** One step of a handler, or one batch of a sequencer. The lists are the trades
    executed, those whose reply nobody was there to take, and those whose
    settlement wrote nothing. A request that no sequencer has taken may be withdrawn:
    its caller's context ends, or the sequencer has stopped. Identifiers and positions
    remain, and no LIMIT order is worth more than an [int64] holds. *)
Inductive step (c : Calls) : list Trade -> list Trade -> list Trade -> Calls -> Prop :=
| step_place i req sv r : cl_stages c !! i = None -> po_Price req * po_Quantity req <= MaxInt64 ->
    place_begin now req (cl_server c) = Ok (sv, Good r) ->
    step c [] [] [] (mkCalls sv (<[i := Waiting (po_Symbol req) r]> (cl_stages c)))
| step_cancel i symbol account orderID sv r : cl_stages c !! i = None ->
    cancel_begin now symbol account orderID (cl_server c) = Ok (sv, Good r) ->
    step c [] [] [] (mkCalls sv (<[i := Waiting symbol r]> (cl_stages c)))
| step_leave i symbol r : patient = false -> cl_stages c !! i = Some (Waiting symbol r) ->
    step c [] [] [] (mkCalls (cl_server c) (<[i := Left symbol r]> (cl_stages c)))
| step_withdraw i symbol r : cl_stages c !! i = Some (Waiting symbol r) ->
    step c [] [] [] (mkCalls (cl_server c) (delete i (cl_stages c)))
| step_commit ts symbol ids batch executed gone c' : NoDup ids -> (length ids <= maxBatch)%nat ->
    requests_of symbol (cl_stages c) ids = Some batch ->
    (forall s, seqs (registry (sv_venue (cl_server c))) !! symbol = Some s -> batch_ok ts batch s) ->
    commit_calls now ts symbol ids batch c = Ok (c', executed, gone) ->
    step c executed gone [] c'
| step_settle i resp calls sv label res : (reliable = true -> calls = []) -> cl_stages c !! i = Some (Settling resp) ->
    place_settle calls resp (cl_server c) = (sv, label, res) ->
    step c [] [] (if decide (sv_ledger sv = sv_ledger (cl_server c)) then or_Trades resp else [])
      (mkCalls sv (delete i (cl_stages c))).

(** A process from [c0] on, and the three lists so far. *)
Inductive process (c0 : Calls) : list Trade -> list Trade -> list Trade -> Calls -> Prop :=
| process_start : process c0 [] [] [] c0
| process_step X G F c x g f c' : process c0 X G F c -> step c x g f c' -> process c0 (X ++ x) (G ++ g) (F ++ f) c'.

(** What a call in the table is doing is something the API can do. *)
Definition stage_ok (s : stage) : Prop :=
  match s with Waiting _ r => api_request r | Left _ r => api_request r /\ patient = false | Settling _ => True end.

Record process_ok (T0 J0 : list Trade) (c0 : Calls) (X G F : list Trade) (c : Calls) : Prop := {
  po_generations : generations (T0 ++ X) (sv_venue (cl_server c));
  po_moved : moved_by X (accounts (sv_venue (cl_server c0))) (accounts (sv_venue (cl_server c)));
  po_stages : map_Forall (fun _ => stage_ok) (cl_stages c);
  po_journal : exists j P, sv_ledger (cl_server c) = Some j /\ holds_trades (T0 ++ X) (P ++ J0) j /\
    X ≡ₚ P ++ held (cl_stages c) ++ G ++ F;
  po_patient : patient = true -> G = [];
  po_reliable : reliable = true -> F = []
}.

(** Opening a symbol, as the handlers do. *)
Lemma open_generations symbol T sv st s : generations T (sv_venue sv) -> Get now symbol (sv_venue sv) = Ok (st, Good s) ->
  generations T st /\ moved_by [] (accounts (sv_venue sv)) (accounts st).
Proof.
  intros Hg Hget. split; [by eapply gen_open|]. destruct (generations_ok T _ Hg) as [Hc _ Hcl _ _].
  assert (Hrec : seqs (registry (sv_venue sv)) !! symbol = None -> recoverable symbol (dir_at symbol (sv_venue sv))).
  { intros Hn. destruct (Hcl symbol Hn) as [[Hf _]|(s0 & Hl & _)]; [by left|right; by exists s0]. }
  destruct (Get_consistent now symbol _ Hc Hrec) as (st1 & r1 & Hg1 & _ & Hca & Hpo & _).
  rewrite Hget in Hg1. injection Hg1 as <- _. by apply moved_same.
Qed.

Lemma place_begin_spec T req sv sv' r : generations T (sv_venue sv) -> po_Price req * po_Quantity req <= MaxInt64 ->
  place_begin now req sv = Ok (sv', Good r) ->
  generations T (sv_venue sv') /\ moved_by [] (accounts (sv_venue sv)) (accounts (sv_venue sv')) /\
  sv_ledger sv' = sv_ledger sv /\ api_request r.
Proof.
  intros Hg Hv. unfold place_begin. destruct (decide (well_formed req)) as [Hw|Hw];
    [rewrite (orderFromRequest_Good req Hw)|by rewrite (orderFromRequest_Fails req Hw)].
  destruct (Get now (po_Symbol req) (sv_venue sv)) as [[st [s|e]]| |] eqn:Eg; cbn [mbind outcome_bind]; try done.
  intros [= <- <-]. destruct (open_generations _ T sv st s Hg Eg) as [Hgen Hmov]. split_and!; try done. by apply api_submit.
Qed.

Lemma cancel_begin_spec T symbol account orderID sv sv' r : generations T (sv_venue sv) ->
  cancel_begin now symbol account orderID sv = Ok (sv', Good r) ->
  generations T (sv_venue sv') /\ moved_by [] (accounts (sv_venue sv)) (accounts (sv_venue sv')) /\
  sv_ledger sv' = sv_ledger sv /\ api_request r.
Proof.
  intros Hg. unfold cancel_begin. destruct (validateSymbol symbol) as [u|e0]; cbn [mbind result_bind]; [|done].
  rewrite validateAccountID_spec. case_bool_decide as Hac; [|done]. destruct (Z.leb_spec orderID 0); [done|].
  destruct (Get now symbol (sv_venue sv)) as [[st [s|e]]| |] eqn:Eg; cbn [mbind outcome_bind]; try done.
  intros [= <- <-]. destruct (open_generations _ T sv st s Hg Eg) as [Hgen Hmov]. split_and!; try done. by apply api_cancel.
Qed.

(** A batch. *)
Lemma commit_calls_spec T ts symbol ids batch c c' executed gone : generations T (sv_venue (cl_server c)) ->
  Forall api_request batch -> NoDup ids -> requests_of symbol (cl_stages c) ids = Some batch ->
  (forall s, seqs (registry (sv_venue (cl_server c))) !! symbol = Some s -> batch_ok ts batch s) ->
  commit_calls now ts symbol ids batch c = Ok (c', executed, gone) ->
  generations (T ++ executed) (sv_venue (cl_server c')) /\
  moved_by executed (accounts (sv_venue (cl_server c))) (accounts (sv_venue (cl_server c'))) /\
  sv_ledger (cl_server c') = sv_ledger (cl_server c) /\
  held (cl_stages c') ++ gone ≡ₚ executed ++ held (cl_stages c) /\
  exists ps : list reply, cl_stages c' = foldl deliver (cl_stages c) (zip ids ps) /\ gone = zip ids ps ≫= unheard (cl_stages c).
Proof.
  intros Hg Hapi Hnd Hrs Hbok. unfold commit_calls.
  destruct (venue_commit now ts symbol batch (sv_venue (cl_server c))) as [[[st ps] pub]| |] eqn:Ev; cbn [mbind outcome_bind]; try done.
  intros [= <- <- <-]. cbn [cl_server cl_stages]. destruct (published_elsewhere pub (set_venue st (cl_server c))) as [-> ->].
  cbn [set_venue sv_venue sv_ledger].
  destruct (seqs (registry (sv_venue (cl_server c))) !! symbol) as [s|] eqn:Es; [|unfold venue_commit in Ev; by rewrite Es in Ev].
  pose proof (Hbok s eq_refl) as Hb. pose proof (go_consistent _ _ (generations_ok T _ Hg)) as Hc.
  destruct (co_open _ Hc symbol s Es) as (_ & _ & Hat).
  assert (Harr : Forall arrives batch) by (eapply Forall_impl; [exact Hapi|apply api_arrives]).
  destruct (venue_commit_consistent now ts symbol batch _ s Hc Es Hb Harr) as (s' & res & ps' & Hcm & Hv & _).
  pose proof (gen_commit now ts symbol batch s T _ st ps pub Hg Es Hb Hapi Ev) as Hg'.
  rewrite Ev in Hv. injection Hv as -> <- _. split_and!; [exact Hg'| |done| |by exists ps].
  - cbn [accounts]. exact (commit_moves (W := Writer) now ts batch s _ s' res ps Hat Hb Harr Hcm).
  - apply (deliver_all symbol ids _ batch); [done|done|].
    exact (commit_replies (W := Writer) now ts batch s _ s' res ps (running_ok _ (at_running _ _ Hat)) Hb Hcm).
Qed.

(** A settlement of trades that are not in the journal: it posts all of them or none,
    and when the database answers it posts them. *)
Lemma settle_spec U T calls resp j sv sv' label res : identified U -> Forall settleable U -> sv_ledger sv = Some j ->
  or_Trades resp ⊆ U -> NoDup (trade_key <$> or_Trades resp ++ T) -> holds_trades U T j ->
  place_settle calls resp sv = (sv', label, res) ->
  sv_venue sv' = sv_venue sv /\ exists j', sv_ledger sv' = Some j' /\
  ((sv_ledger sv' = sv_ledger sv /\ (calls = [] -> or_Trades resp = [])) \/
   (sv_ledger sv' <> sv_ledger sv /\ holds_trades U (or_Trades resp ++ T) j')).
Proof.
  intros Hid Hs Hl Hsub Hnd Hj Hps. unfold place_settle, settle_trades in Hps. rewrite Hl in Hps.
  case_bool_decide as Hnil; [injection Hps as <- _ _; split; [done|]; exists j; auto|].
  assert (Hst : Forall settleable (or_Trades resp)) by (rewrite Forall_forall in *; auto).
  pose proof (Settle_spec calls (or_Trades resp) j Hst) as Hsp. destruct (Settle calls (or_Trades resp) j) as [j' e].
  assert (Hsv : sv' = mkServer (sv_venue sv) (Some j') (feeds sv)) by (destruct e; by injection Hps as <- _ _). subst sv'.
  split; [done|]. exists j'. split; [done|]. cbn [sv_ledger]. rewrite Hl. destruct Hsp as (Hj' & Hnone & Hcalls).
  pose proof (post_new U _ Hid T j Hsub Hnd Hj) as Hpost. destruct (decide (j' = j)) as [->|Hne].
  - left. split; [done|]. intros Hc. exfalso. rewrite (Hnone (Hcalls Hc)) in Hj.
    pose proof (holds_length _ _ _ Hj) as L1. pose proof (holds_length _ _ _ Hpost) as L2. rewrite length_app in L2.
    apply Hnil, nil_length_inv. lia.
  - right. split; [congruence|]. destruct Hj' as [->| ->]; [done|exact Hpost].
Qed.

Lemma requests_api symbol hs ids : forall batch, map_Forall (fun _ => stage_ok) hs -> requests_of symbol hs ids = Some batch ->
  Forall api_request batch.
Proof.
  intros batch Hst. revert batch. induction ids as [|i ids IH]; intros batch; cbn [requests_of]; [by intros [= <-]|].
  destruct (hs !! i) as [s|] eqn:Es; cbn [mbind option_bind]; [|done]. pose proof (Hst i s Es) as Hs.
  destruct (queued symbol s) as [r|] eqn:Eq; [|done]. destruct (requests_of symbol hs ids) as [rs|]; [|done].
  intros [= <-]. constructor; [|by apply IH]. unfold queued in Eq.
  destruct s as [sy r0|sy r0|resp]; [| |done]; case_bool_decide; try done; injection Eq as <-; [exact Hs|apply Hs].
Qed.

Lemma deliver_stages hs d : map_Forall (fun _ => stage_ok) hs -> map_Forall (fun _ => stage_ok) (deliver hs d).
Proof.
  intros Hs. unfold deliver. destruct (hs !! d.1) as [[sy r|sy r|resp]|]; try done; [|by apply map_Forall_delete].
  destruct (r_kind r), (submit_response d.2); first [by apply map_Forall_delete|by apply map_Forall_insert_2].
Qed.

Lemma deliver_all_stages ds : forall hs, map_Forall (fun _ => stage_ok) hs -> map_Forall (fun _ => stage_ok) (foldl deliver hs ds).
Proof. induction ds as [|d ds IH]; intros hs Hs; [done|]. by apply IH, deliver_stages. Qed.

(** Nobody leaves, so everybody hears. *)
Lemma patient_heard hs (ds : list (nat * reply)) : patient = true -> map_Forall (fun _ => stage_ok) hs -> ds ≫= unheard hs = [].
Proof.
  intros Hp Hs. induction ds as [|d ds IH]; [done|]. rewrite bind_cons, IH, app_nil_r. unfold unheard.
  destruct (hs !! d.1) as [[sy r|sy r|resp]|] eqn:E; try done. pose proof (Hs _ _ E) as [_ Hf]. congruence.
Qed.

(** What is in flight changes without a trade. *)
Lemma process_same T0 J0 c0 X G F c c' : process_ok T0 J0 c0 X G F c ->
  generations (T0 ++ X) (sv_venue (cl_server c')) ->
  moved_by [] (accounts (sv_venue (cl_server c))) (accounts (sv_venue (cl_server c'))) ->
  sv_ledger (cl_server c') = sv_ledger (cl_server c) -> map_Forall (fun _ => stage_ok) (cl_stages c') ->
  held (cl_stages c') ≡ₚ held (cl_stages c) ->
  process_ok T0 J0 c0 (X ++ []) (G ++ []) (F ++ []) c'.
Proof.
  intros [Hg Hm Hs (j & P & Hl & Hj & HX) Hp Hr] Hg' Hm' Hl' Hs' Hh. rewrite !app_nil_r. split; try done.
  - rewrite <- (app_nil_r X). by eapply moved_trans.
  - exists j, P. split_and!; [congruence|done|]. by rewrite Hh.
Qed.

Lemma step_ok T0 J0 c0 X G F c x g f c' : J0 ⊆ T0 -> process_ok T0 J0 c0 X G F c -> step c x g f c' ->
  process_ok T0 J0 c0 (X ++ x) (G ++ g) (F ++ f) c'.
Proof.
  intros HJ Hok Hstep. pose proof Hok as [Hg Hm Hs (j & P & Hl & Hj & HX) Hp Hr].
  destruct Hstep as [i req sv r Hi Hv Hb|i symbol account orderID sv r Hi Hb|i symbol r Hpat Hi|i symbol r Hi
    |ts symbol ids batch executed gone c' Hnd _ Hrs Hbok Hcm|i resp calls sv label res Hrel Hi Hset].
  - destruct (place_begin_spec _ _ _ _ _ Hg Hv Hb) as (G1 & G2 & G3 & G4).
    apply (process_same T0 J0 c0 X G F c); cbn [cl_server cl_stages]; try done; [by apply map_Forall_insert_2|].
    by rewrite held_insert.
  - destruct (cancel_begin_spec _ _ _ _ _ _ _ Hg Hb) as (G1 & G2 & G3 & G4).
    apply (process_same T0 J0 c0 X G F c); cbn [cl_server cl_stages]; try done; [by apply map_Forall_insert_2|].
    by rewrite held_insert.
  - apply (process_same T0 J0 c0 X G F c); cbn [cl_server cl_stages]; try done; [apply moved_refl| |].
    + apply map_Forall_insert_2; [|done]. split; [exact (Hs i _ Hi)|done].
    + rewrite (held_take i _ (cl_stages c) Hi), <- insert_delete_eq, held_insert by apply lookup_delete_eq. done.
  - apply (process_same T0 J0 c0 X G F c); cbn [cl_server cl_stages]; try done; [apply moved_refl|by apply map_Forall_delete|].
    by rewrite (held_take i _ (cl_stages c) Hi).
  - destruct (commit_calls_spec (T0 ++ X) ts symbol ids batch c c' executed gone Hg (requests_api _ _ _ _ Hs Hrs) Hnd Hrs Hbok Hcm)
      as (G1 & G2 & G3 & G4 & ps & G5 & G6).
    rewrite (app_nil_r F). split; [by rewrite app_assoc|by eapply moved_trans|by rewrite G5; apply deliver_all_stages| |..|exact Hr].
    + exists j, P. split_and!; [congruence| |].
      * eapply holds_weaken; [|exact Hj]. intros t. rewrite !elem_of_app. tauto.
      * rewrite HX. transitivity (P ++ (executed ++ held (cl_stages c)) ++ G ++ F); [solve_Permutation|].
        rewrite <- G4. solve_Permutation.
    + intros Hpt. by rewrite (Hp Hpt), G6, (patient_heard _ _ Hpt Hs).
  - destruct (generations_ok _ _ Hg) as [_ _ _ Hty Hkeys]. rewrite (held_take i _ _ Hi) in HX. cbn [holding] in HX.
    assert (Hse : Forall settleable (T0 ++ X)) by (eapply Forall_impl; [exact Hty|]; intros t Ht; exact (typed_settleable _ _ Ht)).
    assert (Hsub : or_Trades resp ⊆ T0 ++ X) by (intros t Ht; rewrite HX, !elem_of_app; tauto).
    assert (Hfresh : NoDup (trade_key <$> or_Trades resp ++ P ++ J0)).
    { rewrite HX, !fmap_app in Hkeys. rewrite !fmap_app. apply NoDup_app in Hkeys as (N1 & N2 & N3).
      assert (N4 : NoDup ((trade_key <$> or_Trades resp) ++ (trade_key <$> P))).
      { rewrite Permutation_app_comm. rewrite <- app_assoc, app_assoc in N3. by apply NoDup_app in N3 as (N3 & _). }
      pose proof (ht_once _ _ _ Hj) as N5. rewrite fmap_app in N5. apply NoDup_app in N5 as (_ & _ & N5).
      rewrite app_assoc. apply NoDup_app. split_and!; [done| |done].
      intros k Hk (t & -> & Ht)%list_elem_of_fmap. apply (N2 (trade_key t)); [by apply list_elem_of_fmap_2, HJ|].
      rewrite !elem_of_app in *. tauto. }
    destruct (settle_spec (T0 ++ X) (P ++ J0) calls resp j _ sv label res (keys_identified _ Hkeys) Hse Hl Hsub Hfresh Hj Hset)
      as (Hven & j' & Hl' & Hcase). rewrite (app_nil_r X), (app_nil_r G).
    split; cbn [cl_server cl_stages]; rewrite ?Hven; try done; [by apply map_Forall_delete| |].
    + destruct Hcase as [[Heq _]|[Hne Hpost]]; [rewrite decide_True by done|rewrite decide_False by done].
      * exists j, P. split_and!; [congruence|done|]. rewrite HX. solve_Permutation.
      * exists j', (or_Trades resp ++ P). split_and!; [done|by rewrite <- app_assoc|]. rewrite HX, app_nil_r. solve_Permutation.
    + intros Hrl. rewrite (Hr Hrl). case_decide as Hd; [|done]. destruct Hcase as [[_ Hc]|[Hne _]]; [|done]. by rewrite (Hc (Hrel Hrl)).
Qed.

Lemma process_spec T0 J0 j0 c0 X G F c : generations T0 (sv_venue (cl_server c0)) -> cl_stages c0 = ∅ ->
  sv_ledger (cl_server c0) = Some j0 -> holds_trades T0 J0 j0 -> process c0 X G F c -> process_ok T0 J0 c0 X G F c.
Proof.
  intros Hg He Hl Hj. induction 1 as [|X G F c x g f c' _ IH Hs]; [|eapply step_ok; [apply (ht_from _ _ _ Hj)|exact IH|exact Hs]].
  split; [by rewrite app_nil_r|apply moved_refl|by rewrite He| |done|done].
  exists j0, []. rewrite app_nil_r. split_and!; [done|done|]. rewrite He. unfold held. by rewrite map_to_list_empty.
Qed.

(** * The property *)

End Process.

(** * Witnesses *)

Module HandlersDemo.
Import StoreDemo.

(** "bob"'s sale and "ann"'s purchase wait in the same batch; "ann" has hung up. *)
Definition c0 : Calls := mkCalls (mkServer RegistryDemo.st1 (Some ∅) ∅) ∅.
Definition c1 : Calls := mkCalls (cl_server c0) {[0%nat := Waiting "NABIL" (submit_request (requested TypedDemo.sale))]}.
Definition c2 : Calls := mkCalls (cl_server c0) (<[1%nat := Waiting "NABIL" (submit_request (requested TypedDemo.purchase))]> (cl_stages c1)).
Definition c3 : Calls := mkCalls (cl_server c0) (<[1%nat := Left "NABIL" (submit_request (requested TypedDemo.purchase))]> (cl_stages c2)).
Definition committed := commit_calls id 7 "NABIL" [0%nat; 1%nat] TypedDemo.batch c3.
Definition c4 : Calls := match committed with Ok (c, _, _) => c | _ => c3 end.

(** "ann" hangs up, as one call. *)
Definition hung_up := PlaceOrder id 7 (Abandoned [submit_request (requested TypedDemo.sale)] [] ErrCanceled) [] TypedDemo.purchase (cl_server c0).
Definition sv1 : Server := match hung_up with Ok (sv, _, _) => sv | _ => cl_server c0 end.

Lemma c0_generation : generations [] (sv_venue (cl_server c0)).
Proof.
  assert (Hf : generations [] RegistryDemo.st0) by (apply gen_first; [apply RegistryDemo.fresh_venue|intros symbol; done]).
  destruct (Get_consistent id "NABIL" RegistryDemo.st0 (fresh_consistent _ (RegistryDemo.fresh_venue ∅)) (fun _ => or_introl eq_refl))
    as (st & [s|e] & Hg & _).
  - assert (E : RegistryDemo.st1 = st) by (unfold RegistryDemo.st1; by rewrite Hg). rewrite <- E in Hg.
    exact (gen_open id "NABIL" [] _ _ s Hf Hg).
  - exfalso. apply (f_equal (fun r => match r with Ok (_, Good _) => true | _ => false end)) in Hg. vm_compute in Hg. discriminate Hg.
Qed.

Lemma begun req order : orderFromRequest req = Good order -> po_Symbol req = "NABIL"%string ->
  place_begin id req (cl_server c0) = Ok (cl_server c0, Good (submit_request order)).
Proof.
  intros Ho Hsy. unfold place_begin. rewrite Ho, Hsy.
  assert (E : Get id "NABIL" (sv_venue (cl_server c0)) = Ok (RegistryDemo.st1, Good RegistryDemo.q1)).
  { unfold Get, Get_with. cbn [c0 cl_server sv_venue]. change (negb (validSymbol "NABIL")) with false. cbv iota.
    by rewrite (proj2 RegistryDemo.st1_reachable). }
  rewrite E. reflexivity.
Qed.

Lemma committed_ok : committed = Ok (c4, TypedDemo.T, TypedDemo.T).
Proof. vm_compute. reflexivity. Qed.

Lemma c4_process : process id false true c0 TypedDemo.T TypedDemo.T [] c4.
Proof.
  assert (P1 : process id false true c0 [] [] [] c1).
  { apply (process_step id false true c0 [] [] [] c0 [] [] [] c1 (process_start _ _ _ c0)).
    apply (step_place id false true c0 0%nat TypedDemo.sale); [reflexivity|vm_compute; discriminate|].
    apply begun; [|reflexivity]. apply orderFromRequest_Good. exact ServerDemo.req_well_formed. }
  assert (P2 : process id false true c0 [] [] [] c2).
  { apply (process_step id false true c0 [] [] [] c1 [] [] [] c2 P1).
    apply (step_place id false true c1 1%nat TypedDemo.purchase); [reflexivity|vm_compute; discriminate|].
    apply begun; [vm_compute; reflexivity|reflexivity]. }
  assert (P3 : process id false true c0 [] [] [] c3).
  { apply (process_step id false true c0 [] [] [] c2 [] [] [] c3 P2).
    exact (step_leave id false true c2 1%nat "NABIL" _ eq_refl eq_refl). }
  apply (process_step id false true c0 [] [] [] c3 TypedDemo.T TypedDemo.T [] c4 P3).
  apply (step_commit id false true c3 7 "NABIL" [0%nat; 1%nat] TypedDemo.batch).
  - apply (bool_decide_unpack _). vm_compute. exact I.
  - apply (bool_decide_unpack _). vm_compute. exact I.
  - reflexivity.
  - intros s Hs. pose proof (Some_inj _ _ (eq_trans (eq_sym (proj2 RegistryDemo.st1_reachable)) Hs)) as E.
    rewrite <- E. exact TypedDemo.batch_fits.
  - exact committed_ok.
Qed.
End HandlersDemo.


