(* ===== verification/Node.v ===== *)
(** Starting and stopping a node, from [src/cmd/server/main.go].

    [start] is [run] up to serving: balances from the journal into an empty store,
    demo accounts if asked for, an empty registry over the log root, and the
    server on top. [shutdown] is what follows the last request. Flags, listeners,
    metrics and tracing are left out. *)

From Stdlib Require Import ZArith Lia Ascii String.
From stdpp Require Import base gmap list strings pretty.
From S2P Require Import Prelude Types Book Accounts WalRecord Sequencer Bytes WalFormat Wal Registry Ledger Server.

Open Scope Z_scope.

(** The flags [run] reads that matter here. *)
Record Config := mkConfig {
  cf_walDir : string;
  cf_seed : nat;
  cf_seedSymbols : string
}.

Inductive start_error := ErrRebuild (e : ledger_error) | ErrLoad (e : oms_error).

(** [strings.FieldsFunc]: the maximal runs without a separator. *)
Fixpoint fields_from (sep : ascii) (cur : string) (s : string) : list string :=
  match s with
  | EmptyString => if bool_decide (cur = "") then [] else [cur]
  | String c s =>
      if bool_decide (c = sep)
      then (if bool_decide (cur = "") then [] else [cur]) ++ fields_from sep "" s
      else fields_from sep (cur ++ String c "") s
  end.
Definition fields (sep : ascii) (s : string) : list string := fields_from sep "" s.

Definition seedCash : Z := 1000000000.
Definition seedPosition : Z := 1000000.

(** [seedAccounts], one account after the other. *)
Definition seed_account (symbols : list string) (a : Accounts) (i : nat) : Accounts :=
  let account := ("acct-" ++ pretty i)%string in
  foldl (fun a symbol => SetPosition account symbol seedPosition a) (Deposit account seedCash a) symbols.
Definition seedAccounts (n : nat) (symbolList : string) (a : Accounts) : Accounts :=
  foldl (seed_account (fields "," symbolList)) a (seq 0 n).

(** The balances a node starts from. *)
Definition rebuild (j : option Journal) : result start_error Accounts :=
  match j with
  | None => Good NewAccounts
  | Some j =>
      match Balances j with
      | Fails e => Fails (ErrRebuild e)
      | Good (c, p) =>
          match LoadBalances c p NewAccounts with
          | (_, Fails e) => Fails (ErrLoad e)
          | (a, Good _) => Good a
          end
      end
  end.

(** [NewServer] installs the registry's trade callback. *)
Definition NewServer (reg : Registry) (a : Accounts) (dk : gmap string Dir) (j : option Journal) : Server :=
  mkServer (mkState (mkRegistry true (rg_walDir reg) (rg_accounts reg) (seqs reg)) a dk) j ∅.

Definition start (cf : Config) (j : option Journal) (dk : gmap string Dir) : result start_error Server :=
  a ← rebuild j;
  let a := if (0 <? cf_seed cf)%nat then seedAccounts (cf_seed cf) (cf_seedSymbols cf) a else a in
  Good (NewServer (NewRegistry (cf_walDir cf) true) a dk j).

(** The logs closed, and which of them failed. *)
Definition shutdown (sv : Server) : outcome (Server * list (string * oms_error)) :=
  '(st, errs) ← Registry_Close (sv_venue sv);
  Ok (set_venue st sv, errs).
