(* ===== verification/NodeProps.v ===== *)
(** A node's restart: the journal gives back the balances and the logs the books. *)

From Stdlib Require Import ZArith Lia Ascii String.
From stdpp Require Import base gmap list strings sorting pretty.
From S2P Require Import Prelude Types Book BookInv BookSpec BookRefine BookProps.
From S2P Require Import Accounts AccountsInv AccountsSolv AccountsProps WalRecord Sequencer SeqFacts SeqProps.
From S2P Require Import VenueFacts Venue VenueProps Bytes WalFormat SegNames Wal WalDir WalLaw WalStep WalRecover WalProps.
From S2P Require Import Registry RegistryFacts RegistryProps VenueFlow Ledger LedgerFacts LedgerRead Server Node.

Open Scope Z_scope.

(** The store a journal of the trades of [T] is loaded into. *)
Lemma rebuild_spec U T j a : Forall settleable U -> holds_trades U T j -> rebuild (Some j) = Good a ->
  acc_wf a /\ holds a = ∅ /\ moved_by T NewAccounts a.
Proof.
  intros Hs HT. unfold rebuild. destruct (Balances j) as [[c p]|] eqn:Hb; [|done].
  destruct (Balances_reads j c p Hb) as [Hbc Hbp]. destruct (net_flows U T j Hs HT) as [Hc Hp].
  destruct (LoadBalances_spec c p NewAccounts NewAccounts_wf) as (Hwf & Hh & Hl).
  destruct (LoadBalances c p NewAccounts) as [a' [u|e]]; cbn [fst snd] in *; [|done]. intros [= <-].
  destruct Hl as (_ & Hcash & Hpos). split_and!; [done|done|]. split; intros.
  - unfold Cash at 1. rewrite Hcash, Hbc, Hc. apply eq64_of_eq. done.
  - rewrite Hpos. assert (E : default 0 (p !! ac ≫= (.!! sy)) = zlookup2 p ac sy)
      by (unfold zlookup2, inner, zlookup; by destruct (p !! ac)).
    rewrite E, Hbp, Hp. apply eq64_of_eq. done.
Qed.

(** A node without demo accounts, on its way up. *)
Definition plain (cf : Config) : Prop := cf_seed cf = 0%nat /\ cf_walDir cf <> ""%string.

Lemma start_spec U T cf j dk sv : plain cf -> Forall settleable U -> holds_trades U T j ->
  start cf (Some j) dk = Good sv ->
  fresh_state (sv_venue sv) /\ disk (sv_venue sv) = dk /\ moved_by T NewAccounts (accounts (sv_venue sv)).
Proof.
  intros [Hseed Hdir] Hs HT. unfold start. destruct (rebuild (Some j)) as [a|] eqn:Hr; [|done].
  cbn [mbind result_bind]. rewrite Hseed. intros [= <-].
  destruct (rebuild_spec U T j a Hs HT Hr) as (Hwf & Hh & Hm). split_and!; try done.
Qed.

Section Restart.
Context `{CodecLaws}.

(** Restarting a node gives everything back but what was not settled. A node
    starts from a journal of the trades of [T0] and executes those of [T], in any
    order of openings and commits of any symbols; then it dies. If the journal then
    holds the trades of [T1], a node started from it has, account by account, exactly
    the balances of the dead one less the flows of the trades [lost] to the journal;
    and opening a symbol whose log had not failed, whatever the crash did to its
    files, brings back its book, its position and its reservations, and moves no
    balance. *)
Theorem node_restarts now U cf T0 j0 dk0 sv0 T st T1 lost j1 dk1 sv1 : plain cf -> Forall settleable U ->
  holds_trades U T0 j0 -> start cf (Some j0) dk0 = Good sv0 -> lives (sv_venue sv0) T st ->
  holds_trades U T1 j1 -> T1 ++ lost ≡ₚ T0 ++ T -> start cf (Some j1) dk1 = Good sv1 ->
  (forall ac, eq64 (Cash ac (accounts (sv_venue sv1)) + sumZ (cash_flow ac) lost) (Cash ac (accounts st))) /\
  (forall ac sy, eq64 (Position ac sy (accounts (sv_venue sv1)) + sumZ (share_flow ac sy) lost) (Position ac sy (accounts st))) /\
  forall symbol s w, seqs (registry st) !! symbol = Some s -> sq_wal s = Some w -> sq_walErr s = None ->
    crashed (wr_dir w) (dir_at symbol (sv_venue sv1)) -> script (dir_at symbol (sv_venue sv1)) = [] ->
    exists st1 s1, Get now symbol (sv_venue sv1) = Ok (st1, Good s1) /\ sq_book s1 = sq_book s /\ sq_seq s1 = sq_seq s /\
      (forall id, holds (accounts st1) !! (symbol, id) = holds (accounts st) !! (symbol, id)) /\
      cash (accounts st1) = cash (accounts (sv_venue sv1)) /\ positions (accounts st1) = positions (accounts (sv_venue sv1)).
Proof.
  intros Hcf Hs HT0 Hst0 Hlife HT1 Hperm Hst1.
  destruct (start_spec U T0 cf j0 dk0 sv0 Hcf Hs HT0 Hst0) as (Hf0 & _ & Hm0).
  destruct (start_spec U T1 cf j1 dk1 sv1 Hcf Hs HT1 Hst1) as (Hf1 & _ & [Hc1 Hp1]).
  destruct (lives_spec (sv_venue sv0) T st (venue_fresh _ Hf0) Hlife) as [Hr Hm].
  destruct (moved_perm _ _ _ _ (symmetry Hperm) (moved_trans _ _ _ _ _ Hm0 Hm)) as [Hc Hp].
  split_and!.
  - intros ac. rewrite Hc, Hc1. autorewrite with sums. apply eq64_of_eq. lia.
  - intros ac sy. rewrite Hp, Hp1. autorewrite with sums. apply eq64_of_eq. lia.
  - intros symbol s w Hsy Hw He Hcr Hsc.
    destruct (reopen_symbol now st symbol s w (sv_venue sv1) (venue_reachable_consistent _ Hr) Hsy Hw He Hf1 Hcr Hsc)
      as (st1 & s1 & Hg & _ & Hb & Hq & Hh & Hca & Hpo).
    exists st1, s1. by split_and!.
Qed.
End Restart.

(** * Witnesses *)

Module NodeDemo.
Import StoreDemo.

(** A trade already journalled: "bob" bought 10 shares from "ann". *)
Definition t0 : Trade := mkTrade 77 "NABIL" 100 901 902 "ann" "bob" 10 Buy 1000.
Definition j0 : Journal := post (legs t0) ∅.
Definition cf : Config := mkConfig "wal" 0 "".
Definition sv0 : Server :=
  match Node.start cf (Some j0) ∅ with Good sv => sv | Fails _ => mkServer RegistryDemo.st0 None ∅ end.

(** The node opens a symbol and commits the batch of [RegistryDemo]. *)
Definition st1 : State := RegistryDemo.fallback (sv_venue sv0) (Get id "NABIL" (sv_venue sv0)).
Definition traded := venue_commit id 7 "NABIL" RegistryDemo.orders st1.
Definition st2 : State := match traded with Ok (st, _, _) => st | _ => st1 end.
Definition T : list Trade := match traded with Ok (_, ps, _) => concat (p_trades <$> ps) | _ => [] end.

Lemma t0_settleable : Forall settleable [t0].
Proof. apply Forall_singleton. split; vm_compute; try reflexivity; discriminate. Qed.

Lemma j0_holds : holds_trades [t0] [t0] j0.
Proof.
  assert (Hid : identified [t0]) by (by intros t u ->%list_elem_of_singleton ->%list_elem_of_singleton).
  assert (He : holds_trades [t0] [] ∅) by (split; [intros t Ht; by apply elem_of_nil in Ht|apply NoDup_nil_2|by rewrite map_to_list_empty]).
  exact (post_trade [t0] [] ∅ t0 Hid (proj2 (list_elem_of_singleton t0 t0) eq_refl) He).
Qed.

Lemma sv0_started : Node.start cf (Some j0) ∅ = Good sv0.
Proof. vm_compute. reflexivity. Qed.

Lemma cf_plain : plain cf.
Proof. by split. Qed.

Lemma st2_lives : lives (sv_venue sv0) T st2.
Proof.
  destruct (start_spec [t0] [t0] cf j0 ∅ sv0 cf_plain t0_settleable j0_holds sv0_started) as (Hf & _ & _).
  assert (Hrec : recoverable "NABIL" (dir_at "NABIL" (sv_venue sv0))) by (left; vm_compute; reflexivity).
  destruct (Get_consistent id "NABIL" (sv_venue sv0) (fresh_consistent _ Hf) (fun _ => Hrec)) as (st & r & Hg & Hc & _).
  assert (E1 : st1 = st) by (unfold st1; by rewrite Hg).
  assert (Hq : seqs (registry st1) !! "NABIL"%string = Some RegistryDemo.q1) by (by vm_compute).
  rewrite <- E1 in *.
  destruct (venue_commit_consistent id 7 "NABIL" RegistryDemo.orders st1 RegistryDemo.q1 Hc Hq RegistryDemo.q1_batch RegistryDemo.orders_arrive)
    as (s' & res & ps & _ & Hv & _).
  assert (E2 : traded = Ok (st2, ps, (fun ts => ("NABIL"%string, ts)) <$> ap_published res) /\ T = concat (p_trades <$> ps)).
  { unfold st2, T, traded. rewrite Hv. split; reflexivity. }
  destruct E2 as [E2 ->].
  exact (lives_commit _ id 7 "NABIL" RegistryDemo.orders RegistryDemo.q1 [] st1 st2 ps _
    (lives_get _ id "NABIL" [] (sv_venue sv0) st1 r (lives_start _) Hrec Hg) Hq RegistryDemo.q1_batch RegistryDemo.orders_arrive E2).
Qed.
End NodeDemo.

(** The node dies before its trade is settled; the next one is short of that trade. *)
Lemma node_restarts_witness :
  eq64 (Cash "ann" (accounts (sv_venue NodeDemo.sv0)) + sumZ (cash_flow "ann") NodeDemo.T) (Cash "ann" (accounts NodeDemo.st2)) /\
  length NodeDemo.T = 1%nat.
Proof.
  split; [|vm_compute; reflexivity].
  exact (proj1 (node_restarts id [NodeDemo.t0] NodeDemo.cf [NodeDemo.t0] NodeDemo.j0 ∅ NodeDemo.sv0 NodeDemo.T NodeDemo.st2
    [NodeDemo.t0] NodeDemo.T NodeDemo.j0 ∅ NodeDemo.sv0 NodeDemo.cf_plain NodeDemo.t0_settleable NodeDemo.j0_holds
    NodeDemo.sv0_started NodeDemo.st2_lives NodeDemo.j0_holds (Permutation_refl _) NodeDemo.sv0_started) "ann").
Defined.
