(* ===== verification/NodeLife.v ===== *)
(** A node's whole life: calls in flight, a crash at any moment, and the start from
    what journal and logs then hold. *)

From Stdlib Require Import ZArith Lia Ascii String.
From stdpp Require Import base gmap list strings sorting.
From S2P Require Import Prelude Types Book BookInv BookSpec BookRefine BookProps.
From S2P Require Import Accounts AccountsInv AccountsSolv AccountsProps WalRecord Sequencer SeqFacts SeqProps.
From S2P Require Import VenueFacts Venue VenueProps Bytes WalFormat SegNames Wal WalDir WalLaw WalStep WalRecover WalProps.
From S2P Require Import Registry RegistryFacts RegistryProps VenueFlow Status Messages Ledger LedgerFacts LedgerRead Feed Server ServerFacts ServerProps.
From S2P Require Import Typed TypedVenue Handlers HandlersProps Node NodeProps.

Open Scope Z_scope.

Lemma start_ledger cf j dk sv : start cf j dk = Good sv -> sv_ledger sv = j.
Proof. unfold start. destruct (rebuild j); cbn [mbind result_bind]; [|done]. by intros [= <-]. Qed.

Section Life.
Context `{CodecLaws}.
Context (now : Z -> Z) (patient reliable : bool).

(** What a crash now would cost the ledger. *)
Definition unsettled (G F : list Trade) (c : Calls) : list Trade := held (cl_stages c) ++ G ++ F.

(** A process, and the one started from what it left. *)
Lemma next_life cf T0 J0 j0 dk0 sv0 X G F c j dk1 sv1 : plain cf ->
  start cf (Some j0) dk0 = Good sv0 -> generations T0 (sv_venue sv0) -> holds_trades T0 J0 j0 ->
  process now patient reliable (mkCalls sv0 ∅) X G F c -> sv_ledger (cl_server c) = Some j ->
  start cf (Some j) dk1 = Good sv1 -> restarted (sv_venue (cl_server c)) (sv_venue sv1) ->
  generations (T0 ++ X) (sv_venue sv1) /\
  (forall ac, eq64 (Cash ac (accounts (sv_venue sv1)) + sumZ (cash_flow ac) (unsettled G F c))
                   (Cash ac (accounts (sv_venue (cl_server c))))) /\
  (forall ac sy, eq64 (Position ac sy (accounts (sv_venue sv1)) + sumZ (share_flow ac sy) (unsettled G F c))
                      (Position ac sy (accounts (sv_venue (cl_server c))))) /\
  (exists J1, holds_trades (T0 ++ X) J1 j /\ J1 ++ unsettled G F c ≡ₚ J0 ++ X) /\
  (patient = true -> reliable = true -> cl_stages c = ∅ -> unsettled G F c = []) /\
  (forall symbol s, seqs (registry (sv_venue (cl_server c))) !! symbol = Some s -> script (dir_at symbol (sv_venue sv1)) = [] ->
     exists st1 s1, Get now symbol (sv_venue sv1) = Ok (st1, Good s1) /\ sq_book s1 = sq_book s /\ sq_seq s1 = sq_seq s /\
       forall id, holds (accounts st1) !! (symbol, id) = holds (accounts (sv_venue (cl_server c))) !! (symbol, id)).
Proof.
  intros Hcf Hst0 Hg Hj0 Hproc Hl Hst1 Hrs.
  assert (Hset : forall T st, generations T st -> Forall settleable T).
  { intros T st HT. destruct (generations_ok T st HT) as [_ _ _ Hty _]. eapply Forall_impl; [exact Hty|].
    intros t Ht. exact (typed_settleable _ _ Ht). }
  destruct (start_spec T0 J0 cf j0 dk0 sv0 Hcf (Hset _ _ Hg) Hj0 Hst0) as (_ & _ & Hm0).
  pose proof (start_ledger _ _ _ _ Hst0) as Hl0.
  destruct (process_spec now patient reliable T0 J0 j0 (mkCalls sv0 ∅) X G F c Hg eq_refl Hl0 Hj0 Hproc)
    as [Hg' Hm _ (j' & P & Hl' & Hj' & HX) Hp Hr].
  rewrite Hl in Hl'. injection Hl' as <-.
  destruct (start_spec (T0 ++ X) (P ++ J0) cf j dk1 sv1 Hcf (Hset _ _ Hg') Hj' Hst1) as (_ & _ & [Hc1 Hp1]).
  destruct (moved_trans _ _ _ _ _ Hm0 Hm) as [Hc2 Hp2]. cbn [cl_server] in *.
  assert (Hperm : (P ++ J0) ++ unsettled G F c ≡ₚ J0 ++ X) by (unfold unsettled; rewrite HX; solve_Permutation).
  split_and!.
  - by apply (gen_restart _ (sv_venue (cl_server c))).
  - intros ac. rewrite Hc2, Hc1, <- Hperm. autorewrite with sums. apply eq64_of_eq. lia.
  - intros ac sy. rewrite Hp2, Hp1, <- Hperm. autorewrite with sums. apply eq64_of_eq. lia.
  - by exists (P ++ J0).
  - intros Hpt Hrl He. unfold unsettled. rewrite (Hp Hpt), (Hr Hrl), He. unfold held. by rewrite map_to_list_empty.
  - intros symbol s Hs Hsc. destruct (rs_open _ _ Hrs symbol s Hs) as (w & Hw & He & Hcr).
    destruct (reopen_symbol now _ symbol s w (sv_venue sv1) (go_consistent _ _ (generations_ok _ _ Hg')) Hs Hw He (rs_fresh _ _ Hrs) Hcr Hsc)
      as (st1 & s1 & Hget & _ & Hb & Hq & Hh & _). by exists st1, s1.
Qed.

(** What a crash costs. A node starts from its journal, serves calls in any
    interleaving and dies at any moment. The node started from what is left, whatever
    the crash did to the files, has of the balances exactly the dead node's less the
    flows of the trades not settled by then: those some call still held, those nobody
    heard of, and those the ledger refused. Nothing is lost if nobody left, the
    database answered and no call was open. Every symbol that was open opens again
    with its book, its position and its reservations, and trade identities stay
    distinct across both lives. *)
Theorem crash_costs_unsettled cf T0 J0 j0 dk0 sv0 X G F c j dk1 sv1 : plain cf ->
  start cf (Some j0) dk0 = Good sv0 -> generations T0 (sv_venue sv0) -> holds_trades T0 J0 j0 ->
  process now patient reliable (mkCalls sv0 ∅) X G F c -> sv_ledger (cl_server c) = Some j ->
  start cf (Some j) dk1 = Good sv1 -> restarted (sv_venue (cl_server c)) (sv_venue sv1) ->
  generations (T0 ++ X) (sv_venue sv1) /\
  (forall ac, eq64 (Cash ac (accounts (sv_venue sv1)) + sumZ (cash_flow ac) (unsettled G F c))
                   (Cash ac (accounts (sv_venue (cl_server c))))) /\
  (forall ac sy, eq64 (Position ac sy (accounts (sv_venue sv1)) + sumZ (share_flow ac sy) (unsettled G F c))
                      (Position ac sy (accounts (sv_venue (cl_server c))))) /\
  (exists J1, holds_trades (T0 ++ X) J1 j /\ J1 ++ unsettled G F c ≡ₚ J0 ++ X) /\
  (patient = true -> reliable = true -> cl_stages c = ∅ -> unsettled G F c = []) /\
  (forall symbol s, seqs (registry (sv_venue (cl_server c))) !! symbol = Some s -> script (dir_at symbol (sv_venue sv1)) = [] ->
     exists st1 s1, Get now symbol (sv_venue sv1) = Ok (st1, Good s1) /\ sq_book s1 = sq_book s /\ sq_seq s1 = sq_seq s /\
       forall id, holds (accounts st1) !! (symbol, id) = holds (accounts (sv_venue (cl_server c))) !! (symbol, id)).
Proof. apply next_life. Qed.
End Life.

(** * Witnesses *)

Module LifeDemo.
Import StoreDemo.

(** The trade of [TypedDemo] is journalled and the process restarted; then "bob" buys
    2 shares back from "ann" and the process dies before the settlement. *)
Definition cf : Config := mkConfig "wal" 0 "".
Definition j0 : Journal := post (TypedDemo.T ≫= legs) ∅.
Definition or_empty (r : Prelude.result start_error Server) : Server :=
  match r with Good sv => sv | Fails _ => mkServer RegistryDemo.st0 None ∅ end.
Definition dk0 : gmap string Dir := {["NABIL"%string := wr_dir TypedDemo.w2]}.
Definition sv0 : Server := or_empty (Node.start cf (Some j0) dk0).
Definition sale : PlaceOrderRequest := mkPlaceOrder "NABIL" "ann" Side_SIDE_SELL OrderType_ORDER_TYPE_LIMIT 99 2.
Definition purchase : PlaceOrderRequest := mkPlaceOrder "NABIL" "bob" Side_SIDE_BUY OrderType_ORDER_TYPE_LIMIT 99 2.
Definition batch : list request := [submit_request (requested sale); submit_request (requested purchase)].

Definition c0 : Calls := mkCalls sv0 ∅.
Definition opened_sv : Server := match place_begin id sale sv0 with Ok (sv, _) => sv | _ => sv0 end.
Definition c1 : Calls := mkCalls opened_sv {[0%nat := Waiting "NABIL" (submit_request (requested sale))]}.
Definition c2 : Calls := mkCalls opened_sv (<[1%nat := Waiting "NABIL" (submit_request (requested purchase))]> (cl_stages c1)).
Definition committed := commit_calls id 7 "NABIL" [0%nat; 1%nat] batch c2.
Definition c3 : Calls := match committed with Ok (c, _, _) => c | _ => c2 end.
Definition X : list Trade := match committed with Ok (_, x, _) => x | _ => [] end.
Definition q1 : Sequencer Writer := default RegistryDemo.q1 (seqs (registry (sv_venue opened_sv)) !! "NABIL"%string).
Definition q3 : Sequencer Writer := default RegistryDemo.q1 (seqs (registry (sv_venue (cl_server c3))) !! "NABIL"%string).
Definition w3 : Writer := default opened (sq_wal q3).
Definition dk1 : gmap string Dir := {["NABIL"%string := wr_dir w3]}.
Definition sv1 : Server := or_empty (Node.start cf (Some j0) dk1).

Lemma started : Node.start cf (Some j0) dk0 = Good sv0 /\ Node.start cf (Some j0) dk1 = Good sv1.
Proof. split; vm_compute; reflexivity. Qed.

Lemma T_settleable : Forall settleable TypedDemo.T.
Proof.
  destruct (generations_ok _ _ TypedDemo.st2_generation) as [_ _ _ Hty _]. eapply Forall_impl; [exact Hty|].
  intros t Ht. exact (typed_settleable _ _ Ht).
Qed.

Lemma life_j0_holds : holds_trades TypedDemo.T TypedDemo.T j0.
Proof.
  destruct (generations_ok _ _ TypedDemo.st2_generation) as [_ _ _ _ Hk].
  assert (He : holds_trades TypedDemo.T [] ∅) by (split; [intros t Ht; by apply elem_of_nil in Ht|apply NoDup_nil_2|by rewrite map_to_list_empty]).
  pose proof (post_new TypedDemo.T TypedDemo.T (keys_identified _ Hk) [] ∅ (fun t Ht => Ht)) as Hp. rewrite app_nil_r in Hp.
  exact (Hp Hk He).
Qed.

Lemma life_cf_plain : plain cf.
Proof. by split. Qed.

Lemma sv0_generation : generations TypedDemo.T (sv_venue sv0).
Proof.
  destruct (start_spec _ _ cf j0 dk0 sv0 life_cf_plain T_settleable life_j0_holds (proj1 started)) as (Hf & Hd & _).
  exact (gen_restart _ _ _ TypedDemo.st2_generation (TypedDemo.next_restarted _ Hf Hd)).
Qed.

Lemma sale_begun : place_begin id sale sv0 = Ok (opened_sv, Good (submit_request (requested sale))).
Proof. vm_compute. reflexivity. Qed.
Lemma purchase_begun : place_begin id purchase opened_sv = Ok (opened_sv, Good (submit_request (requested purchase))).
Proof. vm_compute. reflexivity. Qed.
Lemma life_committed_ok : committed = Ok (c3, X, []).
Proof. vm_compute. reflexivity. Qed.

Lemma life_batch_api : Forall api_request batch.
Proof.
  apply Forall_cons. split; [|apply Forall_singleton]; apply api_submit; try (vm_compute; discriminate);
    apply (bool_decide_unpack _); vm_compute; exact I.
Qed.

Lemma life_batch_carriable : Forall (carriable (W := Writer) 7 "NABIL") batch.
Proof.
  apply Forall_cons. split; [|apply Forall_singleton]; intros i Hi n Hn;
    (split; [done|by vm_compute|split_and!; simpl; try done; split_and!; try done; by vm_compute|done]).
Qed.

Lemma life_batch_fits s : seqs (registry (sv_venue opened_sv)) !! "NABIL"%string = Some s -> batch_ok 7 batch s.
Proof.
  intros Hs. assert (Hq : seqs (registry (sv_venue opened_sv)) !! "NABIL"%string = Some q1) by (vm_compute; reflexivity).
  pose proof (Some_inj _ _ (eq_trans (eq_sym Hq) Hs)) as E. rewrite <- E. split; [|vm_compute; discriminate..|].
  - eapply Forall_impl; [exact life_batch_api|]. intros r Hr. apply (api_arrives r Hr).
  - assert (Esy : sq_symbol q1 = "NABIL"%string) by (vm_compute; reflexivity). rewrite Esy.
    exact life_batch_carriable.
Qed.

Lemma c3_process : process id true true c0 X [] [] c3.
Proof.
  assert (P1 : process id true true c0 [] [] [] c1).
  { apply (process_step id true true c0 [] [] [] c0 [] [] [] c1 (process_start _ _ _ c0)).
    refine (step_place id true true c0 0%nat sale _ _ eq_refl _ sale_begun). vm_compute. discriminate. }
  assert (P2 : process id true true c0 [] [] [] c2).
  { apply (process_step id true true c0 [] [] [] c1 [] [] [] c2 P1).
    refine (step_place id true true c1 1%nat purchase _ _ eq_refl _ purchase_begun). vm_compute. discriminate. }
  apply (process_step id true true c0 [] [] [] c2 X [] [] c3 P2).
  refine (step_commit id true true c2 7 "NABIL" [0%nat; 1%nat] batch _ _ _ _ _ eq_refl life_batch_fits life_committed_ok);
    apply (bool_decide_unpack _); vm_compute; exact I.
Qed.

Lemma ledger_kept : sv_ledger (cl_server c3) = Some j0.
Proof.
  rewrite (commit_calls_ledger _ _ _ _ _ _ _ _ _ life_committed_ok). cbn [c2 cl_server]. rewrite (place_begin_ledger _ _ _ _ _ sale_begun).
  exact (start_ledger _ _ _ _ (proj1 started)).
Qed.

Lemma died : restarted (sv_venue (cl_server c3)) (sv_venue sv1).
Proof.
  destruct (start_spec _ _ cf j0 dk1 sv1 life_cf_plain T_settleable life_j0_holds (proj2 started)) as (Hf & Hd & _).
  assert (Hq : seqs (registry (sv_venue (cl_server c3))) !! "NABIL"%string = Some q3) by (vm_compute; reflexivity).
  assert (Hn : size (seqs (registry (sv_venue (cl_server c3)))) = 1%nat) by (vm_compute; reflexivity).
  assert (Hw : sq_wal q3 = Some w3) by (vm_compute; reflexivity).
  assert (He : sq_walErr q3 = None) by (vm_compute; reflexivity).
  assert (Hk : exists d, Registry.disk (sv_venue (cl_server c3)) !! "NABIL"%string = Some d) by (eexists; vm_compute; reflexivity).
  assert (Hm : size (Registry.disk (sv_venue (cl_server c3))) = 1%nat) by (vm_compute; reflexivity).
  destruct Hk as [d Hk].
  exact (TypedDemo.restarted_one "NABIL" _ _ q3 w3 d Hq Hn Hw He Hk Hm Hf Hd).
Qed.
End LifeDemo.

(** "bob" is 198 richer in the new process than in the one that died, and so is the
    trade that was not settled. *)
Lemma crash_costs_unsettled_witness :
  eq64 (Cash "bob" (accounts (sv_venue LifeDemo.sv1)) + sumZ (cash_flow "bob") (unsettled [] [] LifeDemo.c3))
       (Cash "bob" (accounts (sv_venue (cl_server LifeDemo.c3)))) /\
  sumZ (cash_flow "bob") (unsettled [] [] LifeDemo.c3) = -198.
Proof.
  split; [|vm_compute; reflexivity].
  destruct (crash_costs_unsettled id true true LifeDemo.cf TypedDemo.T TypedDemo.T LifeDemo.j0 LifeDemo.dk0 LifeDemo.sv0
    LifeDemo.X [] [] LifeDemo.c3 LifeDemo.j0 LifeDemo.dk1 LifeDemo.sv1 LifeDemo.life_cf_plain (proj1 LifeDemo.started)
    LifeDemo.sv0_generation LifeDemo.life_j0_holds LifeDemo.c3_process LifeDemo.ledger_kept (proj2 LifeDemo.started)
    LifeDemo.died) as (_ & H & _).
  exact (H "bob").
Defined.
