(* ===== verification/Shutdown.v ===== *)
(** Stopping, from [Close] of [src/internal/oms/sequencer.go] and
    [src/internal/oms/registry.go] and the end of [run] in [src/cmd/server/main.go].

    A sequencer's goroutine ends between two batches, on [Close] or because its context
    was cancelled: it closes its log, and the callers that were still waiting to hand
    over a request are told so. The registry closes every sequencer; what the logs then
    hold is what the next process finds. *)

From Stdlib Require Import ZArith Lia Ascii String.
From stdpp Require Import base gmap list strings sorting.
From S2P Require Import Prelude Types Book BookInv BookSpec BookRefine BookProps.
From S2P Require Import Accounts AccountsInv AccountsSolv AccountsProps WalRecord Sequencer SeqFacts SeqProps.
From S2P Require Import VenueFacts Venue VenueProps SeqRun Bytes WalFormat SegNames Wal WalDir WalInv WalLaw WalStep WalRecover WalProps WalClose.
From S2P Require Import Registry RegistryFacts RegistryProps VenueFlow Status Messages Ledger LedgerFacts LedgerRead Feed Server ServerFacts ServerProps.
From S2P Require Import Typed TypedVenue Handlers HandlersProps Node NodeProps NodeLife.

Open Scope Z_scope.

(** * A sequencer stops *)

(** What the goroutine leaves: the batches it served, each with its replies, the
    requests whose callers [do] sends away, and the closed log. *)
Record exited := mkExited {
  ex_served : list (list request * list reply);
  ex_refused : list (request * oms_error);
  ex_seq : Sequencer Writer;
  ex_accounts : Accounts;
  ex_shutdownErr : option oms_error
}.

(** The two last cases of [run]'s [select]; a caller of [do] finds [done] closed. *)
Definition exit (l : loop Writer) : outcome exited :=
  '(s, e) ← Sequencer_Close (lp_seq l);
  Ok (mkExited (lp_served l) ((fun r => (r, ErrSequencerClosed)) <$> lp_queue l) s (lp_accounts l) e).

Section Stop.
Context `{CodecLaws}.

(** The goroutine from its first turn to its last. *)
Definition goroutine (now : Z -> Z) (turns : list (list request * Z)) (l : loop Writer) : outcome exited :=
  l ← run now turns l; exit l.

(** A sequencer's [Close]: only the log changes, and not its files if no write failed. *)
Lemma Sequencer_Close_spec (s : Sequencer Writer) : running s ->
  exists s' e w w', Sequencer_Close s = Ok (s', e) /\ sq_wal s = Some w /\ sq_wal s' = Some w' /\
    sq_book s' = sq_book s /\ sq_seq s' = sq_seq s /\ sq_walErr s' = sq_walErr s /\
    (sq_walErr s = None -> files (wr_dir w') = files (wr_dir w)).
Proof.
  intros Hrun. destruct (running_wal s Hrun) as [w Hw]. unfold Sequencer_Close. rewrite Hw.
  destruct (Close_total w) as (w' & e & Hc). rewrite Hc. cbn [mbind outcome_bind].
  eexists _, e, w, w'. split; [reflexivity|]. split_and!; try done. intros He.
  pose proof (so_wal s (running_ok s Hrun)) as Hwo. unfold wal_ok in Hwo. rewrite Hw in Hwo. destruct Hwo as (lg & _ & _ & Hall).
  destruct (Hall He) as (_ & Hbuf & Hh & _). destruct (Close_keeps w Hh Hbuf) as (w1 & e1 & Hc1 & Hf & _).
  rewrite Hc in Hc1. by injection Hc1 as <- <-.
Qed.

(** C14: a stopping sequencer answers everyone and loses nothing. Whatever it was sent and
    whenever it is told to stop, it finishes the batch it has: every request was taken
    into a batch and answered, or its caller is told the sequencer is closed, in the
    order they came; the refused ones have touched neither book nor store nor log. The
    close returns whatever the system calls say, and unless a write had failed, any
    later crash still leaves a log that rebuilds the very book and position. *)
Theorem sequencer_stops now turns (l : loop Writer) : ready turns l ->
  exists x l' new, goroutine now turns l = Ok x /\ run now turns l = Ok l' /\
    ex_served x = lp_served l ++ new /\ served_ok new /\
    concat new.*1 ++ (ex_refused x).*1 = lp_queue l ++ concat turns.*1 /\
    Forall (fun p => p.2 = ErrSequencerClosed) (ex_refused x) /\
    sq_book (ex_seq x) = sq_book (lp_seq l') /\ ex_accounts x = lp_accounts l' /\
    exists w, sq_wal (ex_seq x) = Some w /\
      (sq_walErr (ex_seq x) = None -> forall d, crashed (wr_dir w) d ->
         exists last, Recover now d NewBook 0 = Ok (sq_book (ex_seq x), last, None) /\
           (script d = [] -> exists w', (OpenWriter d).2 = Good w' /\ lastSeq w' = sq_seq (ex_seq x))).
Proof.
  intros Hr. destruct (run_ready now turns l Hr) as (l' & Hrun & Hat & new & Hs & Hok & Hq & _).
  unfold goroutine. rewrite Hrun. cbn [mbind outcome_bind]. unfold exit.
  destruct (Sequencer_Close_spec (lp_seq l') (at_running _ _ Hat)) as (s' & e & w & w' & -> & Hw & Hw' & Hb & Hp & He & Hf).
  cbn [mbind outcome_bind]. eexists _, l', new. split; [reflexivity|]. cbn [ex_served ex_refused ex_seq ex_accounts].
  split_and!; try done.
  - by rewrite <- list_fmap_compose, list_fmap_id.
  - by apply Forall_fmap, Forall_forall.
  - exists w'. split; [done|]. rewrite He. intros Hnone d Hcr. apply (crashed_files _ (wr_dir w)) in Hcr; [|by apply Hf].
    destruct (restart_log now (lp_seq l') w d (at_running _ _ Hat) Hw Hnone Hcr) as (last & HR & _ & _ & Ho).
    exists last. rewrite Hb, Hp. split; [done|]. intros Hsc. destruct (OpenWriter d).2 as [w1|]; [|done].
    exists w1. split; [done|]. apply Ho.
Qed.
End Stop.

(** * A node stops *)

Section NodeStop.
Context `{CodecLaws}.

(** The closing loop reaches every sequencer, whichever of them fail to close. *)
Lemma close_all_spec open : forall dk, NoDup open.*1 -> Forall (fun p : string * Sequencer Writer => running p.2) open ->
  exists dk' errs, close_all open dk = Ok (dk', errs) /\ errs.*1 ⊆ open.*1 /\
    (forall symbol s w, (symbol, s) ∈ open -> sq_wal s = Some w -> sq_walErr s = None ->
       exists d, dk' !! symbol = Some d /\ files d = files (wr_dir w)) /\
    (forall symbol, symbol ∉ open.*1 -> dk' !! symbol = dk !! symbol).
Proof.
  induction open as [|[symbol s] open IH]; intros dk Hnd Hrun; cbn [close_all].
  { exists dk, []. split_and!; try done. intros symbol s w Hin. by apply elem_of_nil in Hin. }
  rewrite fmap_cons in Hnd |- *. cbn [fst] in *. apply NoDup_cons in Hnd as [Hni Hnd]. apply Forall_cons in Hrun as [Hr Hrun].
  destruct (Sequencer_Close_spec s Hr) as (s' & e & w & w' & -> & Hw & Hw' & _ & _ & _ & Hf). cbn [mbind outcome_bind]. rewrite Hw'.
  destruct (IH (<[symbol := wr_dir w']> dk) Hnd Hrun) as (dk' & errs & -> & Hsub & Hin & Hout). cbn [mbind outcome_bind].
  eexists _, _. split; [reflexivity|]. split_and!.
  - destruct e; [rewrite fmap_cons; set_solver|set_solver].
  - intros sy s0 w0 [[= -> ->]|Hin0]%elem_of_cons Hw0 He; [|by eapply Hin].
    exists (wr_dir w'). split; [by rewrite Hout, lookup_insert_eq|]. rewrite Hw in Hw0. injection Hw0 as <-. by apply Hf.
  - intros sy Hsy. apply not_elem_of_cons in Hsy as [Hne Hsy]. rewrite Hout by done. by apply lookup_insert_ne.
Qed.

(** [Registry.Close]: nothing stays open, and a log no write of which had failed is
    on disk as it was. *)
Lemma Registry_Close_spec st : consistent st -> exists st' errs, Registry_Close st = Ok (st', errs) /\
  seqs (registry st') = ∅ /\ accounts st' = accounts st /\ errs.*1 ⊆ Symbols st /\
  (forall symbol s w, seqs (registry st) !! symbol = Some s -> sq_wal s = Some w -> sq_walErr s = None ->
     files (dir_at symbol st') = files (wr_dir w)) /\
  (forall symbol, seqs (registry st) !! symbol = None -> dir_at symbol st' = dir_at symbol st).
Proof.
  intros Hc. unfold Registry_Close. destruct (close_all_spec (map_to_list (seqs (registry st))) (disk st)) as (dk & errs & -> & Hsub & Hin & Hout).
  - apply NoDup_fst_map_to_list.
  - apply Forall_forall. intros [symbol s] Hs%elem_of_map_to_list. destruct (co_open _ Hc symbol s Hs) as (_ & _ & Hat). apply Hat.
  - cbn [mbind outcome_bind]. eexists _, errs. split; [reflexivity|]. split_and!; try done.
    + intros symbol s w Hs Hw He. destruct (Hin symbol s w) as (d & Hd & Hf); [by apply elem_of_map_to_list|done|done|].
      unfold dir_at. cbn [disk]. by rewrite Hd.
    + intros symbol Hs. unfold dir_at. cbn [disk]. rewrite Hout; [done|].
      intros ([sy s] & -> & Hx%elem_of_map_to_list)%list_elem_of_fmap. cbn [fst] in Hs. congruence.
Qed.

(** The next process over what a closed registry left. *)
Lemma closed_restarted st st' errs st0 : consistent st -> Registry_Close st = Ok (st', errs) ->
  (forall symbol s, seqs (registry st) !! symbol = Some s -> sq_walErr s = None) ->
  fresh_state st0 -> disk st0 = disk st' -> restarted st st0.
Proof.
  intros Hc Hcl He Hf Hd. destruct (Registry_Close_spec st Hc) as (st1 & errs1 & Hcl1 & _ & _ & _ & Hin & Hout).
  rewrite Hcl in Hcl1. injection Hcl1 as <- <-.
  assert (Hdir : forall symbol, dir_at symbol st0 = dir_at symbol st') by (intros symbol; unfold dir_at; by rewrite Hd).
  split; [done| |].
  - intros symbol s Hs. destruct (co_open _ Hc symbol s Hs) as (_ & _ & Hat). destruct (running_wal s (at_running _ _ Hat)) as [w Hw].
    exists w. split_and!; [done|by eapply He|]. rewrite Hdir. intros name. rewrite (Hin symbol s w Hs Hw (He symbol s Hs)).
    apply (WalDemo.crashed_refl (wr_dir w)).
  - intros symbol Hs. rewrite Hdir. by apply Hout.
Qed.

(** A graceful restart loses nothing. A node serves calls in any interleaving, its
    database answering and no caller leaving an order in flight, until a signal; when
    its calls are drained, [shutdown] returns, leaving no symbol open and naming only
    open symbols among its failures. Unless a log had failed, the node started from
    the journal and the closed logs has every account's balances as they were, the
    journal has exactly the trades executed, and each symbol opens with its book, its
    position and its reservations. *)
Theorem graceful_restart_exact now cf T0 J0 j0 dk0 sv0 X G F c : plain cf ->
  start cf (Some j0) dk0 = Good sv0 -> generations T0 (sv_venue sv0) -> holds_trades T0 J0 j0 ->
  process now true true (mkCalls sv0 ∅) X G F c -> cl_stages c = ∅ ->
  exists sv errs j, shutdown (cl_server c) = Ok (sv, errs) /\ seqs (registry (sv_venue sv)) = ∅ /\
    errs.*1 ⊆ Symbols (sv_venue (cl_server c)) /\ sv_ledger sv = Some j /\ holds_trades (T0 ++ X) (X ++ J0) j /\
    forall sv1, (forall symbol s, seqs (registry (sv_venue (cl_server c))) !! symbol = Some s -> sq_walErr s = None) ->
      start cf (Some j) (disk (sv_venue sv)) = Good sv1 ->
      generations (T0 ++ X) (sv_venue sv1) /\
      (forall ac, eq64 (Cash ac (accounts (sv_venue sv1))) (Cash ac (accounts (sv_venue (cl_server c))))) /\
      (forall ac sy, eq64 (Position ac sy (accounts (sv_venue sv1))) (Position ac sy (accounts (sv_venue (cl_server c))))) /\
      (forall symbol s, seqs (registry (sv_venue (cl_server c))) !! symbol = Some s -> script (dir_at symbol (sv_venue sv1)) = [] ->
         exists st1 s1, Get now symbol (sv_venue sv1) = Ok (st1, Good s1) /\ sq_book s1 = sq_book s /\ sq_seq s1 = sq_seq s /\
           forall id, holds (accounts st1) !! (symbol, id) = holds (accounts (sv_venue (cl_server c))) !! (symbol, id)).
Proof.
  intros Hcf Hst0 Hg Hj0 Hproc Hempty. pose proof (start_ledger _ _ _ _ Hst0) as Hl0.
  destruct (process_spec now true true T0 J0 j0 (mkCalls sv0 ∅) X G F c Hg eq_refl Hl0 Hj0 Hproc)
    as [Hg' _ _ (j & P & Hl & Hj & HX) Hp Hr]. rewrite (Hp eq_refl), (Hr eq_refl), Hempty in HX.
  unfold held in HX. rewrite map_to_list_empty in HX. cbn [mbind list_bind app] in HX. rewrite app_nil_r in HX.
  pose proof (go_consistent _ _ (generations_ok _ _ Hg')) as Hc.
  destruct (Registry_Close_spec _ Hc) as (st' & errs & Hcl & Hnil & _ & Hsub & _).
  exists (set_venue st' (cl_server c)), errs, j. unfold shutdown. rewrite Hcl. cbn [mbind outcome_bind]. split_and!; try done.
  { apply (holds_perm _ (P ++ J0)); [by rewrite HX|done]. }
  intros sv1 Hwe Hst1. cbn [set_venue sv_venue] in Hst1.
  assert (Hfresh : fresh_state (sv_venue sv1) /\ disk (sv_venue sv1) = disk st').
  { destruct (start_spec (T0 ++ X) (P ++ J0) cf j (disk st') sv1 Hcf) as (Hf & Hd & _); try done.
    destruct (generations_ok _ _ Hg') as [_ _ _ Hty _]. eapply Forall_impl; [exact Hty|]. intros t Ht. exact (typed_settleable _ _ Ht). }
  pose proof (closed_restarted _ _ _ _ Hc Hcl Hwe (proj1 Hfresh) (proj2 Hfresh)) as Hrs.
  destruct (next_life now true true cf T0 J0 j0 dk0 sv0 X G F c j (disk st') sv1 Hcf Hst0 Hg Hj0 Hproc Hl Hst1 Hrs)
    as (G1 & G2 & G3 & _ & G5 & G6). rewrite (G5 eq_refl eq_refl Hempty) in G2, G3.
  split_and!; [done| | |done].
  - intros ac. specialize (G2 ac). autorewrite with sums in G2. by rewrite Z.add_0_r in G2.
  - intros ac sy. specialize (G3 ac sy). autorewrite with sums in G3. by rewrite Z.add_0_r in G3.
Qed.
End NodeStop.

(** * Witnesses *)

Module ShutdownDemo.
Import StoreDemo LifeDemo.

(** The two calls of [LifeDemo] settle, and the node stops. *)
Definition resp_of (i : nat) (c : Calls) : OrderResponse :=
  match cl_stages c !! i with Some (Settling resp) => resp | _ => mkOrderResponse 0 0 [] [] 0 end.
Definition settled (i : nat) (c : Calls) := place_settle [] (resp_of i c) (cl_server c).
Definition after (i : nat) (c : Calls) : Calls := mkCalls (settled i c).1.1 (delete i (cl_stages c)).
Definition c4 : Calls := after 0 c3.
Definition c5 : Calls := after 1 c4.

Lemma settles i c c' X F : process id true true c X [] F c' -> cl_stages c' !! i = Some (Settling (resp_of i c')) ->
  exists F', process id true true c X [] F' (after i c').
Proof.
  intros Hp Hi. destruct (settled i c') as [[sv label] res] eqn:Es.
  pose proof (step_settle id true true c' i (resp_of i c') [] sv label res (fun _ => eq_refl) Hi Es) as Hs.
  pose proof (process_step id true true c X [] F c' _ _ _ _ Hp Hs) as H. rewrite !app_nil_r in H.
  unfold after. rewrite Es. by eexists.
Qed.

Lemma c5_process : exists F, process id true true c0 X [] F c5.
Proof.
  destruct (settles 0 c0 c3 X [] c3_process) as [F H4]; [vm_compute; reflexivity|].
  exact (settles 1 c0 c4 X F H4 ltac:(vm_compute; reflexivity)).
Qed.

(** The sequencer of [RegistryDemo], with two callers waiting to hand over. *)
Definition loop0 : loop Writer := mkLoop TypedDemo.batch RegistryDemo.q1 (accounts RegistryDemo.st1) [].

Lemma loop0_ready : ready [] loop0.
Proof.
  destruct RegistryDemo.st1_reachable as [Hr Hq]. destruct (co_open _ (venue_reachable_consistent _ Hr) _ _ Hq) as (_ & _ & Hat).
  split; [exact Hat| |by intros ts Hts%elem_of_nil|vm_compute; discriminate..].
  rewrite app_nil_r. eapply Forall_impl; [exact TypedDemo.batch_api|apply api_arrives].
Qed.
End ShutdownDemo.

(** A stop before anything is taken: both callers are sent away. *)
Lemma sequencer_stops_witness : exists x, goroutine id [] ShutdownDemo.loop0 = Ok x /\ length (ex_refused x).*1 = 2%nat.
Proof.
  destruct (sequencer_stops id [] ShutdownDemo.loop0 ShutdownDemo.loop0_ready) as (x & l' & new & H1 & H2 & H3 & H4 & H5 & _).
  exists x. split; [exact H1|].
  assert (E : match goroutine id [] ShutdownDemo.loop0 with Ok x => length (ex_refused x).*1 | _ => 0%nat end = 2%nat)
    by (vm_compute; reflexivity). rewrite H1 in E. exact E.
Defined.

Lemma graceful_restart_exact_witness : exists sv errs, shutdown (cl_server ShutdownDemo.c5) = Ok (sv, errs) /\
  seqs (registry (sv_venue sv)) = ∅ /\ length LifeDemo.X = 1%nat.
Proof.
  destruct ShutdownDemo.c5_process as [F Hp].
  destruct (graceful_restart_exact id LifeDemo.cf TypedDemo.T TypedDemo.T LifeDemo.j0 LifeDemo.dk0 LifeDemo.sv0 LifeDemo.X [] F
    ShutdownDemo.c5 LifeDemo.life_cf_plain (proj1 LifeDemo.started) LifeDemo.sv0_generation LifeDemo.life_j0_holds Hp ltac:(vm_compute; reflexivity))
    as (sv & errs & j & H1 & H2 & _).
  exists sv, errs. split; [exact H1|]. split; [exact H2|]. vm_compute. reflexivity.
Defined.
