(* ===== verification/NodeRun.v ===== *)
(** A node from start to exit, from [run] of [src/cmd/server/main.go].

    [boot] is [run] up to serving: every step that can refuse, in its order. [finish] is
    what it does once serving ends, by a signal or because the listener failed. What
    lies between is the calls of [Handlers]. *)

From Stdlib Require Import ZArith Lia Ascii String.
From stdpp Require Import base gmap list strings.
From S2P Require Import Prelude Types Book BookInv BookSpec BookRefine BookProps.
From S2P Require Import Accounts AccountsInv AccountsSolv AccountsProps WalRecord Sequencer SeqFacts SeqProps.
From S2P Require Import VenueFacts Venue VenueProps SeqRun Bytes WalFormat SegNames Wal WalDir WalInv WalLaw WalStep WalRecover WalProps.
From S2P Require Import Registry RegistryFacts RegistryProps VenueFlow Status Messages Replication Ledger LedgerFacts LedgerRead Migrations Feed Server ServerFacts ServerProps.
From S2P Require Import Typed TypedVenue Handlers HandlersProps Node NodeProps NodeLife Shutdown.

Open Scope Z_scope.

(** Setting up tracing, from [src/internal/tracing/tracing.go]. What the OpenTelemetry
    library answers is an argument; the sampling fraction, which only it looks at, is left
    out. *)
Module Tracing.
Definition ServiceName : string := "dhukuti-oms".

Inductive tracing_error := ErrExporter | ErrResource.

(** What [Setup] installs: where spans go, and what they say of this node. *)
Record Provider := mkProvider { pv_endpoint : string; pv_service : string; pv_environment : string }.

(** [Setup]: [None] is the no-op that an empty endpoint gets. [exporter] and [merged] say
    whether the exporter is created and the two resources merge. *)
Definition Setup (endpoint environment : string) (exporter merged : bool) : result tracing_error (option Provider) :=
  if bool_decide (endpoint = "") then Good None
  else if negb exporter then Fails ErrExporter
  else if negb merged then Fails ErrResource
  else Good (Some (mkProvider endpoint ServiceName environment)).

(** Nothing is installed but for an endpoint, and then what was asked for; without one,
    nothing can go wrong. *)
Lemma Setup_spec endpoint environment exporter merged :
  match Setup endpoint environment exporter merged with
  | Good None => endpoint = ""%string
  | Good (Some p) => endpoint <> ""%string /\ p = mkProvider endpoint ServiceName environment /\ exporter = true /\ merged = true
  | Fails _ => endpoint <> ""%string /\ exporter && merged = false
  end.
Proof. unfold Setup. case_bool_decide; [done|]. destruct exporter, merged; by split_and?. Qed.
End Tracing.
Import Tracing.

(** The flags that decide what a node is made of. *)
Record ServerFlags := mkServerFlags {
  fl_config : Config;
  fl_dsn : string;
  fl_metricsAddr : string;
  fl_otlpAddr : string;
  fl_otlpEnv : string
}.

(** What the rest of the world answers a starting node: whether the database is
    reached, the migrations in the binary and the answers of the calls that apply
    them, whether the balances can be read, whether the trace exporter is
    created and its resources merge, and whether the address is free. *)
Record World := mkWorld {
  wo_open : bool;
  wo_entries : list (string * bool);
  wo_migrate : list DbRes;
  wo_balances : bool;
  wo_exporter : bool;
  wo_resource : bool;
  wo_listen : bool
}.

Inductive run_error :=
| ErrOpenLedger
| ErrMigrate (e : ledger_error)
| ErrTracing (e : tracing_error)
| ErrStart (e : start_error)
| ErrListen
| ErrServe
| ErrClosing (errs : list (string * oms_error)).

Record Db := mkDb { db_schema : Schema; db_journal : Journal }.

(** A node that serves. Replication keeps its followers' progress, which is also where
    the metrics read the lag. *)
Record Running := mkRunning {
  rn_server : Server;
  rn_repl : option (gmap string followerProgress);
  rn_metrics : bool
}.

(** The ledger, if there is to be one. *)
Definition open_settle (fl : ServerFlags) (wo : World) (db : Db) : Db * result run_error (option Journal) :=
  if bool_decide (fl_dsn fl = "") then (db, Good None) else
  if negb (wo_open wo) then (db, Fails ErrOpenLedger) else
  match Migrate (wo_entries wo) (wo_migrate wo) (db_schema db) with
  | (s, Some e) => (mkDb s (db_journal db), Fails (ErrMigrate e))
  | (s, None) => (mkDb s (db_journal db), Good (Some (db_journal db)))
  end.

Definition boot (fl : ServerFlags) (wo : World) (db : Db) (dk : gmap string Dir) : Db * result run_error Running :=
  match open_settle fl wo db with
  | (db, Fails e) => (db, Fails e)
  | (db, Good settle) =>
      (db,
       match Setup (fl_otlpAddr fl) (fl_otlpEnv fl) (wo_exporter wo) (wo_resource wo) with
       | Fails e => Fails (ErrTracing e)
       | Good _ =>
       if bool_decide (is_Some settle) && negb (wo_balances wo) then Fails (ErrStart (ErrRebuild ErrDatabase)) else
       match Node.start (fl_config fl) settle dk with
       | Fails e => Fails (ErrStart e)
       | Good sv =>
           let repl := if bool_decide (cf_walDir (fl_config fl) = "") then None else Some (∅ : gmap string followerProgress) in
           if negb (wo_listen wo) then Fails ErrListen else
           Good (mkRunning sv repl (negb (bool_decide (fl_metricsAddr fl = ""))))
       end
       end)
  end.

(** How serving ends, and whether [Serve] then has no error to return. *)
Inductive ending := ServeEnds (ok : bool) | Signalled (ok : bool).
Definition serve_ok (e : ending) : bool := match e with ServeEnds ok | Signalled ok => ok end.

(** A listener that fails returns at once, its logs left open. After a signal the
    requests are drained, or cut off, and the registry is closed. *)
Definition finish (e : ending) (sv : Server) : outcome (Server * option run_error) :=
  match e with
  | ServeEnds ok => Ok (sv, if ok then None else Some ErrServe)
  | Signalled ok =>
      '(sv, errs) ← shutdown sv;
      Ok (sv, match errs with [] => if ok then None else Some ErrServe | _ => Some (ErrClosing errs) end)
  end.

(** * Starting *)

Lemma applied_recorded names : forall calls db rest db', migrate_loop names calls db = (rest, db', None) ->
  Migrations.recorded db ⊆ Migrations.recorded db' /\ names ⊆ Migrations.recorded db'.
Proof.
  induction names as [|name names IH]; intros calls db rest db'; cbn [migrate_loop]; [intros [= <- <-]; split; set_solver|].
  pose proof (applyMigration_spec name calls db) as Hs. destruct (applyMigration name calls db) as [[c1 db1] [e|]]; [done|].
  destruct Hs as (_ & Hr & Hin & _). specialize (Hin eq_refl). intros Hl. destruct (IH _ _ _ _ Hl) as [H1 H2].
  assert (Migrations.recorded db ⊆ Migrations.recorded db1) by (destruct Hr as [[-> _]|(_ & -> & _)]; set_solver). split; set_solver.
Qed.

Lemma Migrate_recorded entries calls db db' : Migrate entries calls db = (db', None) -> migrationNames entries ⊆ Migrations.recorded db'.
Proof.
  unfold Migrate. destruct (create_table calls db) as [[c1 db1] [e|]]; [done|].
  destruct (migrate_loop _ c1 db1) as [[c2 db2] e2] eqn:Hm. intros [= <- ->]. by eapply applied_recorded.
Qed.

Lemma open_settle_spec fl wo db : let '(db', r) := open_settle fl wo db in
  db_journal db' = db_journal db /\
  match r with
  | Good None => fl_dsn fl = ""%string /\ db' = db
  | Good (Some j) => fl_dsn fl <> ""%string /\ wo_open wo = true /\ j = db_journal db /\ migrationNames (wo_entries wo) ⊆ Migrations.recorded (db_schema db')
  | Fails _ => fl_dsn fl <> ""%string
  end.
Proof.
  unfold open_settle. case_bool_decide as Hd; [done|]. destruct (wo_open wo); [|done]. cbn [negb].
  destruct (Migrate _ _ _) as [s [e|]] eqn:Hm; [done|]. split_and!; try done. by eapply Migrate_recorded.
Qed.

Lemma start_shape cf settle dk sv : Node.start cf settle dk = Good sv ->
  sv_ledger sv = settle /\ disk (sv_venue sv) = dk /\ seqs (registry (sv_venue sv)) = ∅ /\ rg_walDir (registry (sv_venue sv)) = cf_walDir cf.
Proof. unfold Node.start. destruct (rebuild settle); cbn [mbind result_bind]; [|done]. by intros [= <-]. Qed.

(** What a node that serves has been through. *)
Record booted (fl : ServerFlags) (wo : World) (db db' : Db) (dk : gmap string Dir) (rn : Running) : Prop := {
  bt_start : Node.start (fl_config fl) (sv_ledger (rn_server rn)) dk = Good (rn_server rn);
  bt_ledger : sv_ledger (rn_server rn) = if bool_decide (fl_dsn fl = "") then None else Some (db_journal db);
  bt_schema : fl_dsn fl <> ""%string -> migrationNames (wo_entries wo) ⊆ Migrations.recorded (db_schema db');
  bt_answers : (fl_otlpAddr fl <> ""%string -> wo_exporter wo = true /\ wo_resource wo = true) /\ wo_listen wo = true /\ (fl_dsn fl <> ""%string -> wo_open wo = true /\ wo_balances wo = true);
  bt_untouched : disk (sv_venue (rn_server rn)) = dk /\ seqs (registry (sv_venue (rn_server rn))) = ∅;
  bt_repl : rn_repl rn = if bool_decide (cf_walDir (fl_config fl) = "") then None else Some ∅
}.

Lemma boot_spec fl wo db dk : let '(db', r) := boot fl wo db dk in
  db_journal db' = db_journal db /\ match r with Good rn => booted fl wo db db' dk rn | Fails _ => True end.
Proof.
  unfold boot. pose proof (open_settle_spec fl wo db) as Hs. destruct (open_settle fl wo db) as [db' [settle|e]]; [|by destruct Hs].
  destruct Hs as [Hj Hs]. split; [done|]. pose proof (Setup_spec (fl_otlpAddr fl) (fl_otlpEnv fl) (wo_exporter wo) (wo_resource wo)) as Ht.
  destruct (Setup _ _ _ _) as [prov|et]; [|done].
  assert (Ht' : fl_otlpAddr fl <> ""%string -> wo_exporter wo = true /\ wo_resource wo = true)
    by (intros Hne; destruct prov; [split; apply Ht|done]).
  destruct (bool_decide (is_Some settle) && negb (wo_balances wo)) eqn:Hb; [done|].
  destruct (Node.start (fl_config fl) settle dk) as [sv|e] eqn:Hst; [|done]. destruct (wo_listen wo) eqn:Hl; [|done]. cbn [negb].
  destruct (start_shape _ _ _ _ Hst) as (Hsl & Hd & Hq & _).
  split; cbn [rn_server rn_repl]; rewrite ?Hsl; try done.
  - destruct settle as [j|]; [destruct Hs as (Hne & _ & -> & _); by rewrite bool_decide_false|destruct Hs as [He _]; by rewrite bool_decide_true].
  - destruct settle as [j|]; [by destruct Hs as (_ & _ & _ & ?)|by destruct Hs].
  - split_and!; try done. intros Hne. destruct settle as [j|]; [|by destruct Hs]. destruct Hs as (_ & Ho & _). split; [done|].
    rewrite bool_decide_true in Hb by done. by destruct (wo_balances wo).
Qed.

(** * A life *)

Section Run.
Context `{CodecLaws}.

(** What is on disk when a node has ended and its successor starts: the closed logs, or
    after a failed listener whatever a crash may leave of the open ones. *)
Definition left_on_disk (e : ending) (c : Calls) (sv : Server) (dk : gmap string Dir) : Prop :=
  match e with
  | Signalled _ => dk = disk (sv_venue sv)
  | ServeEnds _ => forall symbol,
      match seqs (registry (sv_venue (cl_server c))) !! symbol with
      | Some s => forall w, sq_wal s = Some w -> crashed (wr_dir w) (default (mkDir ∅ []) (dk !! symbol))
      | None => default (mkDir ∅ []) (dk !! symbol) = dir_at symbol (sv_venue (cl_server c))
      end
  end.

Lemma left_restarted e c sv res dk st0 : consistent (sv_venue (cl_server c)) -> finish e (cl_server c) = Ok (sv, res) ->
  left_on_disk e c sv dk -> (forall symbol s, seqs (registry (sv_venue (cl_server c))) !! symbol = Some s -> sq_walErr s = None) ->
  fresh_state st0 -> disk st0 = dk -> restarted (sv_venue (cl_server c)) st0.
Proof.
  intros Hc Hfin Hleft He Hf Hd. destruct e as [ok|ok]; cbn [finish left_on_disk] in *.
  - split; [done| |].
    + intros symbol s Hs. specialize (Hleft symbol). rewrite Hs in Hleft. destruct (co_open _ Hc symbol s Hs) as (_ & _ & Hat).
      destruct (running_wal s (at_running _ _ Hat)) as [w Hw]. exists w. split_and!; [done|by eapply He|].
      unfold dir_at. rewrite Hd. by apply Hleft.
    + intros symbol Hs. specialize (Hleft symbol). rewrite Hs in Hleft. unfold dir_at at 1. by rewrite Hd.
  - unfold shutdown in Hfin. destruct (Registry_Close _) as [[st' errs]| |] eqn:Hcl; try done. cbn [mbind outcome_bind] in Hfin.
    injection Hfin as <- _. subst dk. by eapply closed_restarted.
Qed.

Lemma finish_total e c : consistent (sv_venue (cl_server c)) -> exists sv res, finish e (cl_server c) = Ok (sv, res) /\
  (res = None -> serve_ok e = true /\ (e = Signalled true -> shutdown (cl_server c) = Ok (sv, []))) /\
  (forall errs, res = Some (ErrClosing errs) -> errs <> [] /\ errs.*1 ⊆ Symbols (sv_venue (cl_server c))).
Proof.
  intros Hc. destruct e as [ok|ok]; cbn [finish serve_ok].
  - eexists _, _. split; [reflexivity|]. by destruct ok.
  - destruct (Registry_Close_spec _ Hc) as (st' & errs & Hcl & _ & _ & Hsub & _). unfold shutdown. rewrite Hcl. cbn [mbind outcome_bind].
    eexists _, _. split; [reflexivity|]. destruct errs as [|p errs]; [by destruct ok|]. split; [done|]. by intros errs0 [= <-].
Qed.

End Run.

(** * Witnesses *)

Module RunDemo.
Import StoreDemo LifeDemo ShutdownDemo.

Definition flags : ServerFlags := mkServerFlags cf "postgres://" "" "" "dev".
Definition good : World := mkWorld true [("0001_journal.sql"%string, false)] [] true true true true.
Definition db0 : Db := mkDb (mkSchema false [] []) j0.
Definition node : Running := mkRunning sv0 (Some ∅) false.

Lemma boots : exists db', boot flags good db0 dk0 = (db', Good node).
Proof. eexists. vm_compute. reflexivity. Qed.
End RunDemo.


(** * A node without logs *)

Module VolatileDemo.
Import StoreDemo.

(** The flags allow a ledger without a log. In one life "acct-0" sells 3 shares at 500 to
    "acct-1", in the next 7 at 900. *)
Definition flags : ServerFlags := mkServerFlags (mkConfig "" 2 "NABIL") "postgres://" "" "" "dev".
Definition order_of (account : string) (side price q : Z) : PlaceOrderRequest :=
  mkPlaceOrder "NABIL" account side OrderType_ORDER_TYPE_LIMIT price q.

(** One life: boot, a sale, a purchase; the answer and the journal left. *)
Definition life (price q : Z) (db : Db) : option (string * Db) :=
  match boot flags RunDemo.good db ∅ with
  | (db', Good rn) =>
      match PlaceOrder id 7 (Served [] []) [] (order_of "acct-0" Side_SIDE_SELL price q) (rn_server rn) with
      | Ok (sv, _, _) =>
          match PlaceOrder id 7 (Served [] []) [] (order_of "acct-1" Side_SIDE_BUY price q) sv with
          | Ok (sv, label, Good resp) => if bool_decide (pr_Trades resp = []) then None else
              (fun j => (label, mkDb (db_schema db') j)) <$> sv_ledger sv
          | _ => None
          end
      | _ => None
      end
  | _ => None
  end.
Definition db0 : Db := mkDb (mkSchema false [] []) ∅.
Definition db1 : Db := match life 500 3 db0 with Some (_, db) => db | None => db0 end.
End VolatileDemo.

(** A node with a ledger and no logs numbers its trades from 1 in every life, and the
    journal takes the trades of the second for those of the first: the order is
    accepted, the trade executed, and nothing is journalled. *)
Example volatile_lives_collide :
  VolatileDemo.life 500 3 VolatileDemo.db0 = Some ("accepted"%string, VolatileDemo.db1) /\
  size (db_journal VolatileDemo.db1) = 4%nat /\
  VolatileDemo.life 900 7 VolatileDemo.db1 = Some ("accepted"%string, VolatileDemo.db1).
Proof. split_and!; vm_compute; reflexivity. Qed.
