(* ===== verification/Loadgen.v ===== *)
(** The load generator, from [src/cmd/loadgen/main.go]: its workers' requests and
    bookkeeping, and the report.

    A worker is a loop over the answers it gets until its context ends. Dialling,
    clocks, rates and formatting are left out; a latency is its nanoseconds. *)

From Stdlib Require Import ZArith Lia Ascii String SpecFloat.
From stdpp Require Import base gmap list strings pretty sorting.
From S2P Require Import Prelude Types Messages Server Node Rand.

Open Scope Z_scope.

(** The flags that matter here. *)
Record Flags := mkFlags {
  lf_workers : nat;
  lf_symbols : string;
  lf_accounts : Z;
  lf_price : Z;
  lf_spread : Z
}.

Record workerResult := mkResult { latencies : list Z; wr_trades : Z; wr_rejected : Z }.

(** What a [PlaceOrder] call comes to: accepted after a latency with some trades,
    refused, or failed because the run has ended. *)
Inductive answer := Accepted (elapsed : Z) (trades : nat) | Rejected | Ended.

Section Worker.
Context `{RandSource G}.
Context (fl : Flags) (symbols : list string).

(** One request, with the draws in the order Go evaluates the literal. *)
Definition next_request (g : G) : outcome (PlaceOrderRequest * G) :=
  '(s, g) ← Intn 2 g;
  let side := if s =? 0 then Side_SIDE_SELL else Side_SIDE_BUY in
  '(k, g) ← Intn (Z.of_nat (length symbols)) g;
  symbol ← deref (symbols !! Z.to_nat k);
  '(who, g) ← Intn (lf_accounts fl) g;
  '(off, g) ← Intn (add64 (mul64 2 (lf_spread fl)) 1) g;
  '(q, g) ← Intn 50 g;
  Ok (mkPlaceOrder symbol ("acct-" ++ pretty who) side OrderType_ORDER_TYPE_LIMIT
        (sub64 (add64 (lf_price fl) off) (lf_spread fl)) (1 + q), g).

(** The loop; the list ends when the context does. Also what was sent. *)
Fixpoint worker (answers : list answer) (res : workerResult) (g : G) : outcome (workerResult * list PlaceOrderRequest) :=
  match answers with
  | [] => Ok (res, [])
  | a :: answers =>
      '(req, g) ← next_request g;
      match a with
      | Ended => Ok (res, [req])
      | Rejected =>
          '(res, sent) ← worker answers (mkResult (latencies res) (wr_trades res) (add64 (wr_rejected res) 1)) g;
          Ok (res, req :: sent)
      | Accepted elapsed trades =>
          '(res, sent) ← worker answers (mkResult (latencies res ++ [elapsed]) (add64 (wr_trades res) (Z.of_nat trades)) (wr_rejected res)) g;
          Ok (res, req :: sent)
      end
  end.
End Worker.

(** * The report *)

(** [float64]. *)
Definition f64_div := SFdiv 53 1024.
Definition f64_mul := SFmul 53 1024.
Definition f64_of_Z (n : Z) : spec_float := binary_normalize 53 1024 n 0 false.

(** [int(f)]: towards zero; what does not fit is what amd64 makes of it. *)
Definition int_of_f64 (f : spec_float) : Z :=
  match f with
  | S754_zero _ => 0
  | S754_finite s m e =>
      let n := Z.shiftl (Zpos m) e in
      let n := if s then - n else n in
      if (MinInt64 <=? n) && (n <=? MaxInt64) then n else MinInt64
  | _ => MinInt64
  end.

(** The percentiles reported; [99.9] is the [float64] nearest to it. *)
Definition p50 : spec_float := f64_of_Z 50.
Definition p95 : spec_float := f64_of_Z 95.
Definition p99 : spec_float := f64_of_Z 99.
Definition p999 : spec_float := f64_div (f64_of_Z 999) (f64_of_Z 10).

Definition percentile (sorted : list Z) (p : spec_float) : outcome Z :=
  if (length sorted =? 0)%nat then Ok 0 else
  let n := Z.of_nat (length sorted) in
  let i := int_of_f64 (f64_mul (f64_div p (f64_of_Z 100)) (f64_of_Z n)) in
  let i := if n <=? i then n - 1 else i in
  if i <? 0 then Panic else deref (sorted !! Z.to_nat i).

(** The numbers printed; [None] is the exit when nothing completed. *)
Record report := mkReport {
  rp_accepted : Z;
  rp_rejected : Z;
  rp_trades : Z;
  rp_percentiles : list Z;
  rp_max : Z
}.

Definition loadgen_report (results : list workerResult) : outcome (option report) :=
  let all := results ≫= latencies in
  let trades := foldl (fun n r => add64 n (wr_trades r)) 0 results in
  let rejected := foldl (fun n r => add64 n (wr_rejected r)) 0 results in
  if (length all =? 0)%nat then Ok None else
  let all := merge_sort Z.le all in
  a ← percentile all p50; b ← percentile all p95; c ← percentile all p99; d ← percentile all p999;
  max ← deref (last all);
  Ok (Some (mkReport (Z.of_nat (length all)) rejected trades [a; b; c; d] max)).

Section Main.
Context `{RandSource G}.

(** [main] from its checks to its report: each worker with its generator and the
    answers it gets. The left error is an exit before anything is sent. *)
Inductive exit_reason := NoSymbols | TooFewAccounts.

Fixpoint run_workers (fl : Flags) (symbols : list string) (ws : list (list answer * G))
    : outcome (list workerResult * list PlaceOrderRequest) :=
  match ws with
  | [] => Ok ([], [])
  | (answers, g) :: ws =>
      '(res, sent) ← worker fl symbols answers (mkResult [] 0 0) g;
      '(results, sents) ← run_workers fl symbols ws;
      Ok (res :: results, sent ++ sents)
  end.

Definition loadgen_main (fl : Flags) (ws : list (list answer * G))
    : outcome (result exit_reason (option report * list PlaceOrderRequest)) :=
  let symbols := fields "," (lf_symbols fl) in
  if (length symbols =? 0)%nat then Ok (Fails NoSymbols) else
  if lf_accounts fl <? 2 then Ok (Fails TooFewAccounts) else
  '(results, sent) ← run_workers fl symbols ws;
  rep ← loadgen_report results;
  Ok (Good (rep, sent)).
End Main.
