(* ===== verification/LoadgenProps.v ===== *)
(** What the load generator can rely on: the requests it sends pass validation, its
    counts are the answers', and each latency it reports is one it measured. *)

From Stdlib Require Import ZArith Lia Ascii String SpecFloat.
From stdpp Require Import base gmap list strings pretty sorting.
From S2P Require Import Prelude Types Messages Server ServerProps Node Rand Loadgen.

Open Scope Z_scope.

(** * [float64] *)

(** A right shift divides. *)
Lemma shr_1_bound r : 0 <= shr_m r -> 0 <= shr_m (shr_1 r) /\ 2 * shr_m (shr_1 r) <= shr_m r.
Proof. destruct r as [[|[p|p|]|p] b s]; cbn; lia. Qed.

Lemma iter_shr p : forall r, 0 <= shr_m r ->
  0 <= shr_m (SpecFloat.iter_pos shr_1 p r) /\ shr_m (SpecFloat.iter_pos shr_1 p r) * 2 ^ Zpos p <= shr_m r.
Proof.
  induction p as [p IH|p IH|]; intros r Hr; cbn [SpecFloat.iter_pos].
  - destruct (shr_1_bound r Hr) as [H1 H2]. destruct (IH _ H1) as [H3 H4]. destruct (IH _ H3) as [H5 H6]. split; [done|].
    replace (Z.pos p~1) with (Z.pos p + Z.pos p + 1) by lia. rewrite !Z.pow_add_r by lia.
    pose proof (Z.pow_pos_nonneg 2 (Zpos p) ltac:(lia) ltac:(lia)). nia.
  - destruct (IH _ Hr) as [H3 H4]. destruct (IH _ H3) as [H5 H6]. split; [done|].
    replace (Z.pos p~0) with (Z.pos p + Z.pos p) by lia. rewrite !Z.pow_add_r by lia.
    pose proof (Z.pow_pos_nonneg 2 (Zpos p) ltac:(lia) ltac:(lia)). nia.
  - destruct (shr_1_bound r Hr). rewrite Z.pow_1_r. lia.
Qed.

(** Dropping the digits past the 53rd. *)
Lemma shr_fexp_bound m e : 0 <= m -> -1000 <= e ->
  let '(r, e') := shr_fexp 53 1024 m e loc_Exact in
  e <= e' /\ 0 <= shr_m r /\ shr_m r * 2 ^ (e' - e) <= m /\
  (r = Build_shr_record m false false /\ e' = e \/ (shr_m r + 1) * 2 ^ (e' - e) <= 2 * m).
Proof.
  intros Hm He. unfold shr_fexp. cbn [shr_record_of_loc]. set (n := fexp 53 1024 (Zdigits2 m + e) - e).
  assert (Hn : 0 < n -> 2 ^ n <= m).
  { unfold n, fexp, emin. destruct m as [|p|p]; [cbn [Zdigits2]; lia| |lia]. cbn [Zdigits2]. intros Hn.
    change digits2_pos with Pos.size in *. pose proof (Pos.size_le p) as Hs.
    assert (Hs' : 2 ^ Zpos (Pos.size p) <= 2 * Zpos p) by (rewrite <- Pos2Z.inj_pow; lia).
    replace (Zpos (Pos.size p)) with (1 + (Zpos (Pos.size p) - 1)) in Hs' by lia. rewrite Z.pow_add_r, Z.pow_1_r in Hs' by lia.
    transitivity (2 ^ (Zpos (Pos.size p) - 1)); [apply Z.pow_le_mono_r; lia|lia]. }
  unfold shr. destruct n as [|p|p].
  - cbn [shr_m]. rewrite Z.sub_diag, Z.mul_1_r. split_and!; [lia|done|lia|by left].
  - specialize (Hn ltac:(lia)). destruct (iter_shr p (Build_shr_record m false false) Hm) as [H1 H2]. cbn [shr_m] in H2.
    replace (e + Z.pos p - e) with (Z.pos p) by lia. split_and!; [lia|done|done|right; lia].
  - cbn [shr_m]. rewrite Z.sub_diag, Z.mul_1_r. split_and!; [lia|done|lia|by left].
Qed.

(** Rounding at most doubles, and keeps the sign. *)
Lemma round_bound sx m e : -1000 <= e <= 50 -> Zpos m < 2 ^ 200 ->
  match binary_round_aux 53 1024 sx (Zpos m) e loc_Exact with
  | S754_zero _ => True
  | S754_finite s m' e' => s = sx /\ e <= e' /\ Zpos m' * 2 ^ (e' - e) <= 2 * Zpos m
  | _ => False
  end.
Proof.
  intros He Hm. unfold binary_round_aux. pose proof (shr_fexp_bound (Zpos m) e ltac:(lia) ltac:(lia)) as H1.
  destruct (shr_fexp 53 1024 (Zpos m) e loc_Exact) as [r1 e1]. destruct H1 as (Ha & Hb & Hc & Hd).
  set (x := round_nearest_even (shr_m r1) (loc_of_shr_record r1)).
  assert (Hx : 0 <= x /\ x * 2 ^ (e1 - e) <= 2 * Zpos m).
  { destruct Hd as [[-> ->]|Hd]; [unfold x; cbn; rewrite Z.sub_diag; cbn; lia|].
    assert (Hle : shr_m r1 <= x <= shr_m r1 + 1) by (unfold x, round_nearest_even; destruct r1 as [k [|] [|]]; cbn; try destruct (Z.even k); lia).
    pose proof (Z.pow_pos_nonneg 2 (e1 - e) ltac:(lia) ltac:(lia)). split; [lia|]. nia. }
  destruct Hx as [Hx0 Hx]. pose proof (shr_fexp_bound x e1 Hx0 ltac:(lia)) as H2.
  destruct (shr_fexp 53 1024 x e1 loc_Exact) as [r2 e2]. destruct H2 as (Ia & Ib & Ic & _).
  assert (Hfin : shr_m r2 * 2 ^ (e2 - e) <= 2 * Zpos m).
  { replace (e2 - e) with ((e2 - e1) + (e1 - e)) by lia. rewrite Z.pow_add_r by lia.
    pose proof (Z.pow_pos_nonneg 2 (e1 - e) ltac:(lia) ltac:(lia)). nia. }
  destruct (shr_m r2) as [|m2|m2]; [done| |lia]. destruct (Z.leb_spec e2 (1024 - 53)) as [|Hbig]; [split_and!; [done|lia|done]|].
  assert (Hp : 2 ^ 900 <= 2 ^ (e2 - e)) by (apply Z.pow_le_mono_r; lia).
  assert (Hq : 2 ^ 201 < 2 ^ 900) by (apply Z.pow_lt_mono_r; lia).
  replace (2 ^ 201) with (2 * 2 ^ 200) in Hq by (rewrite <- Z.pow_succ_r by lia; done). nia.
Qed.

(** A count as a [float64]: at most twice itself, from an exponent that is not below -53. *)
Lemma iter_xO p k : Zpos (Pos.iter xO p k) = Zpos p * 2 ^ Zpos k.
Proof.
  induction k as [|k IH] using Pos.peano_ind; [rewrite Z.pow_1_r; cbn; lia|].
  rewrite Pos.iter_succ, Pos2Z.inj_succ, Z.pow_succ_r, Pos2Z.inj_xO, IH by lia. lia.
Qed.

Lemma f64_of_count n : 0 < n < 2 ^ 61 ->
  match f64_of_Z n with
  | S754_zero _ => True
  | S754_finite s m e => s = false /\ exists e0, -53 <= e0 <= e /\ e0 <= 0 /\ Zpos m * 2 ^ (e - e0) <= 2 * (n * 2 ^ (- e0))
  | _ => False
  end.
Proof.
  intros Hn. unfold f64_of_Z, binary_normalize. destruct n as [|p|p]; [lia| |lia]. unfold binary_round, shl_align.
  pose proof (Pos.size_gt p) as Hs. change digits2_pos with Pos.size. set (d := Pos.size p) in *.
  assert (Hsz : Zpos d <= 61).
  { pose proof (Pos.size_le p) as Hl. fold d in Hl. destruct (Z.le_gt_cases (Zpos d) 61) as [|Hgt]; [done|].
    assert (2 ^ 62 <= 2 ^ Zpos d) by (apply Z.pow_le_mono_r; lia). rewrite <- Pos2Z.inj_pow in *. lia. }
  rewrite Z.add_0_r, Z.sub_0_r. assert (Hf : fexp 53 1024 (Zpos d) = Zpos d - 53) by (unfold fexp, emin; lia). rewrite Hf.
  assert (Hround : forall mz ez, -53 <= ez <= 0 -> Zpos mz = Zpos p * 2 ^ (- ez) ->
    match binary_round_aux 53 1024 false (Zpos mz) ez loc_Exact with
    | S754_zero _ => True
    | S754_finite s m e => s = false /\ exists e0, -53 <= e0 <= e /\ e0 <= 0 /\ Zpos m * 2 ^ (e - e0) <= 2 * (Zpos p * 2 ^ (- e0))
    | _ => False
    end).
  { intros mz ez Hez Hmz. assert (Hlt : Zpos mz < 2 ^ 200).
    { rewrite Hmz. assert (2 ^ (- ez) <= 2 ^ 53) by (apply Z.pow_le_mono_r; lia). pose proof (Z.pow_pos_nonneg 2 (- ez) ltac:(lia) ltac:(lia)).
      assert (2 ^ 61 * 2 ^ 53 < 2 ^ 200) by (rewrite <- Z.pow_add_r by lia; apply Z.pow_lt_mono_r; lia). nia. }
    pose proof (round_bound false mz ez ltac:(lia) Hlt) as Hb. destruct (binary_round_aux _ _ _ _ _ _); try done.
    destruct Hb as (-> & He & Hm). split; [done|]. exists ez. rewrite <- Hmz. split_and!; lia. }
  destruct (Z.pos d - 53) as [|q|q] eqn:Ed; [apply (Hround p 0); lia|apply (Hround p 0); lia|].
  apply Hround; [lia|]. rewrite iter_xO. by do 2 f_equal.
Qed.

(** The index [percentile] computes is one, before the clamp. *)
Lemma index_bound mp n : 0 < n < 2 ^ 61 -> Zpos mp < 2 ^ 53 ->
  0 <= int_of_f64 (f64_mul (S754_finite false mp (-53)) (f64_of_Z n)).
Proof.
  intros Hn Hmp. pose proof (f64_of_count n Hn) as Hc. destruct (f64_of_Z n) as [| | |s my ey]; try done.
  destruct Hc as (-> & e0 & He0 & He00 & Hmy). unfold f64_mul, SFmul. cbn [xorb].
  assert (Hpos : forall k, 0 <= k -> 0 < 2 ^ k) by (intros k Hk; by apply Z.pow_pos_nonneg).
  (* everything scaled by [2 ^ 200] *)
  assert (Hy : Zpos my * 2 ^ (ey + 200) <= 2 * (n * 2 ^ 200)).
  { assert (E1 : 2 ^ (ey + 200) = 2 ^ (ey - e0) * 2 ^ (e0 + 200)) by (rewrite <- Z.pow_add_r by lia; f_equal; lia).
    assert (E2 : 2 ^ 200 = 2 ^ (- e0) * 2 ^ (e0 + 200)) by (rewrite <- Z.pow_add_r by lia; f_equal; lia).
    rewrite E1, E2. pose proof (Hpos (e0 + 200) ltac:(lia)). nia. }
  assert (Hey : ey <= 62).
  { destruct (Z.le_gt_cases ey 62) as [|Hgt]; [done|]. assert (Hx : 2 ^ 263 <= 2 ^ (ey + 200)) by (apply Z.pow_le_mono_r; lia).
    assert (2 ^ (ey + 200) <= Zpos my * 2 ^ (ey + 200)) by nia. assert (2 ^ 263 = 4 * (2 ^ 61 * 2 ^ 200)) by done. nia. }
  assert (Hmul : Zpos (mp * my) < 2 ^ 200).
  { rewrite Pos2Z.inj_mul. assert (Zpos my < 2 ^ 140).
    { assert (2 ^ 147 <= 2 ^ (ey + 200)) by (apply Z.pow_le_mono_r; lia).
      assert (2 * (2 ^ 61 * 2 ^ 200) < 2 ^ 140 * 2 ^ 147) by done. assert (Zpos my * 2 ^ 147 <= Zpos my * 2 ^ (ey + 200)) by nia. nia. }
    assert (2 ^ 53 * 2 ^ 140 < 2 ^ 200) by done. nia. }
  pose proof (round_bound false (mp * my) (-53 + ey) ltac:(lia) Hmul) as Hb.
  destruct (binary_round_aux _ _ _ _ _ _) as [| | |s m e]; try done. destruct Hb as (-> & He & Hm). unfold int_of_f64. cbn zeta.
  assert (Hval : Zpos m * 2 ^ (e + 200) <= 4 * n * 2 ^ 200).
  { replace (e + 200) with ((e - (-53 + ey)) + (ey + 147)) by lia. rewrite Z.pow_add_r by lia.
    rewrite Pos2Z.inj_mul in Hm. pose proof (Hpos (ey + 147) ltac:(lia)) as Hq.
    replace (ey + 200) with (53 + (ey + 147)) in Hy by lia. rewrite Z.pow_add_r in Hy by lia.
    assert (Hs1 : Zpos m * 2 ^ (e - (-53 + ey)) * 2 ^ (ey + 147) <= 2 * (Zpos mp * Zpos my) * 2 ^ (ey + 147)) by nia.
    assert (Hs2 : Zpos mp * (Zpos my * 2 ^ (ey + 147)) <= 2 ^ 53 * (Zpos my * 2 ^ (ey + 147))) by nia. nia. }
  assert (Hint : 0 <= Z.shiftl (Zpos m) e <= MaxInt64).
  { split; [by apply Z.shiftl_nonneg|]. destruct (Z.le_gt_cases 0 e) as [Hge|Hlt].
    - rewrite Z.shiftl_mul_pow2 by done. pose proof (Hpos 200 ltac:(lia)).
      assert (E1 : 2 ^ (e + 200) = 2 ^ e * 2 ^ 200) by (rewrite <- Z.pow_add_r by lia; f_equal; lia).
      rewrite E1, Z.mul_assoc in Hval. apply Z.mul_le_mono_pos_r in Hval; [|done].
      unfold MaxInt64. assert (4 * 2 ^ 61 = 9223372036854775807 + 1) by done. lia.
    - rewrite Z.shiftl_div_pow2 by lia. pose proof (Hpos (- e) ltac:(lia)). apply Z.div_le_upper_bound; [done|].
      pose proof (Hpos (e + 200) ltac:(lia)).
      assert (E1 : 2 ^ 200 = 2 ^ (- e) * 2 ^ (e + 200)) by (rewrite <- Z.pow_add_r by lia; f_equal; lia).
      rewrite E1, Z.mul_assoc in Hval. apply Z.mul_le_mono_pos_r in Hval; [|done].
      unfold MaxInt64. assert (4 * 2 ^ 61 = 9223372036854775807 + 1) by done. nia. }
  destruct ((MinInt64 <=? _) && _) eqn:E; [lia|]. exfalso. apply andb_false_iff in E as [E|E]; apply Z.leb_gt in E; unfold MinInt64, MaxInt64 in *; lia.
Qed.

(** The percentiles asked for. *)
Definition asked (p : spec_float) : Prop := p ∈ [p50; p95; p99; p999].

Lemma asked_fraction p : asked p -> exists m, f64_div p (f64_of_Z 100) = S754_finite false m (-53) /\ Zpos m < 2 ^ 53.
Proof.
  unfold asked. rewrite !elem_of_cons. intros [->|[->|[->|[->|Hn]]]]; [eexists; split; [vm_compute; reflexivity|done]..|by apply elem_of_nil in Hn].
Qed.

Lemma percentile_in sorted p : asked p -> sorted <> [] -> Z.of_nat (length sorted) < 2 ^ 61 ->
  exists x, percentile sorted p = Ok x /\ x ∈ sorted.
Proof.
  intros Hp Hne Hlen. destruct (asked_fraction p Hp) as (m & Hm & Hlt). unfold percentile.
  assert (Hn : 0 < Z.of_nat (length sorted)) by (destruct sorted; [done|cbn [length]; lia]).
  destruct (Nat.eqb_spec (length sorted) 0) as [|_]; [lia|]. rewrite Hm.
  pose proof (index_bound m (Z.of_nat (length sorted)) ltac:(lia) Hlt) as Hi. set (i := int_of_f64 _) in *.
  set (k := if Z.of_nat (length sorted) <=? i then Z.of_nat (length sorted) - 1 else i).
  assert (Hk : 0 <= k < Z.of_nat (length sorted)) by (unfold k; destruct (Z.leb_spec (Z.of_nat (length sorted)) i); lia).
  rewrite (proj2 (Z.ltb_ge k 0)) by lia.
  destruct (lookup_lt_is_Some_2 sorted (Z.to_nat k)) as [x Hx]; [lia|]. rewrite Hx. exists x. split; [done|].
  by eapply list_elem_of_lookup_2.
Qed.

(** * Requests *)

Definition digits (l : list ascii) : Prop := Forall (fun c => 32 <= nat_of_ascii c <= 126)%nat l.

Lemma digit_char x : (32 <= nat_of_ascii (pretty_N_char x) <= 126)%nat.
Proof. unfold pretty_N_char. repeat case_match; apply (bool_decide_unpack _); vm_compute; exact I. Qed.

Lemma digits_go k : forall x s, (x < 10 ^ N.of_nat k)%N -> digits (list_ascii_of_string s) ->
  digits (list_ascii_of_string (pretty_N_go x s)) /\ (String.length s <= String.length (pretty_N_go x s) <= k + String.length s)%nat.
Proof.
  induction k as [|k IH]; intros x s Hx Hs.
  { assert (x = 0%N) as -> by (change (10 ^ N.of_nat 0)%N with 1%N in Hx; lia). rewrite pretty_N_go_0. split; [done|lia]. }
  destruct (decide (x = 0%N)) as [->|Hne]; [rewrite pretty_N_go_0; split; [done|lia]|]. rewrite pretty_N_go_step by lia.
  destruct (IH (x `div` 10)%N (String (pretty_N_char (x `mod` 10)) s)) as [H1 H2].
  - rewrite Nat2N.inj_succ, N.pow_succ_r' in Hx. by apply N.Div0.div_lt_upper_bound.
  - cbn [list_ascii_of_string]. constructor; [|done]. apply digit_char.
  - split; [done|]. cbn [String.length] in H2. lia.
Qed.

Lemma pretty_digits x : 0 <= x <= MaxInt64 ->
  digits (list_ascii_of_string (pretty x)) /\ (1 <= String.length (pretty x) <= 19)%nat.
Proof.
  intros Hx. destruct x as [|p|p]; [split; [repeat constructor; apply (bool_decide_unpack _); vm_compute; exact I|cbn; lia]| |lia].
  change (pretty (Zpos p)) with (pretty_N_go (Npos p) ""). rewrite pretty_N_go_step by lia.
  destruct (digits_go 18 (Npos p `div` 10)%N (String (pretty_N_char (Npos p `mod` 10)) "")) as [H1 H2].
  - apply N.Div0.div_lt_upper_bound. unfold MaxInt64 in Hx. change (10 * 10 ^ N.of_nat 18)%N with 10000000000000000000%N. lia.
  - cbn. constructor; [|done]. apply digit_char.
  - split; [done|]. cbn [String.length] in H2. lia.
Qed.

Lemma trader_ok x : 0 <= x <= MaxInt64 -> account_ok ("acct-" ++ pretty x)%string.
Proof.
  intros Hx. destruct (pretty_digits x Hx) as [Hd Hl]. unfold digits in Hd. generalize dependent (pretty x). intros s Hd Hl. split; [change (1 <= 5 + String.length s <= 64)%nat; lia|].
  cbn. do 5 (constructor; [apply (bool_decide_unpack _); vm_compute; exact I|]). done.
Qed.

Lemma fields_from_nonempty sep s : forall cur, Forall (fun f => f <> ""%string) (fields_from sep cur s).
Proof.
  induction s as [|c s IH]; intros cur; cbn [fields_from].
  - case_bool_decide; [constructor|by repeat constructor].
  - case_bool_decide; [|apply IH]. apply Forall_app. split; [|apply IH]. case_bool_decide; [constructor|by repeat constructor].
Qed.

(** * What a run amounts to *)

(** The answers a worker lives to see. *)
Fixpoint heard (answers : list answer) : list answer :=
  match answers with
  | [] | Ended :: _ => []
  | a :: answers => a :: heard answers
  end.

Definition measured (answers : list answer) : list Z :=
  omap (fun a => match a with Accepted elapsed _ => Some elapsed | _ => None end) answers.
Definition traded (answers : list answer) : Z :=
  foldr (fun a n => match a with Accepted _ trades => Z.of_nat trades | _ => 0 end + n) 0 answers.
Definition refused (answers : list answer) : Z :=
  foldr (fun a n => match a with Rejected => 1 | _ => 0 end + n) 0 answers.

Lemma traded_app l k : traded (l ++ k) = traded l + traded k.
Proof. unfold traded. induction l as [|a l IH]; cbn [foldr app]; lia. Qed.
Lemma refused_app l k : refused (l ++ k) = refused l + refused k.
Proof. unfold refused. induction l as [|a l IH]; cbn [foldr app]; lia. Qed.
Lemma traded_nonneg l : 0 <= traded l.
Proof. unfold traded. induction l as [|a l IH]; cbn [foldr]; [lia|]. destruct a; lia. Qed.
Lemma refused_range l : 0 <= refused l <= Z.of_nat (length l).
Proof. unfold refused. induction l as [|a l IH]; cbn [foldr length]; [lia|]. destruct a; lia. Qed.

(** Flags that make sense: accounts to trade between, and a band of valid prices. *)
Record usable (fl : Flags) : Prop := {
  us_symbols : 0 < Z.of_nat (length (fields "," (lf_symbols fl)));
  us_accounts : 2 <= lf_accounts fl <= MaxInt64;
  us_spread : 0 <= lf_spread fl;
  us_band : 1 <= lf_price fl - lf_spread fl /\ lf_price fl + lf_spread fl <= 2 ^ 40
}.

Lemma add64_nonneg a b : 0 <= a -> 0 <= b -> a + b <= MaxInt64 -> add64 a b = a + b.
Proof. intros. unfold add64. apply wrap64_id. unfold64. lia. Qed.

Section Loadgen.
Context `{RandLaws G}.

(** Every request drawn is one the server validates. *)
Lemma next_request_ok fl g : usable fl ->
  exists req g', next_request fl (fields "," (lf_symbols fl)) g = Ok (req, g') /\ well_formed req.
Proof.
  intros [Hs Ha Hsp Hb]. unfold next_request.
  destruct (Intn_range 2 g ltac:(lia)) as (s & g1 & -> & Hs1). cbn [mbind outcome_bind].
  destruct (Intn_range (Z.of_nat (length (fields "," (lf_symbols fl)))) g1 Hs) as (k & g2 & -> & Hk). cbn [mbind outcome_bind].
  destruct (lookup_lt_is_Some_2 (fields "," (lf_symbols fl)) (Z.to_nat k)) as [sy Hsy]; [lia|]. rewrite Hsy. cbn [deref mbind outcome_bind].
  destruct (Intn_range (lf_accounts fl) g2 ltac:(lia)) as (who & g3 & -> & Hw). cbn [mbind outcome_bind].
  assert (Hw2 : add64 (mul64 2 (lf_spread fl)) 1 = 2 * lf_spread fl + 1).
  { unfold add64, mul64. rewrite (wrap64_id (2 * _)), wrap64_id; unfold64; lia. }
  rewrite Hw2. destruct (Intn_range (2 * lf_spread fl + 1) g3 ltac:(lia)) as (off & g4 & -> & Hoff). cbn [mbind outcome_bind].
  destruct (Intn_range 50 g4 ltac:(lia)) as (q & g5 & -> & Hq). cbn [mbind outcome_bind].
  eexists _, g5. split; [reflexivity|]. split; cbn [po_Symbol po_AccountId po_Side po_Quantity po_Type po_Price].
  - apply list_elem_of_lookup_2 in Hsy. exact (proj1 (Forall_forall _ _) (fields_from_nonempty "," (lf_symbols fl) "") _ Hsy).
  - apply trader_ok. lia.
  - destruct (s =? 0); auto.
  - lia.
  - left. split; [done|]. unfold sub64, add64. rewrite (wrap64_id (lf_price fl + off)), wrap64_id; unfold64; lia.
Qed.

(** A worker keeps exactly what it heard. *)
Lemma worker_spec fl : usable fl -> forall answers res g,
  0 <= wr_trades res -> wr_trades res + traded (heard answers) <= MaxInt64 ->
  0 <= wr_rejected res -> wr_rejected res + refused (heard answers) <= MaxInt64 ->
  exists sent, worker fl (fields "," (lf_symbols fl)) answers res g =
    Ok (mkResult (latencies res ++ measured (heard answers)) (wr_trades res + traded (heard answers)) (wr_rejected res + refused (heard answers)), sent) /\
  Forall well_formed sent /\ (length (heard answers) <= length sent <= S (length (heard answers)))%nat.
Proof.
  intros Hu. induction answers as [|a answers IH]; intros [l t r] g Ht0 Ht Hr0 Hr; cbn [worker latencies wr_trades wr_rejected] in *.
  { exists []. cbn. rewrite app_nil_r, !Z.add_0_r. split_and!; [done..|lia|lia]. }
  destruct (next_request_ok fl g Hu) as (req & g' & -> & Hw). cbn [mbind outcome_bind].
  destruct a as [elapsed trades| |].
  - cbn [heard] in *. unfold traded, refused in Ht, Hr. cbn [foldr] in Ht, Hr. fold (traded (heard answers)) in Ht. fold (refused (heard answers)) in Hr.
    pose proof (traded_nonneg (heard answers)).
    destruct (IH (mkResult (l ++ [elapsed]) (add64 t (Z.of_nat trades)) r) g') as (sent & -> & Hs & Hl);
      cbn [latencies wr_trades wr_rejected]; rewrite ?add64_nonneg by lia; try lia.
    cbn [mbind outcome_bind]. exists (req :: sent). split; [|split; [by constructor|cbn [length]; lia]].
    rewrite <- app_assoc. unfold traded, refused. cbn [foldr]. by rewrite !Z.add_assoc, Z.add_0_r.
  - cbn [heard] in *. unfold traded, refused in Ht, Hr. cbn [foldr] in Ht, Hr. fold (traded (heard answers)) in Ht. fold (refused (heard answers)) in Hr.
    pose proof (refused_range (heard answers)).
    destruct (IH (mkResult l t (add64 r 1)) g') as (sent & -> & Hs & Hl);
      cbn [latencies wr_trades wr_rejected]; rewrite ?add64_nonneg by lia; try lia.
    cbn [mbind outcome_bind]. exists (req :: sent). split; [|split; [by constructor|cbn [length]; lia]].
    unfold traded, refused. cbn [foldr]. by rewrite !Z.add_assoc, Z.add_0_r.
  - exists [req]. cbn. rewrite app_nil_r, !Z.add_0_r. split_and!; [done|by constructor|lia|lia].
Qed.

(** Everything the workers of a run heard. *)
Definition heard_all (ws : list (list answer * G)) : list answer := ws ≫= (fun w => heard w.1).

Definition kept (w : list answer * G) : workerResult :=
  mkResult (measured (heard w.1)) (traded (heard w.1)) (refused (heard w.1)).

Lemma run_workers_spec fl ws : usable fl -> traded (heard_all ws) <= MaxInt64 -> refused (heard_all ws) <= MaxInt64 ->
  exists sent, run_workers fl (fields "," (lf_symbols fl)) ws = Ok (kept <$> ws, sent) /\ Forall well_formed sent /\
    (length (heard_all ws) <= length sent <= length ws + length (heard_all ws))%nat.
Proof.
  intros Hu. induction ws as [|[answers g] ws IH]; intros Ht Hr; cbn [run_workers].
  { exists []. cbn. split_and!; [done..|lia|lia]. }
  unfold heard_all in Ht, Hr. cbn [mbind list_bind fst] in Ht, Hr. fold (heard_all ws) in Ht, Hr.
  rewrite traded_app in Ht. rewrite refused_app in Hr.
  pose proof (traded_nonneg (heard answers)). pose proof (traded_nonneg (heard_all ws)).
  pose proof (refused_range (heard answers)). pose proof (refused_range (heard_all ws)).
  destruct (worker_spec fl Hu answers (mkResult [] 0 0) g) as (sent & -> & Hs & Hl); cbn [wr_trades wr_rejected]; try lia.
  cbn [mbind outcome_bind]. destruct (IH ltac:(lia) ltac:(lia)) as (sents & -> & Hss & Hll). cbn [mbind outcome_bind].
  exists (sent ++ sents). split; [reflexivity|]. split; [by apply Forall_app|].
  unfold heard_all. cbn [mbind list_bind fst length]. fold (heard_all ws). rewrite !length_app. lia.
Qed.

Lemma kept_latencies ws : (kept <$> ws) ≫= latencies = measured (heard_all ws).
Proof.
  unfold heard_all. induction ws as [|w ws IH]; [done|]. cbn [fmap list_fmap mbind list_bind].
  unfold measured in *. by rewrite omap_app, <- IH.
Qed.

Lemma kept_sum (f : workerResult -> Z) (h : list answer -> Z) ws : (forall w, f (kept w) = h (heard w.1)) ->
  h [] = 0 -> (forall l k, h (l ++ k) = h l + h k) -> (forall l, 0 <= h l) -> h (heard_all ws) <= MaxInt64 ->
  foldl (fun n r => add64 n (f r)) 0 (kept <$> ws) = h (heard_all ws).
Proof.
  intros Hf Hnil Happ Hnn. assert (Hgen : forall ws n, 0 <= n -> n + h (heard_all ws) <= MaxInt64 ->
    foldl (fun n r => add64 n (f r)) n (kept <$> ws) = n + h (heard_all ws)); [|intros Hb; by rewrite Hgen by lia].
  induction ws0 as [|w ws0 IH]; intros n Hn Hb; unfold heard_all in *; cbn [fmap list_fmap foldl mbind list_bind] in *; [lia|].
  rewrite Happ in *. pose proof (Hnn (heard w.1)). pose proof (Hnn (heard_all ws0)) as Hw. unfold heard_all in Hw.
  rewrite Hf, add64_nonneg, IH by lia. lia.
Qed.

(** The figures of a report, of the answers [l]. *)
Record reports (l : list answer) (r : report) : Prop := {
  rt_accepted : rp_accepted r = Z.of_nat (length (measured l));
  rt_rejected : rp_rejected r = refused l;
  rt_trades : rp_trades r = traded l;
  rt_percentiles : length (rp_percentiles r) = 4%nat /\ Forall (.∈ measured l) (rp_percentiles r);
  rt_max : rp_max r ∈ measured l /\ Forall (fun x => x <= rp_max r) (measured l)
}.

Lemma sorted_max (l : list Z) x : Sorted.StronglySorted Z.le l -> last l = Some x -> Forall (fun y => y <= x) l.
Proof.
  intros Hs Hx. apply last_Some in Hx as [k ->]. apply Forall_app. split; [|by repeat constructor].
  apply StronglySorted_app in Hs as (H1 & _ & _). apply Forall_forall. intros y Hy. apply H1; [done|by apply list_elem_of_singleton].
Qed.

Lemma report_spec ws : traded (heard_all ws) <= MaxInt64 -> Z.of_nat (length (heard_all ws)) < 2 ^ 61 ->
  exists rep, loadgen_report (kept <$> ws) = Ok rep /\
    match rep with None => measured (heard_all ws) = [] | Some r => reports (heard_all ws) r end.
Proof.
  intros Ht Hl. unfold loadgen_report. rewrite kept_latencies. pose proof (refused_range (heard_all ws)).
  rewrite (kept_sum wr_trades traded) by (first [done|apply traded_app|apply traded_nonneg]).
  rewrite (kept_sum wr_rejected refused);
    [|done|done|apply refused_app|intros l; apply refused_range|unfold MaxInt64; lia].
  set (all := measured (heard_all ws)). destruct (Nat.eqb_spec (length all) 0) as [Hz|Hne].
  { exists None. split; [done|by apply nil_length_inv]. }
  pose proof (merge_sort_Permutation Z.le all) as Hp. pose proof (StronglySorted_merge_sort Z.le all) as Hsort.
  set (sorted := merge_sort Z.le all) in *.
  assert (Hlen : length sorted = length all) by by rewrite Hp.
  assert (Hm : (length all <= length (heard_all ws))%nat).
  { unfold all, measured. generalize (heard_all ws). intros l. induction l as [|[]]; cbn; lia. }
  assert (Hn : sorted <> []) by (intros E; rewrite E in Hlen; cbn in Hlen; lia).
  assert (Hpc : forall p, asked p -> exists x, percentile sorted p = Ok x /\ x ∈ all).
  { intros p Hp'. destruct (percentile_in sorted p Hp' Hn ltac:(lia)) as (x & Hx & Hin). exists x. split; [done|by rewrite <- Hp]. }
  assert (Hall : forall p, p ∈ [p50; p95; p99; p999] -> exists x, percentile sorted p = Ok x /\ x ∈ all) by (intros p Hin; by apply Hpc).
  destruct (Hall p50) as (a & -> & Ha); [set_solver|]. destruct (Hall p95) as (b & -> & Hb); [set_solver|].
  destruct (Hall p99) as (c & -> & Hc); [set_solver|]. destruct (Hall p999) as (d & -> & Hd); [set_solver|].
  destruct (last sorted) as [x|] eqn:Ex; [|by apply last_None in Ex]. cbn [mbind outcome_bind deref].
  eexists. split; [reflexivity|]. split; cbn [rp_accepted rp_rejected rp_trades rp_percentiles rp_max].
  - by rewrite Hlen.
  - done.
  - done.
  - split; [done|]. by repeat constructor.
  - split; [fold all; rewrite <- Hp; by apply last_Some_elem_of|]. fold all. rewrite <- Hp. by apply sorted_max.
Qed.

(** A load run measures what it says it does. With flags that make sense every
    request it sends is one the server's validation takes, so a rejection in its
    report is the venue's and not its own mistake; the workers send what they hear
    answered and at most one request each besides; the figures printed are exactly
    the answers heard, the percentiles and the maximum are latencies some call had,
    and the run ends without a panic, whatever the generators draw. Flags with no
    symbol or fewer than two accounts end it before anything is sent. *)
Theorem loadgen_lawful fl (ws : list (list answer * G)) :
  (fields "," (lf_symbols fl) = [] -> loadgen_main fl ws = Ok (Fails NoSymbols)) /\
  (fields "," (lf_symbols fl) <> [] -> lf_accounts fl < 2 -> loadgen_main fl ws = Ok (Fails TooFewAccounts)) /\
  (usable fl -> traded (heard_all ws) <= MaxInt64 -> Z.of_nat (length (heard_all ws)) < 2 ^ 61 ->
   exists rep sent, loadgen_main fl ws = Ok (Good (rep, sent)) /\ Forall well_formed sent /\
     (length (heard_all ws) <= length sent <= length ws + length (heard_all ws))%nat /\
     match rep with None => measured (heard_all ws) = [] | Some r => reports (heard_all ws) r end).
Proof.
  unfold loadgen_main. split_and!.
  - by intros ->.
  - intros Hne Ha. destruct (fields "," (lf_symbols fl)); [done|]. cbn [length Nat.eqb]. by rewrite (proj2 (Z.ltb_lt _ _)).
  - intros Hu Ht Hl. pose proof Hu as [Hs Ha _ _]. destruct (Nat.eqb_spec (length (fields "," (lf_symbols fl))) 0); [lia|].
    rewrite (proj2 (Z.ltb_ge _ _)) by lia. pose proof (refused_range (heard_all ws)).
    destruct (run_workers_spec fl ws Hu Ht ltac:(unfold MaxInt64; lia)) as (sent & -> & Hw & Hc). cbn [mbind outcome_bind].
    destruct (report_spec ws Ht Hl) as (rep & -> & Hrep). cbn [mbind outcome_bind]. by exists rep, sent.
Qed.
End Loadgen.

Definition demo_flags : Flags := mkFlags 2 "NABIL,ADBL" 8 500 5.
Definition demo_run : list (list answer * Z) := [([Accepted 40 1; Rejected; Accepted 20 0; Ended], 1); ([Accepted 30 2], 2)].

Lemma demo_usable : usable demo_flags.
Proof. split; vm_compute; intuition discriminate. Qed.

Lemma loadgen_lawful_witness : exists r sent, loadgen_main demo_flags demo_run = Ok (Good (Some r, sent)) /\
  Forall well_formed sent /\ reports (heard_all demo_run) r /\ rp_max r = 40 /\ rp_trades r = 3 /\ rp_rejected r = 1.
Proof.
  destruct (loadgen_lawful demo_flags demo_run) as (_ & _ & H).
  destruct (H demo_usable ltac:(vm_compute; discriminate) ltac:(vm_compute; reflexivity)) as (rep & sent & Hm & Hw & _ & Hrep).
  destruct rep as [r|]; [|exfalso; vm_compute in Hrep; discriminate Hrep]. exists r, sent.
  split; [exact Hm|]. split; [exact Hw|]. split; [exact Hrep|].
  assert (E : match loadgen_main demo_flags demo_run with Ok (Good (Some r, _)) => (rp_max r, rp_trades r, rp_rejected r) | _ => (0, 0, 0) end = (40, 3, 1)) by (vm_compute; reflexivity).
  rewrite Hm in E. injection E as -> -> ->. split_and!; reflexivity.
Defined.

(** The [p]-th percentile by nearest rank: the least value that [p] percent of the
    values do not exceed. *)
Definition nearest_rank (sorted : list Z) (p : Z) : option Z :=
  sorted !! Z.to_nat ((p * Z.of_nat (length sorted) + 99) / 100 - 1).

(** The index is one too high when [p] percent of the count is a whole number: the
    median of two latencies is reported as the larger, the 95th percentile of twenty
    as the maximum. The medians of three agree. *)
Example percentile_off_by_one :
  percentile [1; 9] p50 = Ok 9 /\ nearest_rank [1; 9] 50 = Some 1 /\
  percentile (Z.of_nat <$> seq 1 20) p95 = Ok 20 /\ nearest_rank (Z.of_nat <$> seq 1 20) 95 = Some 19 /\
  percentile [1; 5; 9] p50 = Ok 5 /\ nearest_rank [1; 5; 9] 50 = Some 5.
Proof. by vm_compute. Qed.
